(* ===== verification/_CoqProject ===== *)
-Q . S2P
Prelude.v
Posix.v
Calendar.v
FoxTSDB.v
FoxLog.v
FoxWriter.v
FoxReader.v
FoxFacts.v
FoxSamples.v
BeeQ.v
BeeThreads.v
Bpf.v
SchedJit.v
Irqoff.v
Nosched.v
Runqslower.v
Schedmoni.v
Appnoise.v
Kvmexit.v
SyscallSlow.v
CFloat.v
Npb.v
CSort.v
Ksym.v
Workq.v
Reclaimhung.v
CString.v
UnityLine.v
NetRetrans.v
Schedstat.v
Runlat.v
Sysak.v
SysakFacts.v
Iosdiag.v
IosdiagReport.v
TsarRecord.v
TsarStat.v
TsarModules.v
TsarCollect.v
TsarCpu.v
TsarItems.v
TsarItemFacts.v
TsarIo.v
TsarIoFacts.v
TsarSearch.v
TsarSearchFacts.v
TsarConfig.v
TsarConfigFacts.v
TsarSafe.v
Memleak.v
MemleakFacts.v
MemleakCheck.v
Hang.v
HangFacts.v
Unity.v
