(* ===== verification/Prelude.v ===== *)
(** * SysAK: a verification of its stores, queues, codecs and tracers

    SysAK is a tool box for diagnosing Linux systems: detectors that trace the
    kernel with BPF programs ([source/tools/detect]), a monitoring service with
    its own sample files ([source/tools/monitor/mservice], tsar), and a
    collector ([source/tools/monitor/unity]) that gathers their output, passes
    it between threads, stores it by day and answers queries. This library
    models the parts in C that carry that logic, and proves what makes them
    correct; where the code does not do what it means to do, a theorem says
    what it does instead. Paths below are relative to [src/source/].

    ** Files

    - [Prelude]: machine integers as [Z] with their wrap-around, little-endian
      images, C strings, the effect monad, tactics and the hint databases.
    - [Posix], [Calendar]: files, descriptors and system calls with a schedule
      of failures; time zones and the Gregorian calendar.
    - [FoxTSDB] (operations), [FoxLog] (well-formed logs), [FoxWriter],
      [FoxReader], [FoxFacts] (theorems), [FoxSamples] (concrete runs):
      [tools/monitor/unity/tsdb/native/foxTSDB.c], the append-only store of one
      file per day. State: the file system and [struct fox_manager].
    - [BeeQ], [BeeThreads]: [tools/monitor/unity/beeQ/lib/beeQ.c], the bounded
      message queue. [BeeQ] is the ring and the thread table as functions;
      [BeeThreads] is every thread as a step relation whose steps are the
      critical sections, with [beeQ_init], [beeQ_send], [beeQ_proc],
      [beeQ_stop], [beeQ_join] and the threads of [beeQ_send_thread]; every
      wait on a condition may also end by itself, as POSIX allows.
    - [Bpf]: hash maps with a bounded number of entries, arrays, per-CPU
      arrays, the context of a program, and the class [Tracer] of tools with
      the lemmas that lift a fact about one program to every trace.
    - [SchedJit]: [lib/uapi/include/sched_jit.h] and [update_summary] of the
      scheduling detectors. [Irqoff], [Nosched], [Runqslower], [Schedmoni],
      [Appnoise], [Workq]: the tools of the same names under
      [tools/detect/sched] ([Workq] is [workqlatency]); [Kvmexit]:
      [tools/detect/virt/kvmexittime]; [SyscallSlow]:
      [tools/detect/generic/syscall_slow]; [Reclaimhung]:
      [tools/detect/mem/reclaimhung]. Each BPF program is a function from its
      context and the tool's maps to the maps and the events it outputs, one
      step of a trace; where a program adds to a value that all CPUs share
      without an atomic operation ([Kvmexit]), its loads and stores are steps.
    - [UnityLine]: [tools/monitor/unity/collector/plugin/plugin_head.h], the
      lines a plugin publishes. The plugins of that directory: [Unity]
      ([unity_irqoff] and [unity_nosched], which load the programs of [Irqoff]
      and [Nosched] and publish a line of counters), [NetRetrans]
      ([net_retrans], TCP retransmissions and resets) and [Schedstat]
      ([proc_schedstat], run-queue delays).
    - [Iosdiag], [IosdiagReport]: [tools/combine/iosdiag/latency], the programs
      that time each request of the block layer for four kinds of drivers, and
      the analysis and JSON records of the user side.
    - [Runlat]: [tools/detect/sched/runlatency/parser.c], the parser of the
      reports of the kernel module.
    - [Sysak], [SysakFacts]: [sysak.c], the front end that finds a tool, meets
      its dependencies and runs it. State: its globals, the files, what the
      shell does and the list of actions.
    - [CFloat]: doubles and floats (the Standard Library's [SpecFloat]), their
      conversions and memory images. [Npb]:
      [tools/monitor/unity/protobuf/npb.c], the protocol-buffer codec.
    - [CSort]: the C library's [qsort], the merge sort of glibc, for comparison
      functions that only say whether two elements are out of order. [Ksym]:
      [tools/monitor/unity/collector/native/fastKsym.c], the kernel symbol table.
    - [CString]: the C library's string functions. [TsarRecord], [TsarStat]:
      [tools/monitor/mservice/master/src/common.c], [output_file.c] and
      [framework.c], the text records of the monitor and their statistics.
      The collectors under [tools/monitor/mservice/master/modules]:
      [TsarModules] (those that leave one record, and the loop that runs them),
      [TsarItems] (one item per CPU, interface or partition), [TsarIo]
      ([mod_io.c], the table of disks that lives between samples); the files of
      [/proc] are arguments. [TsarCollect], [TsarCpu], [TsarItemFacts] and
      [TsarIoFacts] prove what they record ([TsarCollect] states with the class
      [Flat] what such a collector promises to the writer of the line), and
      [TsarSafe] that no access to the statistics is out of bounds.
      [TsarConfig], [TsarConfigFacts]: [src/config.c] and the loading and
      selection of modules of [framework.c]. [TsarSearch], [TsarSearchFacts]:
      [src/output_print.c], the search of the data file for a time.
    - [Memleak]: [tools/detect/mem/memleak], the tables of call sites of memory
      that is not freed (modules [Sites] and [Vmalloc]) and the quick check
      (module [Check]); [MemleakFacts] and [MemleakCheck] prove what they say.
    - [Hang], [HangFacts]: [tools/combine/iosdiag/hangdetect], the requests of
      the block layer that never complete: what they wait for, their JSON
      records, and the loop with its memory of what was written.

    ** What the theorems show

    - The store: a write appends one record and keeps the log well formed, a
      day change closes one file and opens the next, a session of writes is
      read back exactly by a range query, reopening a day terminates at its
      end, and the results when a system call fails.
    - The queue: in every interleaving the messages are handled in the order
      they were accepted, none is lost or duplicated; once the worker has come
      to its wait with an empty ring, a queued message never meets a worker that
      stays asleep (before that it can, after a spurious wake-up of the creator:
      [early_send_stuck]); the ring refines an abstract bounded queue
      (class [BoundedFifo]); start and stop can deadlock or race.
    - The tracers: for every trace, that is every interleaving of the CPUs'
      inputs, the output of the programs equals that of a specification that
      does not mention the maps (a machine of episodes, the history of ticks,
      a table of waits), or the maps hold the sums and counts of what the trace
      shows (the finished exits of a virtual machine, when entries of the same
      reason do not overlap; the samples of all eight histograms of [appnoise]). The plugin theorem composes the programs, the
      event handler and the published line.
    - The codecs: variable-length, zig-zag and fixed-width values round trip;
      the output buffer is the concatenation of the writes; numbers, records
      and lines of the sample file round trip; merging sums up the columns;
      two samples give the differences of the counters.
    - The collectors: from the text the kernel prints to the record, the line,
      the line read back and the statistics: the numbers are those of the names
      asked for, the shares of the CPU those of the counters of two samples; the
      table of disks has each disk once, with the counters of its own line. For
      any bytes in the records the arrays keep their sizes, and every access to
      them, to the columns inside the statistics functions and to the local array
      of merging, all of which the model checks, is inside its bounds. A configuration file means what its statements say together.
      The search by halves of the data file ends, and where it stops is right.
    - Unfreed memory: the tables count by call site and are sorted, and the
      verdict of the quick check, although computed on doubles, is that of the
      thresholds on integers.
    - Hanging requests: on one disk each is written once while it stays in its
      place; the stage named for a virtio request is its stage in the ring.
    - The symbol table: setup, with the comparison of the source, and search return the symbol that covers an
      address; the binary search terminates.
    - I/O requests: for every trace the requests reported are those the history
      of each sector calls for; the delays of a record are each the time since
      the latest point before, and add up to the total.
    - The plugins: a call publishes what happened since the call before; the
      log lines between two calls are bounded; the address test of the programs
      is membership in the private networks.
    - The parser: the streams on which it returns are exactly those of its
      grammar of records, and then it returns the objects of the records; on
      every other stream it ends in an access out of bounds, within as many
      rounds as there are bytes.
    - The front end: which commands it runs for a tool, in which order, with
      and without the kernel module; the list of tools; its paths.

    ** Bounds and fuel

    Loops that the code bounds recurse on the bound; a loop over a file or a
    string has fuel, and the theorems about it state that enough fuel (the
    number of records or bytes, plus one) gives the result; [None] never stands
    for an error of the code. Counters and times keep their C width with the
    wrap-around written out; a theorem that needs a clock that does not go
    back, a table with room, or at most 1024 CPUs says so in its hypotheses.
    A BPF program reads the clock at one instant.

    ** Not modelled

    Options, the loading and attaching of BPF programs and formatted output
    (the front ends of the detectors, [tsar.c], the printing of
    [output_print.c], the HTTP server): they only move data between the kernel
    or the user and the modelled functions. The collectors of the monitor that
    ask servers over sockets or walk the directories of control groups and
    processes ([mod_nginx], [mod_squid], [mod_haproxy], [mod_cgroup],
    [mod_proc], ...): their input is the answer of another program. The network
    tracers ([rtrace], [PingTrace], [tcpping]) and [pagescan], which depend on
    the layout of the kernel's structures; small tools that print one kernel
    interface ([tracesig], [softirq], [taskstate], ...); third-party and
    generated code ([cJSON], [libnet], the [vmlinux] headers). What a program
    reads of the kernel's own structures, and what a kernel module answers, is an
    argument of the definitions. Failures of [malloc] and of [pthread_create] are
    not modelled, nor lost perf events. [qsort] is the merge sort of glibc
    ([CSort]); the quicksort it falls back to for very large arrays is not
    modelled. Two things are modelled as sequences that the code does not enforce:
    the perf thread of [net_retrans] and the [call] that resets its budget, and the
    perf threads and [call] of the scheduling plugins. The bounds of the buffers for
    names in [hangdetect] are not modelled. *)

From stdpp Require Export base gmap list strings option numbers pretty sorting.
From Stdlib Require Export ZArith Lia.

Open Scope Z_scope.

(** ** Machine integers

    A C integer of width [w] is a [Z]; [wrap] is the unsigned and [swrap] the
    two's complement reduction. *)

Definition wrap (w z : Z) : Z := z mod 2 ^ w.
Definition swrap (w z : Z) : Z := (z + 2 ^ (w - 1)) mod 2 ^ w - 2 ^ (w - 1).

Abbreviation u8 := (wrap 8).
Abbreviation u16 := (wrap 16).
Abbreviation u32 := (wrap 32).
Abbreviation u64 := (wrap 64).
Abbreviation i8 := (swrap 8).
Abbreviation i16 := (swrap 16).
Abbreviation i32 := (swrap 32).
Abbreviation i64 := (swrap 64).

Create HintDb sysak.
Create Rewrite HintDb sysak.

Section wraps.
Implicit Types w z : Z.

Lemma wrap_small w z : 0 ≤ z < 2 ^ w → wrap w z = z.
Proof. apply Z.mod_small. Qed.

Lemma wrap_range w z : 0 ≤ w → 0 ≤ wrap w z < 2 ^ w.
Proof. intros. apply Z.mod_pos_bound, Z.pow_pos_nonneg; lia. Qed.

Lemma wrap_wrap w z : wrap w (wrap w z) = wrap w z.
Proof. apply Zmod_mod. Qed.

Lemma wrap_add w a b : wrap w (wrap w a + b) = wrap w (a + b).
Proof. apply Zplus_mod_idemp_l. Qed.

Lemma wrap_sub_small w a b : 0 ≤ b ≤ a → a < 2 ^ w → wrap w (a - b) = a - b.
Proof. intros. apply wrap_small. lia. Qed.

Lemma swrap_small w z :
  0 < w → - 2 ^ (w - 1) ≤ z < 2 ^ (w - 1) → swrap w z = z.
Proof.
  intros Hw Hz. unfold swrap.
  assert (2 ^ w = 2 * 2 ^ (w - 1)) as Hpow.
  { rewrite <-Z.pow_succ_r by lia. f_equal. lia. }
  rewrite Z.mod_small; lia.
Qed.

Lemma swrap_range w z :
  0 < w → - 2 ^ (w - 1) ≤ swrap w z < 2 ^ (w - 1).
Proof.
  intros Hw. unfold swrap.
  assert (2 ^ w = 2 * 2 ^ (w - 1)) as Hpow.
  { rewrite <-Z.pow_succ_r by lia. f_equal. lia. }
  pose proof (Z.mod_pos_bound (z + 2 ^ (w - 1)) (2 ^ w)).
  assert (0 < 2 ^ (w - 1)) by (apply Z.pow_pos_nonneg; lia). lia.
Qed.
Lemma swrap_wrap w z : swrap w (wrap w z) = swrap w z.
Proof. unfold swrap, wrap. by rewrite Zplus_mod_idemp_l. Qed.

Lemma wrap_swrap w z : wrap w (swrap w z) = wrap w z.
Proof.
  unfold swrap, wrap. rewrite Zminus_mod_idemp_l. f_equal. lia.
Qed.

Lemma swrap_add w a b : swrap w (swrap w a + b) = swrap w (a + b).
Proof.
  unfold swrap at 1 2. replace ((a + 2 ^ (w - 1)) mod 2 ^ w - 2 ^ (w - 1) + b + 2 ^ (w - 1))
    with ((a + 2 ^ (w - 1)) mod 2 ^ w + b) by lia.
  rewrite Zplus_mod_idemp_l. unfold swrap. do 2 f_equal. lia.
Qed.
End wraps.

(** Evaluates the powers of two of the machine widths and closes a linear
    goal about wrapped values. *)
Ltac eval_pow2 :=
  change (2 ^ 8) with 256 in *; change (2 ^ 16) with 65536 in *;
  change (2 ^ 31) with 2147483648 in *;
  change (2 ^ 32) with 4294967296 in *;
  change (2 ^ 63) with 9223372036854775808 in *;
  change (2 ^ 64) with 18446744073709551616 in *.

Ltac word_lia :=
  unfold wrap, swrap in *; simpl Z.sub in *; eval_pow2;
  Z.div_mod_to_equations; lia.

(** ** Little-endian memory images

    What [write(fd, &head, sizeof head)] puts in a file on the little-endian
    targets the tools support. A byte is a [Z] in [0, 256). *)

Fixpoint le_bytes (n : nat) (z : Z) : list Z :=
  match n with
  | O => []
  | S n' => z mod 256 :: le_bytes n' (z / 256)
  end.

Fixpoint le_val (l : list Z) : Z :=
  match l with
  | [] => 0
  | b :: l' => b + 256 * le_val l'
  end.

Lemma length_le_bytes n z : length (le_bytes n z) = n.
Proof. revert z; induction n; simpl; auto. Qed.

Lemma le_val_le_bytes n z : le_val (le_bytes n z) = wrap (8 * Z.of_nat n) z.
Proof.
  revert z; induction n as [|n IH]; intros z; simpl le_bytes; simpl le_val.
  - unfold wrap. simpl. by rewrite Z.mod_1_r.
  - rewrite IH. unfold wrap.
    replace (8 * Z.of_nat (S n)) with (8 + 8 * Z.of_nat n) by lia.
    rewrite Z.pow_add_r by lia. change (2 ^ 8) with 256.
    rewrite Z.rem_mul_r by lia. lia.
Qed.

Lemma le_val_le_bytes_small n z :
  0 ≤ z < 2 ^ (8 * Z.of_nat n) → le_val (le_bytes n z) = z.
Proof. intros. rewrite le_val_le_bytes. by apply wrap_small. Qed.

Lemma le_bytes_range n z : Forall (λ b, 0 ≤ b < 256) (le_bytes n z).
Proof.
  revert z; induction n; intros z; simpl; constructor; auto.
  apply Z.mod_pos_bound. lia.
Qed.

(** The C string in the first [n] bytes: what precedes the first 0. *)
Fixpoint c_str (n : nat) (l : list Z) : list Z :=
  match n, l with
  | S n', x :: l' => if x =? 0 then [] else x :: c_str n' l'
  | _, _ => []
  end.

(** ** The effect monad

    A C function that performs system calls or loops is a computation over a
    state [S]. [None] means that the fuel of a loop ran out before the code
    returned: it is not an error of the C code. *)

Definition ST (S A : Type) : Type := S → option (A * S).

Definition st_ret {S A} (a : A) : ST S A := λ s, Some (a, s).
Definition st_bind {S A B} (m : ST S A) (f : A → ST S B) : ST S B :=
  λ s, match m s with Some (a, s') => f a s' | None => None end.
Definition st_out_of_fuel {S A} : ST S A := λ _, None.
Definition st_lift {S A} (f : S → A * S) : ST S A := λ s, Some (f s).

Declare Scope st_scope.
Delimit Scope st_scope with st.
Notation "'let!' x ':=' m 'in' k" := (st_bind m (λ x, k))
  (at level 10, x pattern, m at level 100, k at level 200) : st_scope.
Notation "'ret!' x" := (st_ret x) (at level 100) : st_scope.
#[export] Hint Unfold st_ret st_bind st_lift st_out_of_fuel : sysak.

Lemma st_bind_some {S A B} (m : ST S A) (f : A → ST S B) s a s' :
  m s = Some (a, s') → st_bind m f s = f a s'.
Proof. intros H. unfold st_bind. by rewrite H. Qed.

Lemma st_bind_lift {S A B} (g : S → A * S) (f : A → ST S B) s a s' :
  g s = (a, s') → st_bind (st_lift g) f s = f a s'.
Proof. intros H. unfold st_bind, st_lift. by rewrite H. Qed.

(** [st_step H] runs the next call of a computation, whose result is [H]. *)
Ltac st_step H :=
  first [ rewrite (st_bind_lift _ _ _ _ _ H) | rewrite (st_bind_some _ _ _ _ _ H) ];
  cbv beta iota zeta delta [negb].

(** [zif] decides the next integer test of the code by linear arithmetic. *)
Ltac zif :=
  match goal with
  | |- context [?a <? ?b] =>
      first [ rewrite (proj2 (Z.ltb_lt a b)) by lia | rewrite (proj2 (Z.ltb_ge a b)) by lia ]
  | |- context [?a <=? ?b] =>
      first [ rewrite (proj2 (Z.leb_le a b)) by lia | rewrite (proj2 (Z.leb_gt a b)) by lia ]
  | |- context [?a =? ?b] =>
      first [ rewrite (proj2 (Z.eqb_eq a b)) by lia | rewrite (proj2 (Z.eqb_neq a b)) by lia ]
  end; cbv beta iota zeta delta [negb].

(** ** Lists *)

Section lists.
Context {A : Type}.
Implicit Types l k : list A.

Lemma take_app_exact l k n : n = length l → take n (l ++ k) = l.
Proof. intros ->. apply take_app_length. Qed.

Lemma snoc_middle l x k : l ++ x :: k = (l ++ [x]) ++ k.
Proof. by rewrite <-app_assoc. Qed.

Lemma drop_app_exact l k n : n = length l → drop n (l ++ k) = k.
Proof. intros ->. apply drop_app_length. Qed.

Lemma filter_none (P : A → Prop) `{∀ x, Decision (P x)} l :
  Forall (λ x, ¬ P x) l → filter P l = [].
Proof. induction 1; [done|]. by rewrite filter_cons_False. Qed.

Lemma filter_all (P : A → Prop) `{∀ x, Decision (P x)} l :
  Forall P l → filter P l = l.
Proof. induction 1; [done|]. rewrite filter_cons_True by done. by f_equal. Qed.

Lemma filter_fmap {B} (f : B → A) (P : A → Prop) `{∀ x, Decision (P x)} (k : list B) :
  filter P (f <$> k) = f <$> filter (λ x, P (f x)) k.
Proof.
  induction k as [|x k IH]; [done|]. rewrite fmap_cons, !filter_cons. simpl.
  destruct (decide (P (f x))); rewrite IH; done.
Qed.
End lists.

(** The length of an array as a C integer. *)
Definition zlen {A} (l : list A) : Z := Z.of_nat (length l).

Lemma zlen_app {A} (l k : list A) : zlen (l ++ k) = zlen l + zlen k.
Proof. unfold zlen. rewrite length_app. lia. Qed.

Lemma zlen_nonneg {A} (l : list A) : 0 ≤ zlen l.
Proof. unfold zlen. lia. Qed.

Lemma zlen_cons {A} (x : A) l : zlen (x :: l) = 1 + zlen l.
Proof. unfold zlen. simpl length. lia. Qed.

Lemma zlen_le_bytes n z : zlen (le_bytes n z) = Z.of_nat n.
Proof. unfold zlen. by rewrite length_le_bytes. Qed.

#[global] Arguments le_bytes : simpl never.
#[global] Arguments zlen : simpl never.
#[global] Arguments wrap : simpl never.
#[global] Arguments swrap : simpl never.

#[export] Hint Resolve zlen_nonneg : sysak.
#[export] Hint Rewrite @zlen_app @zlen_cons zlen_le_bytes : sysak.

(** ** Step relations *)

(** An invariant of the initial states that every step keeps holds in every
    reachable state. *)
Lemma rtc_invariant {S} (step : S → S → Prop) (Inv : S → Prop) s s' :
  (∀ a b, Inv a → step a b → Inv b) → Inv s → rtc step s s' → Inv s'.
Proof. intros Hstep Hs Hrtc. induction Hrtc; eauto. Qed.

(** ** Error numbers of the target (Linux) *)

Definition ENOENT : Z := 2.
Definition E2BIG : Z := 7.
Definition ENOMEM : Z := 12.
Definition EACCES : Z := 13.
Definition EEXIST : Z := 17.
Definition EINVAL : Z := 22.
Definition ERANGE : Z := 34.
