(* ===== verification/Posix.v ===== *)
(** * Posix: the files and system calls the tools use

    The part of the POSIX file interface that [foxTSDB.c] calls: named files
    as byte lists, file descriptors with an offset, and the calls [open],
    [close], [lseek], [read], [write], [lockf], [fstat] and [gettimeofday].

    Every call first takes the next element of the outcome schedule
    [w_sched]: [Good] lets it run, [Fail] makes it return -1 with no effect,
    [Short n] makes [read] and [write] transfer at most [n] bytes. An empty
    schedule means that no further call fails, so an error path of the code is
    exercised by an explicit schedule. *)

From S2P Require Import Prelude.

Inductive outcome := Good | Fail | Short (n : nat).

Record ofile := OFile { of_name : string; of_off : Z; of_append : bool }.

Record world := World {
  w_files : gmap string (list Z);
  w_fds : gmap Z ofile;
  w_next : Z;                     (* the descriptor the next [open] returns *)
  w_clock : Z;                    (* microseconds since the Epoch *)
  w_sched : list outcome;
}.

(** Updates of one field. *)
Definition set_files (f : gmap string (list Z)) (w : world) : world :=
  World f (w_fds w) (w_next w) (w_clock w) (w_sched w).
Definition set_fds (f : gmap Z ofile) (w : world) : world :=
  World (w_files w) f (w_next w) (w_clock w) (w_sched w).
Definition set_sched (s : list outcome) (w : world) : world :=
  World (w_files w) (w_fds w) (w_next w) (w_clock w) s.

Definition pop (w : world) : outcome * world :=
  match w_sched w with
  | [] => (Good, w)
  | o :: s => (o, set_sched s w)
  end.

(** The bytes of the file behind [fd], when [fd] is open. *)
Definition fd_bytes (w : world) (fd : Z) : option (list Z) :=
  o ← w_fds w !! fd; w_files w !! of_name o.

Definition set_off (fd off : Z) (o : ofile) (w : world) : world :=
  set_fds (<[fd := OFile (of_name o) off (of_append o)]> (w_fds w)) w.

(** [open(name, O_RDONLY)] when [creat] is false,
    [open(name, O_RDWR|O_APPEND|O_CREAT)] when it is true. *)
Definition sys_open (name : string) (creat : bool) (w : world) : Z * world :=
  let '(o, w) := pop w in
  match o, w_files w !! name, creat with
  | Fail, _, _ => (-1, w)
  | _, None, false => (-1, w)
  | _, None, true =>
      (w_next w, World (<[name := []]> (w_files w))
                   (<[w_next w := OFile name 0 creat]> (w_fds w))
                   (w_next w + 1) (w_clock w) (w_sched w))
  | _, Some _, _ =>
      (w_next w, World (w_files w) (<[w_next w := OFile name 0 creat]> (w_fds w))
                   (w_next w + 1) (w_clock w) (w_sched w))
  end.

Definition sys_close (fd : Z) (w : world) : Z * world :=
  match w_fds w !! fd with
  | Some _ => (0, set_fds (delete fd (w_fds w)) w)
  | None => (-1, w)
  end.

(** [lseek(fd, off, SEEK_SET)] *)
Definition sys_lseek (fd off : Z) (w : world) : Z * world :=
  let '(o, w) := pop w in
  match o, w_fds w !! fd with
  | Fail, _ | _, None => (-1, w)
  | _, Some f => if off <? 0 then (-1, w) else (off, set_off fd off f w)
  end.

(** [read(fd, buf, n)]: the return value and the bytes stored in [buf]. *)
Definition sys_read (fd : Z) (n : nat) (w : world) : (Z * list Z) * world :=
  let '(o, w) := pop w in
  match o, w_fds w !! fd with
  | Fail, _ | _, None => ((-1, []), w)
  | _, Some f =>
      match w_files w !! of_name f with
      | None => ((-1, []), w)
      | Some bytes =>
          let m := match o with Short k => Nat.min k n | _ => n end in
          let got := take m (drop (Z.to_nat (of_off f)) bytes) in
          ((zlen got, got), set_off fd (of_off f + zlen got) f w)
      end
  end.

(** [write(fd, data, len)] on a descriptor opened with [O_APPEND]. *)
Definition sys_write (fd : Z) (data : list Z) (w : world) : Z * world :=
  let '(o, w) := pop w in
  match o, w_fds w !! fd with
  | Fail, _ | _, None => (-1, w)
  | _, Some f =>
      match w_files w !! of_name f, of_append f with
      | Some bytes, true =>
          let m := match o with Short k => Nat.min k (length data) | _ => length data end in
          let put := take m data in
          (zlen put,
           set_off fd (zlen (bytes ++ put)) f
             (set_files (<[of_name f := bytes ++ put]> (w_files w)) w))
      | _, _ => (-1, w)
      end
  end.

(** [lockf(fd, F_LOCK, 0)] and [lockf(fd, F_ULOCK, 0)]: the lock is
    uncontended; the call fails on a bad descriptor or by schedule. *)
Definition sys_lockf (fd : Z) (w : world) : Z * world :=
  let '(o, w) := pop w in
  match o, w_fds w !! fd with
  | Fail, _ | _, None => (-1, w)
  | _, Some _ => (0, w)
  end.

(** [fstat(fd, &info)]: the return value and [info.st_size]. *)
Definition sys_fstat (fd : Z) (w : world) : (Z * Z) * world :=
  let '(o, w) := pop w in
  match o, fd_bytes w fd with
  | Fail, _ | _, None => ((-1, 0), w)
  | _, Some bytes => ((0, zlen bytes), w)
  end.

(** [gettimeofday(&tv, NULL)]: the return value, [tv_sec] and [tv_usec]. *)
Definition sys_gettimeofday (w : world) : (Z * Z * Z) * world :=
  let '(o, w) := pop w in
  match o with
  | Fail => ((-1, 0, 0), w)
  | _ => ((0, w_clock w / 1000000, w_clock w mod 1000000), w)
  end.

(** ** The calls on an open descriptor when nothing fails *)

(** [opened w fd name off app]: no call is scheduled to fail and [fd] is open
    on the file [name] with contents [bytes]. *)
Record opened (w : world) (fd : Z) (name : string) (app : bool) (bytes : list Z) : Prop := {
  op_sched : w_sched w = [];
  op_fd : ∃ off, w_fds w !! fd = Some (OFile name off app);
  op_file : w_files w !! name = Some bytes;
  op_next : 0 ≤ w_next w;
}.

Lemma pop_good w : w_sched w = [] → pop w = (Good, w).
Proof. intros H. unfold pop. by rewrite H. Qed.

(** Closes the goal that an updated world is still [opened]. *)
Ltac by_opened :=
  repeat match goal with
  | |- _ ∧ _ => split
  | |- opened _ _ _ _ _ => constructor; simpl
  | |- ∃ _, _ => eexists
  end; try rewrite lookup_insert_eq; first [done | reflexivity | lia].

Section opened_calls.
Context (w : world) (fd : Z) (name : string) (app : bool) (bytes : list Z).
Hypothesis Hop : opened w fd name app bytes.

Lemma opened_lseek off :
  0 ≤ off →
  ∃ w', sys_lseek fd off w = (off, w') ∧ opened w' fd name app bytes
    ∧ w_fds w' !! fd = Some (OFile name off app)
    ∧ w_files w' = w_files w.
Proof.
  intros Hoff. destruct Hop as [Hs [o Ho] Hf Hnx].
  unfold sys_lseek. rewrite (pop_good _ Hs), Ho.
  rewrite (proj2 (Z.ltb_ge off 0)) by lia.
  eexists; split; [done|]. simpl. rewrite lookup_insert_eq. by_opened.
Qed.

Lemma opened_read off n :
  w_fds w !! fd = Some (OFile name off app) →
  let got := take n (drop (Z.to_nat off) bytes) in
  ∃ w', sys_read fd n w = ((zlen got, got), w') ∧ opened w' fd name app bytes
    ∧ w_fds w' !! fd = Some (OFile name (off + zlen got) app)
    ∧ w_files w' = w_files w.
Proof.
  intros Ho got. destruct Hop as [Hs _ Hf Hnx].
  unfold sys_read. rewrite (pop_good _ Hs), Ho. simpl. rewrite Hf. simpl.
  eexists; split; [done|]. simpl. rewrite lookup_insert_eq. by_opened.
Qed.

Lemma opened_lockf : sys_lockf fd w = (0, w).
Proof.
  destruct Hop as [Hs [o Ho] Hf Hnx]. unfold sys_lockf. by rewrite (pop_good _ Hs), Ho.
Qed.

Lemma opened_fstat : sys_fstat fd w = ((0, zlen bytes), w).
Proof.
  destruct Hop as [Hs [o Ho] Hf Hnx]. unfold sys_fstat.
  rewrite (pop_good _ Hs). unfold fd_bytes. rewrite Ho. simpl. by rewrite Hf.
Qed.
End opened_calls.

Lemma opened_write w fd name bytes data :
  opened w fd name true bytes →
  ∃ w', sys_write fd data w = (zlen data, w')
    ∧ opened w' fd name true (bytes ++ data)
    ∧ w_files w' = <[name := bytes ++ data]> (w_files w).
Proof.
  intros [Hs [o Ho] Hf Hnx]. unfold sys_write. rewrite (pop_good _ Hs), Ho. simpl.
  rewrite Hf, firstn_all. eexists; split; [done|]. simpl. by_opened.
Qed.

(** ** Scheduled outcomes *)

Lemma set_sched_nil w : w_sched w = [] → set_sched [] w = w.
Proof. destruct w; simpl. by intros ->. Qed.

Section scheduled.
Context (w : world) (s : list outcome) (fd : Z) (f : ofile).
Hypothesis Hfd : w_fds w !! fd = Some f.

Lemma fail_lockf : sys_lockf fd (set_sched (Fail :: s) w) = (-1, set_sched s w).
Proof. done. Qed.

Lemma fail_write data : sys_write fd data (set_sched (Fail :: s) w) = (-1, set_sched s w).
Proof. done. Qed.

Lemma good_lockf : sys_lockf fd (set_sched (Good :: s) w) = (0, set_sched s w).
Proof. unfold sys_lockf, pop. simpl. by rewrite Hfd. Qed.

Lemma good_write bytes data :
  w_files w !! of_name f = Some bytes → of_append f = true →
  ∃ w', sys_write fd data (set_sched (Good :: s) w) = (zlen data, set_sched s w')
    ∧ w_files w' = <[of_name f := bytes ++ data]> (w_files w)
    ∧ is_Some (w_fds w' !! fd) ∧ w_sched w' = w_sched w.
Proof.
  intros Hb Ha. unfold sys_write, pop. simpl. rewrite Hfd. simpl. rewrite Hb, Ha, firstn_all.
  exists (set_off fd (zlen (bytes ++ data)) f (set_files (<[of_name f:=bytes ++ data]> (w_files w)) w)).
  simpl. rewrite lookup_insert_eq. by split_and!.
Qed.
End scheduled.
