(* ===== verification/Calendar.v ===== *)
(** * Calendar: the C library's broken-down time

    [gmtime] and [mktime] over the proleptic Gregorian calendar, as the C
    library computes them, for [foxTSDB.c]. [mktime] interprets its argument in
    the local time zone: the zone is a constant offset [gmtoff] in seconds
    east of UTC. *)

From S2P Require Import Prelude.

Record tm := Tm {
  tm_sec : Z; tm_min : Z; tm_hour : Z; tm_mday : Z; tm_mon : Z; tm_year : Z;
}.

(** Day number (0 is 1970-01-01) of day [d] of month [m] (1..12) of year [y];
    years are counted from March so that the leap day is the last one. *)
Definition days_from_civil (y m d : Z) : Z :=
  let y' := if m <=? 2 then y - 1 else y in
  let era := y' / 400 in
  let yoe := y' mod 400 in
  let mp := (m + 9) mod 12 in
  let doy := (153 * mp + 2) / 5 + d - 1 in
  let doe := yoe * 365 + yoe / 4 - yoe / 100 + doy in
  era * 146097 + doe - 719468.

(** Year, month and day of a day number. *)
Definition civil_from_days (n : Z) : Z * Z * Z :=
  let z := n + 719468 in
  let era := z / 146097 in
  let doe := z mod 146097 in
  let yoe := (doe - doe / 1460 + doe / 36524 - doe / 146096) / 365 in
  let doy := doe - (365 * yoe + yoe / 4 - yoe / 100) in
  let mp := (5 * doy + 2) / 153 in
  let d := doy - (153 * mp + 2) / 5 + 1 in
  let m := if mp <? 10 then mp + 3 else mp - 9 in
  let y := yoe + era * 400 in
  (if m <=? 2 then y + 1 else y, m, d).

Definition gmtime (t : Z) : tm :=
  let '(y, m, d) := civil_from_days (t / 86400) in
  let r := t mod 86400 in
  Tm (r mod 60) (r / 60 mod 60) (r / 3600) d (m - 1) (y - 1900).

(** Seconds since the Epoch of a broken-down UTC time; a field out of its
    range carries over, as [mktime] normalises it. *)
Definition timegm (p : tm) : Z :=
  let y := tm_year p + 1900 + tm_mon p / 12 in
  let m := tm_mon p mod 12 + 1 in
  (days_from_civil y m 1 + tm_mday p - 1) * 86400
  + tm_hour p * 3600 + tm_min p * 60 + tm_sec p.

Definition mktime (gmtoff : Z) (p : tm) : Z := timegm p - gmtoff.

(** ** Round trip *)

Lemma yoe_bounds doe :
  0 ≤ doe < 146097 →
  let yoe := (doe - doe / 1460 + doe / 36524 - doe / 146096) / 365 in
  0 ≤ yoe < 400 ∧ 0 ≤ doe - (365 * yoe + yoe / 4 - yoe / 100) ≤ 365.
Proof. intros H yoe. subst yoe. Z.div_mod_to_equations. lia. Qed.

Lemma mp_bounds doy :
  0 ≤ doy ≤ 365 →
  let mp := (5 * doy + 2) / 153 in
  0 ≤ mp ≤ 11 ∧ 1 ≤ doy - (153 * mp + 2) / 5 + 1 ≤ 31.
Proof. intros H mp. subst mp. Z.div_mod_to_equations. lia. Qed.

(** The month is in 1..12, the day in 1..31, and the conversion inverts. *)
Lemma civil_from_days_spec n :
  let '(y, m, d) := civil_from_days n in
  1 ≤ m ≤ 12 ∧ 1 ≤ d ≤ 31 ∧ days_from_civil y m d = n.
Proof.
  unfold civil_from_days.
  pose proof (Z.mod_pos_bound (n + 719468) 146097 ltac:(lia)) as Hdoe.
  pose proof (Z.div_mod (n + 719468) 146097 ltac:(lia)) as Hn.
  set (doe := (n + 719468) mod 146097) in *. set (era := (n + 719468) / 146097) in *.
  destruct (yoe_bounds doe Hdoe) as [Hyoe Hdoy].
  set (yoe := (doe - doe / 1460 + doe / 36524 - doe / 146096) / 365) in *.
  set (doy := doe - (365 * yoe + yoe / 4 - yoe / 100)) in *.
  destruct (mp_bounds doy Hdoy) as [Hmp Hd].
  set (mp := (5 * doy + 2) / 153) in *.
  assert (((if mp <? 10 then mp + 3 else mp - 9) + 9) mod 12 = mp) as Hmonth.
  { destruct (Z.ltb_spec mp 10).
    - replace (mp + 3 + 9) with (mp + 1 * 12) by lia.
      rewrite Z_mod_plus by lia. apply Z.mod_small; lia.
    - replace (mp - 9 + 9) with mp by lia. apply Z.mod_small; lia. }
  assert (∀ c : bool, (if c then (if c then yoe + era * 400 + 1 else yoe + era * 400) - 1
                       else if c then yoe + era * 400 + 1 else yoe + era * 400)
                      = yoe + era * 400) as Hy by (intros []; lia).
  split; [destruct (Z.ltb_spec mp 10); lia|]. split; [done|].
  unfold days_from_civil. rewrite Hy, Hmonth.
  rewrite Z_div_plus, Z_mod_plus by lia.
  rewrite (Z.div_small yoe), (Z.mod_small yoe) by lia. lia.
Qed.

Lemma days_from_civil_day y m d : days_from_civil y m d = days_from_civil y m 1 + d - 1.
Proof. unfold days_from_civil. lia. Qed.

Lemma gmtime_fields t :
  let p := gmtime t in
  0 ≤ tm_sec p < 60 ∧ 0 ≤ tm_min p < 60 ∧ 0 ≤ tm_hour p < 24
  ∧ 1 ≤ tm_mday p ≤ 31 ∧ 0 ≤ tm_mon p < 12.
Proof.
  unfold gmtime. pose proof (civil_from_days_spec (t / 86400)) as Hc.
  destruct (civil_from_days (t / 86400)) as [[y m] d]. simpl.
  destruct Hc as (Hm & Hd & _). Z.div_mod_to_equations. lia.
Qed.

Lemma timegm_gmtime t : timegm (gmtime t) = t.
Proof.
  unfold gmtime, timegm. pose proof (civil_from_days_spec (t / 86400)) as Hc.
  destruct (civil_from_days (t / 86400)) as [[y m] d].
  simpl tm_sec; simpl tm_min; simpl tm_hour; simpl tm_mday; simpl tm_mon; simpl tm_year.
  destruct Hc as (Hm & _ & Hdays). rewrite days_from_civil_day in Hdays.
  rewrite (Z.div_small (m - 1)), (Z.mod_small (m - 1)) by lia.
  replace (y - 1900 + 1900 + 0) with y by lia. replace (m - 1 + 1) with m by lia.
  replace (days_from_civil y m 1 + d - 1) with (t / 86400) by lia.
  clear. Z.div_mod_to_equations. lia.
Qed.
