(* ===== verification/FoxTSDB.v ===== *)
(** * FoxTSDB: the time-series store of the unity monitor

    A translation of [source/tools/monitor/unity/tsdb/native/foxTSDB.c], one
    definition per C function. A day's samples live in one append-only file of
    records, each a [struct fox_head] followed by its data; the heads form a
    doubly linked list through the [prev] and [next] file offsets. A writer
    appends ([fox_setup_write], [fox_write]); a reader positions a cursor by
    time ([fox_setup_read], [fox_cur_move], [fox_read_resize]) and reads
    forward ([fox_read]).

    A function that makes system calls is a computation over [world]; the
    [struct fox_manager] a C function mutates is passed in and returned. The
    loops take fuel. What C leaves indeterminate is in [fox_env]. *)

From S2P Require Import Prelude Posix Calendar.
Local Open Scope st_scope.

(** ** Data *)

Definition FNAME_SIZE : nat := 16.
Definition FOX_MAGIC : Z := 0xf030.
Definition MICRO_UNIT : Z := 1000 * 1000.

Record fox_head := FoxHead {
  prev : Z;    (* unsigned int *)
  next : Z;    (* unsigned int *)
  t_us : Z;    (* unsigned long *)
  magic : Z;   (* unsigned short *)
  flag : Z;    (* unsigned short *)
}.

(** [sizeof (struct fox_head)]: 20 bytes of fields and 4 of padding. *)
Definition HEAD_SIZE : Z := 24.

Record foxDate := FoxDate {
  d_year : Z; d_mon : Z; d_mday : Z; d_hour : Z; d_min : Z; d_sec : Z;
}.

Record fox_manager := FoxMan {
  pm_now : Z;        (* unsigned long *)
  pm_pos : Z;        (* off_t *)
  pm_last_pos : Z;   (* off_t *)
  pm_fsize : Z;      (* size_t *)
  pm_fd : Z;
  pm_new_day : Z;
  pm_year : Z; pm_mon : Z; pm_mday : Z;
}.

Definition set_now (v : Z) (p : fox_manager) : fox_manager :=
  FoxMan v (pm_pos p) (pm_last_pos p) (pm_fsize p) (pm_fd p) (pm_new_day p)
    (pm_year p) (pm_mon p) (pm_mday p).
Definition set_pos (v : Z) (p : fox_manager) : fox_manager :=
  FoxMan (pm_now p) v (pm_last_pos p) (pm_fsize p) (pm_fd p) (pm_new_day p)
    (pm_year p) (pm_mon p) (pm_mday p).
Definition set_last_pos (v : Z) (p : fox_manager) : fox_manager :=
  FoxMan (pm_now p) (pm_pos p) v (pm_fsize p) (pm_fd p) (pm_new_day p)
    (pm_year p) (pm_mon p) (pm_mday p).
Definition set_fsize (v : Z) (p : fox_manager) : fox_manager :=
  FoxMan (pm_now p) (pm_pos p) (pm_last_pos p) v (pm_fd p) (pm_new_day p)
    (pm_year p) (pm_mon p) (pm_mday p).
Definition set_fd (v : Z) (p : fox_manager) : fox_manager :=
  FoxMan (pm_now p) (pm_pos p) (pm_last_pos p) (pm_fsize p) v (pm_new_day p)
    (pm_year p) (pm_mon p) (pm_mday p).
Definition set_new_day (v : Z) (p : fox_manager) : fox_manager :=
  FoxMan (pm_now p) (pm_pos p) (pm_last_pos p) (pm_fsize p) (pm_fd p) v
    (pm_year p) (pm_mon p) (pm_mday p).
Definition set_day (d : foxDate) (p : fox_manager) : fox_manager :=
  FoxMan (pm_now p) (pm_pos p) (pm_last_pos p) (pm_fsize p) (pm_fd p) (pm_new_day p)
    (d_year d) (d_mon d) (d_mday d).

(** What the C program takes from its environment: the local time zone, and
    the indeterminate values C does not define (the padding of a head on the
    stack, an uninitialised head, the bytes of a fresh heap block). *)
Record fox_env := FoxEnv {
  e_gmtoff : Z;
  e_pad : Z;
  e_junk : fox_head;
  e_heap : Z;
}.

(** ** The memory image of a head *)

Definition encode_head (pad : Z) (h : fox_head) : list Z :=
  le_bytes 4 (prev h) ++ le_bytes 4 (next h) ++ le_bytes 8 (t_us h)
  ++ le_bytes 2 (magic h) ++ le_bytes 2 (flag h) ++ le_bytes 4 pad.

#[global] Arguments encode_head : simpl never.

Definition decode_head (b : list Z) : fox_head :=
  FoxHead (le_val (take 4 b)) (le_val (take 4 (drop 4 b))) (le_val (take 8 (drop 8 b)))
    (le_val (take 2 (drop 16 b))) (le_val (take 2 (drop 18 b))).

#[global] Arguments decode_head : simpl never.

(** The head in memory after [read] has stored [b] over its first bytes. *)
Definition overlay_head (b : list Z) (h : fox_head) : fox_head :=
  decode_head (b ++ drop (length b) (encode_head 0 h)).

(** ** Time and dates *)

Definition get_us : ST world Z :=
  let! (r, sec, usec) := st_lift sys_gettimeofday in
  ret! (if r =? 0 then u64 (sec * MICRO_UNIT + usec) else 0).

Definition tm2date (p : tm) : foxDate :=
  FoxDate (i16 (tm_year p)) (i8 (tm_mon p)) (i8 (tm_mday p))
    (i8 (tm_hour p)) (i8 (tm_min p)) (i8 (tm_sec p)).

Definition date2tm (p : foxDate) : tm :=
  Tm (d_sec p) (d_min p) (d_hour p) (d_mday p) (d_mon p) (d_year p).

Definition get_date_from_us (us : Z) : foxDate := tm2date (gmtime (us / MICRO_UNIT)).

(** The return value, and the date stored through the pointer on success. *)
Definition get_date : ST world (Z * option foxDate) :=
  let! (r, sec, usec) := st_lift sys_gettimeofday in
  ret! (if r =? 0 then (0, Some (tm2date (gmtime sec))) else (1, None)).

Section fox.
Context (E : fox_env).

Definition make_stamp (p : foxDate) : Z :=
  u64 (mktime (e_gmtoff E) (date2tm p) * MICRO_UNIT).

Definition fox_read_init_now (pman : fox_manager) : Z :=
  make_stamp (FoxDate (pm_year pman) (pm_mon pman) (pm_mday pman) 0 0 0).

Definition fox_read_day_max (pman : fox_manager) : Z :=
  u64 (make_stamp (FoxDate (pm_year pman) (pm_mon pman) (pm_mday pman) 0 0 0)
       + 24 * 60 * 60 * MICRO_UNIT).
End fox.

(** ** File names: [snprintf(pname, FNAME_SIZE, "%04d%02d%02d.fox", ...)] *)

(** [%0<width>d]: sign, zeros up to the width, digits. *)
Definition fmt_d (width : nat) (z : Z) : string :=
  let digits := pretty (Z.abs z) in
  let sign := if z <? 0 then "-"%string else ""%string in
  let fill := (width - String.length sign - String.length digits)%nat in
  (sign +:+ String.concat "" (replicate fill "0"%string) +:+ digits)%string.

Definition pack_fname (p : foxDate) : string :=
  String.substring 0 (FNAME_SIZE - 1)
    (fmt_d 4 (d_year p) +:+ fmt_d 2 (d_mon p) +:+ fmt_d 2 (d_mday p) +:+ ".fox")%string.

(** ** Files *)

(** [size_t]: an error is the unsigned image of [-EACCES]. *)
Definition fd_size (fd : Z) : ST world Z :=
  let! (r, st_size) := st_lift (sys_fstat fd) in
  ret! (if r =? 0 then u64 st_size else u64 (- EACCES)).

(** [lseek] whose [off_t] result is stored in an [int]. *)
Definition lseek_int (fd pos : Z) : ST world Z :=
  let! r := st_lift (sys_lseek fd pos) in ret! (i32 r).

Definition fox_read_head (fd : Z) (phead : fox_head) : ST world (Z * fox_head) :=
  let! (n, b) := st_lift (sys_read fd 24) in
  let size := u64 n in
  let head := overlay_head b phead in
  ret! (if size =? HEAD_SIZE then
          if magic head =? FOX_MAGIC then (i32 size, head) else (- EINVAL, head)
        else if size =? 0 then (0, head)
        else (- EACCES, head)).

(** ** Opening a day for writing *)

Section writer.
Context (E : fox_env).

(** The [while (1)] of [fox_check_head]: follows [next] to the end of file. *)
Fixpoint fox_check_head_loop (fuel : nat) (fd : Z) (pman : fox_manager)
    (head : fox_head) (off : Z) : ST world (Z * fox_manager) :=
  match fuel with
  | O => st_out_of_fuel
  | S fuel' =>
      let! off := st_lift (sys_lseek fd off) in
      if off <? 0 then ret! (- EACCES, pman)
      else
        let! (r, head) := fox_read_head fd head in
        if 0 <? r then fox_check_head_loop fuel' fd pman head (next head)
        else if r =? 0 then ret! (r, set_pos off (set_last_pos (prev head) pman))
        else ret! (r, pman)
  end.

Definition fox_check_head (fuel : nat) (fd : Z) (pman : fox_manager)
    : ST world (Z * fox_manager) :=
  let junk := e_junk E in
  fox_check_head_loop fuel fd pman
    (FoxHead 0 (next junk) (t_us junk) (magic junk) (flag junk)) 0.

Definition fox_check (fuel : nat) (fd : Z) (pman : fox_manager)
    : ST world (Z * fox_manager) :=
  let! r := st_lift (sys_lockf fd) in
  if r <? 0 then ret! (r, pman)
  else
    let! (r, pman) := fox_check_head fuel fd pman in
    if r <? 0 then
      let! rl := st_lift (sys_lockf fd) in
      ret! (if rl <? 0 then rl else r, pman)
    else
      let! r := st_lift (sys_lockf fd) in
      ret! (r, pman).

Definition fox_setup_write (fuel : nat) (pman : fox_manager) (p : foxDate) (now : Z)
    : ST world (Z * fox_manager) :=
  let! fd := st_lift (sys_open (pack_fname p) true) in
  let pman := set_fd fd pman in
  if fd <? 0 then ret! (- ENOENT, pman)
  else
    let! (r, pman) := fox_check fuel fd pman in
    if r <? 0 then
      let! _ := st_lift (sys_close (pm_fd pman)) in
      ret! (r, set_fd 0 pman)
    else ret! (r, set_now now (set_day p pman)).

Definition check_foxdate (d1 d2 : foxDate) : bool :=
  (d_year d1 =? d_year d2) && (d_mon d1 =? d_mon d2) && (d_mday d1 =? d_mday d2).

Definition check_pman_date (pman : fox_manager) (d : foxDate) : bool :=
  (pm_year pman =? d_year d) && (pm_mon pman =? d_mon d) && (pm_mday pman =? d_mday d).

(** ** Appending a record *)

Definition fox_write_data (pman : fox_manager) (us : Z) (data : list Z)
    : ST world (Z * fox_manager) :=
  let fd := pm_fd pman in
  let len := zlen data in
  let head := FoxHead (u32 (pm_last_pos pman)) (u32 (pm_pos pman + HEAD_SIZE + len))
                us FOX_MAGIC 0 in
  (* endWrite: unlock and report the result of the unlock *)
  let endWrite : ST world (Z * fox_manager) :=
    let! r := st_lift (sys_lockf fd) in
    ret! (if r <? 0 then - EACCES else r, pman) in
  let! r := st_lift (sys_lockf fd) in
  if r <? 0 then ret! (- EACCES, pman)
  else
    let! r := st_lift (sys_write fd (encode_head (e_pad E) head)) in
    if r <? 0 then endWrite
    else
      let! r := st_lift (sys_write fd data) in
      if r <? 0 then endWrite
      else
        let! r := st_lift (sys_lockf fd) in
        if r <? 0 then ret! (- EACCES, pman)
        else ret! (r, set_pos (next head) (set_last_pos (pm_pos pman) (set_now us pman))).

Definition fox_write (fuel : nat) (pman : fox_manager) (pdate : foxDate) (us : Z)
    (data : list Z) : ST world (Z * fox_manager) :=
  let! (res, pman, created) :=
    (if negb (check_pman_date pman pdate) then
       let! _ := st_lift (sys_close (pm_fd pman)) in
       let! (res, pman) := fox_setup_write fuel pman pdate us in
       ret! (if res <? 0 then (res, pman, false) else (res, set_new_day 1 pman, true))
     else ret! (0, set_new_day 0 pman, true)) in
  if negb created then ret! (res, pman)
  else if pm_now pman <=? us then fox_write_data pman us data
  else ret! (res, pman).
End writer.

(** ** Moving the read cursor *)

Section reader.
Context (E : fox_env).

(** The [while (1)] of [fox_cursor_left]: follows [prev] back to the last
    record older than [now]. *)
Fixpoint fox_cursor_left_loop (fuel : nat) (fd : Z) (pman : fox_manager) (now : Z)
    (head : fox_head) (pos last_t_us : Z) : ST world (Z * fox_manager) :=
  match fuel with
  | O => st_out_of_fuel
  | S fuel' =>
      let! r := lseek_int fd pos in
      if r <? 0 then ret! (- EACCES, pman)
      else
        let! (r, head) := fox_read_head fd head in
        if r <? 0 then ret! (r, pman)
        else if t_us head <? now then
          ret! (0, set_last_pos pos (set_now last_t_us (set_pos (next head) pman)))
        else
          let last_t_us := t_us head in
          let pos := prev head in
          if pos =? 0 then
            ret! (0, set_last_pos pos (set_now last_t_us (set_pos pos pman)))
          else fox_cursor_left_loop fuel' fd pman now head pos last_t_us
  end.

Definition fox_cursor_left (fuel : nat) (fd : Z) (pman : fox_manager) (now : Z)
    : ST world (Z * fox_manager) :=
  let pos := if u64 (pm_pos pman) =? pm_fsize pman then pm_last_pos pman else pm_pos pman in
  fox_cursor_left_loop fuel fd pman now (e_junk E) pos (pm_now pman).

(** The [while (1)] of [fox_cursor_right]: follows [next] to the first
    record not older than [now], or to the end of the file. *)
Fixpoint fox_cursor_right_loop (fuel : nat) (fd : Z) (pman : fox_manager) (now : Z)
    (head : fox_head) (last_pos pos : Z) : ST world (Z * fox_manager) :=
  match fuel with
  | O => st_out_of_fuel
  | S fuel' =>
      if u64 pos =? pm_fsize pman then
        ret! (0, set_now (fox_read_day_max E pman) (set_pos pos (set_last_pos last_pos pman)))
      else if pm_fsize pman <? u64 pos then ret! (- ERANGE, pman)
      else
        let! r := lseek_int fd pos in
        if r <? 0 then ret! (- EACCES, pman)
        else
          let! (r, head) := fox_read_head fd head in
          if r <? 0 then ret! (r, pman)
          else if now <=? t_us head then
            ret! (0, set_last_pos last_pos (set_now (t_us head) (set_pos pos pman)))
          else fox_cursor_right_loop fuel' fd pman now head pos (next head)
  end.

Definition fox_cursor_right (fuel : nat) (fd : Z) (pman : fox_manager) (now : Z)
    : ST world (Z * fox_manager) :=
  fox_cursor_right_loop fuel fd pman now (e_junk E) (pm_last_pos pman) (pm_pos pman).

Definition fox_cursor_work (fuel : nat) (fd : Z) (pman : fox_manager) (now : Z)
    : ST world (Z * fox_manager) :=
  if now <? pm_now pman then fox_cursor_left fuel fd pman now
  else if pm_now pman <? now then fox_cursor_right fuel fd pman now
  else ret! (0, pman).

Definition fox_cursor (fuel : nat) (fd : Z) (pman : fox_manager) (now : Z)
    : ST world (Z * fox_manager) := fox_cursor_work fuel fd pman now.

Definition fox_cur_move (fuel : nat) (pman : fox_manager) (now : Z)
    : ST world (Z * fox_manager) := fox_cursor fuel (pm_fd pman) pman now.

(** Reads the time of the head at [pos] into [pman->now]. *)
Definition fox_cur_next (pman : fox_manager) (phead : fox_head) : ST world (Z * fox_manager) :=
  let pos := next phead in
  let fd := pm_fd pman in
  let pman := set_pos pos pman in
  if u64 pos <? pm_fsize pman then
    let! r := lseek_int fd pos in
    if r <? 0 then ret! (r, pman)
    else
      let! (r, head) := fox_read_head fd (e_junk E) in
      if r <? 0 then ret! (r, pman) else ret! (r, set_now (t_us head) pman)
  else ret! (0, set_now (fox_read_day_max E pman) pman).

Definition fox_cur_back (pman : fox_manager) : ST world (Z * fox_manager) :=
  let pos := pm_last_pos pman in
  let fd := pm_fd pman in
  let pman := set_pos pos pman in
  if 0 <? pos then
    let! r := lseek_int fd pos in
    if r <? 0 then ret! (r, pman)
    else
      let! (r, head) := fox_read_head fd (e_junk E) in
      if r <? 0 then ret! (r, pman) else ret! (r, set_now (t_us head) pman)
  else ret! (0, set_now (fox_read_init_now E pman) pman).

Definition fox_setup_read (fuel : nat) (pman : fox_manager) (p : foxDate) (now : Z)
    : ST world (Z * fox_manager) :=
  let! fd := st_lift (sys_open (pack_fname p) false) in
  let pman := set_fd fd pman in
  if fd <? 0 then ret! (1, set_fd (-1) pman)
  else
    let pman := set_day p pman in
    let pman := set_last_pos 0 (set_pos 0 (set_now (fox_read_init_now E pman) pman)) in
    let! size := fd_size fd in
    let pman := set_fsize size pman in
    (* [pman->fsize < 0] compares a size_t: never true *)
    let! (r, pman) := fox_cursor fuel fd pman now in
    if r <? 0 then
      let! _ := st_lift (sys_close (pm_fd pman)) in
      ret! (r, set_fd (-1) pman)
    else ret! (r, pman).

Definition fox_read_resize (fuel : nat) (pman : fox_manager) : ST world (Z * fox_manager) :=
  let! fsize := fd_size (pm_fd pman) in
  (* [fsize < 0] compares a size_t: never true *)
  if pm_fsize pman <? fsize then
    if u64 (pm_pos pman) =? pm_fsize pman then
      let! (r, pman) := fox_cur_back pman in
      if r <? 0 then ret! (r, pman) else ret! (r, set_fsize fsize pman)
    else ret! (0, set_fsize fsize pman)
  else
    let d := FoxDate (pm_year pman) (pm_mon pman) (pm_mday pman) 0 0 0 in
    let! (r, pman) := fox_setup_read fuel pman d (make_stamp E d) in
    if negb (r =? 0) then ret! (- EACCES, pman) else ret! (r, pman).

(** ** Reading *)

(** [malloc(size)]: whether the block was allocated. *)
Definition fox_malloc : ST world bool :=
  st_lift (λ w, let '(o, w) := pop w in (match o with Fail => false | _ => true end, w)).

(** The return value and the bytes stored in [stream]. *)
Definition fox_read_stream (fd : Z) (size : Z) : ST world (Z * list Z) :=
  let! (n, b) := st_lift (sys_read fd (Z.to_nat size)) in ret! (i32 n, b).

(** What the out parameters [*pp], [*len] and [*us] hold on return; [None]
    for [*us] when it is not assigned. *)
Record fox_out := FoxOut { o_pp : option (list Z); o_len : Z; o_us : option Z }.

Definition no_out : fox_out := FoxOut None 0 None.

Definition fox_read_work (fd : Z) (pman : fox_manager) (stop : Z)
    : ST world (Z * fox_manager * fox_out) :=
  let pos := pm_pos pman in
  if pm_now pman <=? stop then
    let! r := lseek_int fd pos in
    if r <? 0 then ret! (- EACCES, pman, no_out)
    else
      let! (r, head) := fox_read_head fd (e_junk E) in
      if r <? 0 then ret! (r, pman, no_out)
      else
        let size := i32 (next head - pos - HEAD_SIZE) in
        if size <? 0 then ret! (r, pman, no_out)
        else
          let! ok := fox_malloc in
          if negb ok then ret! (- ENOMEM, pman, no_out)
          else
            let! (r, b) := fox_read_stream fd size in
            if r <? 0 then ret! (r, pman, no_out)
            else
              let! (r, pman) := fox_cur_next pman head in
              if r <? 0 then ret! (r, pman, no_out)
              else
                let p := resize (Z.to_nat size) (e_heap E) b in
                ret! (r, pman, FoxOut (Some p) size (Some (t_us head)))
  else ret! (0, pman, no_out).

Definition fox_read (pman : fox_manager) (stop : Z) : ST world (Z * fox_manager * fox_out) :=
  let! (r, pman, out) := fox_read_work (pm_fd pman) pman stop in
  ret! (if r <? 0 then r else o_len out, pman, out).

Definition fox_del_man (pman : fox_manager) : ST world fox_manager :=
  if 0 <? pm_fd pman then
    let! _ := st_lift (sys_close (pm_fd pman)) in ret! (set_fd (-1) pman)
  else ret! pman.
End reader.
