(* ===== verification/FoxLog.v ===== *)
(** * FoxLog: the abstract log a fox file stores, and the refinement

    The contract of the store: a day's file is the memory image [layout] of a
    list of [entry]s. The writer appends one entry, the check at open finds
    the end of the list, the cursor finds the first entry at or after a time,
    and the reader returns the entries in order. *)

From S2P Require Import Prelude Posix Calendar FoxTSDB.

(** ** The abstract log *)

(** One record: its link to an earlier record, its time, the padding bytes of
    its head and its data. *)
Record entry := Entry { en_prev : Z; en_t : Z; en_pad : Z; en_data : list Z }.

Definition en_size (e : entry) : Z := HEAD_SIZE + zlen (en_data e).

Fixpoint log_size (es : list entry) : Z :=
  match es with
  | [] => 0
  | e :: es' => en_size e + log_size es'
  end.

Definition entry_head (start : Z) (e : entry) : fox_head :=
  FoxHead (en_prev e) (start + en_size e) (en_t e) FOX_MAGIC 0.

(** The bytes of the log when its first record is at offset [start]. *)
Fixpoint layout (start : Z) (es : list entry) : list Z :=
  match es with
  | [] => []
  | e :: es' =>
      encode_head (en_pad e) (entry_head start e) ++ en_data e
      ++ layout (start + en_size e) es'
  end.

(** Every field fits its C type. *)
Definition head_ok (h : fox_head) : Prop :=
  0 ≤ prev h < 2 ^ 32 ∧ 0 ≤ next h < 2 ^ 32 ∧ 0 ≤ t_us h < 2 ^ 64
  ∧ 0 ≤ magic h < 2 ^ 16 ∧ 0 ≤ flag h < 2 ^ 16.

Definition entry_ok (e : entry) : Prop :=
  0 ≤ en_prev e < 2 ^ 32 ∧ 0 ≤ en_t e < 2 ^ 64.

(** A log whose offsets fit in the 32 bits of [prev] and [next]. *)
Definition log_ok (es : list entry) : Prop :=
  Forall entry_ok es ∧ log_size es < 2 ^ 32.

(** ** Heads *)

Lemma length_encode_head pad h : length (encode_head pad h) = 24%nat.
Proof. unfold encode_head. by rewrite !length_app, !length_le_bytes. Qed.

Lemma zlen_encode_head pad h : zlen (encode_head pad h) = HEAD_SIZE.
Proof. unfold zlen. by rewrite length_encode_head. Qed.
#[export] Hint Rewrite zlen_encode_head : sysak.

(** Decoding an encoded head gives its fields reduced to their C widths. *)
Lemma decode_encode_head_wrap pad h :
  decode_head (encode_head pad h)
  = FoxHead (u32 (prev h)) (u32 (next h)) (u64 (t_us h)) (u16 (magic h)) (u16 (flag h)).
Proof.
  unfold decode_head. f_equal.
  - exact (le_val_le_bytes 4 (prev h)).
  - exact (le_val_le_bytes 4 (next h)).
  - exact (le_val_le_bytes 8 (t_us h)).
  - exact (le_val_le_bytes 2 (magic h)).
  - exact (le_val_le_bytes 2 (flag h)).
Qed.

Lemma decode_encode_head pad h : head_ok h → decode_head (encode_head pad h) = h.
Proof.
  intros (Hp & Hn & Ht & Hm & Hf). rewrite decode_encode_head_wrap.
  rewrite !wrap_small by done. by destruct h.
Qed.

Local Opaque encode_head decode_head.

(** ** Layout *)

Lemma en_size_pos e : HEAD_SIZE ≤ en_size e.
Proof. unfold en_size. pose proof (zlen_nonneg (en_data e)). lia. Qed.

Lemma log_size_nonneg es : 0 ≤ log_size es.
Proof. induction es as [|e es IH]; simpl; [lia|]. pose proof (en_size_pos e). unfold HEAD_SIZE in *. lia. Qed.

Lemma log_size_app es1 es2 : log_size (es1 ++ es2) = log_size es1 + log_size es2.
Proof. induction es1; simpl; lia. Qed.

Lemma zlen_layout start es : zlen (layout start es) = log_size es.
Proof.
  revert start; induction es as [|e es IH]; intros start; simpl; [done|].
  rewrite !zlen_app, zlen_encode_head, IH. unfold en_size. lia.
Qed.

Lemma layout_app start es1 es2 :
  layout start (es1 ++ es2) = layout start es1 ++ layout (start + log_size es1) es2.
Proof.
  revert start; induction es1 as [|e es1 IH]; intros start; simpl.
  - by rewrite Z.add_0_r.
  - rewrite IH, !app_assoc. f_equal. f_equal. lia.
Qed.

Lemma drop_layout start es1 es2 :
  drop (Z.to_nat (log_size es1)) (layout start (es1 ++ es2))
  = layout (start + log_size es1) es2.
Proof.
  rewrite layout_app. apply drop_app_exact.
  rewrite <-(zlen_layout start es1). unfold zlen. lia.
Qed.

(** The head and the data found at the offset of a record. *)
Lemma layout_head_at es1 e es2 :
  take 24 (drop (Z.to_nat (log_size es1)) (layout 0 (es1 ++ e :: es2)))
  = encode_head (en_pad e) (entry_head (log_size es1) e).
Proof.
  rewrite drop_layout. simpl layout. apply take_app_exact.
  by rewrite length_encode_head.
Qed.

Lemma layout_data_at es1 e es2 :
  take (length (en_data e))
    (drop (Z.to_nat (log_size es1 + HEAD_SIZE)) (layout 0 (es1 ++ e :: es2)))
  = en_data e.
Proof.
  pose proof (log_size_nonneg es1).
  replace (Z.to_nat (log_size es1 + HEAD_SIZE))
    with (Z.to_nat (log_size es1) + 24)%nat by (unfold HEAD_SIZE; lia).
  rewrite <-drop_drop, drop_layout. simpl layout.
  rewrite drop_app_exact by (by rewrite length_encode_head).
  apply take_app_length.
Qed.

(** A record inside a log that fits has a head that fits. *)
Lemma log_ok_head es1 e es2 :
  log_ok (es1 ++ e :: es2) → head_ok (entry_head (log_size es1) e).
Proof.
  intros [Hall Hsz]. rewrite log_size_app in Hsz. simpl in Hsz.
  rewrite Forall_app, Forall_cons in Hall. destruct Hall as (_ & [Hp Ht] & _).
  pose proof (log_size_nonneg es1). pose proof (log_size_nonneg es2).
  pose proof (en_size_pos e). unfold HEAD_SIZE in *.
  split_and!; simpl; eval_pow2; unfold FOX_MAGIC; lia.
Qed.

(** ** Reading a head from a log *)

(** [fox_read_head] where a well-formed head is stored: it returns the head
    and its size, and leaves the offset after it. *)
Lemma fox_read_head_at w fd name ap bytes pos ph pad h :
  opened w fd name ap bytes →
  w_fds w !! fd = Some (OFile name pos ap) →
  take 24 (drop (Z.to_nat pos) bytes) = encode_head pad h →
  head_ok h → magic h = FOX_MAGIC →
  ∃ w', fox_read_head fd ph w = Some ((HEAD_SIZE, h), w')
    ∧ opened w' fd name ap bytes
    ∧ w_fds w' !! fd = Some (OFile name (pos + HEAD_SIZE) ap)
    ∧ w_files w' = w_files w.
Proof.
  intros Hop Hoff Hbytes Hh Hm.
  destruct (opened_read _ _ _ _ _ Hop pos 24 Hoff) as (w' & Hr & Hrest).
  rewrite Hbytes, zlen_encode_head in *. exists w'. split; [|done].
  unfold fox_read_head, st_bind, st_lift. rewrite Hr.
  change (u64 HEAD_SIZE) with HEAD_SIZE. rewrite Z.eqb_refl.
  unfold overlay_head.
  rewrite (drop_ge (encode_head 0 ph)) by (by rewrite !length_encode_head).
  rewrite app_nil_r, decode_encode_head by done.
  rewrite Hm, Z.eqb_refl. reflexivity.
Qed.

(** At the end of the file it returns 0 and leaves the caller's head, whose
    [prev] is what [fox_check_head] then uses. *)
Lemma fox_read_head_eof w fd name ap bytes ph :
  opened w fd name ap bytes →
  w_fds w !! fd = Some (OFile name (zlen bytes) ap) →
  0 ≤ prev ph < 2 ^ 32 →
  ∃ w' h', fox_read_head fd ph w = Some ((0, h'), w') ∧ prev h' = prev ph
    ∧ opened w' fd name ap bytes ∧ w_files w' = w_files w.
Proof.
  intros Hop Hoff Hp.
  destruct (opened_read _ _ _ _ _ Hop (zlen bytes) 24 Hoff) as (w' & Hr & Hop' & _ & Hfs).
  rewrite (drop_ge bytes), take_nil in * by (unfold zlen; lia).
  eexists w', _. split; [unfold fox_read_head, st_bind, st_lift; rewrite Hr; reflexivity|].
  split; [|done]. unfold overlay_head. rewrite app_nil_l. rewrite drop_0.
  rewrite decode_encode_head_wrap. by apply wrap_small.
Qed.

(** Seeking to a record and reading its head. *)
Lemma seek_entry w fd name ap es1 e es2 ph :
  opened w fd name ap (layout 0 (es1 ++ e :: es2)) →
  log_ok (es1 ++ e :: es2) →
  ∃ w1 w2, sys_lseek fd (log_size es1) w = (log_size es1, w1)
    ∧ fox_read_head fd ph w1 = Some ((HEAD_SIZE, entry_head (log_size es1) e), w2)
    ∧ opened w2 fd name ap (layout 0 (es1 ++ e :: es2))
    ∧ w_fds w2 !! fd = Some (OFile name (log_size es1 + HEAD_SIZE) ap)
    ∧ w_files w2 = w_files w.
Proof.
  intros Hop Hok. pose proof (log_size_nonneg es1) as Hpos.
  destruct (opened_lseek _ _ _ _ _ Hop (log_size es1) Hpos) as (w1 & Hs & Hop1 & Hoff & Hf1).
  destruct (fox_read_head_at w1 fd name ap (layout 0 (es1 ++ e :: es2)) (log_size es1) ph (en_pad e)
              (entry_head (log_size es1) e)) as (w2 & Hr & Hop2 & Hoff2 & Hf2);
    eauto using layout_head_at, log_ok_head.
  exists w1, w2. split_and!; [done|done|done|done|congruence].
Qed.

(** The same through the [int]-typed seek of the readers: the offset must fit
    in an [int]. *)
Lemma seek_entry_int w fd name ap es1 e es2 ph :
  opened w fd name ap (layout 0 (es1 ++ e :: es2)) →
  log_ok (es1 ++ e :: es2) → log_size es1 < 2 ^ 31 →
  ∃ w1 w2, lseek_int fd (log_size es1) w = Some (log_size es1, w1)
    ∧ fox_read_head fd ph w1 = Some ((HEAD_SIZE, entry_head (log_size es1) e), w2)
    ∧ opened w2 fd name ap (layout 0 (es1 ++ e :: es2))
    ∧ w_fds w2 !! fd = Some (OFile name (log_size es1 + HEAD_SIZE) ap)
    ∧ w_files w2 = w_files w.
Proof.
  intros Hop Hok Hint. pose proof (log_size_nonneg es1) as Hpos.
  destruct (seek_entry w fd name ap es1 e es2 ph Hop Hok) as (w1 & w2 & Hs & Hrest).
  exists w1, w2. split; [|done]. unfold lseek_int, st_bind, st_lift, st_ret. rewrite Hs.
  rewrite swrap_small; [done|lia|]. simpl. eval_pow2. lia.
Qed.
