(* ===== verification/FoxWriter.v ===== *)
(** * FoxWriter: the append side of the store

    [fox_setup_write] recovers the end of a day's log and [fox_write] appends
    one record to it, keeps the log well formed and ordered in time, and
    switches file at a new day; what the code does when a call fails, when a
    file is damaged and when it is reopened. *)

From S2P Require Import Prelude Posix Calendar FoxTSDB FoxLog.

Local Opaque encode_head decode_head.

(** ** Opening for writing *)

Definition last_prev (es : list entry) : Z :=
  match last es with Some e => en_prev e | None => 0 end.

Lemma last_prev_range es : log_ok es → 0 ≤ last_prev es < 2 ^ 32.
Proof.
  intros [Hall _]. unfold last_prev. destruct (last es) as [e|] eqn:Hl; [|lia].
  apply last_Some_elem_of in Hl. rewrite Forall_forall in Hall. by apply Hall.
Qed.

Lemma fox_check_head_loop_spec es2 : ∀ es1 fuel w fd name ap pman head,
  (length es2 < fuel)%nat →
  opened w fd name ap (layout 0 (es1 ++ es2)) →
  log_ok (es1 ++ es2) →
  prev head = last_prev es1 →
  ∃ w', fox_check_head_loop fuel fd pman head (log_size es1) w
        = Some ((0, set_pos (log_size (es1 ++ es2))
                      (set_last_pos (last_prev (es1 ++ es2)) pman)), w')
    ∧ opened w' fd name ap (layout 0 (es1 ++ es2)) ∧ w_files w' = w_files w.
Proof.
  induction es2 as [|e es2 IH]; intros es1 fuel w fd name ap pman head Hfuel Hop Hok Hprev;
    (destruct fuel as [|fuel]; [simpl in Hfuel; lia|]); simpl fox_check_head_loop;
    pose proof (log_size_nonneg es1) as Hnn.
  - rewrite app_nil_r in *.
    destruct (opened_lseek _ _ _ _ _ Hop (log_size es1) Hnn) as (w1 & Hs & Hop1 & Hoff & Hf1).
    destruct (fox_read_head_eof w1 fd name ap (layout 0 es1) head)
      as (w2 & h' & Hr & Hp & Hop2 & Hf2); [done|by rewrite zlen_layout| |].
    { rewrite Hprev. by apply last_prev_range. }
    unfold st_bind, st_lift at 1. rewrite Hs. rewrite (proj2 (Z.ltb_ge _ _) Hnn), Hr. simpl.
    eexists; split; [by rewrite Hp, Hprev|]. split; [done|congruence].
  - destruct (seek_entry w fd name ap es1 e es2 head Hop Hok)
      as (w1 & w2 & Hs & Hr & Hop2 & _ & Hf2).
    unfold st_bind, st_lift at 1. rewrite Hs. rewrite (proj2 (Z.ltb_ge _ _) Hnn), Hr. simpl.
    replace (log_size es1 + en_size e) with (log_size (es1 ++ [e]))
      by (rewrite log_size_app; simpl; lia).
    rewrite (snoc_middle es1 e es2) in *.
    destruct (IH (es1 ++ [e]) fuel w2 fd name ap pman (entry_head (log_size es1) e))
      as (w3 & Hl & Hop3 & Hf3); [simpl in Hfuel; lia|done|done| |].
    { unfold last_prev. by rewrite last_snoc. }
    exists w3. rewrite Hl. split; [done|]. split; [done|congruence].
Qed.

(** Fuel for one pass over the heads of a log. *)
Definition enough (fuel : nat) (es : list entry) : Prop := (length es < fuel)%nat.

Lemma fox_check_spec E es fuel w fd name ap pman :
  enough fuel es → opened w fd name ap (layout 0 es) → log_ok es →
  ∃ w', fox_check E fuel fd pman w
        = Some ((0, set_pos (log_size es) (set_last_pos (last_prev es) pman)), w')
    ∧ opened w' fd name ap (layout 0 es) ∧ w_files w' = w_files w.
Proof.
  intros Hfuel Hop Hok. unfold fox_check, fox_check_head.
  unfold st_bind at 1, st_lift at 1. rewrite (opened_lockf _ _ _ _ _ Hop). simpl.
  destruct (fox_check_head_loop_spec es [] fuel w fd name ap pman
    (FoxHead 0 (next (e_junk E)) (t_us (e_junk E)) (magic (e_junk E)) (flag (e_junk E))))
    as (w' & Hl & Hop' & Hf); [done..|].
  simpl log_size in Hl. unfold st_bind, st_lift. rewrite Hl. simpl.
  rewrite (opened_lockf _ _ _ _ _ Hop'). eauto.
Qed.

(** The file of a manager's day; the name does not depend on the time. *)
Definition pman_fname (pman : fox_manager) : string :=
  pack_fname (FoxDate (pm_year pman) (pm_mon pman) (pm_mday pman) 0 0 0).

(** [fox_setup_write] on a day whose file holds the log [es] (an absent file
    holds the empty log) positions the manager at the end of the log. *)
Lemma fox_setup_write_log E es fuel w pman p now :
  enough fuel es → w_sched w = [] → 0 ≤ w_next w →
  default [] (w_files w !! pack_fname p) = layout 0 es → log_ok es →
  ∃ w', fox_setup_write E fuel pman p now w
        = Some ((0, set_now now (set_day p (set_pos (log_size es)
                      (set_last_pos (last_prev es) (set_fd (w_next w) pman))))), w')
    ∧ opened w' (w_next w) (pack_fname p) true (layout 0 es)
    ∧ w_files w' = <[pack_fname p := layout 0 es]> (w_files w).
Proof.
  intros Hfuel Hs Hfd Hfile Hok.
  assert (∃ w1, sys_open (pack_fname p) true w = (w_next w, w1)
    ∧ opened w1 (w_next w) (pack_fname p) true (layout 0 es)
    ∧ w_files w1 = <[pack_fname p := layout 0 es]> (w_files w)) as (w1 & Ho & Hop & Hf1).
  { unfold sys_open. rewrite (pop_good _ Hs).
    destruct (w_files w !! pack_fname p) as [b|] eqn:Hb; simpl in Hfile; subst;
      eexists; (split; [reflexivity|]); simpl.
    - rewrite (insert_id (w_files w)) by done. by_opened.
    - rewrite <-Hfile. by_opened. }
  unfold fox_setup_write. unfold st_bind at 1, st_lift at 1. rewrite Ho.
  rewrite (proj2 (Z.ltb_ge _ _) Hfd).
  destruct (fox_check_spec E es fuel w1 (w_next w) (pack_fname p) true
    (set_fd (w_next w) pman)) as (w2 & Hc & Hop2 & Hf2); [done..|].
  unfold st_bind. rewrite Hc. simpl. eexists; split; [done|]. split; [done|congruence].
Qed.

(** ** The writer's invariant *)

(** Times never decrease along the log and never pass the manager's clock. *)
Definition times_ok (es : list entry) (now : Z) : Prop :=
  StronglySorted Z.le (en_t <$> es) ∧ Forall (λ e, en_t e ≤ now) es.

Record writer_ok (w : world) (pman : fox_manager) (es : list entry) : Prop := {
  wr_open : opened w (pm_fd pman) (pman_fname pman) true (layout 0 es);
  wr_log : log_ok es;
  wr_times : times_ok es (pm_now pman);
  wr_pos : pm_pos pman = log_size es;
  wr_last : 0 ≤ pm_last_pos pman < 2 ^ 32;
  wr_now : 0 ≤ pm_now pman;
}.

Lemma times_ok_snoc es now us e :
  times_ok es now → now ≤ us → en_t e = us → times_ok (es ++ [e]) us.
Proof.
  intros [Hs Hle] Hus He. split.
  - rewrite fmap_app. simpl. apply StronglySorted_app_2; [|done|repeat constructor].
    intros x y Hx Hy. apply list_elem_of_singleton in Hy as ->.
    apply list_elem_of_fmap in Hx as (e' & -> & Hin).
    rewrite Forall_forall in Hle. specialize (Hle _ Hin). simpl in Hle. lia.
  - apply Forall_app. split; [|repeat constructor; lia].
    eapply Forall_impl; [exact Hle|]. simpl. lia.
Qed.

Lemma log_ok_snoc es e :
  log_ok es → entry_ok e → log_size es + en_size e < 2 ^ 32 → log_ok (es ++ [e]).
Proof.
  intros [Hall Hsz] He Hnew. split.
  - apply Forall_app. split; [done|by apply Forall_singleton].
  - rewrite log_size_app. simpl. lia.
Qed.

(** [fox_write_data] appends exactly one record to the log. *)
Lemma fox_write_data_log E w pman es us data :
  writer_ok w pman es → pm_now pman ≤ us < 2 ^ 64 →
  log_size es + HEAD_SIZE + zlen data < 2 ^ 32 →
  let e := Entry (pm_last_pos pman) us (e_pad E) data in
  let pman' := set_pos (log_size (es ++ [e]))
                 (set_last_pos (log_size es) (set_now us pman)) in
  ∃ w', fox_write_data E pman us data w = Some ((0, pman'), w')
    ∧ writer_ok w' pman' (es ++ [e])
    ∧ w_files w' = <[pman_fname pman := layout 0 (es ++ [e])]> (w_files w).
Proof.
  intros [Hop Hlog Htimes Hpos Hlast Hnow] Hus Hsz e pman'.
  pose proof (log_size_nonneg es) as Hnn. pose proof (zlen_nonneg data) as Hdn.
  assert (log_size (es ++ [e]) = log_size es + HEAD_SIZE + zlen data) as Hsize.
  { rewrite log_size_app. simpl. unfold en_size. simpl. lia. }
  unfold fox_write_data. rewrite Hpos, (wrap_small 32 (pm_last_pos pman)) by done.
  rewrite (wrap_small 32 (log_size es + _ + _)) by (unfold HEAD_SIZE in *; lia).
  st_step (opened_lockf _ _ _ _ _ Hop). zif.
  destruct (opened_write _ _ _ _ (encode_head (e_pad E)
    (FoxHead (pm_last_pos pman) (log_size es + HEAD_SIZE + zlen data) us FOX_MAGIC 0)) Hop)
    as (w1 & Hw1 & Hop1 & Hf1). rewrite zlen_encode_head in Hw1.
  destruct (opened_write _ _ _ _ data Hop1) as (w2 & Hw2 & Hop2 & Hf2).
  st_step Hw1. unfold HEAD_SIZE at 1. zif. st_step Hw2. zif.
  st_step (opened_lockf _ _ _ _ _ Hop2). zif.
  assert (layout 0 (es ++ [e]) = (layout 0 es ++ encode_head (e_pad E)
    (FoxHead (pm_last_pos pman) (log_size es + HEAD_SIZE + zlen data) us FOX_MAGIC 0)) ++ data)
    as Hlay.
  { rewrite layout_app. simpl. rewrite app_nil_r, <-app_assoc. do 3 f_equal.
    unfold entry_head, en_size. simpl. f_equal. lia. }
  rewrite <-Hlay in *. subst pman'. rewrite Hsize. eexists; split; [done|]. split.
  - constructor; simpl; rewrite ?Hsize; try done; try lia.
    + apply log_ok_snoc; [done|split; simpl; lia|unfold en_size; simpl; lia].
    + by eapply times_ok_snoc; [done|lia|].
    + unfold HEAD_SIZE in *. lia.
  - rewrite Hf2, Hf1, insert_insert_eq. done.
Qed.

(** A manager just opened on a log not newer than [now] satisfies the
    writer's invariant. *)
Lemma fox_setup_write_ok E es fuel w pman p now :
  enough fuel es → w_sched w = [] → 0 ≤ w_next w → 0 ≤ now →
  default [] (w_files w !! pack_fname p) = layout 0 es → log_ok es → times_ok es now →
  ∃ w' pman', fox_setup_write E fuel pman p now w = Some ((0, pman'), w')
    ∧ writer_ok w' pman' es ∧ pm_last_pos pman' = last_prev es ∧ pm_now pman' = now
    ∧ pman_fname pman' = pack_fname p
    ∧ w_files w' = <[pack_fname p := layout 0 es]> (w_files w).
Proof.
  intros Hfuel Hs Hfd Hnow Hfile Hlog Ht.
  destruct (fox_setup_write_log E es fuel w pman p now) as (w' & Hw & Hop & Hf); [done..|].
  eexists w', _. split; [exact Hw|]. split_and!; [|done..].
  constructor; simpl; auto using last_prev_range.
Qed.

(** ** fox_write *)

(** [fox_write] on the manager's own day. *)
Lemma fox_write_same_day E fuel w pman d us data :
  check_pman_date pman d = true → pm_now pman ≤ us →
  fox_write E fuel pman d us data w = fox_write_data E (set_new_day 0 pman) us data w.
Proof.
  intros Hd Hus. unfold fox_write. rewrite Hd. simpl negb. cbv iota.
  unfold st_bind, st_ret. simpl. by rewrite (proj2 (Z.leb_le _ _) Hus).
Qed.

Lemma writer_ok_new_day w pman es v : writer_ok w pman es → writer_ok w (set_new_day v pman) es.
Proof. intros []; by constructor. Qed.

(** C4: a write on the manager's day whose time is not in the past appends
    exactly one record, carrying the data, the time and a link to the
    manager's last position, to the log in the file; no other file changes,
    the result is 0, and the log stays well formed and ordered in time, with
    the manager at its end. *)
Theorem fox_write_appends E fuel w pman d es us data :
  writer_ok w pman es → check_pman_date pman d = true →
  pm_now pman ≤ us < 2 ^ 64 →
  log_size es + HEAD_SIZE + zlen data < 2 ^ 32 →
  let e := Entry (pm_last_pos pman) us (e_pad E) data in
  ∃ w' pman', fox_write E fuel pman d us data w = Some ((0, pman'), w')
    ∧ writer_ok w' pman' (es ++ [e])
    ∧ w_files w' = <[pman_fname pman := layout 0 (es ++ [e])]> (w_files w)
    ∧ pm_last_pos pman' = log_size es ∧ pm_now pman' = us ∧ pm_new_day pman' = 0.
Proof.
  intros Hwr Hd Hus Hsz e. rewrite fox_write_same_day by (done || lia).
  destruct (fox_write_data_log E w (set_new_day 0 pman) es us data)
    as (w' & Hw & Hwr' & Hf); [by apply writer_ok_new_day|done|done|].
  eexists w', _. split; [exact Hw|]. by split_and!.
Qed.


(** A write older than the manager's clock is dropped: the call returns 0
    and no file, descriptor or position changes. *)
Theorem fox_write_stale E fuel w pman d us data :
  check_pman_date pman d = true → us < pm_now pman →
  fox_write E fuel pman d us data w = Some ((0, set_new_day 0 pman), w).
Proof.
  intros Hd Hus. unfold fox_write. rewrite Hd. simpl negb. cbv iota.
  unfold st_bind, st_ret. simpl. by rewrite (proj2 (Z.leb_gt _ _) Hus).
Qed.

(** ** The links of the heads *)

(** [linked lp start es]: the records of [es], the first at offset [start],
    are linked backwards without a gap, the first one to [lp]. *)
Fixpoint linked (lp start : Z) (es : list entry) : Prop :=
  match es with
  | [] => True
  | e :: es' => en_prev e = lp ∧ linked start (start + en_size e) es'
  end.

(** The link the next record must carry. *)
Fixpoint end_link (lp start : Z) (es : list entry) : Z :=
  match es with
  | [] => lp
  | e :: es' => end_link start (start + en_size e) es'
  end.

Lemma linked_app lp start es1 es2 :
  linked lp start (es1 ++ es2)
  ↔ linked lp start es1 ∧ linked (end_link lp start es1) (start + log_size es1) es2.
Proof.
  revert lp start; induction es1 as [|e es1 IH]; intros lp start; simpl.
  - rewrite Z.add_0_r. tauto.
  - rewrite IH, Z.add_assoc. tauto.
Qed.

Lemma end_link_snoc lp start es e : end_link lp start (es ++ [e]) = start + log_size es.
Proof.
  revert lp start; induction es as [|e' es IH]; intros lp start; simpl; [lia|].
  rewrite IH. lia.
Qed.

(** Successive calls of [fox_write] on one day, as [CfoxTSDB:write] makes
    them; [true] when every one returned 0. *)
Fixpoint fox_writes (E : fox_env) (fuel : nat) (pman : fox_manager) (d : foxDate)
    (samples : list (Z * list Z)) : ST world (bool * fox_manager) :=
  match samples with
  | [] => st_ret (true, pman)
  | (us, data) :: samples' =>
      st_bind (fox_write E fuel pman d us data) (λ '(r, pman'),
        st_bind (fox_writes E fuel pman' d samples') (λ '(b, pman''),
          st_ret ((r =? 0) && b, pman'')))
  end.

(** The records that [samples] become, the first at offset [start]. *)
Fixpoint chain (pad lp start : Z) (samples : list (Z * list Z)) : list entry :=
  match samples with
  | [] => []
  | (us, data) :: samples' =>
      Entry lp us pad data :: chain pad start (start + HEAD_SIZE + zlen data) samples'
  end.

(** Sample times that never go back, from [now] on. *)
Fixpoint times_from (now : Z) (samples : list (Z * list Z)) : Prop :=
  match samples with
  | [] => True
  | (us, _) :: samples' => now ≤ us < 2 ^ 64 ∧ times_from us samples'
  end.

Lemma check_pman_date_ext pman pman' d :
  pm_year pman' = pm_year pman → pm_mon pman' = pm_mon pman → pm_mday pman' = pm_mday pman →
  check_pman_date pman' d = check_pman_date pman d.
Proof. unfold check_pman_date. by intros -> -> ->. Qed.

(** A session of writes on one day, from a manager whose last position is the
    offset of the last record. *)
Lemma fox_writes_spec E fuel d samples : ∀ w pman es,
  writer_ok w pman es → check_pman_date pman d = true →
  linked 0 0 es → pm_last_pos pman = end_link 0 0 es →
  times_from (pm_now pman) samples →
  log_size (es ++ chain (e_pad E) (pm_last_pos pman) (log_size es) samples) < 2 ^ 32 →
  let es' := es ++ chain (e_pad E) (pm_last_pos pman) (log_size es) samples in
  ∃ w' pman', fox_writes E fuel pman d samples w = Some ((true, pman'), w')
    ∧ writer_ok w' pman' es' ∧ linked 0 0 es' ∧ pm_last_pos pman' = end_link 0 0 es'
    ∧ pman_fname pman' = pman_fname pman.
Proof.
  induction samples as [|[us data] samples IH]; intros w pman es Hwr Hd Hl Hlast Ht Hsz;
    simpl chain in *; simpl fox_writes.
  - rewrite app_nil_r. eauto 7.
  - destruct Ht as [Hus Ht]. set (e := Entry (pm_last_pos pman) us (e_pad E) data) in *.
    rewrite snoc_middle in *. pose proof (log_size_nonneg (chain (e_pad E) (log_size es)
      (log_size es + HEAD_SIZE + zlen data) samples)) as Hnn.
    assert (log_size (es ++ [e]) = log_size es + HEAD_SIZE + zlen data) as Hsize.
    { rewrite log_size_app. simpl. unfold en_size. simpl. lia. }
    assert (log_size es + HEAD_SIZE + zlen data < 2 ^ 32) as Hroom.
    { rewrite log_size_app in Hsz. lia. }
    destruct (fox_write_data_log E w (set_new_day 0 pman) es us data) as (w1 & Hw1 & Hwr1 & Hf1);
      [by apply writer_ok_new_day|simpl; lia|done|].
    change (pm_last_pos (set_new_day 0 pman)) with (pm_last_pos pman) in *. fold e in Hw1, Hwr1.
    set (pman1 := set_pos _ _) in *.
    destruct (IH w1 pman1 (es ++ [e])) as (w2 & pman2 & Hw2 & Hrest).
    + done.
    + by rewrite <-Hd.
    + rewrite linked_app. split; [done|]. simpl. by rewrite Hlast.
    + rewrite end_link_snoc. done.
    + done.
    + change (pm_last_pos pman1) with (log_size es). by rewrite Hsize.
    + change (pm_last_pos pman1) with (log_size es) in *. rewrite Hsize in *.
      exists w2, pman2. split; [|exact Hrest].
      unfold st_bind at 1. rewrite fox_write_same_day by (done || lia).
      rewrite Hw1. unfold st_bind. by rewrite Hw2.
Qed.

Lemma sample_chain pad samples : ∀ lp start,
  (λ e, (en_t e, en_data e)) <$> chain pad lp start samples = samples.
Proof. induction samples as [|[us data] samples IH]; intros; simpl; by rewrite ?IH. Qed.

Lemma length_chain pad samples : ∀ lp start, length (chain pad lp start samples) = length samples.
Proof. induction samples as [|[us data] samples IH]; intros; simpl; by rewrite ?IH. Qed.

(** Opening a day that has no file yet and writing [samples] to it. *)
Lemma fox_fresh_session E fuel w pman p t0 samples :
  (0 < fuel)%nat → w_sched w = [] → 0 ≤ w_next w →
  w_files w !! pack_fname p = None → 0 ≤ t0 → times_from t0 samples →
  log_size (chain (e_pad E) 0 0 samples) < 2 ^ 32 →
  let es := chain (e_pad E) 0 0 samples in
  ∃ w1 pman1 w2 pman2,
    fox_setup_write E fuel pman p t0 w = Some ((0, pman1), w1)
    ∧ fox_writes E fuel pman1 p samples w1 = Some ((true, pman2), w2)
    ∧ writer_ok w2 pman2 es ∧ linked 0 0 es ∧ pman_fname pman2 = pack_fname p.
Proof.
  intros Hfuel Hs Hn Hfile Ht0 Htimes Hsz es.
  destruct (fox_setup_write_ok E [] fuel w pman p t0)
    as (w1 & pman1 & Hw1 & Hwr1 & Hl1 & Hn1 & Hname & _);
    [done..|by rewrite Hfile|by split|by repeat constructor|].
  assert (check_pman_date pman1 p = true) as Hd.
  { destruct (fox_setup_write_log E [] fuel w pman p t0) as (w1' & Hw1' & _);
      [done..|by rewrite Hfile|by split|].
    rewrite Hw1 in Hw1'. injection Hw1' as -> _. unfold check_pman_date. simpl.
    by rewrite !Z.eqb_refl. }
  rewrite <-Hn1 in Htimes.
  destruct (fox_writes_spec E fuel p samples w1 pman1 [])
    as (w2 & pman2 & Hw2 & Hwr2 & Hlk & _ & Hname2); rewrite ?Hl1; [done..|].
  rewrite Hl1 in *. exists w1, pman1, w2, pman2. split_and!; [done..|congruence].
Qed.

(** C17: opening a day that has no file yet and writing [samples], whose times
    never go back, to it: every call returns 0 and the file holds exactly the
    samples in order, as a well-formed log in which every record links to the
    one before it. *)
Theorem fox_session E fuel w pman p t0 samples :
  (0 < fuel)%nat → w_sched w = [] → 0 ≤ w_next w →
  w_files w !! pack_fname p = None → 0 ≤ t0 → times_from t0 samples →
  log_size (chain (e_pad E) 0 0 samples) < 2 ^ 32 →
  ∃ w1 pman1 w2 pman2 es,
    fox_setup_write E fuel pman p t0 w = Some ((0, pman1), w1)
    ∧ fox_writes E fuel pman1 p samples w1 = Some ((true, pman2), w2)
    ∧ w_files w2 !! pack_fname p = Some (layout 0 es)
    ∧ (λ e, (en_t e, en_data e)) <$> es = samples ∧ linked 0 0 es ∧ log_ok es.
Proof.
  intros Hfuel Hs Hn Hfile Ht0 Htimes Hsz.
  destruct (fox_fresh_session E fuel w pman p t0 samples)
    as (w1 & pman1 & w2 & pman2 & Hw1 & Hw2 & [Hop Hlog _ _ _ _] & Hlk & Hname); [done..|].
  exists w1, pman1, w2, pman2, (chain (e_pad E) 0 0 samples).
  split_and!; [done..| |apply sample_chain|done|done].
  rewrite <-Hname. exact (op_file _ _ _ _ _ Hop).
Qed.

(** ** Reopening a day *)

(** C38: reopening a day for writing finds the end of its log, whatever the
    heads link to: the check terminates within one pass over the heads,
    returns 0, changes no byte of the file, and leaves the manager at the end
    of the log with its clock at the given time. *)
Theorem fox_setup_write_finds_end E fuel es w pman p now :
  (length es < fuel)%nat → w_sched w = [] → 0 ≤ w_next w →
  w_files w !! pack_fname p = Some (layout 0 es) → log_ok es →
  ∃ w' pman', fox_setup_write E fuel pman p now w = Some ((0, pman'), w')
    ∧ pm_pos pman' = log_size es ∧ pm_now pman' = now
    ∧ opened w' (pm_fd pman') (pack_fname p) true (layout 0 es)
    ∧ w_files w' = w_files w.
Proof.
  intros Hfuel Hs Hfd Hfile Hlog.
  destruct (fox_setup_write_log E es fuel w pman p now) as (w' & Hw & Hop & Hf);
    [done..|by rewrite Hfile|done|].
  eexists w', _. split; [exact Hw|]. split_and!; [done..|]. rewrite Hf. by apply insert_id.
Qed.

(** Reopening a day forgets the last record: the manager's last position
    becomes the offset of the record before it, so the next record written
    links past the last one and a backward walk skips it. *)
Theorem fox_setup_write_loses_link E fuel es a b w pman p now :
  linked 0 0 (es ++ [a; b]) →
  (length (es ++ [a; b]) < fuel)%nat → w_sched w = [] → 0 ≤ w_next w →
  w_files w !! pack_fname p = Some (layout 0 (es ++ [a; b])) → log_ok (es ++ [a; b]) →
  ∃ w' pman', fox_setup_write E fuel pman p now w = Some ((0, pman'), w')
    ∧ pm_last_pos pman' = log_size es
    ∧ end_link 0 0 (es ++ [a; b]) = log_size (es ++ [a])
    ∧ pm_last_pos pman' < end_link 0 0 (es ++ [a; b]).
Proof.
  intros Hl Hfuel Hs Hfd Hfile Hlog.
  destruct (fox_setup_write_log E (es ++ [a; b]) fuel w pman p now) as (w' & Hw & Hop & Hf);
    [done..|by rewrite Hfile|done|].
  rewrite (snoc_middle es a [b]) in *. rewrite linked_app in Hl.
  destruct Hl as [_ [Hb _]]. rewrite end_link_snoc, Z.add_0_l in *.
  eexists w', _. split; [exact Hw|]. simpl pm_last_pos.
  unfold last_prev. rewrite last_snoc, Hb, log_size_app. simpl.
  pose proof (en_size_pos a). unfold HEAD_SIZE in *. lia.
Qed.

(** ** Failing calls *)

(** C39: when the lock cannot be taken the write reports [-EACCES] and nothing
    changes; but when writing the head or the data fails, the call reports 0
    (the result of the unlock), the manager does not move, and a failed data
    write leaves in the file a head without its data. *)
Theorem fox_write_data_errors E w pman es us data :
  writer_ok w pman es →
  let head := FoxHead (u32 (pm_last_pos pman)) (u32 (pm_pos pman + HEAD_SIZE + zlen data))
                us FOX_MAGIC 0 in
  fox_write_data E pman us data (set_sched [Fail] w) = Some ((- EACCES, pman), w)
  ∧ fox_write_data E pman us data (set_sched [Good; Fail] w) = Some ((0, pman), w)
  ∧ ∃ w', fox_write_data E pman us data (set_sched [Good; Good; Fail] w) = Some ((0, pman), w')
      ∧ w_files w' !! pman_fname pman = Some (layout 0 es ++ encode_head (e_pad E) head).
Proof.
  intros [[Hs [off Ho] Hf Hnx] _ _ _ _ _] head.
  pose proof (set_sched_nil w Hs) as Hnil. unfold fox_write_data. split_and!.
  - st_step (fail_lockf w [] (pm_fd pman)). zif. by rewrite Hnil.
  - st_step (good_lockf w [Fail] _ _ Ho). zif.
    st_step (fail_write w [] (pm_fd pman) (encode_head (e_pad E) head)). zif.
    rewrite Hnil. by st_step (opened_lockf w _ _ _ _ (Build_opened w _ _ _ _ Hs (ex_intro _ _ Ho) Hf Hnx)).
  - destruct (good_write w [Fail] _ _ Ho (layout 0 es) (encode_head (e_pad E) head) Hf eq_refl)
      as (w1 & Hw & Hf1 & [o1 Ho1] & Hs1). rewrite zlen_encode_head in Hw.
    st_step (good_lockf w [Good; Fail] _ _ Ho). zif. st_step Hw. unfold HEAD_SIZE at 1. zif.
    st_step (fail_write w1 [] (pm_fd pman) data). zif.
    rewrite set_sched_nil by congruence.
    assert (sys_lockf (pm_fd pman) w1 = (0, w1)) as Hu.
    { unfold sys_lockf. rewrite pop_good by congruence. by rewrite Ho1. }
    st_step Hu. eexists; split; [done|]. rewrite Hf1. apply lookup_insert_eq.
Qed.

(** ** Damaged files *)

(** A head whose [next] is its own offset makes the check of
    [fox_setup_write] follow it forever: no number of iterations finishes. *)
Theorem fox_check_head_diverges E w fd name ap pad p t f rest pman :
  opened w fd name ap (encode_head pad (FoxHead p 0 t FOX_MAGIC f) ++ rest) →
  head_ok (FoxHead p 0 t FOX_MAGIC f) →
  ∀ fuel, fox_check_head E fuel fd pman w = None.
Proof.
  intros Hop Hok fuel. unfold fox_check_head.
  generalize (FoxHead 0 (next (e_junk E)) (t_us (e_junk E)) (magic (e_junk E)) (flag (e_junk E))).
  revert w Hop. induction fuel as [|fuel IH]; intros w Hop ph; [done|].
  simpl fox_check_head_loop.
  destruct (opened_lseek _ _ _ _ _ Hop 0) as (w1 & Hs & Hop1 & Hoff & _); [lia|].
  destruct (fox_read_head_at _ _ _ _ _ 0 ph pad (FoxHead p 0 t FOX_MAGIC f) Hop1)
    as (w2 & Hr & Hop2 & _); [done| |done|done|].
  { simpl. rewrite drop_0. apply take_app_exact. by rewrite length_encode_head. }
  st_step Hs. zif. st_step Hr. unfold HEAD_SIZE. zif. by apply IH.
Qed.
