(* ===== verification/FoxReader.v ===== *)
(** * FoxReader: the read side of the store

    The cursor finds the first record at or after a time, [fox_read] returns
    the record under the cursor and moves to the next one, and what was
    written is read back in order. *)

From S2P Require Import Prelude Posix Calendar FoxTSDB FoxLog FoxWriter.

Lemma fox_read_day_max_ext E p q :
  pm_year p = pm_year q → pm_mon p = pm_mon q → pm_mday p = pm_mday q →
  fox_read_day_max E p = fox_read_day_max E q.
Proof. unfold fox_read_day_max. by intros -> -> ->. Qed.

Lemma fox_read_day_max_date E p d :
  pm_year p = d_year d → pm_mon p = d_mon d → pm_mday p = d_mday d →
  fox_read_day_max E p
  = u64 (make_stamp E (FoxDate (d_year d) (d_mon d) (d_mday d) 0 0 0) + 24 * 60 * 60 * MICRO_UNIT).
Proof. unfold fox_read_day_max. by intros -> -> ->. Qed.

Lemma fox_read_init_now_ext E p q :
  pm_year p = pm_year q → pm_mon p = pm_mon q → pm_mday p = pm_mday q →
  fox_read_init_now E p = fox_read_init_now E q.
Proof. unfold fox_read_init_now. by intros -> -> ->. Qed.

Local Opaque encode_head decode_head fox_read_day_max fox_read_init_now wrap swrap.

(** ** The reader's invariant *)

(** The time the manager shows for a cursor in front of [es]: that of the
    next record, or the end of the day at the end of the file. *)
Definition cursor_time (E : fox_env) (pman : fox_manager) (es : list entry) : Z :=
  match es with e :: _ => en_t e | [] => fox_read_day_max E pman end.

(** The cursor stands between the records [before] and [after] of the file.
    The readers keep file offsets in an [int], so the file is smaller than
    2 GiB. *)
Record reader_ok (E : fox_env) (w : world) (pman : fox_manager) (name : string)
    (before after : list entry) : Prop := {
  rd_open : ∃ ap, opened w (pm_fd pman) name ap (layout 0 (before ++ after));
  rd_log : log_ok (before ++ after);
  rd_size : log_size (before ++ after) < 2 ^ 31;
  rd_fsize : pm_fsize pman = log_size (before ++ after);
  rd_pos : pm_pos pman = log_size before;
  rd_now : pm_now pman = cursor_time E pman after;
}.

Lemma offset_bounds es1 es2 :
  log_size (es1 ++ es2) < 2 ^ 31 → 0 ≤ log_size es1 < 2 ^ 31.
Proof.
  rewrite log_size_app. pose proof (log_size_nonneg es1). pose proof (log_size_nonneg es2). lia.
Qed.

Lemma u64_offset z : 0 ≤ z < 2 ^ 31 → u64 z = z.
Proof. intros. apply wrap_small. eval_pow2. lia. Qed.

(** ** Reading one record *)

(** [fox_cur_next] after the head of [e] moves the cursor over [e]. *)
Lemma fox_cur_next_spec E w pman name ap before e after :
  opened w (pm_fd pman) name ap (layout 0 (before ++ e :: after)) →
  log_ok (before ++ e :: after) → log_size (before ++ e :: after) < 2 ^ 31 →
  pm_fsize pman = log_size (before ++ e :: after) →
  ∃ r w' pman', fox_cur_next E pman (entry_head (log_size before) e) w = Some ((r, pman'), w')
    ∧ 0 ≤ r ∧ reader_ok E w' pman' name (before ++ [e]) after
    ∧ w_files w' = w_files w ∧ pm_fd pman' = pm_fd pman
    ∧ fox_read_day_max E pman' = fox_read_day_max E pman.
Proof.
  intros Hop Hlog Hsz Hfs. unfold fox_cur_next. cbv zeta.
  set (pos := next (entry_head (log_size before) e)).
  assert (pos = log_size (before ++ [e])) as Hpos by (unfold pos; rewrite log_size_app; simpl; lia).
  rewrite (snoc_middle before e after) in *.
  pose proof (offset_bounds _ _ Hsz) as Hb. rewrite Hpos, u64_offset by done. change (pm_fsize (set_pos _ pman)) with (pm_fsize pman). rewrite Hfs.
  destruct after as [|e' after].
  - rewrite app_nil_r in *. zif. eexists 0, w, _. split; [reflexivity|].
    split_and!; [lia| |done|done|by apply fox_read_day_max_ext].
    constructor; rewrite ?app_nil_r; [by exists ap|done..|by apply fox_read_day_max_ext].
  - assert (log_size (before ++ [e]) < log_size ((before ++ [e]) ++ e' :: after)).
    { rewrite (log_size_app (before ++ [e])). simpl. pose proof (en_size_pos e').
      pose proof (log_size_nonneg after). unfold HEAD_SIZE in *. lia. }
    zif.
    destruct (seek_entry_int w (pm_fd pman) name ap (before ++ [e]) e' after (e_junk E) Hop Hlog)
      as (w1 & w2 & Hs & Hr & Hop2 & _ & Hf2); [lia|].
    st_step Hs. zif. st_step Hr. rewrite (proj2 (Z.ltb_ge HEAD_SIZE 0)) by done.
    eexists _, w2, _. split; [reflexivity|].
    split_and!; [done| |done|done|by apply fox_read_day_max_ext].
    constructor; simpl; eauto.
Qed.

(** Reading the data after the head of [e]. *)
Lemma fox_read_stream_data w fd name ap before e after :
  opened w fd name ap (layout 0 (before ++ e :: after)) →
  w_fds w !! fd = Some (OFile name (log_size before + HEAD_SIZE) ap) →
  zlen (en_data e) < 2 ^ 31 →
  ∃ w', fox_read_stream fd (zlen (en_data e)) w = Some ((zlen (en_data e), en_data e), w')
    ∧ opened w' fd name ap (layout 0 (before ++ e :: after)) ∧ w_files w' = w_files w.
Proof.
  intros Hop Hoff Hlen. pose proof (zlen_nonneg (en_data e)).
  destruct (opened_read _ _ _ _ _ Hop _ (length (en_data e)) Hoff) as (w' & Hr & Hop' & _ & Hf).
  rewrite layout_data_at in Hr. exists w'. split; [|done].
  unfold fox_read_stream. replace (Z.to_nat (zlen (en_data e))) with (length (en_data e))
    by (unfold zlen; lia).
  st_step Hr. rewrite swrap_small; [done|lia|]. simpl. eval_pow2. lia.
Qed.

(** [fox_read] with the cursor in front of a record not newer than [stop]
    returns exactly that record's data, length and time, leaves the file as it
    is, and moves the cursor in front of the next record. *)
Lemma fox_read_record E w pman name before e after stop :
  reader_ok E w pman name before (e :: after) → en_t e ≤ stop →
  ∃ w' pman', fox_read E pman stop w
      = Some ((zlen (en_data e), pman',
               FoxOut (Some (en_data e)) (zlen (en_data e)) (Some (en_t e))), w')
    ∧ reader_ok E w' pman' name (before ++ [e]) after
    ∧ w_files w' = w_files w
    ∧ fox_read_day_max E pman' = fox_read_day_max E pman.
Proof.
  intros [[ap Hop] Hlog Hsz Hfs Hpos Hnow] Hstop. simpl in Hnow.
  pose proof (offset_bounds _ _ Hsz) as Hb.
  assert (0 ≤ zlen (en_data e) < 2 ^ 31) as Hlen.
  { rewrite log_size_app in Hsz. simpl in Hsz. unfold en_size in Hsz.
    pose proof (zlen_nonneg (en_data e)). pose proof (log_size_nonneg after).
    unfold HEAD_SIZE in *. lia. }
  unfold fox_read, fox_read_work. rewrite Hnow, Hpos. zif.
  destruct (seek_entry_int w (pm_fd pman) name ap before e after (e_junk E) Hop Hlog)
    as (w1 & w2 & Hs & Hr & Hop2 & Hoff2 & Hf2); [lia|].
  unfold st_bind at 1. st_step Hs. zif. st_step Hr. unfold HEAD_SIZE at 1. zif.
  replace (i32 (next (entry_head (log_size before) e) - log_size before - HEAD_SIZE))
    with (zlen (en_data e)).
  2:{ simpl. unfold en_size.
      replace (log_size before + (HEAD_SIZE + zlen (en_data e)) - log_size before - HEAD_SIZE)
        with (zlen (en_data e)) by lia.
      symmetry. apply swrap_small; [lia|]. simpl. eval_pow2. lia. }
  zif.
  assert (fox_malloc w2 = Some (true, w2)) as Hm.
  { unfold fox_malloc, st_lift. by rewrite (pop_good _ (op_sched _ _ _ _ _ Hop2)). }
  st_step Hm.
  destruct (fox_read_stream_data w2 (pm_fd pman) name ap before e after Hop2 Hoff2)
    as (w3 & Hr3 & Hop3 & Hf3); [lia|].
  st_step Hr3. zif.
  destruct (fox_cur_next_spec E w3 pman name ap before e after)
    as (r & w4 & pman4 & Hn & Hr0 & Hrd & Hf4 & _ & Hmax); [done..|].
  st_step Hn. zif. unfold st_ret. zif.
  eexists w4, pman4. split.
  - unfold zlen at 3. rewrite Nat2Z.id, resize_all. reflexivity.
  - split_and!; [done|congruence|done].
Qed.

(** A read past [stop] returns nothing and does nothing. *)
Lemma fox_read_stop E w pman stop :
  stop < pm_now pman → fox_read E pman stop w = Some ((0, pman, no_out), w).
Proof. intros H. unfold fox_read, fox_read_work, st_bind. zif. reflexivity. Qed.

(** ** Moving right *)

(** The longest prefix of records older than [now], and the rest. *)
Fixpoint split_older (now : Z) (es : list entry) : list entry * list entry :=
  match es with
  | [] => ([], [])
  | e :: es' =>
      if en_t e <? now then let '(a, b) := split_older now es' in (e :: a, b) else ([], es)
  end.

Lemma split_older_app now es :
  let '(a, b) := split_older now es in
  es = a ++ b ∧ Forall (λ e, en_t e < now) a ∧ ∀ e b', b = e :: b' → now ≤ en_t e.
Proof.
  induction es as [|e es IH]; simpl; [by split_and!|].
  destruct (Z.ltb_spec (en_t e) now).
  - destruct (split_older now es) as [a b]. destruct IH as (-> & Ha & Hb). split_and!; auto.
  - split_and!; [done|constructor|]. intros ? ? [= -> ->]. done.
Qed.

(** The day fields, which no cursor movement changes. *)
Definition same_day (p q : fox_manager) : Prop :=
  pm_year p = pm_year q ∧ pm_mon p = pm_mon q ∧ pm_mday p = pm_mday q.

Lemma fox_cursor_right_loop_spec E mid : ∀ before rest fuel w fd name ap pman now head last_pos,
  (length mid < fuel)%nat →
  opened w fd name ap (layout 0 (before ++ mid ++ rest)) →
  log_ok (before ++ mid ++ rest) → log_size (before ++ mid ++ rest) < 2 ^ 31 →
  pm_fsize pman = log_size (before ++ mid ++ rest) → pm_fd pman = fd →
  Forall (λ e, en_t e < now) mid → (∀ e rest', rest = e :: rest' → now ≤ en_t e) →
  ∃ w' pman',
    fox_cursor_right_loop E fuel fd pman now head last_pos (log_size before) w
      = Some ((0, pman'), w')
    ∧ reader_ok E w' pman' name (before ++ mid) rest
    ∧ pm_last_pos pman' = end_link last_pos (log_size before) mid
    ∧ w_files w' = w_files w ∧ same_day pman' pman.
Proof.
  induction mid as [|e mid IH];
    intros before rest fuel w fd name ap pman now head last_pos Hfuel Hop Hlog Hsz Hfs Hfd Hmid Hrest;
    (destruct fuel as [|fuel]; [simpl in Hfuel; lia|]); simpl fox_cursor_right_loop;
    pose proof (offset_bounds _ _ Hsz) as Hb; rewrite u64_offset, Hfs by done.
  - simpl in *. rewrite app_nil_r. destruct rest as [|e rest].
    + rewrite app_nil_r in *. rewrite Z.eqb_refl. eexists w, _. split; [reflexivity|].
      split_and!; [|done..]. subst fd.
      constructor; rewrite ?app_nil_r; [by exists ap|done..|by apply fox_read_day_max_ext].
    + pose proof Hsz as Hsz'. rewrite log_size_app in Hsz' |- *. simpl in Hsz' |- *.
      pose proof (en_size_pos e). pose proof (log_size_nonneg rest). unfold HEAD_SIZE in *.
      zif. zif.
      destruct (seek_entry_int w fd name ap before e rest head Hop Hlog)
        as (w1 & w2 & Hs & Hr & Hop2 & _ & Hf2); [lia|].
      st_step Hs. zif. st_step Hr. unfold HEAD_SIZE. zif.
      specialize (Hrest e rest eq_refl). cbn [t_us entry_head]. zif.
      eexists w2, _. split; [reflexivity|]. split_and!; [|done..].
      constructor; simpl; subst; eauto.
  - apply Forall_cons in Hmid as [He Hmid]. simpl in Hfuel.
    pose proof Hsz as Hsz'. rewrite log_size_app in Hsz' |- *. simpl in Hsz' |- *.
    pose proof (en_size_pos e). pose proof (log_size_nonneg (mid ++ rest)).
    unfold HEAD_SIZE in *. zif. zif.
    destruct (seek_entry_int w fd name ap before e (mid ++ rest) head Hop Hlog)
      as (w1 & w2 & Hs & Hr & Hop2 & _ & Hf2); [lia|].
    st_step Hs. zif. st_step Hr. unfold HEAD_SIZE. zif. cbn [t_us next entry_head]. zif.
    replace (log_size before + en_size e) with (log_size (before ++ [e]))
      by (rewrite log_size_app; simpl; lia).
    change ((e :: mid) ++ rest) with (e :: (mid ++ rest)) in *.
    rewrite (snoc_middle before e (mid ++ rest)), (snoc_middle before e mid) in *.
    destruct (IH (before ++ [e]) rest fuel w2 fd name ap pman now
      (entry_head (log_size before) e) (log_size before))
      as (w3 & pman3 & Hl & Hrd & Hlp & Hf3 & Hday); [lia|done..|].
    exists w3, pman3. rewrite Hl, Hlp, (log_size_app before). simpl. rewrite Z.add_0_r.
    split_and!; [done..|congruence|done].
Qed.

(** Opening a day for reading at a time after its midnight puts the
    cursor in front of the first record not older than that time (at the end
    of the file when there is none); the search terminates within one pass and
    the file is unchanged. *)
Lemma fox_setup_read_at E fuel es w pman p now :
  (length es < fuel)%nat → w_sched w = [] → 0 ≤ w_next w →
  w_files w !! pack_fname p = Some (layout 0 es) → log_ok es → log_size es < 2 ^ 31 →
  make_stamp E (FoxDate (d_year p) (d_mon p) (d_mday p) 0 0 0) < now →
  ∃ w' pman', fox_setup_read E fuel pman p now w = Some ((0, pman'), w')
    ∧ reader_ok E w' pman' (pack_fname p) (split_older now es).1 (split_older now es).2
    ∧ w_files w' = w_files w
    ∧ pm_year pman' = d_year p ∧ pm_mon pman' = d_mon p ∧ pm_mday pman' = d_mday p.
Proof.
  intros Hfuel Hs Hfd Hfile Hlog Hsz Hnow.
  pose proof (split_older_app now es) as Hsplit.
  destruct (split_older now es) as [older newer]. destruct Hsplit as (-> & Hold & Hnew).
  assert (∃ w1, sys_open (pack_fname p) false w = (w_next w, w1)
    ∧ opened w1 (w_next w) (pack_fname p) false (layout 0 (older ++ newer))
    ∧ w_files w1 = w_files w) as (w1 & Ho & Hop & Hf1).
  { unfold sys_open. rewrite (pop_good _ Hs), Hfile.
    eexists; split; [reflexivity|]. simpl. by_opened. }
  unfold fox_setup_read. st_step Ho. zif.
  assert (fd_size (w_next w) w1 = Some (log_size (older ++ newer), w1)) as Hsize.
  { unfold fd_size. st_step (opened_fstat _ _ _ _ _ Hop). rewrite zlen_layout.
    simpl. rewrite u64_offset; [done|]. pose proof (log_size_nonneg (older ++ newer)). lia. }
  st_step Hsize. unfold fox_cursor, fox_cursor_work.
  set (pman0 := set_fsize _ _) in *.
  assert (pm_now pman0 < now ∧ pm_fsize pman0 = log_size (older ++ newer)
    ∧ pm_fd pman0 = w_next w ∧ pm_pos pman0 = log_size [] ∧ pm_year pman0 = d_year p
    ∧ pm_mon pman0 = d_mon p ∧ pm_mday pman0 = d_mday p)
    as (Hlt & Hfs & Hfd0 & Hpos & Hy & Hm & Hmd) by (split; [exact Hnow|done]).
  clearbody pman0. zif. zif. unfold fox_cursor_right. rewrite Hpos.
  destruct (fox_cursor_right_loop_spec E older [] newer fuel w1 (w_next w) (pack_fname p) false
    pman0 now (e_junk E) (pm_last_pos pman0))
    as (w2 & pman2 & Hl & Hrd & _ & Hf2 & (Hy2 & Hm2 & Hmd2)); [|done..|].
  { rewrite length_app in Hfuel. lia. }
  st_step Hl. zif. exists w2, pman2. split_and!; [done|done|congruence..].
Qed.

(** ** Reading a range back *)

(** Successive calls of [fox_read] until one returns no buffer, as the reader
    in [foxTSDB.lua] makes them: the records returned. *)
Fixpoint fox_reads (E : fox_env) (n : nat) (pman : fox_manager) (stop : Z)
    : ST world (list (Z * list Z)) :=
  match n with
  | O => st_out_of_fuel
  | S n' =>
      st_bind (fox_read E pman stop) (λ '(r, pman', out),
        match o_pp out, o_us out with
        | Some p, Some us => st_bind (fox_reads E n' pman' stop) (λ l, st_ret ((us, p) :: l))
        | _, _ => st_ret []
        end)
  end.

(** The records after one that is past [stop] are past it too. *)
Lemma sorted_after e after stop :
  StronglySorted Z.le (en_t <$> e :: after) → stop < en_t e →
  Forall (λ e, ¬ en_t e ≤ stop) after.
Proof.
  intros Hs Hlt. simpl in Hs. inversion Hs as [|? ? _ Hall]; subst.
  rewrite Forall_fmap in Hall. eapply Forall_impl; [exact Hall|]. simpl. lia.
Qed.

Definition sample (e : entry) : Z * list Z := (en_t e, en_data e).

Lemma fox_reads_spec E after : ∀ n w pman name before stop,
  (length after < n)%nat → reader_ok E w pman name before after →
  stop < fox_read_day_max E pman → StronglySorted Z.le (en_t <$> after) →
  ∃ w', fox_reads E n pman stop w
        = Some (sample <$> filter (λ e, en_t e ≤ stop) after, w')
    ∧ w_files w' = w_files w.
Proof.
  induction after as [|e after IH]; intros n w pman name before stop Hn Hrd Hstop Hsort;
    (destruct n as [|n]; [simpl in Hn; lia|]); simpl fox_reads;
    pose proof (rd_now _ _ _ _ _ _ Hrd) as Hnow; simpl in Hnow.
  - rewrite (st_bind_some _ _ _ _ _ (fox_read_stop E w pman stop ltac:(lia))). simpl. eauto.
  - destruct (decide (en_t e ≤ stop)) as [Hle|Hgt].
    + destruct (fox_read_record E w pman name before e after stop Hrd Hle)
        as (w1 & pman1 & Hr & Hrd1 & Hf1 & Hmax).
      inversion Hsort; subst. simpl in Hn.
      destruct (IH n w1 pman1 name (before ++ [e]) stop) as (w2 & Hl & Hf2);
        [lia|done|congruence|done|].
      st_step Hr. simpl. st_step Hl. exists w2. rewrite filter_cons_True by done.
      split; [done|congruence].
    + rewrite (st_bind_some _ _ _ _ _ (fox_read_stop E w pman stop ltac:(lia))). simpl.
      exists w. split; [|done]. do 2 f_equal. rewrite filter_cons_False by done.
      rewrite filter_none; [done|]. apply (sorted_after e); [done|lia].
Qed.

Lemma split_older_sorted now es :
  StronglySorted Z.le (en_t <$> es) →
  (split_older now es).2 = filter (λ e, now ≤ en_t e) es.
Proof.
  induction es as [|e es IH]; intros Hs; [done|]. simpl split_older.
  destruct (Z.ltb_spec (en_t e) now).
  - rewrite filter_cons_False by lia. simpl in Hs. inversion Hs; subst.
    rewrite <-IH by done. by destruct (split_older now es).
  - symmetry. apply filter_all. constructor; [done|]. simpl in Hs.
    inversion Hs as [|? ? _ Hall]; subst. rewrite Forall_fmap in Hall.
    eapply Forall_impl; [exact Hall|]. simpl. lia.
Qed.

Lemma split_older_tail_sorted now es :
  StronglySorted Z.le (en_t <$> es) → StronglySorted Z.le (en_t <$> (split_older now es).2).
Proof.
  pose proof (split_older_app now es) as H. destruct (split_older now es) as [a b].
  destruct H as (-> & _). rewrite fmap_app. apply StronglySorted_app_1_r.
Qed.

Lemma split_older_length now es : (length (split_older now es).2 ≤ length es)%nat.
Proof.
  pose proof (split_older_app now es) as H. destruct (split_older now es) as [a b].
  destruct H as (-> & _). rewrite length_app. simpl. lia.
Qed.

(** C1: what a day's writer stored is what a reader gets back. Samples written
    in time order to a fresh day are returned, by opening the day for reading
    at [from] and reading up to [stop], exactly, in order and complete: the
    samples whose time lies in [from, stop]. *)
Theorem fox_range_query E fuel w pm_w pm_r p t0 samples from stop :
  (length samples < fuel)%nat → w_sched w = [] → 0 ≤ w_next w →
  w_files w !! pack_fname p = None → 0 ≤ t0 → times_from t0 samples →
  log_size (chain (e_pad E) 0 0 samples) < 2 ^ 31 →
  let midnight := make_stamp E (FoxDate (d_year p) (d_mon p) (d_mday p) 0 0 0) in
  midnight < from → stop < u64 (midnight + 24 * 60 * 60 * MICRO_UNIT) →
  ∃ w1 pm1 w2 pm2 w3 pm3 w4,
    fox_setup_write E fuel pm_w p t0 w = Some ((0, pm1), w1)
    ∧ fox_writes E fuel pm1 p samples w1 = Some ((true, pm2), w2)
    ∧ fox_setup_read E fuel pm_r p from w2 = Some ((0, pm3), w3)
    ∧ fox_reads E fuel pm3 stop w3
      = Some (filter (λ s, from ≤ s.1 ∧ s.1 ≤ stop) samples, w4).
Proof.
  intros Hfuel Hs Hn Hfile Ht0 Htimes Hsz midnight Hfrom Hstop.
  assert (2 ^ 31 < 2 ^ 32) by done.
  destruct (fox_fresh_session E fuel w pm_w p t0 samples)
    as (w1 & pm1 & w2 & pm2 & Hw1 & Hw2 & [Hop Hlog [Hsort _] _ _ _] & _ & Hname); [done || lia..|].
  set (es := chain (e_pad E) 0 0 samples) in *. rewrite Hname in Hop.
  destruct (fox_setup_read_at E fuel es w2 pm_r p from)
    as (w3 & pm3 & Hw3 & Hrd & _ & Hy & Hm & Hd); destruct Hop as [? ? ? ?]; [|done..|].
  { unfold es. by rewrite length_chain. }
  destruct (fox_reads_spec E (split_older from es).2 fuel w3 pm3 (pack_fname p)
    (split_older from es).1 stop) as (w4 & Hw4 & _); [|done| | |].
  - eapply Nat.le_lt_trans; [apply split_older_length|]. unfold es. by rewrite length_chain.
  - by rewrite (fox_read_day_max_date E pm3 p).
  - by apply split_older_tail_sorted.
  - exists w1, pm1, w2, pm2, w3, pm3, w4. split_and!; [done..|]. rewrite Hw4. do 2 f_equal.
    rewrite split_older_sorted, list_filter_filter by done.
    rewrite <-(sample_chain (e_pad E) samples 0 0), filter_fmap.
    f_equal. apply list_filter_iff. simpl. tauto.
Qed.

(** ** Moving left *)

(** In a linked log a record links to the offset of the one before it. *)
Lemma linked_prev es1 a b es2 :
  linked 0 0 (es1 ++ a :: b :: es2) → en_prev b = log_size es1.
Proof. rewrite linked_app. intros [_ (_ & Hb & _)]. lia. Qed.

(** One step left over a record not older than [now]. *)
Lemma fox_cursor_left_visit es1 e es2 fuel w fd name ap pman now head last_t :
  opened w fd name ap (layout 0 (es1 ++ e :: es2)) → log_ok (es1 ++ e :: es2) →
  log_size (es1 ++ e :: es2) < 2 ^ 31 → now ≤ en_t e → en_prev e ≠ 0 →
  ∃ w', fox_cursor_left_loop (S fuel) fd pman now head (log_size es1) last_t w
        = fox_cursor_left_loop fuel fd pman now (entry_head (log_size es1) e)
            (en_prev e) (en_t e) w'
    ∧ opened w' fd name ap (layout 0 (es1 ++ e :: es2)) ∧ w_files w' = w_files w.
Proof.
  intros Hop Hlog Hsz Hge Hp. pose proof (offset_bounds _ _ Hsz).
  destruct (seek_entry_int w fd name ap es1 e es2 head Hop Hlog)
    as (w1 & w2 & Hs & Hr & Hop2 & _ & Hf2); [lia|].
  exists w2. split; [|done]. simpl fox_cursor_left_loop.
  st_step Hs. zif. st_step Hr. unfold HEAD_SIZE. zif. cbn [t_us prev entry_head]. zif. zif. done.
Qed.

(** The last step: a record older than [now]. *)
Lemma fox_cursor_left_stop es1 e es2 fuel w fd name ap pman now head last_t :
  opened w fd name ap (layout 0 (es1 ++ e :: es2)) → log_ok (es1 ++ e :: es2) →
  log_size (es1 ++ e :: es2) < 2 ^ 31 → en_t e < now →
  ∃ w', fox_cursor_left_loop (S fuel) fd pman now head (log_size es1) last_t w
        = Some ((0, set_last_pos (log_size es1)
                      (set_now last_t (set_pos (log_size (es1 ++ [e])) pman))), w')
    ∧ opened w' fd name ap (layout 0 (es1 ++ e :: es2)) ∧ w_files w' = w_files w.
Proof.
  intros Hop Hlog Hsz Hlt. pose proof (offset_bounds _ _ Hsz).
  destruct (seek_entry_int w fd name ap es1 e es2 head Hop Hlog)
    as (w1 & w2 & Hs & Hr & Hop2 & _ & Hf2); [lia|].
  exists w2. split; [|done]. simpl fox_cursor_left_loop.
  st_step Hs. zif. st_step Hr. unfold HEAD_SIZE. zif. cbn [t_us next entry_head]. zif.
  rewrite log_size_app. simpl. by rewrite Z.add_0_r.
Qed.

Definition first_t (es : list entry) (e : entry) : Z :=
  match es with e' :: _ => en_t e' | [] => en_t e end.

Lemma log_size_pos es : es ≠ [] → 0 < log_size es.
Proof.
  destruct es as [|e es]; [done|]. intros _. simpl. pose proof (en_size_pos e).
  pose proof (log_size_nonneg es). unfold HEAD_SIZE in *. lia.
Qed.

(** Walking back from the record [e] over the records of [back], all not
    older than [now], to the last record [o] older than [now]. *)
Lemma fox_cursor_left_loop_spec o0 o back : ∀ e rest fuel w fd name ap pman now head last_t,
  let es := o0 ++ o :: back ++ e :: rest in
  (S (length back) < fuel)%nat →
  opened w fd name ap (layout 0 es) → log_ok es → log_size es < 2 ^ 31 → linked 0 0 es →
  o0 ≠ [] → en_t o < now → Forall (λ e, now ≤ en_t e) (back ++ [e]) →
  ∃ w', fox_cursor_left_loop fuel fd pman now head (log_size (o0 ++ o :: back)) last_t w
        = Some ((0, set_last_pos (log_size o0)
                      (set_now (first_t back e) (set_pos (log_size (o0 ++ [o])) pman))), w')
    ∧ opened w' fd name ap (layout 0 es) ∧ w_files w' = w_files w.
Proof.
  induction back as [|b back IH] using rev_ind;
    intros e rest fuel w fd name ap pman now head last_t es Hfuel Hop Hlog Hsz Hlk Ho0 Ho Hge;
    (destruct fuel as [|fuel]; [lia|]).
  - simpl in es. subst es. pose proof (linked_prev o0 o e rest Hlk) as Hp.
    pose proof (log_size_pos o0 Ho0). rewrite app_nil_l, Forall_singleton in Hge.
    rewrite (snoc_middle o0 o (e :: rest)) in *. 
    destruct (fox_cursor_left_visit (o0 ++ [o]) e rest fuel w fd name ap pman now head last_t)
      as (w1 & -> & Hop1 & Hf1); [done..|lia|].
    rewrite Hp. destruct fuel as [|fuel]; [simpl in Hfuel; lia|].
    rewrite <-(snoc_middle o0 o (e :: rest)) in *.
    destruct (fox_cursor_left_stop o0 o (e :: rest) fuel w1 fd name ap pman now
      (entry_head (log_size (o0 ++ [o])) e) (en_t e)) as (w2 & -> & Hop2 & Hf2); [done..|].
    exists w2. split_and!; [done..|congruence].
  - rewrite length_app in Hfuel. simpl in Hfuel. apply Forall_app in Hge as [Hback He].
    rewrite Forall_singleton in He. subst es.
    assert (o0 ++ o :: (back ++ [b]) ++ e :: rest = (o0 ++ o :: back ++ [b]) ++ e :: rest) as Heq
      by (by simplify_list_eq).
    assert ((o0 ++ o :: back ++ [b]) ++ e :: rest = o0 ++ o :: back ++ b :: e :: rest) as Heq2
      by (by simplify_list_eq).
    rewrite Heq in *.
    assert (en_prev e = log_size (o0 ++ o :: back)) as Hp.
    { apply (linked_prev _ b e rest). by simplify_list_eq. }
    assert (0 < log_size (o0 ++ o :: back)) by (apply log_size_pos; by destruct o0).
    destruct (fox_cursor_left_visit (o0 ++ o :: back ++ [b]) e rest fuel w fd name ap pman now
      head last_t) as (w1 & -> & Hop1 & Hf1); [done..|lia|].
    rewrite Hp, Heq2 in *.
    destruct (IH b (e :: rest) fuel w1 fd name ap pman now
      (entry_head (log_size (o0 ++ o :: back ++ [b])) e) (en_t e))
      as (w2 & -> & Hop2 & Hf2); [lia|done..|].
    exists w2. split_and!; [|done|congruence]. by destruct back.
Qed.

(** Where [fox_cursor_left] starts: at the record under the cursor, or at the
    last record when the cursor is at the end of the file. *)
Lemma left_start E w pman name o0 o newer1 newer2 :
  reader_ok E w pman name (o0 ++ o :: newer1) newer2 → newer1 ++ newer2 ≠ [] →
  (newer2 = [] → pm_last_pos pman = end_link 0 0 (o0 ++ o :: newer1)) →
  ∃ back e rest, newer1 ++ newer2 = back ++ e :: rest
    ∧ (if u64 (pm_pos pman) =? pm_fsize pman then pm_last_pos pman else pm_pos pman)
      = log_size (o0 ++ o :: back).
Proof.
  intros [_ _ Hsz Hfs Hpos _] Hne Hlast. rewrite Hfs, Hpos.
  rewrite u64_offset by (by eapply offset_bounds). destruct newer2 as [|e rest].
  - rewrite !app_nil_r in *. rewrite Z.eqb_refl, Hlast by done.
    destruct newer1 as [|e back _] using rev_ind; [done|].
    exists back, e, []. split; [done|].
    rewrite app_comm_cons, app_assoc, end_link_snoc. lia.
  - exists newer1, e, rest. split; [done|].
    rewrite (proj2 (Z.eqb_neq _ _)); [done|]. rewrite (log_size_app (o0 ++ o :: newer1)).
    pose proof (log_size_pos (e :: rest) ltac:(done)). lia.
Qed.

(** Moving the cursor of a linked log back to a time [now]: when at least
    two records are older than [now], the cursor ends in front of the first
    record not older than [now], whether it started at a record or at the end
    of the file, and the walk terminates within one pass. *)
Theorem fox_cur_move_left E fuel w pman name o0 o newer1 newer2 now :
  reader_ok E w pman name (o0 ++ o :: newer1) newer2 →
  linked 0 0 (o0 ++ o :: newer1 ++ newer2) → newer1 ++ newer2 ≠ [] →
  (newer2 = [] → pm_last_pos pman = end_link 0 0 (o0 ++ o :: newer1)) →
  o0 ≠ [] → en_t o < now → Forall (λ e, now ≤ en_t e) (newer1 ++ newer2) →
  now < pm_now pman → (S (length (newer1 ++ newer2)) < fuel)%nat →
  ∃ w' pman', fox_cur_move E fuel pman now w = Some ((0, pman'), w')
    ∧ reader_ok E w' pman' name (o0 ++ [o]) (newer1 ++ newer2)
    ∧ w_files w' = w_files w ∧ pm_last_pos pman' = log_size o0.
Proof.
  intros Hrd Hlk Hne Hlast Ho0 Ho Hge Hnow Hfuel.
  destruct (left_start E w pman name o0 o newer1 newer2 Hrd Hne Hlast)
    as (back & e & rest & Heq & Hstart).
  destruct Hrd as [[ap Hop] Hlog Hsz Hfs Hpos Ht].
  unfold fox_cur_move, fox_cursor, fox_cursor_work, fox_cursor_left. zif. rewrite Hstart.
  assert ((o0 ++ o :: newer1) ++ newer2 = o0 ++ o :: back ++ e :: rest) as Hes
    by (rewrite <-Heq; by simplify_list_eq).
  rewrite Heq, Hes in *.
  destruct (fox_cursor_left_loop_spec o0 o back e rest fuel w (pm_fd pman) name ap pman now
    (e_junk E) (pm_now pman)) as (w' & Hl & Hop' & Hf); [|done..| |].
  { rewrite length_app in Hfuel. simpl in Hfuel. lia. }
  { rewrite (snoc_middle back e rest) in Hge. by apply Forall_app in Hge as [? _]. }
  eexists w', _. split; [exact Hl|]. split_and!; [|done|done].
  constructor; rewrite <-?(snoc_middle o0 o (back ++ e :: rest)); [by exists ap|done..|].
  by destruct back.
Qed.

(** The backward walk never looks at the first record: with the cursor
    on the second record, moving to a time between the first two puts the
    cursor on the first record, although it is older than the time asked for,
    and shows the second record's time for it. *)
Theorem fox_cur_move_first E fuel w pman name o e rest now :
  reader_ok E w pman name [o] (e :: rest) → linked 0 0 (o :: e :: rest) →
  en_t o < now < en_t e → (0 < fuel)%nat →
  ∃ w' pman', fox_cur_move E fuel pman now w = Some ((0, pman'), w')
    ∧ pm_pos pman' = 0 ∧ pm_now pman' = en_t e.
Proof.
  intros [[ap Hop] Hlog Hsz Hfs Hpos Ht] (_ & Hp & _) Hnow Hfuel. simpl in Ht.
  pose proof (offset_bounds _ _ Hsz).
  destruct fuel as [|fuel]; [lia|].
  unfold fox_cur_move, fox_cursor, fox_cursor_work, fox_cursor_left. zif.
  rewrite Hpos, Hfs, u64_offset by done.
  assert (log_size [o] < log_size ([o] ++ e :: rest)).
  { rewrite log_size_app. pose proof (log_size_pos (e :: rest) ltac:(done)). lia. }
  zif. simpl fox_cursor_left_loop.
  destruct (seek_entry_int w (pm_fd pman) name ap [o] e rest (e_junk E) Hop Hlog)
    as (w1 & w2 & Hs & Hr & _); [lia|].
  change (en_size o + 0) with (log_size [o]).
  st_step Hs. zif. st_step Hr. cbv delta [HEAD_SIZE]. zif.
  cbn [t_us prev entry_head]. zif. rewrite Hp. zif.
  by eexists _, _.
Qed.

(** At the end of the file, a read whose [stop] is not before the end of
    the day takes an uninitialised head for a record: the length, the time and
    the new position it returns are those of the stack garbage. *)
Theorem fox_read_eof_garbage E w pman name es stop :
  reader_ok E w pman name es [] → fox_read_day_max E pman ≤ stop →
  head_ok (e_junk E) → log_size es + HEAD_SIZE ≤ next (e_junk E) < 2 ^ 31 →
  ∃ w' pman' p, fox_read E pman stop w
    = Some ((next (e_junk E) - log_size es - HEAD_SIZE, pman',
             FoxOut (Some p) (next (e_junk E) - log_size es - HEAD_SIZE)
               (Some (t_us (e_junk E)))), w')
    ∧ pm_pos pman' = next (e_junk E).
Proof.
  intros [[ap Hop] Hlog Hsz Hfs Hpos Ht] Hstop Hjunk Hnext. rewrite app_nil_r in *. simpl in Ht.
  pose proof (log_size_nonneg es). unfold HEAD_SIZE in *.
  destruct (opened_lseek _ _ _ _ _ Hop (log_size es)) as (w1 & Hs1 & Hop1 & Hoff1 & _); [lia|].
  assert (lseek_int (pm_fd pman) (log_size es) w = Some (log_size es, w1)) as Hs.
  { unfold lseek_int. st_step Hs1. rewrite swrap_small; [done|lia|]. simpl. eval_pow2. lia. }
  rewrite <-(zlen_layout 0 es) in Hoff1.
  destruct (opened_read _ _ _ _ _ Hop1 _ 24 Hoff1) as (w2 & Hr2 & Hop2 & Hoff2 & _).
  rewrite drop_ge, take_nil in Hr2, Hoff2 by (unfold zlen; lia).
  assert (fox_read_head (pm_fd pman) (e_junk E) w1 = Some ((0, e_junk E), w2)) as Hr.
  { unfold fox_read_head. st_step Hr2. unfold overlay_head. simpl length. rewrite drop_0.
    by rewrite app_nil_l, decode_encode_head. }
  unfold fox_read, fox_read_work. rewrite Hpos, Ht. zif.
  unfold st_bind at 1. st_step Hs. zif. st_step Hr. zif.
  rewrite swrap_small by (simpl; eval_pow2; unfold HEAD_SIZE; lia). unfold HEAD_SIZE. zif.
  assert (fox_malloc w2 = Some (true, w2)) as Hm.
  { unfold fox_malloc, st_lift. by rewrite (pop_good _ (op_sched _ _ _ _ _ Hop2)). }
  st_step Hm.
  destruct (opened_read _ _ _ _ _ Hop2 _ (Z.to_nat (next (e_junk E) - log_size es - 24)) Hoff2)
    as (w3 & Hr3 & _). rewrite drop_ge, take_nil in Hr3 by (unfold zlen; simpl; lia).
  unfold fox_read_stream, st_bind at 1. unfold st_bind at 1, st_lift at 1. rewrite Hr3.
  simpl st_ret. unfold st_ret at 1. cbv beta iota zeta. change (i32 (zlen [])) with 0. zif.
  unfold fox_cur_next. cbv zeta. change (pm_fsize (set_pos _ pman)) with (pm_fsize pman).
  rewrite Hfs, u64_offset by lia. zif. unfold st_bind, st_ret. zif.
  eexists _, _, _. by split.
Qed.
