(* ===== verification/FoxFacts.v ===== *)
(** * FoxFacts: dates, large files and growing files

    Three facts about the edges of the store: the date and time-stamp helpers
    invert each other up to the local time zone, a cursor beyond 2 GiB cannot
    be read because [lseek]'s result is kept in an [int], and
    [fox_read_resize] follows a file that grew and reopens one that did not. *)

From S2P Require Import Prelude Posix Calendar FoxTSDB FoxLog FoxReader.

(** ** Dates *)

Lemma civil_year_bounds n :
  0 ≤ n < 10000000 →
  let '(y, _, _) := civil_from_days n in 1969 ≤ y ≤ 29400.
Proof.
  intros Hn. unfold civil_from_days.
  pose proof (Z.mod_pos_bound (n + 719468) 146097 ltac:(lia)) as Hdoe.
  pose proof (Z.div_mod (n + 719468) 146097 ltac:(lia)) as Hd.
  set (doe := (n + 719468) mod 146097) in *. set (era := (n + 719468) / 146097) in *.
  assert (doe / 365 - 1 ≤ (doe - doe / 1460 + doe / 36524 - doe / 146096) / 365 ≤ doe / 365)
    as Hyoe by (clearbody doe; clear -Hdoe; Z.div_mod_to_equations; lia).
  set (yoe := (doe - doe / 1460 + doe / 36524 - doe / 146096) / 365) in *.
  clearbody yoe. assert (365 * (doe / 365) ≤ doe < 365 * (doe / 365) + 365)
    by (clear; Z.div_mod_to_equations; lia).
  destruct (_ <=? 2); lia.
Qed.

(** Within the range of the fields of [struct foxDate], the conversion to a
    date keeps every field of the broken-down time. *)
Lemma date2tm_get_date us :
  0 ≤ us < 2 ^ 59 → date2tm (get_date_from_us us) = gmtime (us / MICRO_UNIT).
Proof.
  intros Hus. unfold get_date_from_us, tm2date, date2tm.
  pose proof (gmtime_fields (us / MICRO_UNIT)) as Hf.
  assert (0 ≤ us / MICRO_UNIT / 86400 < 10000000) as Hday.
  { unfold MICRO_UNIT. change (2 ^ 59) with 576460752303423488 in Hus.
    Z.div_mod_to_equations. lia. }
  pose proof (civil_year_bounds _ Hday) as Hy. unfold gmtime in *.
  destruct (civil_from_days _) as [[y m] d]. simpl in Hf |- *.
  rewrite !swrap_small by (simpl; lia).
  done.
Qed.

(** The time stamp of the date of a time is the time cut to the second,
    shifted by the local time zone: dates are UTC but stamps are local. *)
Theorem make_stamp_get_date E us :
  0 ≤ us < 2 ^ 59 →
  make_stamp E (get_date_from_us us) = u64 (us - us mod MICRO_UNIT - e_gmtoff E * MICRO_UNIT).
Proof.
  intros Hus. unfold make_stamp. rewrite date2tm_get_date by done.
  unfold mktime. rewrite timegm_gmtime. f_equal. unfold MICRO_UNIT.
  Z.div_mod_to_equations. lia.
Qed.

(** ** Large files *)

Lemma lseek_int_large w fd name ap bytes pos :
  opened w fd name ap bytes → 2 ^ 31 ≤ pos < 2 ^ 32 →
  ∃ w', lseek_int fd pos w = Some (pos - 2 ^ 32, w') ∧ w_files w' = w_files w.
Proof.
  intros Hop Hpos. destruct (opened_lseek _ _ _ _ _ Hop pos) as (w' & Hs & _ & _ & Hf); [lia|].
  exists w'. split; [|done]. unfold lseek_int. st_step Hs. unfold st_ret. do 2 f_equal.
  unfold swrap. simpl Z.sub. eval_pow2. Z.div_mod_to_equations. lia.
Qed.

(** Although [prev] and [next] hold offsets of up to 4 GiB and the
    writer fills the file that far, a reader whose cursor is beyond 2 GiB gets
    [-EACCES] for every record: the seek succeeds, but its result, kept in an
    [int], is negative. *)
Theorem fox_read_beyond_2g E w pman name ap bytes stop :
  opened w (pm_fd pman) name ap bytes → 2 ^ 31 ≤ pm_pos pman < 2 ^ 32 →
  pm_now pman ≤ stop →
  ∃ w', fox_read E pman stop w = Some ((- EACCES, pman, no_out), w') ∧ w_files w' = w_files w.
Proof.
  intros Hop Hpos Hstop.
  destruct (lseek_int_large _ _ _ _ _ _ Hop Hpos) as (w' & Hs & Hf).
  exists w'. split; [|done]. unfold fox_read, fox_read_work. zif.
  unfold st_bind at 1. st_step Hs. eval_pow2. zif. reflexivity.
Qed.

(** ** Following a file *)

Local Opaque fox_read_init_now fox_read_day_max make_stamp encode_head decode_head.

(** A reader in the middle of a file that has grown sees the new size
    and keeps its cursor; a reader of a file that has not grown reopens it:
    the cursor goes back to the start of the day and the old descriptor stays
    open beside the new one. *)
Theorem fox_read_resize_spec E fuel w pman bytes :
  let name := pack_fname (FoxDate (pm_year pman) (pm_mon pman) (pm_mday pman) 0 0 0) in
  (0 < fuel)%nat → opened w (pm_fd pman) name false bytes →
  zlen bytes < 2 ^ 64 → u64 (pm_pos pman) ≠ pm_fsize pman → pm_fd pman < w_next w →
  (pm_fsize pman < zlen bytes →
     fox_read_resize E fuel pman w = Some ((0, set_fsize (zlen bytes) pman), w))
  ∧ (zlen bytes ≤ pm_fsize pman →
     ∃ w' pman', fox_read_resize E fuel pman w = Some ((0, pman'), w')
       ∧ pm_pos pman' = 0 ∧ pm_now pman' = fox_read_init_now E pman
       ∧ pm_fd pman' = w_next w ∧ pm_fd pman' ≠ pm_fd pman
       ∧ is_Some (w_fds w' !! pm_fd pman) ∧ is_Some (w_fds w' !! pm_fd pman')).
Proof.
  intros name Hfuel Hop Hlen Hpos Hfd. pose proof (zlen_nonneg bytes).
  assert (∀ w fd bytes name, opened w fd name false bytes → zlen bytes < 2 ^ 64 →
    fd_size fd w = Some (zlen bytes, w)) as Hsize.
  { intros w' fd b n Ho Hl. unfold fd_size. st_step (opened_fstat _ _ _ _ _ Ho). simpl.
    rewrite wrap_small by (split; [apply zlen_nonneg|done]). done. }
  unfold fox_read_resize. split; intros Hcmp.
  - st_step (Hsize _ _ _ _ Hop Hlen). zif. zif. done.
  - st_step (Hsize _ _ _ _ Hop Hlen). zif.
    destruct Hop as [Hs [off Ho] Hf Hnx]. unfold fox_setup_read.
    assert (sys_open name false w = (w_next w, World (w_files w)
      (<[w_next w := OFile name 0 false]> (w_fds w)) (w_next w + 1) (w_clock w) (w_sched w)))
      as Hopen by (unfold sys_open; by rewrite (pop_good _ Hs), Hf).
    set (w1 := World _ _ _ _ _) in Hopen.
    assert (opened w1 (w_next w) name false bytes) as Hop1.
    { constructor; simpl; [done| |done|lia]. eexists. apply lookup_insert_eq. }
    unfold st_bind at 1. st_step Hopen. zif.
    st_step (Hsize _ _ _ _ Hop1 Hlen).
    set (p1 := set_fsize _ _).
    assert (pm_now p1 = make_stamp E (FoxDate (pm_year pman) (pm_mon pman) (pm_mday pman) 0 0 0))
      as Hnow by reflexivity.
    assert (fox_cursor E fuel (w_next w) p1 (make_stamp E (FoxDate (pm_year pman) (pm_mon pman)
      (pm_mday pman) 0 0 0)) w1 = Some ((0, p1), w1)) as Hcur.
    { unfold fox_cursor, fox_cursor_work. rewrite Hnow. zif. done. }
    st_step Hcur. zif. simpl.
    eexists _, _. split_and!; [reflexivity|done..|simpl; lia| |]; simpl.
    + rewrite lookup_insert_ne by lia. by eexists.
    + rewrite lookup_insert_eq. by eexists.
Qed.
