(* ===== verification/FoxSamples.v ===== *)
(** * FoxSamples: the store's theorems at concrete days

    A small day of three records in UTC, a writer and a reader opened on it,
    and each theorem of the store applied to them. *)

From S2P Require Import Prelude Posix Calendar FoxTSDB FoxLog FoxWriter FoxReader FoxFacts.

(** 2023-06-15 00:00:00 UTC, in microseconds. *)
Definition s_midnight : Z := 1686787200000000.
Definition s_env : fox_env := FoxEnv 0 0 (FoxHead 0 999 7 0 0) 0.
Definition s_day : foxDate := FoxDate 123 5 15 0 0 0.
Definition s_name : string := pack_fname s_day.

Definition s_e1 : entry := Entry 0 (s_midnight + 1000) 0 [1; 2; 3].
Definition s_e2 : entry := Entry 0 (s_midnight + 2000) 0 [4].
Definition s_e3 : entry := Entry 27 (s_midnight + 3000) 0 [5; 6].
Definition s_log : list entry := [s_e1; s_e2; s_e3].

Definition s_world (append : bool) (files : gmap string (list Z)) : world :=
  World files {[3 := OFile s_name 0 append]} 4 s_midnight [].
Definition s_full : gmap string (list Z) := {[s_name := layout 0 s_log]}.
Definition s_empty : world := s_world true ∅.

(** A writer at the end of the day. *)
Definition s_writer : fox_manager := FoxMan (s_midnight + 3000) 78 52 0 3 0 123 5 15.
(** A reader at position [pos] showing time [now]. *)
Definition s_reader (now pos last : Z) : fox_manager := FoxMan now pos last 78 3 0 123 5 15.

Lemma s_log_ok : log_ok s_log.
Proof. split; [repeat constructor; done|done]. Qed.

Lemma s_opened ap : opened (s_world ap s_full) 3 s_name ap (layout 0 s_log).
Proof. split; [done|by exists 0|done|done]. Qed.

Lemma s_writer_ok : writer_ok (s_world true s_full) s_writer s_log.
Proof.
  split; try done; [apply s_opened|apply s_log_ok|].
  split; repeat constructor; done.
Qed.

Lemma s_reader_mid_ok now :
  now = s_midnight + 2000 →
  reader_ok s_env (s_world false s_full) (s_reader now 27 0) s_name [s_e1] [s_e2; s_e3].
Proof.
  intros ->. split; [exists false; apply s_opened|apply s_log_ok|done..].
Qed.

Lemma s_reader_end_ok :
  reader_ok s_env (s_world false s_full)
    (s_reader (fox_read_day_max s_env (s_reader 0 78 52)) 78 52) s_name s_log [].
Proof.
  split; [exists false; apply s_opened|apply s_log_ok|done..|].
  apply fox_read_day_max_ext; done.
Qed.

Lemma fox_write_appends_witness :
  ∃ w' pman', fox_write s_env 1 s_writer s_day (s_midnight + 4000) [7; 8] (s_world true s_full)
    = Some ((0, pman'), w') ∧ pm_last_pos pman' = 78.
Proof.
  destruct (fox_write_appends s_env 1 (s_world true s_full) s_writer s_day s_log
    (s_midnight + 4000) [7; 8] s_writer_ok eq_refl ltac:(done) ltac:(done))
    as (w' & pman' & Hw & _ & _ & Hl & _).
  exists w', pman'. split; [exact Hw|]. rewrite Hl. reflexivity.
Defined.


Lemma fox_write_stale_witness :
  fox_write s_env 1 s_writer s_day (s_midnight + 500) [7] (s_world true s_full)
  = Some ((0, set_new_day 0 s_writer), s_world true s_full).
Proof. apply (fox_write_stale s_env 1 (s_world true s_full)); [reflexivity|done]. Defined.

Definition s_samples : list (Z * list Z) :=
  [(s_midnight + 1000, [1; 2; 3]); (s_midnight + 2000, [4]); (s_midnight + 3000, [5; 6])].

Lemma s_times : times_from 0 s_samples.
Proof. by repeat split. Qed.

Lemma fox_session_witness :
  ∃ w1 pman1 w2 pman2, fox_setup_write s_env 1 s_writer s_day 0 s_empty = Some ((0, pman1), w1)
    ∧ fox_writes s_env 1 pman1 s_day s_samples w1 = Some ((true, pman2), w2).
Proof.
  destruct (fox_session s_env 1 s_empty s_writer s_day 0 s_samples ltac:(lia) eq_refl
    ltac:(done) eq_refl ltac:(done) s_times ltac:(done))
    as (w1 & p1 & w2 & p2 & es & H1 & H2 & _). by exists w1, p1, w2, p2.
Defined.

Lemma fox_setup_write_finds_end_witness :
  ∃ w' pman', fox_setup_write s_env 4 s_writer s_day 0 (s_world true s_full)
    = Some ((0, pman'), w') ∧ pm_pos pman' = 78.
Proof.
  destruct (fox_setup_write_finds_end s_env 4 s_log (s_world true s_full) s_writer s_day 0
    ltac:(simpl; lia) eq_refl ltac:(done) eq_refl s_log_ok) as (w' & p' & Hw & Hp & _).
  by exists w', p'.
Defined.

Lemma fox_setup_write_loses_link_witness :
  ∃ w' pman', fox_setup_write s_env 4 s_writer s_day 0 (s_world true s_full)
    = Some ((0, pman'), w') ∧ pm_last_pos pman' = 27.
Proof.
  destruct (fox_setup_write_loses_link s_env 4 [s_e1] s_e2 s_e3 (s_world true s_full) s_writer
    s_day 0 ltac:(by repeat split) ltac:(simpl; lia) eq_refl ltac:(done) eq_refl s_log_ok)
    as (w' & p' & Hw & Hp & _). by exists w', p'.
Defined.

Lemma fox_write_data_errors_witness :
  fox_write_data s_env s_writer (s_midnight + 4000) [7] (set_sched [Fail] (s_world true s_full))
  = Some ((- EACCES, s_writer), s_world true s_full).
Proof.
  apply (fox_write_data_errors s_env (s_world true s_full) s_writer s_log (s_midnight + 4000) [7]
    s_writer_ok).
Defined.

(** A file whose only head points to itself. *)
Definition s_looped : gmap string (list Z) :=
  {[s_name := encode_head 0 (FoxHead 0 0 7 FOX_MAGIC 0) ++ []]}.

Lemma fox_check_head_diverges_witness :
  fox_check_head s_env 1000 3 s_writer (s_world true s_looped) = None.
Proof.
  apply (fox_check_head_diverges s_env (s_world true s_looped) 3 s_name true 0 0 7 0 [] s_writer).
  - split; [done|by exists 0|done|done].
  - by repeat split.
Defined.

Lemma fox_range_query_witness :
  ∃ w1 pm1 w2 pm2 w3 pm3 w4,
    fox_setup_write s_env 4 s_writer s_day 0 s_empty = Some ((0, pm1), w1)
    ∧ fox_writes s_env 4 pm1 s_day s_samples w1 = Some ((true, pm2), w2)
    ∧ fox_setup_read s_env 4 s_writer s_day (s_midnight + 1500) w2 = Some ((0, pm3), w3)
    ∧ fox_reads s_env 4 pm3 (s_midnight + 2500) w3 = Some ([(s_midnight + 2000, [4])], w4).
Proof.
  destruct (fox_range_query s_env 4 s_empty s_writer s_writer s_day 0 s_samples
    (s_midnight + 1500) (s_midnight + 2500) ltac:(simpl; lia) eq_refl ltac:(done) eq_refl
    ltac:(done) s_times ltac:(done) ltac:(done) ltac:(done))
    as (w1 & p1 & w2 & p2 & w3 & p3 & w4 & H1 & H2 & H3 & H4).
  by exists w1, p1, w2, p2, w3, p3, w4.
Defined.

Lemma fox_cur_move_left_witness :
  ∃ w' pman', fox_cur_move s_env 4 (s_reader (fox_read_day_max s_env (s_reader 0 78 52)) 78 52)
      (s_midnight + 2500) (s_world false s_full) = Some ((0, pman'), w')
    ∧ pm_last_pos pman' = 27.
Proof.
  destruct (fox_cur_move_left s_env 4 (s_world false s_full) _ s_name [s_e1] s_e2 [s_e3] []
    (s_midnight + 2500) s_reader_end_ok ltac:(by repeat split) ltac:(done) ltac:(done) ltac:(done)
    ltac:(done) ltac:(by repeat constructor) ltac:(done) ltac:(simpl; lia))
    as (w' & p' & Hw & _ & _ & Hl). by exists w', p'.
Defined.

Lemma fox_cur_move_first_witness :
  ∃ w' pman', fox_cur_move s_env 1 (s_reader (s_midnight + 2000) 27 0)
      (s_midnight + 1500) (s_world false s_full) = Some ((0, pman'), w')
    ∧ pm_pos pman' = 0 ∧ pm_now pman' = s_midnight + 2000.
Proof.
  apply (fox_cur_move_first s_env 1 (s_world false s_full) (s_reader (s_midnight + 2000) 27 0)
    s_name s_e1 s_e2 [s_e3]); [by apply s_reader_mid_ok|by repeat split|done|lia].
Defined.

Lemma fox_read_eof_garbage_witness :
  ∃ w' pman' p,
    fox_read s_env (s_reader (fox_read_day_max s_env (s_reader 0 78 52)) 78 52)
      (s_midnight + 86400000000) (s_world false s_full)
    = Some ((897, pman', FoxOut (Some p) 897 (Some 7)), w') ∧ pm_pos pman' = 999.
Proof.
  apply (fox_read_eof_garbage s_env (s_world false s_full) _ s_name s_log
    (s_midnight + 86400000000) s_reader_end_ok); [done|by repeat split|done].
Defined.

Lemma make_stamp_get_date_witness :
  make_stamp s_env (get_date_from_us (s_midnight + 1500000)) = s_midnight + 1000000.
Proof.
  transitivity (u64 ((s_midnight + 1500000) - (s_midnight + 1500000) mod MICRO_UNIT
    - e_gmtoff s_env * MICRO_UNIT)); [|reflexivity].
  apply make_stamp_get_date. done.
Defined.

Lemma fox_read_beyond_2g_witness :
  ∃ w', fox_read s_env (s_reader 0 (2 ^ 31) 0) s_midnight (s_world false s_full)
    = Some ((- EACCES, s_reader 0 (2 ^ 31) 0, no_out), w')
    ∧ w_files w' = s_full.
Proof.
  apply (fox_read_beyond_2g s_env (s_world false s_full) (s_reader 0 (2 ^ 31) 0) s_name false
    (layout 0 s_log)); [apply s_opened|done|done].
Defined.

Lemma fox_read_resize_spec_witness :
  ∃ w' pman', fox_read_resize s_env 1 (s_reader 0 27 0) (s_world false s_full)
    = Some ((0, pman'), w') ∧ pm_fd pman' ≠ 3 ∧ is_Some (w_fds w' !! 3).
Proof.
  destruct (fox_read_resize_spec s_env 1 (s_world false s_full) (s_reader 0 27 0) (layout 0 s_log)
    ltac:(lia) (s_opened false) ltac:(done) ltac:(done) ltac:(done)) as [_ H].
  destruct (H ltac:(done)) as (w' & p' & Hw & _ & _ & _ & Hne & Hold & _).
  by exists w', p'.
Defined.
