(* ===== verification/BeeQ.v ===== *)
(** * BeeQ: the message queue of the unity monitor

    The bounded queue of [source/tools/monitor/unity/beeQ/lib/beeQ.c]: a ring
    of message pointers guarded by a mutex, with the table of the threads that
    use it. This file holds [struct beeQ] and what each function does to it in
    one critical section (between taking and leaving the mutex); BeeThreads.v
    interleaves the critical sections. A pointer is a [Z], [NULL] is 0.

    The ring refines a list: [contents] are the messages in order, a push is
    an append, a pop takes the head, and the tests for full and empty are
    tests of its length. *)

From S2P Require Import Prelude.

Definition BEEQ_TIDS : nat := 32.
Definition LOOP_QUEUE_MAX : Z := 32.

Record beeQ := BeeQ {
  q_stop : Z;
  q_send : Z; q_recv : Z; q_size : Z;
  q_msgs : list Z;
  q_tid_count : Z;
  q_tids : list Z;
}.

Definition set_stop (v : Z) (q : beeQ) : beeQ :=
  BeeQ v (q_send q) (q_recv q) (q_size q) (q_msgs q) (q_tid_count q) (q_tids q).
Definition set_ring (s r : Z) (m : list Z) (q : beeQ) : beeQ :=
  BeeQ (q_stop q) s r (q_size q) m (q_tid_count q) (q_tids q).
Definition set_tids (c : Z) (t : list Z) (q : beeQ) : beeQ :=
  BeeQ (q_stop q) (q_send q) (q_recv q) (q_size q) (q_msgs q) c t.

Definition isfull (q : beeQ) : bool := Z.rem (q_send q + 1) (q_size q) =? q_recv q.
Definition isempty (q : beeQ) : bool := q_send q =? q_recv q.

(** The first slot of [tids] from [i] on that holds [t]. *)
Fixpoint find_tid (t : Z) (i : nat) (tids : list Z) : option nat :=
  match tids with
  | [] => None
  | x :: tids' => if x =? t then Some i else find_tid t (S i) tids'
  end.

(** The loops over [tids]: put [new] in the first slot that holds [old]. *)
Definition replace_tid (old new : Z) (tids : list Z) : list Z :=
  match find_tid old 0 tids with Some i => <[i := new]> tids | None => tids end.

Definition beeQ_register (tid : Z) (q : beeQ) : Z * beeQ :=
  if negb (q_stop q =? 0) || (Z.of_nat BEEQ_TIDS <=? q_tid_count q) then (- ENOENT, q)
  else (0, set_tids (q_tid_count q + 1) (replace_tid 0 tid (q_tids q)) q).

Definition beeQ_thread_exit (tid : Z) (q : beeQ) : Z * beeQ :=
  if q_tid_count q =? 0 then (0, q)
  else (0, set_tids (q_tid_count q) (replace_tid tid 0 (q_tids q)) q).

(** The queue [beeQ_init] builds before it creates the worker thread. *)
Definition beeQ_new (size : Z) : beeQ :=
  BeeQ 0 0 0 size (replicate (Z.to_nat size) 0) 0 (replicate BEEQ_TIDS 0).

(** The tail of [beeQ_send]: the message goes in the next slot. *)
Definition beeQ_push (msg : Z) (q : beeQ) : beeQ :=
  let s := Z.rem (q_send q + 1) (q_size q) in
  set_ring s (q_recv q) (<[Z.to_nat s := msg]> (q_msgs q)) q.

(** The head of the loops of [beeQ_proc] and [beeQ_stop]. *)
Definition beeQ_pop (q : beeQ) : Z * beeQ :=
  let r := Z.rem (q_recv q + 1) (q_size q) in
  (nth (Z.to_nat r) (q_msgs q) 0, set_ring (q_send q) r (<[Z.to_nat r := 0]> (q_msgs q)) q).

(** The final loop of [beeQ_stop]: the messages it frees. *)
Fixpoint beeQ_drain (fuel : nat) (q : beeQ) : option (list Z * beeQ) :=
  match fuel with
  | O => None
  | S fuel' =>
      if isempty q then Some ([], q)
      else
        let '(msg, q) := beeQ_pop q in
        '(l, q) ← beeQ_drain fuel' q; Some (msg :: l, q)
  end.

(** ** The list a ring holds *)

Definition ring_ok (q : beeQ) : Prop :=
  1 ≤ q_size q ∧ 0 ≤ q_send q < q_size q ∧ 0 ≤ q_recv q < q_size q
  ∧ zlen (q_msgs q) = q_size q.

Definition count (q : beeQ) : Z := (q_send q - q_recv q) mod q_size q.

Definition slot (q : beeQ) (i : Z) : nat := Z.to_nat ((q_recv q + i) mod q_size q).

Definition contents (q : beeQ) : list Z :=
  (λ i, nth (slot q i) (q_msgs q) 0) <$> seqZ 1 (count q).

Lemma mod_inj_window n a i j :
  0 ≤ i < n → 0 ≤ j < n → (a + i) mod n = (a + j) mod n → i = j.
Proof.
  intros Hi Hj H. assert ((i - j) mod n = 0) as Hz.
  { replace (i - j) with ((a + i) - (a + j)) by lia.
    rewrite Zminus_mod, H, Z.sub_diag. apply Z.mod_0_l. lia. }
  apply Z.mod_divide in Hz as [k Hk]; [|lia]. assert (k < 1) by nia. assert (-1 < k) by nia. nia.
Qed.

Section ring.
Context (q : beeQ) (Hok : ring_ok q).

Lemma count_range : 0 ≤ count q < q_size q.
Proof. destruct Hok. apply Z.mod_pos_bound. lia. Qed.

Lemma recv_count : (q_recv q + count q) mod q_size q = q_send q.
Proof.
  destruct Hok as (? & ? & ? & _). unfold count. rewrite Zplus_mod_idemp_r.
  replace (q_recv q + (q_send q - q_recv q)) with (q_send q) by lia.
  by apply Z.mod_small.
Qed.

Lemma next_send : Z.rem (q_send q + 1) (q_size q) = (q_recv q + (count q + 1)) mod q_size q.
Proof.
  destruct Hok as (? & ? & ? & _). rewrite Z.rem_mod_nonneg by lia.
  rewrite Z.add_assoc, <-(Zplus_mod_idemp_l (q_recv q + count q)), recv_count. done.
Qed.

Lemma next_recv : Z.rem (q_recv q + 1) (q_size q) = (q_recv q + 1) mod q_size q.
Proof. destruct Hok as (? & ? & ? & _). by rewrite Z.rem_mod_nonneg by lia. Qed.

Lemma length_contents : zlen (contents q) = count q.
Proof.
  unfold zlen, contents. rewrite length_fmap, length_seqZ.
  pose proof count_range. lia.
Qed.

Lemma isempty_spec : isempty q = true ↔ contents q = [].
Proof.
  unfold isempty. rewrite Z.eqb_eq. pose proof recv_count as Hc. pose proof count_range.
  destruct Hok as (? & ? & ? & _).
  split; intros Heq.
  - unfold contents, count. by rewrite Heq, Z.sub_diag, Z.mod_0_l by lia.
  - pose proof length_contents as Hl. rewrite Heq in Hl. unfold zlen in Hl. simpl in Hl.
    rewrite <-Hl, Z.add_0_r, Z.mod_small in Hc by lia. done.
Qed.

Lemma isfull_spec : isfull q = true ↔ zlen (contents q) = q_size q - 1.
Proof.
  unfold isfull. rewrite Z.eqb_eq, next_send, length_contents. pose proof count_range.
  destruct Hok as (? & ? & ? & _). split; intros Heq.
  - destruct (decide (count q + 1 = q_size q)) as [|Hne]; [lia|].
    enough (count q + 1 = 0) by lia. apply (mod_inj_window (q_size q) (q_recv q)); [lia..|].
    by rewrite Heq, Z.add_0_r, Z.mod_small by lia.
  - replace (count q + 1) with (1 * q_size q) by lia.
    by rewrite Z_mod_plus, Z.mod_small by lia.
Qed.

Lemma slot_lt i : (slot q i < length (q_msgs q))%nat.
Proof.
  destruct Hok as (? & ? & ? & Hl). unfold slot, zlen in *.
  pose proof (Z.mod_pos_bound (q_recv q + i) (q_size q)). lia.
Qed.

Lemma slot_inj i j : 0 ≤ i < q_size q → 0 ≤ j < q_size q → slot q i = slot q j → i = j.
Proof.
  intros Hi Hj H. apply (mod_inj_window (q_size q) (q_recv q)); [done..|].
  pose proof (Z.mod_pos_bound (q_recv q + i) (q_size q)).
  pose proof (Z.mod_pos_bound (q_recv q + j) (q_size q)). unfold slot in H. lia.
Qed.

Lemma nth_insert_ne (l : list Z) (m n : nat) x : m ≠ n → nth m (<[n := x]> l) 0 = nth m l 0.
Proof.
  intros Hne. rewrite !nth_lookup. by rewrite list_lookup_insert_ne.
Qed.

Lemma nth_insert_eq (l : list Z) (n : nat) x : (n < length l)%nat → nth n (<[n := x]> l) 0 = x.
Proof. intros Hn. rewrite nth_lookup. by rewrite list_lookup_insert_eq. Qed.

Lemma beeQ_push_spec msg :
  isfull q = false →
  ring_ok (beeQ_push msg q) ∧ contents (beeQ_push msg q) = contents q ++ [msg].
Proof.
  intros Hnf. pose proof count_range as Hc.
  assert (count q + 1 < q_size q) as Hroom.
  { destruct (decide (zlen (contents q) = q_size q - 1)) as [He|He].
    - apply isfull_spec in He. congruence.
    - rewrite length_contents in He. lia. }
  pose proof Hok as (H1 & H2 & H3 & H4).
  unfold beeQ_push. rewrite next_send. set (s := (_ + _) mod _).
  assert (0 ≤ s < q_size q) by (apply Z.mod_pos_bound; lia).
  split.
  { split_and!; simpl; try lia. unfold zlen in *. by rewrite length_insert. }
  unfold contents.
  assert (count (set_ring s (q_recv q) (<[Z.to_nat s := msg]> (q_msgs q)) q) = count q + 1)
    as ->.
  { unfold count at 1. simpl. subst s. rewrite Zminus_mod_idemp_l.
    replace (q_recv q + (count q + 1) - q_recv q) with (count q + 1) by lia.
    by apply Z.mod_small; lia. }
  rewrite seqZ_app, fmap_app by lia. f_equal.
  - apply list_fmap_ext. intros k i Hki. apply lookup_seqZ in Hki as [-> Hk].
    unfold slot. simpl. apply nth_insert_ne. intros Hs.
    assert (1 + Z.of_nat k = count q + 1) by (apply slot_inj; [lia..|]; unfold slot; exact Hs). lia.
  - change (seqZ (1 + count q) 1) with [Z.of_nat 0 + (1 + count q)]. rewrite list_fmap_singleton.
    f_equal. unfold slot.
    replace (Z.of_nat 0 + (1 + count q)) with (count q + 1) by lia. simpl q_recv. simpl q_size.
    fold s. apply nth_insert_eq. unfold zlen in *. lia.
Qed.

Lemma beeQ_pop_spec :
  isempty q = false →
  ∃ msg rest, contents q = msg :: rest ∧ (beeQ_pop q).1 = msg
    ∧ ring_ok (beeQ_pop q).2 ∧ contents (beeQ_pop q).2 = rest.
Proof.
  intros Hne. pose proof count_range as Hc.
  assert (1 ≤ count q) as Hc1.
  { destruct (decide (count q = 0)) as [H0|]; [|lia]. exfalso.
    assert (isempty q = true) as H; [|congruence]. apply isempty_spec.
    unfold contents. by rewrite H0. }
  pose proof Hok as (H1 & H2 & H3 & H4).
  eexists _, _. split.
  { unfold contents. rewrite (seqZ_cons 1) by lia. simpl. reflexivity. }
  unfold beeQ_pop. rewrite next_recv. set (r := (_ + _) mod _). simpl.
  assert (0 ≤ r < q_size q) by (apply Z.mod_pos_bound; lia).
  split; [done|]. split.
  { split_and!; simpl; try lia. unfold zlen in *. by rewrite length_insert. }
  unfold contents.
  assert (count (set_ring (q_send q) r (<[Z.to_nat r := 0]> (q_msgs q)) q) = Z.pred (count q))
    as ->.
  { unfold count at 1. simpl. subst r. rewrite Zminus_mod_idemp_r.
    replace (q_send q - (q_recv q + 1)) with ((q_send q - q_recv q) + - (1)) by lia.
    rewrite <-Zplus_mod_idemp_l. fold (count q). apply Z.mod_small. lia. }
  apply list_eq_same_length with (n := Z.to_nat (Z.pred (count q)));
    [by rewrite length_fmap, length_seqZ..|].
  intros k x y Hk Hx Hy. rewrite list_lookup_fmap in Hx, Hy.
  apply fmap_Some in Hx as (i & Hi & ->). apply fmap_Some in Hy as (j & Hj & ->).
  apply lookup_seqZ in Hi as [-> ?]. apply lookup_seqZ in Hj as [-> ?].
  assert (∀ z, (r + z) mod q_size q = (q_recv q + (1 + z)) mod q_size q) as Hshift.
  { intros z. subst r. rewrite Zplus_mod_idemp_l. f_equal. lia. }
  unfold slot at 1. simpl. rewrite Hshift. rewrite nth_insert_ne.
  - f_equal. unfold slot. do 2 f_equal. lia.
  - intros Hs. enough (1 + (1 + Z.of_nat k) = 1) by lia. apply slot_inj; [lia..|]. exact Hs.
Qed.
End ring.

Lemma ring_ok_new size : 1 ≤ size → ring_ok (beeQ_new size) ∧ contents (beeQ_new size) = [].
Proof.
  intros Hs. split.
  - split_and!; simpl; try lia. unfold zlen. rewrite length_replicate. lia.
  - unfold contents, count. cbn [beeQ_new q_send q_recv q_size]. by rewrite Z.sub_diag, Z.mod_0_l by lia.
Qed.

#[global] Arguments beeQ_pop : simpl never.
#[global] Arguments beeQ_push : simpl never.

(** Enough fuel for the drain is one more than the size of the ring. *)
Lemma beeQ_drain_spec q fuel :
  ring_ok q → (length (contents q) < fuel)%nat →
  ∃ q', beeQ_drain fuel q = Some (contents q, q') ∧ ring_ok q' ∧ contents q' = []
    ∧ q_stop q' = q_stop q.
Proof.
  revert q; induction fuel as [|fuel IH]; intros q Hok Hfuel; [lia|]. cbn [beeQ_drain].
  destruct (isempty q) eqn:He.
  - apply isempty_spec in He; [|done]. rewrite He. by eexists.
  - destruct (beeQ_pop_spec q Hok He) as (msg & rest & Hc & Hm & Hok' & Hc').
    assert (q_stop (beeQ_pop q).2 = q_stop q) as Hs by done.
    destruct (beeQ_pop q) as [m q1]. simpl in *. subst m.
    destruct (IH q1 Hok') as (q' & Hd & Hok'' & Hc'' & Hs').
    { rewrite Hc in Hfuel. rewrite Hc'. simpl in Hfuel. lia. }
    rewrite Hd. simpl. rewrite Hc, Hc'. eexists. split_and!; [done..|congruence].
Qed.

#[global] Arguments beeQ_drain : simpl never.

(** ** The contract of the queue *)

(** A bounded first-in first-out queue: what the threads rely on. *)
Class BoundedFifo {Q : Type} (ok : Q → Prop) (items : Q → list Z) (cap : Q → Z)
    (full empty : Q → bool) (push : Z → Q → Q) (pop : Q → Z * Q) : Prop := {
  fifo_full q : ok q → full q = true ↔ zlen (items q) = cap q;
  fifo_empty q : ok q → empty q = true ↔ items q = [];
  fifo_push m q : ok q → full q = false →
    ok (push m q) ∧ items (push m q) = items q ++ [m];
  fifo_pop q : ok q → empty q = false →
    ∃ m rest, items q = m :: rest ∧ (pop q).1 = m ∧ ok (pop q).2 ∧ items (pop q).2 = rest;
}.

#[global] Instance ring_fifo :
  BoundedFifo ring_ok contents (λ q, q_size q - 1) isfull isempty beeQ_push beeQ_pop.
Proof.
  split; intros *; auto using isfull_spec, isempty_spec, beeQ_push_spec, beeQ_pop_spec.
Qed.

(** Pushes and pops on any bounded queue, as a script. *)
Inductive bop := Push (m : Z) | Pop.

Section script.
Context {Q : Type} {ok : Q → Prop} {items : Q → list Z} {cap : Q → Z}.
Context {full empty : Q → bool} {push : Z → Q → Q} {pop : Q → Z * Q}.
Context {F : BoundedFifo ok items cap full empty push pop}.

(** Runs a script with the guards of the code: a push on a full queue and a
    pop on an empty one do nothing. Returns what was pushed and popped. *)
Fixpoint run_script (ops : list bop) (q : Q) : list Z * list Z * Q :=
  match ops with
  | [] => ([], [], q)
  | Push m :: ops' =>
      if full q then run_script ops' q
      else let '(i, o, q') := run_script ops' (push m q) in (m :: i, o, q')
  | Pop :: ops' =>
      if empty q then run_script ops' q
      else let '(i, o, q') := run_script ops' (pop q).2 in (i, (pop q).1 :: o, q')
  end.

Lemma run_script_spec ops : ∀ q, ok q →
  let '(i, o, q') := run_script ops q in ok q' ∧ items q ++ i = o ++ items q'.
Proof.
  induction ops as [|[m|] ops IH]; intros q Hq; simpl.
  - by rewrite app_nil_r.
  - destruct (full q) eqn:Hf; [by apply IH|].
    destruct (fifo_push m q Hq Hf) as [Hq' Hi]. specialize (IH _ Hq').
    destruct (run_script ops (push m q)) as [[i o] q']. destruct IH as [? IH].
    split; [done|]. rewrite <-IH, Hi. by simplify_list_eq.
  - destruct (empty q) eqn:He; [by apply IH|].
    destruct (fifo_pop q Hq He) as (m & rest & Hi & -> & Hq' & Hr). specialize (IH _ Hq').
    destruct (run_script ops (pop q).2) as [[i o] q']. destruct IH as [? IH].
    split; [done|]. rewrite Hi, <-app_comm_cons, <-app_comm_cons. f_equal. by rewrite <-Hr.
Qed.
End script.

(** The ring is a bounded first-in first-out queue: for every sequence of
    pushes and pops on a new queue, guarded by [isfull] and [isempty] as the
    code guards them, what went in is what came out followed by what the ring
    still holds, in order, and the ring never holds more than [size - 1]. *)
Theorem beeQ_ring_fifo size ops :
  1 ≤ size →
  let '(i, o, q) := run_script (full := isfull) (empty := isempty) (push := beeQ_push)
                      (pop := beeQ_pop) ops (beeQ_new size) in
  i = o ++ contents q ∧ zlen (contents q) ≤ q_size q - 1 ∧ ring_ok q.
Proof.
  intros Hs. destruct (ring_ok_new size Hs) as [Hok Hc].
  pose proof (run_script_spec (F := ring_fifo) ops _ Hok) as H.
  destruct (run_script ops (beeQ_new size)) as [[i o] q]. destruct H as [Hq H].
  rewrite Hc in H. split_and!; [done| |done].
  rewrite length_contents by done. pose proof (count_range q Hq). lia.
Qed.

Lemma beeQ_ring_fifo_witness :
  let '(i, o, q) := run_script (full := isfull) (empty := isempty) (push := beeQ_push)
      (pop := beeQ_pop) [Push 5; Push 6; Pop; Push 7; Push 8; Pop] (beeQ_new 3) in
  i = [5; 6; 7] ∧ o = [5; 6] ∧ contents q = [7] ∧ i = o ++ contents q.
Proof.
  pose proof (beeQ_ring_fifo 3 [Push 5; Push 6; Pop; Push 7; Push 8; Pop] ltac:(lia)) as H.
  vm_compute in H |- *. by destruct H.
Defined.

(** ** The thread table *)

Inductive treg := Register (tid : Z) | Exit (tid : Z).

(** A history of registrations and exits: how many registrations succeeded. *)
Fixpoint run_threads (ops : list treg) (q : beeQ) : nat * beeQ :=
  match ops with
  | [] => (0%nat, q)
  | Register t :: ops' =>
      let '(r, q) := beeQ_register t q in
      let '(n, q) := run_threads ops' q in
      (if r =? 0 then S n else n, q)
  | Exit t :: ops' => run_threads ops' (beeQ_thread_exit t q).2
  end.

Lemma thread_exit_count t q : q_tid_count (beeQ_thread_exit t q).2 = q_tid_count q.
Proof. unfold beeQ_thread_exit. by destruct (q_tid_count q =? 0). Qed.

Lemma run_threads_count ops : ∀ q,
  0 ≤ q_tid_count q ≤ Z.of_nat BEEQ_TIDS →
  let '(n, q') := run_threads ops q in
  q_tid_count q' = q_tid_count q + Z.of_nat n ∧ q_tid_count q' ≤ Z.of_nat BEEQ_TIDS.
Proof.
  unfold BEEQ_TIDS. induction ops as [|[t|t] ops IH]; intros q Hq; simpl; [lia| |].
  - unfold beeQ_register, BEEQ_TIDS.
    destruct (negb (q_stop q =? 0) || (Z.of_nat 32 <=? q_tid_count q)) eqn:Hg.
    + specialize (IH q Hq). by destruct (run_threads ops q).
    + apply orb_false_iff in Hg as [_ Hg]. apply Z.leb_gt in Hg.
      specialize (IH (set_tids (q_tid_count q + 1) (replace_tid 0 t (q_tids q)) q)).
      simpl in IH. destruct (run_threads ops _) as [n q']. simpl. lia.
  - specialize (IH (beeQ_thread_exit t q).2). rewrite thread_exit_count in IH. by apply IH.
Qed.

(** A queue serves at most 32 threads in its life, not at a time: in any
    history of registrations and exits at most [BEEQ_TIDS] registrations
    succeed, because an exit frees its slot but never lowers [tid_count]. *)
Theorem beeQ_register_lifetime size ops :
  ((run_threads ops (beeQ_new size)).1 ≤ BEEQ_TIDS)%nat.
Proof.
  pose proof (run_threads_count ops (beeQ_new size)) as H.
  destruct (run_threads ops (beeQ_new size)) as [n q]. simpl in H |- *.
  unfold BEEQ_TIDS in *. lia.
Qed.

(** Thirty-two threads that came and went use the table up. *)
Lemma beeQ_register_exhausted :
  let ops := mjoin (replicate 32 [Register 7; Exit 7]) in
  let q := (run_threads ops (beeQ_new 8)).2 in
  q_tids q = replicate 32 0 ∧ (beeQ_register 9 q).1 = - ENOENT.
Proof. by vm_compute. Qed.
