(* ===== verification/BeeThreads.v ===== *)
(** * BeeThreads: the threads around a queue

    The threads of [beeQ.c] as a transition system over the queue of BeeQ.v.
    A step is one critical section of one thread (the code between taking and
    leaving the mutex, or up to the [pthread_cond_wait] that leaves it), so
    every interleaving the mutex allows is a path. The worker runs [beeQ_proc];
    the creator is inside [beeQ_init]; any number of calls of [beeQ_send] are
    in flight; threads of [beeQ_send_thread] run [beeQ_send_run]; one thread
    calls [beeQ_stop]. The callbacks [init] and [cb] are arbitrary.

    [pthread_cond_signal] wakes one waiting thread, chosen freely, and is lost
    when none waits. Every [pthread_cond_wait] may also end spuriously: the
    worker's ([step_spurious]) and the creator's ([creator_wakes]), whose wait
    has no predicate, so that [beeQ_init] may return before the worker waits.
    The queue is used only between the return of [beeQ_init] and the end of
    [beeQ_stop]. *)

From S2P Require Import Prelude BeeQ.

Inductive worker_pc :=
  | WNew | WInit | WSignal | WWait | WWoken | WCall (msg : Z) | WExit | WGone.
Inductive init_pc := IStart | IWait | IWoken | IDone.
Inductive send_pc := SCall (msg : Z) | SRetry (msg loop : Z).
Inductive run_pc := RNew | RRun | RExit | RGone.
Inductive stop_pc :=
  | PIdle | PScan (i : nat) | PJoin (i : nat) | PJoining (i : nat) (tid : Z) | PDrain | PDone.

(** The loop of [beeQ_proc] from the test of the inner [while], with the
    mutex held, to the point where the mutex is left. *)
Definition proc_loop (q : beeQ) : worker_pc * beeQ :=
  if isempty q then (if q_stop q =? 0 then WWait else WExit, q)
  else let '(msg, q) := beeQ_pop q in (WCall msg, q).

(** What one critical section of [beeQ_send] ends in. *)
Inductive send_res :=
  | Accepted (wake : bool) (q : beeQ)   (* returns 0, [wake] when it signalled *)
  | Retry (loop : Z)                    (* full: sleeps and tries again *)
  | Dropped                             (* full 32 times: frees, returns 0 *)
  | Refused.                            (* stopped: frees, returns -1 *)

Definition send_loop (msg loop : Z) (q : beeQ) : send_res :=
  if isfull q then
    if loop + 1 <? LOOP_QUEUE_MAX then Retry (loop + 1) else Dropped
  else Accepted (isempty q) (beeQ_push msg q).

Definition send_enter (msg : Z) (q : beeQ) : send_res :=
  if negb (q_stop q =? 0) then Refused else send_loop msg 0 q.

Definition send_section (pc : send_pc) (q : beeQ) : send_res :=
  match pc with SCall msg => send_enter msg q | SRetry msg loop => send_loop msg loop q end.

Definition send_msg (pc : send_pc) : Z := match pc with SCall m | SRetry m _ => m end.

(** [beeQ_join] from slot [i] on, up to the next registered thread. *)
Fixpoint join_scan (i : nat) (tids : list Z) : stop_pc :=
  match tids with
  | [] => PDrain
  | t :: tids' => if t =? 0 then join_scan (S i) tids' else PJoin i
  end.

(** What the messages became. *)
Record history := Hist {
  h_accepted : list Z;   (* put in the ring, in order *)
  h_handled : list Z;    (* passed to the callback, in order *)
  h_freed : list Z;      (* freed by [beeQ_send] *)
  h_drained : list Z;    (* freed by [beeQ_stop] *)
}.

Record sys := Sys {
  s_q : beeQ; s_worker : worker_pc; s_init : init_pc; s_sends : list send_pc;
  s_runs : gmap Z run_pc; s_stop : stop_pc; s_hist : history;
}.

Definition sys0 (size : Z) : sys :=
  Sys (beeQ_new size) WNew IStart [] ∅ PIdle (Hist [] [] [] []).

(** [pthread_cond_signal] on the condition the worker and the creator share. *)
Inductive signalled : worker_pc → init_pc → worker_pc → init_pc → Prop :=
  | sig_lost w i : w ≠ WWait → i ≠ IWait → signalled w i w i
  | sig_worker i : signalled WWait i WWoken i
  | sig_init w : signalled w IWait w IWoken.

Definition handle (pc : worker_pc) (h : history) : history :=
  match pc with
  | WCall m => Hist (h_accepted h) (h_handled h ++ [m]) (h_freed h) (h_drained h)
  | _ => h
  end.

Definition thread_gone (wtid tid : Z) (w : worker_pc) (runs : gmap Z run_pc) : Prop :=
  (tid = wtid ∧ w = WGone) ∨ runs !! tid = Some RGone.

Section threads.
Context (wtid : Z).

(** [beeQ_proc], the worker. *)
Inductive worker_step : sys → sys → Prop :=
| step_register q q' r i sends runs p h :
    beeQ_register wtid q = (r, q') →
    worker_step (Sys q WNew i sends runs p h)
         (Sys q' (if r =? 0 then WInit else WGone) i sends runs p h)
| step_init_cb ok q i sends runs p h :
    worker_step (Sys q WInit i sends runs p h)
         (Sys q (if ok : bool then WSignal else WExit) i sends runs p h)
| step_ready q i i' sends runs p h :
    signalled WSignal i WSignal i' →
    worker_step (Sys q WSignal i sends runs p h)
         (Sys q (if q_stop q =? 0 then WWait else WExit) i' sends runs p h)
| step_spurious q i sends runs p h :
    worker_step (Sys q WWait i sends runs p h) (Sys q WWoken i sends runs p h)
| step_work q w q' w' i sends runs p h :
    (w = WWoken ∨ ∃ m, w = WCall m) → proc_loop q = (w', q') →
    worker_step (Sys q w i sends runs p h) (Sys q' w' i sends runs p (handle w' h))
| step_exit q i sends runs p h :
    worker_step (Sys q WExit i sends runs p h)
         (Sys (beeQ_thread_exit wtid q).2 WGone i sends runs p h).

(** The end of [beeQ_init], in the creator. *)
Inductive init_step : sys → sys → Prop :=
| step_init_wait q w sends runs p h :
    init_step (Sys q w IStart sends runs p h) (Sys q w IWait sends runs p h)
| step_init_done q w sends runs p h :
    init_step (Sys q w IWoken sends runs p h) (Sys q w IDone sends runs p h).

(** The creator's [pthread_cond_wait] ends without a signal. *)
Inductive creator_wakes : sys → sys → Prop :=
| step_init_spurious q w sends runs p h :
    creator_wakes (Sys q w IWait sends runs p h) (Sys q w IWoken sends runs p h).

(** [beeQ_send], in any thread. *)
Inductive send_step : sys → sys → Prop :=
| step_call m q w sends runs p h :
    p ≠ PDone →
    send_step (Sys q w IDone sends runs p h) (Sys q w IDone (SCall m :: sends) runs p h)
| step_send_retry pc n l1 l2 q w runs p h :
    p ≠ PDone → send_section pc q = Retry n →
    send_step (Sys q w IDone (l1 ++ pc :: l2) runs p h)
         (Sys q w IDone (l1 ++ SRetry (send_msg pc) n :: l2) runs p h)
| step_send_free pc l1 l2 q w runs p a b c d :
    p ≠ PDone → send_section pc q = Dropped ∨ send_section pc q = Refused →
    send_step (Sys q w IDone (l1 ++ pc :: l2) runs p (Hist a b c d))
         (Sys q w IDone (l1 ++ l2) runs p (Hist a b (c ++ [send_msg pc]) d))
| step_send_ok pc wake q' l1 l2 q w w' i' runs p a b c d :
    p ≠ PDone → send_section pc q = Accepted wake q' →
    (if wake : bool then signalled w IDone w' i' else w' = w ∧ i' = IDone) →
    send_step (Sys q w IDone (l1 ++ pc :: l2) runs p (Hist a b c d))
         (Sys q' w' i' (l1 ++ l2) runs p (Hist (a ++ [send_msg pc]) b c d)).

(** [beeQ_send_thread] and the thread it creates, which runs [beeQ_send_run]. *)
Inductive thread_step : sys → sys → Prop :=
| step_spawn tid q w sends runs p h :
    p ≠ PDone → q_stop q = 0 → runs !! tid = None → tid ≠ wtid →
    thread_step (Sys q w IDone sends runs p h) (Sys q w IDone sends (<[tid := RNew]> runs) p h)
| step_run_register tid r q q' w i sends runs p h :
    runs !! tid = Some RNew → beeQ_register tid q = (r, q') →
    thread_step (Sys q w i sends runs p h)
         (Sys q' w i sends (<[tid := if r =? 0 then RRun else RGone]> runs) p h)
| step_run_cb tid q w i sends runs p h :
    runs !! tid = Some RRun →
    thread_step (Sys q w i sends runs p h) (Sys q w i sends (<[tid := RExit]> runs) p h)
| step_run_exit tid q w i sends runs p h :
    runs !! tid = Some RExit →
    thread_step (Sys q w i sends runs p h)
         (Sys (beeQ_thread_exit tid q).2 w i sends (<[tid := RGone]> runs) p h).

(** [beeQ_stop], with [beeQ_join] inside. *)
Inductive stop_step : sys → sys → Prop :=
| step_stop q w w' i' sends runs h :
    (if isempty q then signalled w IDone w' i' else w' = w ∧ i' = IDone) →
    stop_step (Sys q w IDone sends runs PIdle h)
         (Sys (set_stop 1 q) w' i' sends runs (PScan 0) h)
| step_scan n q w i sends runs h :
    stop_step (Sys q w i sends runs (PScan n) h)
         (Sys q w i sends runs (join_scan n (drop n (q_tids q))) h)
| step_join n tid q w i sends runs h :
    q_tids q !! n = Some tid →
    stop_step (Sys q w i sends runs (PJoin n) h) (Sys q w i sends runs (PJoining n tid) h)
| step_joined n tid q w i sends runs h :
    thread_gone wtid tid w runs →
    stop_step (Sys q w i sends runs (PJoining n tid) h) (Sys q w i sends runs (PScan (S n)) h)
| step_drain l q q' w i sends runs a b c d :
    beeQ_drain (S (length (q_msgs q))) q = Some (l, q') →
    stop_step (Sys q w i sends runs PDrain (Hist a b c d))
         (Sys q' w i sends runs PDone (Hist a b c (d ++ l))).

(** The steps in which the creator is woken by signals only, and all steps. *)
Inductive orderly (s s' : sys) : Prop :=
  | step_worker : worker_step s s' → orderly s s'
  | step_init : init_step s s' → orderly s s'
  | step_send : send_step s s' → orderly s s'
  | step_thread : thread_step s s' → orderly s s'
  | step_stopper : stop_step s s' → orderly s s'.

Inductive step (s s' : sys) : Prop :=
  | step_orderly : orderly s s' → step s s'
  | step_creator_wakes : creator_wakes s s' → step s s'.

(** ** The invariant *)

Definition past_start (w : worker_pc) : Prop :=
  match w with WNew | WInit | WSignal => False | _ => True end.

Record inv (s : sys) : Prop := {
  inv_ring : ring_ok (s_q s);
  inv_fifo : h_accepted (s_hist s)
             = h_handled (s_hist s) ++ h_drained (s_hist s) ++ contents (s_q s);
  inv_fresh : s_init s ≠ IDone →
    contents (s_q s) = [] ∧ q_stop (s_q s) = 0 ∧ s_stop s = PIdle ∧ s_sends s = [];
  inv_stop : s_stop s ≠ PDone → h_drained (s_hist s) = [];
  inv_done : s_stop s = PDone → contents (s_q s) = [];
  inv_retry : Forall (λ pc, match pc with
                            | SCall _ => True
                            | SRetry _ n => 1 ≤ n < LOOP_QUEUE_MAX
                            end) (s_sends s);
}.

(** The worker is through with its start, and waits only on an empty ring. *)
Definition awake (s : sys) : Prop :=
  past_start (s_worker s) ∧ (s_worker s = WWait → contents (s_q s) = []).

(** The thread table is no part of the ring. *)
Lemma register_ring tid q r q' :
  beeQ_register tid q = (r, q') →
  (ring_ok q → ring_ok q') ∧ contents q' = contents q ∧ q_stop q' = q_stop q.
Proof. unfold beeQ_register. intros H. by case_match; simplify_eq. Qed.

Lemma thread_exit_ring tid q :
  (ring_ok q → ring_ok (beeQ_thread_exit tid q).2)
  ∧ contents (beeQ_thread_exit tid q).2 = contents q
  ∧ q_stop (beeQ_thread_exit tid q).2 = q_stop q.
Proof. unfold beeQ_thread_exit. by case_match. Qed.

Lemma proc_loop_spec q w' q' :
  ring_ok q → proc_loop q = (w', q') →
  ring_ok q' ∧ q_stop q' = q_stop q ∧
  match w' with
  | WCall m => contents q = m :: contents q'
  | WWait => contents q = [] ∧ q' = q ∧ q_stop q = 0
  | WExit => contents q = [] ∧ q' = q ∧ q_stop q ≠ 0
  | _ => False
  end.
Proof.
  unfold proc_loop. intros Hok H. destruct (isempty q) eqn:He.
  - apply fifo_empty in He; [|done]. by destruct (Z.eqb_spec (q_stop q) 0); simplify_eq.
  - destruct (fifo_pop q Hok He) as (m & rest & Hc & Hm & Hok' & Hr).
    assert (q_stop (beeQ_pop q).2 = q_stop q) by done.
    destruct (beeQ_pop q). simpl in *. simplify_eq. done.
Qed.

Lemma send_section_accepted pc q wake q' :
  ring_ok q → send_section pc q = Accepted wake q' →
  wake = isempty q ∧ ring_ok q' ∧ contents q' = contents q ++ [send_msg pc]
  ∧ q_stop q' = q_stop q.
Proof.
  intros Hok H.
  assert (isfull q = false ∧ wake = isempty q ∧ q' = beeQ_push (send_msg pc) q)
    as (Hf & -> & ->).
  { destruct pc; simpl in H; unfold send_enter, send_loop in H; repeat case_match; by simplify_eq. }
  by destruct (fifo_push (send_msg pc) q Hok Hf).
Qed.

Lemma send_section_retry pc q n :
  match pc with SCall _ => True | SRetry _ k => 1 ≤ k < LOOP_QUEUE_MAX end →
  send_section pc q = Retry n → 1 ≤ n < LOOP_QUEUE_MAX.
Proof.
  intros Hk H. destruct pc; simpl in H; unfold send_enter, send_loop in H;
    repeat case_match; simplify_eq; rewrite Z.ltb_lt in *; lia.
Qed.

Lemma Forall_remove {A} (P : A → Prop) l1 x l2 : Forall P (l1 ++ x :: l2) → Forall P (l1 ++ l2) ∧ P x.
Proof. rewrite !Forall_app, Forall_cons. tauto. Qed.

Lemma inv_init size : 1 ≤ size → inv (sys0 size).
Proof.
  intros Hs. destruct (ring_ok_new size Hs) as [Hok Hc].
  by split.
Qed.

(** The steps of the worker. *)
Lemma inv_step_worker q w q' w' i i' sends runs p h h' :
  inv (Sys q w i sends runs p h) →
  ring_ok q' → q_stop q' = q_stop q → h_drained h' = h_drained h →
  h_accepted h' = h_handled h' ++ h_drained h' ++ contents q' →
  (contents q = [] → contents q' = []) →
  (i' = i ∨ i = IWait ∧ i' = IWoken) →
  inv (Sys q' w' i' sends runs p h').
Proof.
  intros [] Hok Hst Hdr Hff Hne Hi. simpl in *.
  split; simpl; rewrite ?Hst, ?Hdr in *; auto.
  intros Hi'. destruct Hi as [->|[-> ->]].
  - destruct (inv_fresh0 Hi') as (? & ? & ? & ?). auto.
  - destruct (inv_fresh0 ltac:(done)) as (? & ? & ? & ?). auto.
Qed.

Lemma signalled_init w i w' i' :
  signalled w i w' i' → i' = i ∨ i = IWait ∧ i' = IWoken.
Proof. destruct 1; auto. Qed.

(** A signal while only the worker can wait wakes it if it waits. *)
Lemma signalled_worker w w' i' :
  signalled w IDone w' i' → i' = IDone ∧ w' ≠ WWait ∧ (past_start w → past_start w').
Proof. inversion 1; subst; simpl; auto. Qed.

(** A thread that signals when it finds the ring empty leaves no waiting
    worker behind. *)
Lemma wake_up q w w' i' :
  ring_ok q → (w = WWait → contents q = []) → past_start w →
  (if isempty q then signalled w IDone w' i' else w' = w ∧ i' = IDone) →
  w' ≠ WWait ∧ past_start w'.
Proof.
  intros Hok Hwk Hps Hsig. destruct (isempty q) eqn:He.
  - apply signalled_worker in Hsig as (-> & ? & ?). auto.
  - destruct Hsig as [-> ->]. split_and!; auto. intros ->.
    pose proof (Hwk eq_refl) as Hc0. apply (fifo_empty q Hok) in Hc0. congruence.
Qed.

Lemma signal_if_done (b : bool) w w' i' :
  (if b then signalled w IDone w' i' else w' = w ∧ i' = IDone) → i' = IDone.
Proof. destruct b; [|by intros [_ ->]]. by intros (-> & _)%signalled_worker. Qed.

Lemma join_scan_not_done n l : join_scan n l ≠ PDone.
Proof. revert n; induction l; intros n; simpl; [done|]. by case_match. Qed.

Lemma inv_worker s s' : inv s → worker_step s s' → inv s'.
Proof.
  intros Hinv Hstep. destruct Hstep as
    [q q' r i sends runs p h Hr|ok q i sends runs p h|q i i' sends runs p h Hsig
     |q i sends runs p h|q w q' w' i sends runs p h Hw Hl|q i sends runs p h];
    pose proof Hinv as [Hok Hff Hfr Hst Hdn Hrt]; simpl in *.
  - apply register_ring in Hr as (Hk & Hc & Hs).
    eapply inv_step_worker; [exact Hinv|..]; rewrite ?Hc; auto.
  - eapply inv_step_worker; [exact Hinv|..]; auto.
  - apply signalled_init in Hsig. eapply inv_step_worker; [exact Hinv|..]; auto.
  - eapply inv_step_worker; [exact Hinv|..]; auto.
  - destruct (proc_loop_spec _ _ _ Hok Hl) as (Hok' & Hs & Hm).
    assert (h_drained (handle w' h) = h_drained h) as Hdr by (by destruct w').
    eapply inv_step_worker; [exact Hinv|..]; rewrite ?Hdr; auto; destruct w'; try done.
    + destruct Hm as (_ & -> & _). done.
    + rewrite Hm in Hff, Hdn. simpl. rewrite (Hst ltac:(by intros ->; discriminate Hdn)) in *.
      rewrite Hff. by simplify_list_eq.
    + destruct Hm as (_ & -> & _). done.
    + by destruct Hm as (? & -> & _).
    + by rewrite Hm.
    + by destruct Hm as (? & -> & _).
  - destruct (thread_exit_ring wtid q) as (Hk & Hc & Hs).
    eapply inv_step_worker; [exact Hinv|..]; rewrite ?Hc; auto.
Qed.

Lemma inv_creator s s' : inv s → init_step s s' ∨ creator_wakes s s' → inv s'.
Proof.
  intros Hi [H|H]; destruct H; destruct Hi; simpl in *; split; simpl; auto; try done;
    intros _; by apply inv_fresh0.
Qed.

Lemma inv_send s s' : inv s → send_step s s' → inv s'.
Proof.
  intros Hinv Hstep. destruct Hstep as
    [m q w sends runs p h Hp|pc n l1 l2 q w runs p h Hp Hs|pc l1 l2 q w runs p a b c d Hp Hs
     |pc wake q' l1 l2 q w w' i' runs p a b c d Hp Hs Hsig];
    pose proof Hinv as [Hok Hff Hfr Hst Hdn Hrt]; simpl in *.
  - split; simpl; auto; done || by constructor.
  - split; simpl; auto; [done|]. apply Forall_app in Hrt as [H1 H2]. inversion H2; subst.
    apply Forall_app. split; [done|]. constructor; [|done]. by eapply send_section_retry.
  - split; simpl; auto; [done|]. by apply Forall_remove in Hrt as [? _].
  - destruct (send_section_accepted _ _ _ _ Hok Hs) as (-> & Hok' & Hc & Hs').
    apply signal_if_done in Hsig as ->. split; simpl; auto; try done.
    + rewrite Hc, Hff, !app_assoc. done.
    + by apply Forall_remove in Hrt as [? _].
Qed.

Lemma inv_thread s s' : inv s → thread_step s s' → inv s'.
Proof.
  intros Hinv Hstep. destruct Hstep as
    [tid q w sends runs p h|tid r q q' w i sends runs p h Ht Hr|tid q w i sends runs p h
     |tid q w i sends runs p h Ht];
    pose proof Hinv as [Hok Hff Hfr Hst Hdn Hrt]; simpl in *.
  - by split.
  - apply register_ring in Hr as (Hk & Hc & Hs). split; simpl; rewrite ?Hc, ?Hs; auto.
  - by split.
  - destruct (thread_exit_ring tid q) as (Hk & Hc & Hs). split; simpl; rewrite ?Hc, ?Hs; auto.
Qed.

Lemma inv_stopper s s' : inv s → stop_step s s' → inv s'.
Proof.
  intros Hinv Hstep. destruct Hstep as
    [q w w' i' sends runs h Hsig|n q w i sends runs h|n tid q w i sends runs h
     |n tid q w i sends runs h|l q q' w i sends runs a b c d Hd];
    pose proof Hinv as [Hok Hff Hfr Hst Hdn Hrt]; simpl in *.
  - apply signal_if_done in Hsig as ->. by split; simpl; auto.
  - assert (join_scan n (drop n (q_tids q)) ≠ PDone) by apply join_scan_not_done.
    split; simpl; auto; try done. intros Hi. by destruct (Hfr Hi) as (_ & _ & ? & _).
  - split; simpl; auto; try done. intros Hi. by destruct (Hfr Hi) as (_ & _ & ? & _).
  - split; simpl; auto; try done. intros Hi. by destruct (Hfr Hi) as (_ & _ & ? & _).
  - destruct (beeQ_drain_spec q (S (length (q_msgs q))) Hok) as (q1 & Hd1 & Hok1 & Hc1 & Hs1).
    { pose proof (length_contents q Hok) as Hl. pose proof (count_range q Hok).
      destruct Hok as (_ & _ & _ & Hz). unfold zlen in *. lia. }
    rewrite Hd1 in Hd. injection Hd as <- <-. split; simpl; auto; try done.
    + rewrite Hff, Hc1, Hst by done. by rewrite app_nil_r.
    + intros Hi. by destruct (Hfr Hi) as (_ & _ & ? & _).
Qed.

Lemma inv_step s s' : inv s → step s s' → inv s'.
Proof. intros Hinv [[]|]; eauto using inv_worker, inv_creator, inv_send, inv_thread, inv_stopper. Qed.

(** *** The worker stays awake while there is work *)

Lemma awake_worker s s' : inv s → awake s → worker_step s s' → awake s'.
Proof.
  intros Hinv [Hps Hwk] Hstep. destruct Hstep as
    [| | | |q w q' w' i sends runs p h Hw Hl|q i sends runs p h]; try done.
  destruct (proc_loop_spec _ _ _ (inv_ring _ Hinv) Hl) as (_ & _ & Hm).
  split; simpl in *; destruct w'; try done. by destruct Hm as (? & -> & _).
Qed.

Lemma awake_send s s' : inv s → awake s → send_step s s' → awake s'.
Proof.
  intros Hinv [Hps Hwk] Hstep. destruct Hstep as
    [| | |pc wake q' l1 l2 q w w' i' runs p a b c d Hp Hs Hsig]; [done..|].
  simpl in *. destruct (send_section_accepted _ _ _ _ (inv_ring _ Hinv) Hs) as (-> & _).
  by destruct (wake_up _ _ _ _ (inv_ring _ Hinv) Hwk Hps Hsig).
Qed.

Lemma awake_thread s s' : awake s → thread_step s s' → awake s'.
Proof.
  intros [Hps Hwk] Hstep. destruct Hstep as
    [|tid r q q' w i sends runs p h Ht Hr| |tid q w i sends runs p h Ht]; try done.
  - apply register_ring in Hr as (_ & Hc & _). by split; simpl in *; rewrite ?Hc.
  - destruct (thread_exit_ring tid q) as (_ & Hc & _). by split; simpl in *; rewrite ?Hc.
Qed.

Lemma awake_stopper s s' : inv s → inv s' → awake s → stop_step s s' → awake s'.
Proof.
  intros Hinv Hinv' [Hps Hwk] Hstep. pose proof (inv_ring _ Hinv) as Hok. destruct Hstep as
    [q w w' i' sends runs h Hsig| | | |l q q' w i sends runs a b c d Hd]; [|done..|]; simpl in *.
  - by destruct (wake_up _ _ _ _ Hok Hwk Hps Hsig).
  - split; [done|]. intros _. simpl in *. by apply (inv_done _ Hinv').
Qed.

Lemma awake_step s s' : inv s → awake s → step s s' → awake s'.
Proof.
  intros Hinv Ha [[]|Hc]; eauto using awake_worker, awake_send, awake_thread.
  - by destruct H.
  - eauto using awake_stopper, inv_stopper.
  - by destruct Hc.
Qed.
End threads.

(** ** What every run satisfies *)

Definition reachable (wtid size : Z) (s : sys) : Prop := rtc (step wtid) (sys0 size) s.

Lemma reachable_inv wtid size s : 1 ≤ size → reachable wtid size s → inv s.
Proof.
  intros Hs. apply (rtc_invariant (step wtid) inv); [apply inv_step|by apply inv_init].
Qed.

(** C2: in every interleaving, the messages accepted by [beeQ_send] are the
    ones handed to the callback, then the ones [beeQ_stop] freed, then the
    ones still in the ring, in the order they were accepted: none is lost,
    duplicated or reordered; and once [beeQ_stop] is done none is left. *)
Theorem bee_fifo wtid size s :
  1 ≤ size → reachable wtid size s →
  h_accepted (s_hist s) = h_handled (s_hist s) ++ h_drained (s_hist s) ++ contents (s_q s)
  ∧ (s_stop s = PDone → contents (s_q s) = []).
Proof. intros Hs Hr. destruct (reachable_inv _ _ _ Hs Hr). auto. Qed.

Lemma awake_run wtid size s0 s :
  1 ≤ size → reachable wtid size s0 → awake s0 → rtc (step wtid) s0 s → awake s.
Proof.
  intros Hs Hr Ha Hrun.
  apply (rtc_invariant (step wtid) (λ s, inv s ∧ awake s)) in Hrun as [_ ?]; [done| |].
  - intros a b [Hi Hw] Hab. eauto using inv_step, awake_step.
  - eauto using reachable_inv.
Qed.

(** C3: once the worker has come to its wait with nothing in the ring, no
    wake-up is lost, in any interleaving and with any spurious wake-ups: in
    every later state, if a message is in the ring and the worker has not
    left, the worker can run at once, and its next critical section takes the
    oldest message to the callback. (A message sent before the worker's first
    wait, after a spurious end of the creator's wait, can be left behind:
    [early_send_stuck].) *)
Theorem bee_no_lost_wakeup wtid size s0 s m rest :
  1 ≤ size → reachable wtid size s0 → s_worker s0 = WWait → contents (s_q s0) = [] →
  rtc (step wtid) s0 s →
  contents (s_q s) = m :: rest → s_worker s ≠ WExit → s_worker s ≠ WGone →
  ∃ s', step wtid s s' ∧ s_worker s' = WCall m ∧ contents (s_q s') = rest
    ∧ h_handled (s_hist s') = h_handled (s_hist s) ++ [m].
Proof.
  intros Hs Hr0 Hw0 Hc0 Hr Hc Hx Hg.
  assert (inv s) as [Hok _ _ _ _ _].
  { eapply reachable_inv; [exact Hs|]. unfold reachable in *. by etrans. }
  destruct (awake_run _ _ _ _ Hs Hr0 ltac:(by split; rewrite Hw0) Hr) as [Hps Hw].
  assert (s_worker s = WWoken ∨ ∃ x, s_worker s = WCall x) as Hwp.
  { rewrite Hc in Hw. destruct (s_worker s); simpl in Hps; try done; [|by left|by right; eexists].
    by specialize (Hw eq_refl). }
  destruct s as [q w i sends runs p h]. simpl in *.
  destruct (proc_loop q) as [w' q'] eqn:Hl.
  destruct (proc_loop_spec _ _ _ Hok Hl) as (_ & _ & Hm).
  exists (Sys q' w' i sends runs p (handle w' h)).
  split; [by eapply step_orderly, step_worker, step_work|]. simpl.
  rewrite Hc in Hm. destruct w'; try (by destruct Hm). by injection Hm as -> ->.
Qed.

(** A call of [beeQ_send] takes the mutex at most 32 times: a sender that
    found the ring full and sleeps has tried fewer than [LOOP_QUEUE_MAX]
    times, and its last try accepts or frees the message. *)
Theorem bee_send_bounded wtid size s msg n :
  1 ≤ size → reachable wtid size s → SRetry msg n ∈ s_sends s →
  1 ≤ n < LOOP_QUEUE_MAX
  ∧ (n = LOOP_QUEUE_MAX - 1 → ∀ k, send_section (SRetry msg n) (s_q s) ≠ Retry k).
Proof.
  intros Hs Hr Hin. destruct (reachable_inv _ _ _ Hs Hr) as [_ _ _ _ _ Hrt].
  rewrite Forall_forall in Hrt. split; [by apply (Hrt _ Hin)|].
  intros -> k. simpl. unfold send_loop, LOOP_QUEUE_MAX. by case_match.
Qed.

(** ** What some runs do *)

Lemma init_stuck wtid s s' :
  s_init s = IWait ∧ past_start (s_worker s) → rtc (orderly wtid) s s' → s_init s' = IWait.
Proof.
  intros Hi Hr.
  apply (rtc_invariant (orderly wtid) (λ s, s_init s = IWait ∧ past_start (s_worker s))) in Hr;
    [by destruct Hr| |done].
  clear. intros a b [Hi Hp] Hstep. destruct Hstep as [Hs|Hs|Hs|Hs|Hs]; destruct Hs; simpl in *; try done.
  split; [done|]. destruct (proc_loop q) as [w1 q1] eqn:Hl. unfold proc_loop in Hl.
  simplify_eq. repeat case_match; by simplify_eq.
Qed.

(** [beeQ_init] can wait until a spurious wake-up: the worker may signal
    before the creator waits (the signal is then lost, as the wait has no
    predicate), or leave without a signal because the [init] callback failed;
    from then on no signal of any thread ends the creator's wait. *)
Theorem beeQ_init_deadlock wtid size :
  ∃ s1 s2, reachable wtid size s1 ∧ reachable wtid size s2
    ∧ s_worker s1 = WWait ∧ s_worker s2 = WGone
    ∧ ∀ s', rtc (orderly wtid) s1 s' ∨ rtc (orderly wtid) s2 s' → s_init s' = IWait.
Proof.
  set (q1 := (beeQ_register wtid (beeQ_new size)).2).
  set (h := Hist [] [] [] []).
  exists (Sys q1 WWait IWait [] ∅ PIdle h),
    (Sys (beeQ_thread_exit wtid q1).2 WGone IWait [] ∅ PIdle h).
  assert (reachable wtid size (Sys q1 WInit IStart [] ∅ PIdle h)) as Hr.
  { apply rtc_once. unfold sys0. by eapply step_orderly, step_worker; eapply (step_register wtid _ q1 0). }
  split_and!; [| |done..|].
  - unfold reachable in *. etrans; [exact Hr|].
    eapply rtc_l; [apply step_orderly, step_worker; apply (step_init_cb wtid true)|].
    eapply rtc_l; [by eapply step_orderly, step_worker; eapply step_ready, sig_lost|].
    apply rtc_once, step_orderly, step_init, step_init_wait.
  - unfold reachable in *. etrans; [exact Hr|].
    eapply rtc_l; [apply step_orderly, step_worker; apply (step_init_cb wtid false)|].
    eapply rtc_l; [apply step_orderly, step_worker; apply step_exit|]. apply rtc_once, step_orderly, step_init, step_init_wait.
  - intros s' [H|H]; (eapply init_stuck; [|exact H]); done.
Qed.

(** [beeQ_join] can join thread 0: it tests [tids[i]] with the mutex held
    and reads it again without, and the worker clears it in between when it
    leaves, so [pthread_join] may be called on 0. *)
Theorem beeQ_join_race :
  ∃ s, reachable 7 8 s ∧ s_stop s = PJoining 0 0 ∧ s_worker s = WGone.
Proof.
  eexists. split.
  { unfold reachable, sys0.
    eapply rtc_l; [by eapply step_orderly, step_worker; eapply (step_register 7 _ _ 0)|].
    eapply rtc_l; [apply step_orderly, step_worker; apply (step_init_cb 7 true)|].
    eapply rtc_l; [apply step_orderly, step_init; apply step_init_wait|].
    eapply rtc_l; [apply step_orderly, step_worker; apply step_ready, sig_init|].
    eapply rtc_l; [apply step_orderly, step_init; apply step_init_done|].
    eapply rtc_l; [apply step_orderly, step_stopper; apply step_stop; apply sig_worker|].
    eapply rtc_l; [apply step_orderly, step_stopper; apply step_scan|].
    eapply rtc_l; [by eapply step_orderly, step_worker; eapply step_work; [left|reflexivity]|].
    eapply rtc_l; [apply step_orderly, step_worker; apply step_exit|].
    apply rtc_once. apply step_orderly, step_stopper; apply (step_join 7 0 0). reflexivity. }
  done.
Qed.

(** If the creator's wait ends before the worker waits, a message can be
    left behind for good: the worker waits with a message in the ring, and
    since the ring is not empty no later [beeQ_send] signals. *)
Theorem early_send_stuck :
  ∃ s, reachable 7 8 s
    ∧ s_worker s = WWait ∧ contents (s_q s) = [5] ∧ s_sends s = []
    ∧ ∀ m q', send_section (SCall m) (s_q s) ≠ Accepted true q'.
Proof.
  eexists. split; [|split_and!].
  - unfold reachable, sys0.
    eapply rtc_l; [apply step_orderly, step_init; apply step_init_wait|].
    eapply rtc_l; [apply step_creator_wakes, step_init_spurious|].
    eapply rtc_l; [apply step_orderly, step_init; apply step_init_done|].
    eapply rtc_l; [by apply step_orderly, step_send; apply (step_call 5)|].
    eapply rtc_l; [eapply step_orderly, step_send; eapply (step_send_ok (SCall 5) true _ [] []);
      [done|reflexivity|by apply sig_lost]|].
    eapply rtc_l; [by eapply step_orderly, step_worker; eapply (step_register 7 _ _ 0)|].
    eapply rtc_l; [apply step_orderly, step_worker; apply (step_init_cb 7 true)|].
    apply rtc_once. by apply step_orderly, step_worker; apply step_ready, sig_lost.
  - reflexivity.
  - reflexivity.
  - reflexivity.
  - intros m q'. by vm_compute.
Qed.

(** ** Concrete runs *)

(** A queue of eight slots whose worker waits and into which 5 was sent. *)
Lemma bee_run :
  ∃ s0 s, reachable 7 8 s0 ∧ s_worker s0 = WWait ∧ contents (s_q s0) = []
    ∧ rtc (step 7) s0 s ∧ contents (s_q s) = [5] ∧ s_worker s = WWoken.
Proof.
  eexists. eexists. split.
  { unfold reachable, sys0.
    eapply rtc_l; [by eapply step_orderly, step_worker; eapply (step_register 7 _ _ 0)|].
    eapply rtc_l; [apply step_orderly, step_worker; apply (step_init_cb 7 true)|].
    eapply rtc_l; [apply step_orderly, step_init; apply step_init_wait|].
    apply rtc_once. apply step_orderly, step_worker; apply step_ready, sig_init. }
  split; [done|]. split; [done|]. split.
  { eapply rtc_l; [apply step_orderly, step_init; apply step_init_done|].
    eapply rtc_l; [by apply step_orderly, step_send; apply (step_call 5)|].
    apply rtc_once. eapply step_orderly, step_send; eapply (step_send_ok (SCall 5) true _ [] []);
      [done|reflexivity|apply sig_worker]. }
  done.
Qed.

Lemma bee_fifo_witness :
  ∃ s, reachable 7 8 s ∧ contents (s_q s) = [5]
    ∧ h_accepted (s_hist s) = h_handled (s_hist s) ++ h_drained (s_hist s) ++ contents (s_q s).
Proof.
  destruct bee_run as (s0 & s & Hr0 & _ & _ & Hr & Hc & _).
  assert (reachable 7 8 s) as Hs by (unfold reachable in *; by etrans).
  exists s. split_and!; [done..|]. apply (bee_fifo 7 8 s ltac:(lia) Hs).
Defined.

Lemma bee_no_lost_wakeup_witness :
  ∃ s s', reachable 7 8 s ∧ step 7 s s' ∧ s_worker s' = WCall 5.
Proof.
  destruct bee_run as (s0 & s & Hr0 & Hw0 & Hc0 & Hr & Hc & Hw).
  destruct (bee_no_lost_wakeup 7 8 s0 s 5 [] ltac:(lia) Hr0 Hw0 Hc0 Hr Hc) as (s' & Hs & Hm & _);
    [by rewrite Hw..|]. exists s, s'. split_and!; [|done..]. unfold reachable in *. by etrans.
Defined.

(** A queue of one slot is always full: the first try sleeps. *)
Lemma bee_run_full :
  ∃ s, reachable 7 1 s ∧ s_sends s = [SRetry 5 1].
Proof.
  eexists. split.
  { unfold reachable, sys0.
    eapply rtc_l; [by eapply step_orderly, step_worker; eapply (step_register 7 _ _ 0)|].
    eapply rtc_l; [apply step_orderly, step_worker; apply (step_init_cb 7 true)|].
    eapply rtc_l; [apply step_orderly, step_init; apply step_init_wait|].
    eapply rtc_l; [apply step_orderly, step_worker; apply step_ready, sig_init|].
    eapply rtc_l; [apply step_orderly, step_init; apply step_init_done|].
    eapply rtc_l; [by apply step_orderly, step_send; apply (step_call 5)|].
    apply rtc_once. by apply step_orderly, step_send; apply (step_send_retry (SCall 5) 1 [] []). }
  done.
Qed.

Lemma bee_send_bounded_witness : ∃ s, reachable 7 1 s ∧ 1 ≤ 1 < LOOP_QUEUE_MAX.
Proof.
  destruct bee_run_full as (s & Hr & Hs). exists s. split; [done|].
  apply (bee_send_bounded 7 1 s 5 1 ltac:(lia) Hr). rewrite Hs. by left.
Defined.
