(* ===== verification/Bpf.v ===== *)
(** * Bpf: the kernel side of the tracers

    What the BPF programs of the detect tools use of the kernel: maps with a
    bounded number of entries, per-CPU arrays, the helpers that describe the
    current context, and perf-event output. A program is a function from the
    context it is attached to and the tool's maps to the new maps and the
    events it outputs. [Tracer] is the interface every tool implements; the
    lemmas on [run] lift facts about one program to every trace. *)

From S2P Require Import Prelude.

(** ** Maps *)

Definition BPF_ANY : Z := 0.
Definition BPF_NOEXIST : Z := 1.
Definition BPF_EXIST : Z := 2.

(** [bpf_map_update_elem] on a hash map of at most [max] entries. *)
Definition map_update `{Countable K} {V} (max : nat) (flags : Z) (k : K) (v : V) (m : gmap K V)
    : Z * gmap K V :=
  match m !! k with
  | Some _ => if flags =? BPF_NOEXIST then (- EEXIST, m) else (0, <[k := v]> m)
  | None =>
      if flags =? BPF_EXIST then (- ENOENT, m)
      else if (max <=? size m)%nat then (- E2BIG, m)
      else (0, <[k := v]> m)
  end.

(** Arrays: every index below [max] is present, zero before the first store. *)
Definition array_lookup {V} (zero : V) (max : Z) (m : gmap Z V) (k : Z) : option V :=
  if (0 <=? k) && (k <? max) then Some (default zero (m !! k)) else None.
Definition array_store {V} (k : Z) (v : V) (m : gmap Z V) : gmap Z V := <[k := v]> m.

(** Per-CPU arrays: one array for each CPU. *)
Definition percpu_lookup {V} (zero : V) (max cpu : Z) (m : gmap (Z * Z) V) (k : Z) : option V :=
  if (0 <=? k) && (k <? max) then Some (default zero (m !! (cpu, k))) else None.
Definition percpu_store {V} (cpu k : Z) (v : V) (m : gmap (Z * Z) V) : gmap (Z * Z) V :=
  <[(cpu, k) := v]> m.

(** The hash map of [max] entries never holds more. *)
Lemma map_update_size `{Countable K} {V} max flags (k : K) (v : V) m :
  (size m ≤ max)%nat → (size (map_update max flags k v m).2 ≤ max)%nat.
Proof.
  intros Hm. unfold map_update. destruct (m !! k) as [x|] eqn:Hk.
  - case_match; [done|]. simpl. by rewrite map_size_insert_Some by (by eexists).
  - case_match; [done|]. destruct (Nat.leb_spec max (size m)); [done|]. simpl.
    rewrite map_size_insert_None by done. lia.
Qed.

Lemma map_update_room `{Countable K} {V} max (k : K) (v : V) m :
  (size m < max)%nat ∨ is_Some (m !! k) → map_update max BPF_ANY k v m = (0, <[k := v]> m).
Proof.
  intros [Hm|[x Hx]]; unfold map_update; [|by rewrite Hx].
  destruct (m !! k); [done|]. simpl. rewrite (proj2 (Nat.leb_gt _ _)); [done|lia].
Qed.

Lemma map_update_full `{Countable K} {V} max (k : K) (v : V) m :
  (max ≤ size m)%nat → m !! k = None → map_update max BPF_ANY k v m = (- E2BIG, m).
Proof.
  intros Hm Hk. unfold map_update. rewrite Hk. simpl.
  by rewrite (proj2 (Nat.leb_le _ _)) by lia.
Qed.

(** ** The context of a program *)

Record bctx := BCtx {
  c_now : Z;         (* bpf_ktime_get_ns *)
  c_cpu : Z;         (* bpf_get_smp_processor_id *)
  c_pid_tgid : Z;    (* bpf_get_current_pid_tgid *)
  c_comm : string;   (* bpf_get_current_comm *)
  c_stackid : Z;     (* bpf_get_stackid *)
}.

(** [(u32)bpf_get_current_pid_tgid()] and the upper half. *)
Definition c_pid (c : bctx) : Z := u32 (c_pid_tgid c).
Definition c_tgid (c : bctx) : Z := u32 (Z.shiftr (c_pid_tgid c) 32).

(** The part of [struct task_struct] the programs read. *)
Record task := Task {
  t_pid : Z; t_tgid : Z; t_comm : list Z;
  t_ti_in_task : bool;   (* [state] follows [thread_info] in the struct *)
  t_flags : Z;           (* [thread_info.flags] at the start of the task *)
  t_stack_flags : Z;     (* [thread_info.flags] at the base of the stack *)
  t_rqlen : Z;           (* [se.cfs_rq->rq->nr_running] *)
}.

(** [test_ti_thread_flag]: bit [nr] of the flag word copied to the stack. *)
Definition test_ti_thread_flag (flags nr : Z) : Z :=
  Z.land 1 (Z.shiftr (nth (Z.to_nat (nr / 64)) [flags] 0) (Z.land nr 63)).

Definition test_tsk_need_resched (p : task) (flag : Z) : Z :=
  test_ti_thread_flag (if t_ti_in_task p then t_flags p else t_stack_flags p) flag.

Lemma test_tsk_need_resched_bit p flag :
  0 ≤ flag < 64 →
  test_tsk_need_resched p flag
  = Z.b2z (Z.testbit (if t_ti_in_task p then t_flags p else t_stack_flags p) flag).
Proof.
  intros H. unfold test_tsk_need_resched, test_ti_thread_flag.
  rewrite Z.div_small by done. simpl nth.
  change 63 with (Z.ones 6). rewrite Z.land_ones by lia. rewrite Z.mod_small by done.
  change 1 with (Z.ones 1). rewrite Z.land_comm, Z.land_ones by lia.
  by rewrite Z.testbit_spec' by lia; rewrite Z.shiftr_div_pow2 by lia.
Qed.

(** ** Traces *)

(** A tool: its maps [S], the inputs [I] its programs are attached to, and the
    events [E] they output. *)
Class Tracer (S I E : Type) := handle : I → S → S * list E.

Section run.
Context {S I E : Type} {T : Tracer S I E}.
Implicit Types (s : S) (i : I) (tr : list I).

Fixpoint run tr s : S * list E :=
  match tr with
  | [] => (s, [])
  | i :: tr' =>
      let '(s1, e1) := handle i s in
      let '(s2, e2) := run tr' s1 in
      (s2, e1 ++ e2)
  end.

Lemma run_cons i tr s :
  run (i :: tr) s = ((run tr (handle i s).1).1, (handle i s).2 ++ (run tr (handle i s).1).2).
Proof. simpl. destruct (handle i s) as [s1 e1]. simpl. by destruct (run tr s1). Qed.

Lemma run_app tr1 tr2 s :
  run (tr1 ++ tr2) s
  = ((run tr2 (run tr1 s).1).1, (run tr1 s).2 ++ (run tr2 (run tr1 s).1).2).
Proof.
  revert s; induction tr1 as [|i tr1 IH]; intros s; simpl; [by destruct (run tr2 s)|].
  destruct (handle i s) as [s1 e1]. rewrite IH.
  destruct (run tr1 s1) as [s2 e2]. simpl. by rewrite app_assoc.
Qed.

Lemma run_snoc tr i s :
  run (tr ++ [i]) s
  = ((handle i (run tr s).1).1, (run tr s).2 ++ (handle i (run tr s).1).2).
Proof.
  rewrite run_app. simpl. destruct (handle i (run tr s).1). simpl. by rewrite app_nil_r.
Qed.

(** An invariant that every program keeps holds after every trace. *)
Lemma run_inv (P : S → Prop) tr s :
  (∀ i s, P s → P (handle i s).1) → P s → P (run tr s).1.
Proof.
  intros Hstep. revert s; induction tr as [|i tr IH]; intros s Hs; [done|]. simpl.
  specialize (Hstep i s Hs). destruct (handle i s) as [s1 e1]. specialize (IH s1 Hstep).
  by destruct (run tr s1).
Qed.

(** An invariant, with a property of the events, that every program keeps on
    the inputs of the trace. *)
Lemma run_all (G : I → Prop) (P : S → Prop) (Q : E → Prop) tr s :
  (∀ i s, G i → P s → P (handle i s).1 ∧ Forall Q (handle i s).2) →
  Forall G tr → P s → P (run tr s).1 ∧ Forall Q (run tr s).2.
Proof.
  intros Hstep HG. revert s; induction HG as [|i tr Hi HG IH]; intros s Hs; [by split|].
  rewrite run_cons. simpl. destruct (Hstep i s Hi Hs) as [Hs' He].
  destruct (IH _ Hs'). split; [done|]. by apply Forall_app.
Qed.

(** Every event of a trace comes from one of its inputs. *)
Lemma run_events tr s e :
  e ∈ (run tr s).2 →
  ∃ tr1 i tr2, tr = tr1 ++ i :: tr2 ∧ e ∈ (handle i (run tr1 s).1).2.
Proof.
  revert s; induction tr as [|i tr IH]; intros s; simpl; [by intros ?%not_elem_of_nil|].
  destruct (handle i s) as [s1 e1] eqn:Hh.
  destruct (run tr s1) as [s2 e2] eqn:Hr. simpl. intros [He|He]%elem_of_app.
  - exists [], i, tr. simpl. by rewrite Hh.
  - destruct (IH s1) as (tr1 & j & tr2 & -> & Hj); [by rewrite Hr|].
    exists (i :: tr1), j, tr2. split; [done|]. simpl. rewrite Hh. by destruct (run tr1 s1).
Qed.
End run.

(** ** Clocks and tables *)

(** The context of an input. *)
Class HasCtx (I : Type) := ctx_of : I → bctx.

(** The clock never goes back along the trace, from [t] on. *)
Fixpoint clock_from {I} `{HasCtx I} (t : Z) (tr : list I) : Prop :=
  match tr with
  | [] => True
  | i :: tr' => t ≤ c_now (ctx_of i) < 2 ^ 64 ∧ clock_from (c_now (ctx_of i)) tr'
  end.

(** A table whose keys come from a set of at most [max] has room for an absent
    key of the set. *)
Lemma map_room_set `{Countable K} {V} (max : nat) (P : gset K) (m : gmap K V) k :
  dom m ⊆ P → (size P ≤ max)%nat → k ∈ P → m !! k = None → (size m < max)%nat.
Proof.
  intros Hm HP Hk Hnone. rewrite <-size_dom.
  apply Nat.lt_le_trans with (size P); [|done]. apply subset_size. split; [done|].
  intros Hs. specialize (Hs k Hk). apply elem_of_dom in Hs as [v Hv]. congruence.
Qed.

(** The same for the keys below [max]. *)
Lemma map_room {V} (max : nat) (m : gmap Z V) k :
  (∀ j, is_Some (m !! j) → 0 ≤ j < Z.of_nat max) → 0 ≤ k < Z.of_nat max → m !! k = None →
  (size m < max)%nat.
Proof.
  intros Hm Hk. apply (map_room_set max (list_to_set (seqZ 0 (Z.of_nat max)))).
  - intros j Hj. apply elem_of_dom, Hm in Hj. apply elem_of_list_to_set, elem_of_seqZ. lia.
  - rewrite size_list_to_set by apply NoDup_seqZ. rewrite length_seqZ. lia.
  - apply elem_of_list_to_set, elem_of_seqZ. lia.
Qed.
