(* ===== verification/SchedJit.v ===== *)
(** * SchedJit: the summary of the scheduling detectors

    [struct event] of [lib/uapi/include/sched_jit.h] and the running summary
    ([struct sched_jit_summary]) that [irqoff.c], [nosched.c] and
    [runqslower.c] keep of the events they receive: how many, their total
    delay, a histogram, the last four and the largest four. The three files
    have the same [update_summary] over their own event type; [JitEvent] is
    what it reads of an event. *)

From S2P Require Import Prelude.

Definition CPU_ARRY_LEN : nat := 4.
Definition CONID_LEN : nat := 13.
Definition TASK_COMM_LEN : nat := 16.

Record event := Event {
  ev_ret : Z; ev_pid : Z; ev_cpu : Z;
  ev_delay : Z; ev_stamp : Z; ev_enter : Z; ev_exit : Z;
  ev_comm : string;
}.

Record jit_maxN := MaxN {
  mx_delay : Z; mx_stamp : Z; mx_cpu : Z; mx_pid : Z; mx_comm : string;
}.

Record jit_lastN := LastN { la_cpu : Z; la_delay : Z; la_con : string }.

Record sched_jit_summary := Summary {
  min_idx : nat;
  num : Z; total : Z; topNmin : Z;
  maxN_array : list jit_maxN;
  lastN_array : list jit_lastN;
  less10ms : Z; less50ms : Z; less100ms : Z; less500ms : Z; less1s : Z; plus1s : Z;
}.

(** What [memset(sump, 0, sizeof(struct sched_jit_summary))] leaves. *)
Definition summary0 : sched_jit_summary :=
  Summary 0 0 0 0 (replicate CPU_ARRY_LEN (MaxN 0 0 0 0 ""))
    (replicate CPU_ARRY_LEN (LastN 0 0 "")) 0 0 0 0 0 0.

(** What [update_summary] reads of an event. *)
Class JitEvent (E : Type) := {
  je_delay : E → Z; je_cpu : E → Z; je_pid : E → Z; je_stamp : E → Z; je_comm : E → string;
}.

#[global] Instance event_jit : JitEvent event := {
  je_delay := ev_delay; je_cpu := ev_cpu; je_pid := ev_pid; je_stamp := ev_stamp;
  je_comm := ev_comm;
}.

Section summary.
Context {E : Type} {JE : JitEvent E}.
(** [get_container]: the container of a process, [None] when it fails. *)
Context (get_container : Z → option string).

Definition fill_maxN (e : E) : jit_maxN :=
  MaxN (je_delay e) (je_stamp e) (je_cpu e) (je_pid e)
    (String.substring 0 TASK_COMM_LEN (je_comm e)).

(** The loop that looks for the smallest slot, from slot [i] on. *)
Fixpoint min_scan (i idx : nat) (tmp : Z) (l : list jit_maxN) : nat * Z :=
  match l with
  | [] => (idx, tmp)
  | m :: l' => if mx_delay m <? tmp then min_scan (S i) i (mx_delay m) l'
               else min_scan (S i) idx tmp l'
  end.

Definition lastN_of (e : E) : jit_lastN :=
  LastN (je_cpu e) (je_delay e)
    (String.substring 0 CONID_LEN (default "000000000000"%string (get_container (je_pid e)))).

(** The buckets after one more event. *)
Definition bump (lo hi d n : Z) : Z := if (lo <=? d) && (d <? hi) then u64 (n + 1) else n.

Definition update_summary (s : sched_jit_summary) (e : E) : sched_jit_summary :=
  let d := je_delay e in
  let num := u64 (num s + 1) in
  let ridx := Z.to_nat (num mod Z.of_nat CPU_ARRY_LEN) in
  let last := <[ridx := lastN_of e]> (lastN_array s) in
  let '(idx, tmp) :=
    match maxN_array s with
    | m :: l => min_scan 1 0 (mx_delay m) l
    | [] => (0%nat, 0)
    end in
  let top := topNmin s <? d in
  Summary (if top then idx else min_idx s) num (u64 (total s + d))
    (if top then tmp else topNmin s)
    (if top then <[idx := fill_maxN e]> (maxN_array s) else maxN_array s)
    last
    (bump 0 10 d (less10ms s)) (bump 10 50 d (less50ms s)) (bump 50 100 d (less100ms s))
    (bump 100 500 d (less500ms s)) (bump 500 1000 d (less1s s))
    (if 1000 <=? d then u64 (plus1s s + 1) else plus1s s).

Definition summarize (es : list E) : sched_jit_summary := foldl update_summary summary0 es.

(** ** Facts *)

Lemma summarize_snoc es e : summarize (es ++ [e]) = update_summary (summarize es) e.
Proof. unfold summarize. by rewrite foldl_app. Qed.

Lemma min_scan_spec l : ∀ i idx tmp j t,
  min_scan i idx tmp l = (j, t) →
  t ≤ tmp ∧ Forall (λ m, t ≤ mx_delay m) l
  ∧ ((j = idx ∧ t = tmp) ∨ ∃ k m, l !! k = Some m ∧ j = (i + k)%nat ∧ mx_delay m = t).
Proof.
  induction l as [|m l IH]; intros i idx tmp j t H; simpl in H.
  - injection H as <- <-. split; [lia|]. split; [constructor|]. by left.
  - destruct (Z.ltb_spec (mx_delay m) tmp).
    + apply IH in H as (Ht & Hall & [[-> ->]|(k & m' & Hk & -> & <-)]).
      * split; [lia|]. split; [constructor; [lia|done]|]. right. exists 0%nat, m. by rewrite Nat.add_0_r.
      * split; [lia|]. split; [constructor; [lia|done]|]. right. exists (S k), m'. split_and!; [done|lia|done].
    + apply IH in H as (Ht & Hall & [[-> ->]|(k & m' & Hk & -> & <-)]).
      * split; [lia|]. split; [constructor; [lia|done]|]. by left.
      * split; [lia|]. split; [constructor; [lia|done]|]. right. exists (S k), m'. split_and!; [done|lia|done].
Qed.

(** The slot [update_summary] replaces holds the smallest delay. *)
Lemma min_slot m l j t :
  min_scan 1 0 (mx_delay m) l = (j, t) →
  (∃ x, (m :: l) !! j = Some x ∧ mx_delay x = t) ∧ Forall (λ x, t ≤ mx_delay x) (m :: l).
Proof.
  intros H. apply min_scan_spec in H as (Ht & Hall & Hj). split.
  - destruct Hj as [[-> ->]|(k & x & Hk & -> & Hx)]; [by exists m|]. by exists x.
  - by constructor.
Qed.

Lemma summary_lengths es :
  length (maxN_array (summarize es)) = CPU_ARRY_LEN
  ∧ length (lastN_array (summarize es)) = CPU_ARRY_LEN.
Proof.
  induction es as [|e es [IH1 IH2]] using rev_ind; [done|]. rewrite summarize_snoc.
  unfold update_summary. destruct (match maxN_array _ with [] => _ | _ => _ end) as [idx tmp].
  simpl. rewrite length_insert. by case_match; rewrite ?length_insert.
Qed.

Definition sum_delay (es : list E) : Z := foldr (λ e n, je_delay e + n) 0 es.

Lemma sum_delay_app es1 es2 : sum_delay (es1 ++ es2) = sum_delay es1 + sum_delay es2.
Proof. induction es1 as [|e es1 IH]; simpl; [done|]. unfold sum_delay in *. simpl. lia. Qed.

Lemma summary_num es : zlen es < 2 ^ 64 → num (summarize es) = zlen es.
Proof.
  induction es as [|e es IH] using rev_ind; intros Hlen; [done|].
  rewrite zlen_app in *. change (zlen [e]) with 1 in *. rewrite summarize_snoc.
  pose proof (zlen_nonneg es). unfold update_summary.
  destruct (match maxN_array _ with [] => _ | _ => _ end). simpl.
  rewrite IH by lia. apply wrap_small. lia.
Qed.

Definition bucket_sum (s : sched_jit_summary) : Z :=
  less10ms s + less50ms s + less100ms s + less500ms s + less1s s + plus1s s.

Record buckets_ok (s : sched_jit_summary) (n : Z) : Prop := {
  bk_sum : bucket_sum s = n;
  bk_nonneg : Forall (Z.le 0)
    [less10ms s; less50ms s; less100ms s; less500ms s; less1s s; plus1s s];
}.

Lemma bump_small lo hi d n : 0 ≤ n < 2 ^ 64 - 1 →
  bump lo hi d n = n + Z.b2z ((lo <=? d) && (d <? hi)).
Proof. intros. unfold bump. destruct (_ && _); simpl; [apply wrap_small|]; lia. Qed.

Lemma buckets_ok_update s n e :
  0 ≤ je_delay e → buckets_ok s n → n < 2 ^ 64 - 1 → buckets_ok (update_summary s e) (n + 1).
Proof.
  intros Hd [Hsum Hnn] Hn. unfold update_summary, bucket_sum in *.
  destruct (match maxN_array s with [] => _ | _ => _ end) as [idx tmp].
  repeat match goal with H : Forall _ (_ :: _) |- _ => inversion H; subst; clear H end.
  assert (∀ x, 0 ≤ x → x ≤ bucket_sum s → 0 ≤ x < 2 ^ 64 - 1) as Hb by (unfold bucket_sum; lia).
  unfold bucket_sum in Hb.
  split; unfold bucket_sum; simpl; rewrite !bump_small by (apply Hb; lia).
  - rewrite (wrap_small 64 (plus1s s + 1)) by lia.
    destruct (Z.leb_spec 0 (je_delay e)), (Z.ltb_spec (je_delay e) 10),
      (Z.leb_spec 10 (je_delay e)), (Z.ltb_spec (je_delay e) 50),
      (Z.leb_spec 50 (je_delay e)), (Z.ltb_spec (je_delay e) 100),
      (Z.leb_spec 100 (je_delay e)), (Z.ltb_spec (je_delay e) 500),
      (Z.leb_spec 500 (je_delay e)), (Z.ltb_spec (je_delay e) 1000),
      (Z.leb_spec 1000 (je_delay e)); simpl; lia.
  - assert (∀ b x, 0 ≤ x → 0 ≤ x + Z.b2z b) as Hnn by (intros []; simpl; lia).
    repeat constructor; auto. case_match; [|done]. apply wrap_range; lia.
Qed.

(** The summary counts every event once: after fewer than 2^64 events,
    [num] is their number and the sum of the six buckets, and [total] is the
    sum of their delays (modulo 2^64). *)
Theorem summary_counts es :
  zlen es < 2 ^ 64 → Forall (λ e, 0 ≤ je_delay e) es →
  let s := summarize es in
  num s = zlen es ∧ bucket_sum s = zlen es ∧ total s = u64 (sum_delay es).
Proof.
  intros Hlen Hd s. split; [by apply summary_num|]. subst s.
  assert (buckets_ok (summarize es) (zlen es) ∧ total (summarize es) = u64 (sum_delay es))
    as [[Hb _] Ht]; [|done].
  induction es as [|e es IH] using rev_ind.
  - split; [split; [done|by repeat constructor]|done].
  - rewrite zlen_app in *. change (zlen [e]) with 1 in *.
    apply Forall_app in Hd as [Hd He]. rewrite Forall_singleton in He.
    destruct IH as [Hb Ht]; [lia|done|]. rewrite summarize_snoc. split.
    + apply buckets_ok_update; [exact He|exact Hb|lia].
    + rewrite sum_delay_app. unfold update_summary.
      destruct (match maxN_array _ with [] => _ | _ => _ end). simpl.
      rewrite Ht. unfold wrap. rewrite Zplus_mod_idemp_l. f_equal. unfold sum_delay. simpl. lia.
Qed.

(** The slot of the [k]-th event, counted from 1, in [lastN_array]. *)
Definition last_slot (k : nat) : nat := (k mod CPU_ARRY_LEN)%nat.

Lemma last_slot_near a b :
  (a < b)%nat → (b < a + CPU_ARRY_LEN)%nat → last_slot a ≠ last_slot b.
Proof.
  unfold last_slot, CPU_ARRY_LEN. intros H1 H2 H.
  pose proof (Nat.div_mod a 4 ltac:(lia)). pose proof (Nat.div_mod b 4 ltac:(lia)).
  pose proof (Nat.mod_upper_bound a 4 ltac:(lia)). lia.
Qed.

(** [lastN_array] is a ring of the last four events: the [k]-th event from
    the end ([k] below four) is in its slot with its CPU, delay and container. *)
Theorem summary_last es k e :
  zlen es < 2 ^ 64 → (k < CPU_ARRY_LEN)%nat → reverse es !! k = Some e →
  lastN_array (summarize es) !! last_slot (length es - k) = Some (lastN_of e).
Proof.
  revert k. induction es as [|x es IH] using rev_ind; intros k Hlen Hk He; [done|].
  rewrite reverse_snoc in He. rewrite summarize_snoc, length_app. simpl length.
  assert (zlen es < 2 ^ 64 ∧ zlen (es ++ [x]) = zlen es + 1) as [Hlen' Hz].
  { rewrite zlen_app in *. change (zlen [x]) with 1 in *. lia. }
  unfold update_summary. destruct (match maxN_array _ with [] => _ | _ => _ end). simpl.
  rewrite summary_num, wrap_small by (pose proof (zlen_nonneg es); lia).
  replace (Z.to_nat ((zlen es + 1) mod Z.of_nat CPU_ARRY_LEN)) with (last_slot (length es + 1)).
  2:{ unfold last_slot, zlen. replace (Z.of_nat (length es) + 1) with (Z.of_nat (length es + 1)) by lia.
      rewrite <-Nat2Z.inj_mod. by rewrite Nat2Z.id. }
  destruct k as [|k]; simpl in He.
  - injection He as ->. rewrite Nat.sub_0_r. apply list_lookup_insert_eq.
    destruct (summary_lengths es) as [_ ->]. apply Nat.mod_upper_bound. done.
  - apply lookup_lt_Some in He as Hlt. rewrite length_reverse in Hlt.
    rewrite list_lookup_insert_ne.
    + replace (length es + 1 - S k)%nat with (length es - k)%nat by lia. apply IH; [done|lia|done].
    + apply not_eq_sym, last_slot_near; lia.
Qed.

(** The largest delay seen. *)
Definition max_delay (es : list E) : Z := foldl (λ m e, Z.max m (je_delay e)) 0 es.

Record max_ok (s : sched_jit_summary) (m : Z) : Prop := {
  mo_len : length (maxN_array s) = CPU_ARRY_LEN;
  mo_top : 0 ≤ topNmin s ≤ m;
  mo_le : Forall (λ x, 0 ≤ mx_delay x ≤ m) (maxN_array s);
  mo_in : Exists (λ x, mx_delay x = m) (maxN_array s);
}.

(** Replacing the smallest of four slots keeps a slot that holds the maximum. *)
Lemma keep_max (l : list jit_maxN) j x m v :
  (2 ≤ length l)%nat → l !! j = Some x → Forall (λ y, mx_delay x ≤ mx_delay y) l →
  Forall (λ y, 0 ≤ mx_delay y ≤ m) l → Exists (λ y, mx_delay y = m) l →
  Exists (λ y, mx_delay y = m) (<[j := v]> l).
Proof.
  intros Hlen Hj Hmin Hle Hex. rewrite !Forall_lookup in *.
  apply Exists_exists in Hex as (y & Hy & Hm). apply list_elem_of_lookup in Hy as [i Hi].
  destruct (decide (i = j)) as [->|Hne].
  - assert (y = x) as -> by congruence.
    destruct (lookup_lt_is_Some_2 l (if decide (j = 0)%nat then 1 else 0)%nat) as [z Hz];
      [case_decide; lia|].
    apply Exists_exists. exists z. split.
    + apply (list_elem_of_lookup_2 _ (if decide (j = 0)%nat then 1 else 0)%nat).
      rewrite list_lookup_insert_ne; [done|]. case_decide; lia.
    + pose proof (Hmin _ _ Hz). pose proof (Hle _ _ Hz). simpl in *. lia.
  - apply Exists_exists. exists y. split; [|done].
    apply (list_elem_of_lookup_2 _ i). by rewrite list_lookup_insert_ne.
Qed.

Lemma max_ok_update s m e :
  max_ok s m → 0 ≤ je_delay e → max_ok (update_summary s e) (Z.max m (je_delay e)).
Proof.
  intros [Hlen Htop Hle Hin] Hd. unfold update_summary.
  destruct (maxN_array s) as [|m0 l] eqn:Harr; [done|]. rewrite <-Harr in *.
  destruct (min_scan 1 0 (mx_delay m0) l) as [j t] eqn:Hscan.
  apply min_slot in Hscan as [(x & Hx & <-) Hall]. rewrite <-Harr in *.
  assert (0 ≤ mx_delay x ≤ m) as Hxm by (by rewrite Forall_lookup in Hle; eapply Hle).
  destruct (Z.ltb_spec (topNmin s) (je_delay e)).
  - split; simpl; [by rewrite length_insert|lia| |].
    + apply Forall_insert; [|simpl; lia]. eapply Forall_impl; [exact Hle|]. simpl. lia.
    + destruct (Z.le_gt_cases (je_delay e) m).
      * rewrite Z.max_l by done. eapply keep_max; [|done..]. rewrite Hlen. unfold CPU_ARRY_LEN. lia.
      * rewrite Z.max_r by lia. apply Exists_exists. exists (fill_maxN e). split; [|done].
        apply (list_elem_of_lookup_2 _ j), list_lookup_insert_eq. by eapply lookup_lt_Some.
  - rewrite Z.max_l by lia. by split.
Qed.

(** The largest delay of all events is always one of the four of
    [maxN_array]. *)
Theorem summary_max es :
  Forall (λ e, 0 ≤ je_delay e) es →
  Exists (λ x, mx_delay x = max_delay es) (maxN_array (summarize es)).
Proof.
  intros Hd. enough (max_ok (summarize es) (max_delay es)) as [] by done.
  induction es as [|e es IH] using rev_ind.
  - split; [done|done|by repeat constructor|by apply Exists_cons_hd].
  - apply Forall_app in Hd as [Hd He]. rewrite Forall_singleton in He.
    rewrite summarize_snoc. unfold max_delay. rewrite foldl_app. simpl.
    apply max_ok_update; [by apply IH|done].
Qed.
End summary.

#[global] Arguments summarize {E JE} _ _.

Definition sample_event (d : Z) : event := Event 0 1 0 d 0 0 0 "a".

(** [maxN_array] does not hold the four largest delays: [topNmin] is the
    delay that was replaced, not the smallest that is left, so a delay below
    the four recorded ones replaces the smallest of them. *)
Theorem summary_top4_lost :
  ∃ es : list event,
    mx_delay <$> maxN_array (summarize (λ _, None) es) = [5; 20; 30; 40]
    ∧ je_delay <$> es = [10; 20; 30; 40; 5].
Proof. by exists (sample_event <$> [10; 20; 30; 40; 5]). Qed.

Lemma summary_counts_witness :
  num (summarize (λ _, None) (sample_event <$> [10; 20; 3])) = 3
  ∧ bucket_sum (summarize (λ _, None) (sample_event <$> [10; 20; 3])) = 3.
Proof.
  destruct (summary_counts (λ _, None) (sample_event <$> [10; 20; 3])) as (H1 & H2 & _);
    [done|by repeat constructor|]. by split.
Defined.

Lemma summary_last_witness :
  lastN_array (summarize (λ _, None) (sample_event <$> [10; 20; 3])) !! 2%nat
  = Some (LastN 0 20 "000000000000").
Proof.
  pose proof (summary_last (λ _, None) (sample_event <$> [10; 20; 3]) 1 (sample_event 20)
    ltac:(done) ltac:(unfold CPU_ARRY_LEN; lia) ltac:(done)) as H.
  vm_compute in H |- *. exact H.
Defined.

Lemma summary_max_witness :
  Exists (λ x, mx_delay x = 40)
    (maxN_array (summarize (λ _, None) (sample_event <$> [10; 40; 30; 20; 5]))).
Proof.
  change 40 with (max_delay (sample_event <$> [10; 40; 30; 20; 5])).
  apply (summary_max (λ _, None) (sample_event <$> [10; 40; 30; 20; 5])). by repeat constructor.
Defined.
