(* ===== verification/Irqoff.v ===== *)
(** * Irqoff: the interrupts-off detector

    The BPF programs of [detect/sched/irqoff/bpf/irqoff.bpf.c] and the event
    handler of [irqoff.c]. A software clock tick stamps its CPU; when a
    hardware event (or the next tick, where the hardware event is not
    available) comes later than the threshold after the stamp, interrupts were
    off that long and an event is output.

    The specification looks at the trace instead of the maps: an input reports
    exactly when the latest earlier tick of the same CPU is more than the
    threshold ago. *)

From S2P Require Import Prelude Bpf SchedJit.

(** The maps; [arg_map] holds [struct arg_info], [tm_map] [struct tm_info]. *)
Record irq_maps := IrqMaps { arg_map : gmap Z Z; tm_map : gmap (Z * Z) Z }.

Definition set_tm (m : gmap (Z * Z) Z) (s : irq_maps) : irq_maps := IrqMaps (arg_map s) m.

Definition get_thresh (s : irq_maps) : Z :=
  match array_lookup 0 1 (arg_map s) 0 with Some t => t | None => u64 (-1) end.

(** The event both reporting programs fill. *)
Definition irq_event (c : bctx) (delta : Z) : event :=
  Event (u32 (c_stackid c)) (c_pid c) (u32 (c_cpu c)) delta (c_now c) 0 0 (c_comm c).

Definition hw_irqoff_event (c : bctx) (s : irq_maps) : irq_maps * list event :=
  let now := c_now c in
  match percpu_lookup 0 1 (c_cpu c) (tm_map s) 0 with
  | Some stamp =>
      let thresh := get_thresh s in
      if negb (stamp =? 0) && negb (thresh =? u64 (-1)) then
        let delta := u64 (now - stamp) in
        if thresh <? delta then (s, [irq_event c delta]) else (s, [])
      else (s, [])
  | None => (s, [])
  end.

Definition sw_irqoff_event1 (c : bctx) (s : irq_maps) : irq_maps * list event :=
  match percpu_lookup 0 1 (c_cpu c) (tm_map s) 0 with
  | Some _ => (set_tm (percpu_store (c_cpu c) 0 (c_now c) (tm_map s)) s, [])
  | None => (set_tm (percpu_store (c_cpu c) 0 (c_now c) (tm_map s)) s, [])
  end.

Definition sw_irqoff_event2 (c : bctx) (s : irq_maps) : irq_maps * list event :=
  let now := c_now c in
  match percpu_lookup 0 1 (c_cpu c) (tm_map s) 0 with
  | Some stamp =>
      let s := set_tm (percpu_store (c_cpu c) 0 now (tm_map s)) s in
      let thresh := get_thresh s in
      if negb (stamp =? 0) && negb (thresh =? u64 (-1)) then
        let delta := u64 (now - stamp) in
        if thresh <? delta then (s, [irq_event c delta]) else (s, [])
      else (s, [])
  | None => (set_tm (percpu_store (c_cpu c) 0 now (tm_map s)) s, [])
  end.

Inductive irq_in := Hw (c : bctx) | Sw1 (c : bctx) | Sw2 (c : bctx).

#[global] Instance irq_tracer : Tracer irq_maps irq_in event := λ i,
  match i with
  | Hw c => hw_irqoff_event c
  | Sw1 c => sw_irqoff_event1 c
  | Sw2 c => sw_irqoff_event2 c
  end.

(** ** User space *)

Definition update_summary (get_container : Z → option string) :
  sched_jit_summary → event → sched_jit_summary := SchedJit.update_summary get_container.

(** [handle_event] with [env.summary] set. *)
Definition handle_event (get_container : Z → option string) (nr_cpus : Z)
    (s : sched_jit_summary) (ev : event) : sched_jit_summary :=
  let e := Event (ev_ret ev) (ev_pid ev) (ev_cpu ev) (ev_delay ev / (1000 * 1000))
             (ev_stamp ev) (ev_enter ev) (ev_exit ev) (ev_comm ev) in
  if u32 (nr_cpus - 1) <? ev_cpu e then s else update_summary get_container s e.

(** ** The specification *)

#[global] Instance irq_ctx : HasCtx irq_in := λ i, match i with Hw c | Sw1 c | Sw2 c => c end.

(** The time of the latest tick of [cpu] in a history, the latest input first. *)
Fixpoint last_tick (cpu : Z) (hist : list irq_in) : option Z :=
  match hist with
  | [] => None
  | (Sw1 c | Sw2 c) :: hist' => if c_cpu c =? cpu then Some (c_now c) else last_tick cpu hist'
  | Hw _ :: hist' => last_tick cpu hist'
  end.

Definition irq_report (thresh : Z) (hist : list irq_in) (c : bctx) : list event :=
  match last_tick (c_cpu c) hist with
  | Some t => if thresh <? c_now c - t then [irq_event c (c_now c - t)] else []
  | None => []
  end.

Fixpoint irq_spec (thresh : Z) (hist tr : list irq_in) : list event :=
  match tr with
  | [] => []
  | i :: tr' =>
      match i with Sw1 _ => [] | Hw c | Sw2 c => irq_report thresh hist c end
      ++ irq_spec thresh (i :: hist) tr'
  end.

(** [tm_map] holds the time of the latest tick of each CPU. *)
Record irq_ok (thresh now : Z) (hist : list irq_in) (s : irq_maps) : Prop := {
  io_thresh : get_thresh s = thresh;
  io_stamp cpu : default 0 (tm_map s !! (cpu, 0)) = default 0 (last_tick cpu hist);
  io_past cpu t : last_tick cpu hist = Some t → 0 < t ≤ now;
}.

(** The decision both reporting programs make. *)
Lemma irq_report_ok {A} (a : A) thresh now hist s c :
  irq_ok thresh now hist s → 0 ≤ thresh < 2 ^ 64 → now ≤ c_now c < 2 ^ 64 →
  let stamp := default 0 (tm_map s !! (c_cpu c, 0)) in
  (if negb (stamp =? 0) && negb (thresh =? u64 (-1)) then
     if thresh <? u64 (c_now c - stamp) then (a, [irq_event c (u64 (c_now c - stamp))]) else (a, [])
   else (a, [])) = (a, irq_report thresh hist c).
Proof.
  intros [Hth Hst Hpast] Hb Hnow stamp. subst stamp. rewrite Hst. unfold irq_report.
  destruct (last_tick (c_cpu c) hist) as [t|] eqn:Ht; [|done]. simpl.
  specialize (Hpast _ _ Ht). rewrite (wrap_small 64 (c_now c - t)) by lia.
  rewrite (proj2 (Z.eqb_neq t 0)) by lia. cbn [negb andb].
  destruct (Z.eqb_spec thresh (u64 (-1))) as [He|]; cbn [negb]; [|by case_match].
  rewrite (proj2 (Z.ltb_ge _ _)); [done|]. rewrite He. change (u64 (-1)) with (2 ^ 64 - 1). lia.
Qed.

Lemma irq_ok_tick thresh now hist s c i :
  irq_ok thresh now hist s → now ≤ c_now c → 0 < c_now c → (i = Sw1 c ∨ i = Sw2 c) →
  irq_ok thresh (c_now c) (i :: hist) (set_tm (percpu_store (c_cpu c) 0 (c_now c) (tm_map s)) s).
Proof.
  intros [Hth Hst Hpast] Hle Hpos Hi.
  assert (∀ cpu, last_tick cpu (i :: hist)
    = if c_cpu c =? cpu then Some (c_now c) else last_tick cpu hist) as Hl
    by (by destruct Hi as [-> | ->]).
  split; [done| |]; intros cpu; rewrite Hl; destruct (Z.eqb_spec (c_cpu c) cpu) as [<-|Hne]; simpl.
  - unfold percpu_store. by rewrite lookup_insert_eq.
  - unfold percpu_store. rewrite lookup_insert_ne by congruence. apply Hst.
  - intros t [= <-]. lia.
  - intros t Ht. specialize (Hpast _ _ Ht). lia.
Qed.

Lemma irq_refines thresh tr : ∀ now hist s,
  0 ≤ thresh < 2 ^ 64 → 0 < now → clock_from now tr → irq_ok thresh now hist s →
  (run tr s).2 = irq_spec thresh hist tr.
Proof.
  induction tr as [|i tr IH]; intros now hist s Hb Hpos Hclk Hok; [done|].
  destruct Hclk as [Hnow Hclk]. rewrite run_cons. cbn [irq_spec].
  pose proof (io_thresh _ _ _ _ Hok) as Hth.
  destruct i as [c|c|c]; cbv [ctx_of irq_ctx] in Hnow, Hclk.
  - assert (handle (Hw c) s = (s, irq_report thresh hist c)) as ->.
    { unfold handle, irq_tracer, hw_irqoff_event, percpu_lookup.
      cbn [Z.leb Z.ltb Z.compare andb]. rewrite Hth. by eapply irq_report_ok. }
    simpl. f_equal. apply (IH (c_now c)); [done|lia|done|].
    destruct Hok as [? Hst Hpast]. split; [done|exact Hst|].
    intros cpu t Ht. specialize (Hpast cpu t Ht). lia.
  - simpl. apply (IH (c_now c)); [done|lia|done|].
    apply (irq_ok_tick _ now); [done|lia|lia|by left].
  - assert (handle (Sw2 c) s = (set_tm (percpu_store (c_cpu c) 0 (c_now c) (tm_map s)) s,
      irq_report thresh hist c)) as ->.
    { unfold handle, irq_tracer, sw_irqoff_event2, percpu_lookup.
      cbn [Z.leb Z.ltb Z.compare andb].
      change (get_thresh (set_tm _ s)) with (get_thresh s). rewrite Hth. by eapply irq_report_ok. }
    simpl. f_equal. apply (IH (c_now c)); [done|lia|done|].
    apply (irq_ok_tick _ now); [done|lia|lia|by right].
Qed.

(** The maps before the first program runs. *)
Definition irq_maps0 (thresh : Z) : irq_maps := IrqMaps {[0 := thresh]} ∅.

(** C19: the interrupts-off detector reports exactly what the trace shows: for
    every interleaving of the CPUs' inputs under a clock that does not go
    back, its output is that of the specification, one event for each hardware
    event (or second-kind tick) that comes more than the threshold after the
    latest tick of its own CPU, with that delay. *)
Theorem irqoff_reports thresh tr :
  0 ≤ thresh < 2 ^ 64 → clock_from 1 tr →
  (run tr (irq_maps0 thresh)).2 = irq_spec thresh [] tr.
Proof.
  intros Hb Hclk. apply (irq_refines thresh tr 1); [done|lia|done|].
  split; [|done|done]. unfold get_thresh, array_lookup. simpl. by rewrite lookup_singleton_eq.
Qed.

Definition s_ctx (now cpu : Z) : bctx := BCtx now cpu 42 "t" 7.

Lemma irqoff_reports_witness :
  (run [Sw1 (s_ctx 100 0); Sw1 (s_ctx 150 1); Hw (s_ctx 180 1); Hw (s_ctx 190 0)]
     (irq_maps0 50)).2 = [irq_event (s_ctx 190 0) 90].
Proof.
  rewrite (irqoff_reports 50); [reflexivity|done|]. by repeat split.
Defined.
