(* ===== verification/Nosched.v ===== *)
(** * Nosched: the detector of long runs without a reschedule

    The BPF programs of [detect/sched/nosched/bpf/nosched.bpf.c] and the event
    handler of [nosched.c]. A timer tick that finds the running task marked
    [need_resched] opens an episode on its CPU; while it lasts, a tick reports
    whenever the threshold has passed since the last report, and the switch
    that ends it reports its whole length when that is over the threshold.

    The specification is a machine with one optional episode per CPU, without
    the zero that stands for no episode, the tick counter, the bounded table
    and the modular clock of the code; the programs output what it outputs. *)

From S2P Require Import Prelude Bpf SchedJit.

Definition MAX_MONI_NR : nat := 1024.

Record args := Args { flag : Z; thresh : Z }.

Record latinfo := LatInfo {
  last_seen_need_resched_ns : Z; last_perf_event : Z; ticks_without_resched : Z;
}.

(** The maps. [info_map] is a per-CPU hash of which each CPU only uses the
    entry of its own number: the entry of CPU [c] is at [c]. *)
Record nos_maps := NosMaps { args_map : gmap Z args; info_map : gmap Z latinfo }.

Definition set_info (m : gmap Z latinfo) (s : nos_maps) : nos_maps := NosMaps (args_map s) m.

Definition nos_event (c : bctx) (delay stamp enter exit : Z) : event :=
  Event (u32 (c_stackid c)) (c_pid c) (u32 (c_cpu c)) delay stamp enter exit (c_comm c).

Definition account_process_tick (c : bctx) (p : task) (s : nos_maps) : nos_maps * list event :=
  match args_map s !! 0 with
  | None => (s, [])
  | Some argsp =>
      if t_pid p =? 0 then (s, [])
      else if test_tsk_need_resched p (flag argsp) =? 0 then (s, [])
      else
        let now := c_now c in
        let cpuid := c_cpu c in
        match info_map s !! cpuid with
        | Some latp =>
            if last_seen_need_resched_ns latp =? 0 then
              (set_info (<[cpuid := LatInfo now now 0]> (info_map s)) s, [])
            else
              let ticks := i32 (ticks_without_resched latp + 1) in
              let resched_latency := u64 (now - last_perf_event latp) in
              if thresh argsp <? resched_latency then
                (set_info (<[cpuid := LatInfo (last_seen_need_resched_ns latp) now ticks]>
                   (info_map s)) s,
                 [nos_event c (u64 (now - last_seen_need_resched_ns latp))
                    (last_seen_need_resched_ns latp) 0 0])
              else
                (set_info (<[cpuid := LatInfo (last_seen_need_resched_ns latp)
                   (last_perf_event latp) ticks]> (info_map s)) s, [])
        | None =>
            (set_info (map_update MAX_MONI_NR BPF_ANY cpuid (LatInfo now now 0) (info_map s)).2 s, [])
        end
  end.

Definition handle_switch (c : bctx) (s : nos_maps) : nos_maps * list event :=
  match args_map s !! 0 with
  | None => (s, [])
  | Some argp =>
      let cpuid := c_cpu c in
      match info_map s !! cpuid with
      | None => (s, [])
      | Some latp =>
          let now := c_now c in
          let enter := last_seen_need_resched_ns latp in
          if negb (thresh argp =? 0) && negb (enter =? 0) && (thresh argp <? u64 (now - enter)) then
            (set_info (<[cpuid := LatInfo 0 now (ticks_without_resched latp)]> (info_map s)) s,
             [nos_event c (u64 (now - last_seen_need_resched_ns latp)) now enter now])
          else
            (set_info (<[cpuid := LatInfo 0 (last_perf_event latp) (ticks_without_resched latp)]>
               (info_map s)) s, [])
      end
  end.

Inductive nos_in := Tick (c : bctx) (p : task) | Switch (c : bctx).

#[global] Instance nos_tracer : Tracer nos_maps nos_in event := λ i,
  match i with Tick c p => account_process_tick c p | Switch c => handle_switch c end.

#[global] Instance nos_ctx : HasCtx nos_in := λ i, match i with Tick c _ | Switch c => c end.

(** ** User space *)

Definition update_summary (get_container : Z → option string) :
  sched_jit_summary → event → sched_jit_summary := SchedJit.update_summary get_container.

(** [handle_event] with [env.summary] set: only the end of an episode counts. *)
Definition handle_event (get_container : Z → option string) (nr_cpus : Z)
    (s : sched_jit_summary) (ev : event) : sched_jit_summary :=
  let e := Event (ev_ret ev) (ev_pid ev) (ev_cpu ev) (ev_delay ev / (1000 * 1000))
             (ev_stamp ev) (ev_enter ev) (ev_exit ev) (ev_comm ev) in
  if u32 (nr_cpus - 1) <? ev_cpu e then s
  else if negb (ev_exit e =? 0) then update_summary get_container s e else s.

(** ** The specification *)

Section spec.
Context (a : args).

(** A tick that sees a task, not the idle one, marked to be rescheduled. *)
Definition marked (p : task) : bool :=
  negb (t_pid p =? 0) && negb (test_tsk_need_resched p (flag a) =? 0).

(** The open episodes: CPU to start and last report. *)
Definition nos_spec_step (i : nos_in) (eps : gmap Z (Z * Z)) : gmap Z (Z * Z) * list event :=
  match i with
  | Tick c p =>
      if marked p then
        match eps !! c_cpu c with
        | None => (<[c_cpu c := (c_now c, c_now c)]> eps, [])
        | Some (st, lp) =>
            if thresh a <? c_now c - lp then
              (<[c_cpu c := (st, c_now c)]> eps, [nos_event c (c_now c - st) st 0 0])
            else (eps, [])
        end
      else (eps, [])
  | Switch c =>
      match eps !! c_cpu c with
      | None => (eps, [])
      | Some (st, _) =>
          (delete (c_cpu c) eps,
           if negb (thresh a =? 0) && (thresh a <? c_now c - st)
           then [nos_event c (c_now c - st) (c_now c) st (c_now c)] else [])
      end
  end.

Fixpoint nos_spec (tr : list nos_in) (eps : gmap Z (Z * Z)) : list event :=
  match tr with
  | [] => []
  | i :: tr' => (nos_spec_step i eps).2 ++ nos_spec tr' (nos_spec_step i eps).1
  end.

(** How the table represents the episodes. *)
Definition rep (now : Z) (l : option latinfo) (ep : option (Z * Z)) : Prop :=
  match ep with
  | None => ∀ x, l = Some x → last_seen_need_resched_ns x = 0
  | Some (st, lp) => 0 < st ≤ lp ∧ lp ≤ now ∧ ∃ k, l = Some (LatInfo st lp k)
  end.

Record nos_sim (now : Z) (s : nos_maps) (eps : gmap Z (Z * Z)) : Prop := {
  ns_args : args_map s !! 0 = Some a;
  ns_rep cpu : rep now (info_map s !! cpu) (eps !! cpu);
  ns_cpus cpu : is_Some (info_map s !! cpu) → 0 ≤ cpu < Z.of_nat MAX_MONI_NR;
}.

Lemma rep_mono now now' l ep : now ≤ now' → rep now l ep → rep now' l ep.
Proof. intros Hle. destruct ep as [[st lp]|]; [|done]. simpl. intros (? & ? & ?). split_and!; [lia..|done]. Qed.

(** A step that writes only the entry of its CPU keeps the simulation. *)
Lemma nos_sim_write now now' s eps cpu l ep :
  nos_sim now s eps → now ≤ now' → 0 ≤ cpu < Z.of_nat MAX_MONI_NR →
  rep now' (Some l) ep →
  nos_sim now' (set_info (<[cpu := l]> (info_map s)) s) (partial_alter (λ _, ep) cpu eps).
Proof.
  intros [Ha Hr Hc] Hle Hcpu Hrep. split; [done| |]; intros k; simpl.
  - destruct (decide (k = cpu)) as [->|Hne].
    + by rewrite lookup_insert_eq, lookup_partial_alter_eq.
    + rewrite lookup_insert_ne, lookup_partial_alter_ne by done. by eapply rep_mono.
  - destruct (decide (k = cpu)) as [->|Hne]; [done|]. rewrite lookup_insert_ne by done. apply Hc.
Qed.

Lemma nos_sim_later now now' s eps : nos_sim now s eps → now ≤ now' → nos_sim now' s eps.
Proof. intros [Ha Hr Hc] Hle. split; [done| |done]. intros k. by eapply rep_mono. Qed.

Lemma nos_step now s eps i :
  nos_sim now s eps → 0 < now → 0 ≤ thresh a < 2 ^ 64 →
  now ≤ c_now (ctx_of i) < 2 ^ 64 → 0 ≤ c_cpu (ctx_of i) < Z.of_nat MAX_MONI_NR →
  (handle i s).2 = (nos_spec_step i eps).2
  ∧ nos_sim (c_now (ctx_of i)) (handle i s).1 (nos_spec_step i eps).1.
Proof.
  intros Hsim Hpos Hth Hnow Hcpu. pose proof Hsim as [Ha Hr Hc].
  destruct i as [c p|c]; cbv [ctx_of nos_ctx handle nos_tracer nos_spec_step] in *;
    specialize (Hr (c_cpu c)).
  - unfold account_process_tick, marked. rewrite Ha.
    destruct (t_pid p =? 0); simpl negb; cbn [andb]; [split; [done|apply (nos_sim_later now); [done|lia]]|].
    destruct (test_tsk_need_resched p (flag a) =? 0); simpl negb; cbv iota;
      [split; [done|apply (nos_sim_later now); [done|lia]]|].
    destruct (eps !! c_cpu c) as [[st lp]|] eqn:He; simpl in Hr.
    + destruct Hr as (H1 & H2 & k & ->). simpl. rewrite (proj2 (Z.eqb_neq st 0)) by lia.
      rewrite !(wrap_small 64) by lia. destruct (Z.ltb_spec (thresh a) (c_now c - lp)); split; try done.
      * apply (nos_sim_write now); [done|lia|done|]. simpl. split_and!; [lia..|by eexists].
      * assert (eps = partial_alter (λ _, Some (st, lp)) (c_cpu c) eps) as Heps
          by (by rewrite <-He; symmetry; apply partial_alter_self).
        simpl. rewrite Heps. apply (nos_sim_write now); [done|lia|done|].
        simpl. split_and!; [lia..|by eexists].
    + assert (rep (c_now c) (Some (LatInfo (c_now c) (c_now c) 0)) (Some (c_now c, c_now c))) as Hnew
        by (simpl; split_and!; [lia..|by eexists]).
      destruct (info_map s !! c_cpu c) as [latp|] eqn:Hl.
      * rewrite (Hr latp eq_refl). simpl. split; [done|]. apply (nos_sim_write now); [done|lia|done|done].
      * rewrite map_update_room by (left; by eapply map_room). split; [done|].
        apply (nos_sim_write now); [done|lia|done|done].
  - unfold handle_switch. rewrite Ha. destruct (eps !! c_cpu c) as [[st lp]|] eqn:He; simpl in Hr.
    + destruct Hr as (H1 & H2 & k & ->). simpl. rewrite (proj2 (Z.eqb_neq st 0)) by lia.
      rewrite !(wrap_small 64) by lia. simpl negb. rewrite andb_true_r.
      split; [by case_match|]. case_match; (apply (nos_sim_write now); [done|lia|done|by intros ? [= <-]]).
    + destruct (info_map s !! c_cpu c) as [latp|] eqn:Hl.
      * rewrite (Hr latp eq_refl). simpl negb. rewrite andb_false_r. split; [done|]. simpl.
        assert (eps = partial_alter (λ _, None) (c_cpu c) eps) as ->
          by (by rewrite <-He; symmetry; apply partial_alter_self).
        apply (nos_sim_write now); [done|lia|done|by intros ? [= <-]].
      * split; [done|]. apply (nos_sim_later now); [done|lia].
Qed.

Lemma nos_refines tr : ∀ now s eps,
  nos_sim now s eps → 0 < now → 0 ≤ thresh a < 2 ^ 64 → clock_from now tr →
  Forall (λ i, 0 ≤ c_cpu (ctx_of i) < Z.of_nat MAX_MONI_NR) tr →
  (run tr s).2 = nos_spec tr eps.
Proof.
  induction tr as [|i tr IH]; intros now s eps Hsim Hpos Hth Hclk Hcpu; [done|].
  destruct Hclk as [Hnow Hclk]. apply Forall_cons in Hcpu as [Hc Hcpu].
  destruct (nos_step now s eps i) as [He Hsim']; [done..|].
  rewrite run_cons. simpl. rewrite He. f_equal.
  apply (IH (c_now (ctx_of i))); [done|lia|done..].
Qed.
End spec.

(** The maps once user space has stored the arguments. *)
Definition nos_maps0 (a : args) : nos_maps := NosMaps {[0 := a]} ∅.

(** C18: on a machine of at most 1024 CPUs and under a clock that does not go
    back, the programs output exactly what the machine of episodes outputs,
    for every interleaving of the CPUs' ticks and switches. *)
Theorem nosched_refines a tr :
  0 ≤ thresh a < 2 ^ 64 → clock_from 1 tr →
  Forall (λ i, 0 ≤ c_cpu (ctx_of i) < Z.of_nat MAX_MONI_NR) tr →
  (run tr (nos_maps0 a)).2 = nos_spec a tr ∅.
Proof.
  intros Hth Hclk Hcpu. apply (nos_refines a tr 1); [|lia|done..].
  split; simpl; [by rewrite lookup_singleton_eq|by intros cpu; rewrite !lookup_empty|].
  intros cpu [x Hx]. by rewrite lookup_empty in Hx.
Qed.

Definition s_ctx (now cpu : Z) : bctx := BCtx now cpu 42 "t" 7.
(** A task with bit 3 ([TIF_NEED_RESCHED] of x86) set. *)
Definition s_task : task := Task 42 42 [] true 8 0 1.

Lemma nosched_refines_witness :
  (run [Tick (s_ctx 100 0) s_task; Tick (s_ctx 160 0) s_task; Switch (s_ctx 190 0)]
     (nos_maps0 (Args 3 50))).2
  = [nos_event (s_ctx 160 0) 60 100 0 0; nos_event (s_ctx 190 0) 90 190 100 190].
Proof.
  rewrite (nosched_refines (Args 3 50)); [reflexivity|done|by repeat split|].
  repeat constructor; simpl; lia.
Defined.
