(* ===== verification/Runqslower.v ===== *)
(** * Runqslower: the detector of long waits on the run queue

    The BPF programs of [detect/sched/runqslower/bpf/runqslower.bpf.c] and the
    event handler of [runqslower.c]. A wake-up, or a switch away from a task
    that can still run, stamps the task; when the task is switched in later
    than the threshold, its wait is output.

    The specification keeps the stamps in an unbounded table; the code's table
    of 10240 entries behaves like it as long as that many tasks are enough. *)

From S2P Require Import Prelude Bpf SchedJit.

Definition START_ENTRIES : nat := Z.to_nat 10240.
Definition TASK_RUNNING : Z := 0.

Record args := Args { threshold : Z; targ_pid : Z; targ_tgid : Z; filter_pid : Z }.
Definition args0 : args := Args 0 0 0 0.

Record rqevent := RqEvent {
  rq_task : string; rq_prev_task : string;
  rq_delay : Z; rq_stamp : Z; rq_pid : Z; rq_prev_pid : Z; rq_cpuid : Z;
}.

#[global] Instance rqevent_jit : JitEvent rqevent := {
  je_delay := rq_delay; je_cpu := rq_cpuid; je_pid := rq_pid; je_stamp := rq_stamp;
  je_comm := rq_task;
}.

Record rq_maps := RqMaps { argmap : gmap Z args; start : gmap Z Z }.
Definition set_start (m : gmap Z Z) (s : rq_maps) : rq_maps := RqMaps (argmap s) m.

Definition trace_enqueue (c : bctx) (tgid pid : Z) (s : rq_maps) : rq_maps :=
  match array_lookup args0 4 (argmap s) 0 with
  | None => s
  | Some argp =>
      if (pid =? 0) || (pid =? u32 (filter_pid argp)) then s
      else if negb (targ_tgid argp =? 0) && negb (u32 (targ_tgid argp) =? tgid) then s
      else if negb (targ_pid argp =? 0) && negb (u32 (targ_pid argp) =? pid) then s
      else set_start (map_update START_ENTRIES BPF_ANY pid (c_now c) (start s)).2 s
  end.

Definition handle__sched_wakeup (c : bctx) (pid : Z) (s : rq_maps) : rq_maps * list rqevent :=
  (trace_enqueue c 0 (u32 pid) s, []).

Definition handle__sched_wakeup_new (c : bctx) (pid : Z) (s : rq_maps) : rq_maps * list rqevent :=
  (trace_enqueue c 0 (u32 pid) s, []).

(** [struct sched_switch_tp_args]. *)
Record switch_args := SwitchArgs {
  sw_prev_comm : string; sw_prev_pid : Z; sw_prev_state : Z;
  sw_next_comm : string; sw_next_pid : Z;
}.

Definition handle_switch (c : bctx) (x : switch_args) (s : rq_maps) : rq_maps * list rqevent :=
  let prev_pid := u32 (sw_prev_pid x) in
  let pid := u32 (sw_next_pid x) in
  let s := if sw_prev_state x =? TASK_RUNNING then trace_enqueue c 0 prev_pid s else s in
  match start s !! pid with
  | None => (s, [])
  | Some ts =>
      let now := c_now c in
      let delta := u64 (now - ts) in
      let thr := match array_lookup args0 4 (argmap s) 0 with
                 | Some argp => threshold argp | None => 0 end in
      if negb (thr =? 0) && (delta <=? thr) then (s, [])
      else
        (set_start (delete pid (start s)) s,
         [RqEvent (sw_next_comm x) (sw_prev_comm x) delta now pid prev_pid (c_cpu c)])
  end.

Inductive rq_in := Wakeup (c : bctx) (pid : Z) | WakeupNew (c : bctx) (pid : Z)
  | Switch (c : bctx) (x : switch_args).

#[global] Instance rq_tracer : Tracer rq_maps rq_in rqevent := λ i,
  match i with
  | Wakeup c pid => handle__sched_wakeup c pid
  | WakeupNew c pid => handle__sched_wakeup_new c pid
  | Switch c x => handle_switch c x
  end.

#[global] Instance rq_ctx : HasCtx rq_in := λ i,
  match i with Wakeup c _ | WakeupNew c _ | Switch c _ => c end.

(** ** User space *)

Definition update_summary (get_container : Z → option string) :
  sched_jit_summary → rqevent → sched_jit_summary := SchedJit.update_summary get_container.

(** [handle_event] with [env.summary] set; [cpuid] and [nr_cpus] are [int]. *)
Definition handle_event (get_container : Z → option string) (nr_cpus : Z)
    (s : sched_jit_summary) (ev : rqevent) : sched_jit_summary :=
  let e := RqEvent (rq_task ev) (rq_prev_task ev) (rq_delay ev / (1000 * 1000))
             (rq_stamp ev) (rq_pid ev) (rq_prev_pid ev) (rq_cpuid ev) in
  if nr_cpus - 1 <? rq_cpuid e then s else update_summary get_container s e.

(** ** The specification *)

Section spec.
Context (a : args).

(** The tasks that are watched. *)
Definition wanted (pid : Z) : bool :=
  negb (pid =? 0) && negb (pid =? u32 (filter_pid a)) && (targ_tgid a =? 0)
  && ((targ_pid a =? 0) || (u32 (targ_pid a) =? pid)).

Definition spec_enqueue (now pid : Z) (m : gmap Z Z) : gmap Z Z :=
  if wanted pid then <[pid := now]> m else m.

Definition rq_spec_step (i : rq_in) (m : gmap Z Z) : gmap Z Z * list rqevent :=
  match i with
  | Wakeup c pid | WakeupNew c pid => (spec_enqueue (c_now c) (u32 pid) m, [])
  | Switch c x =>
      let m := if sw_prev_state x =? TASK_RUNNING
               then spec_enqueue (c_now c) (u32 (sw_prev_pid x)) m else m in
      match m !! u32 (sw_next_pid x) with
      | None => (m, [])
      | Some ts =>
          if (threshold a =? 0) || (threshold a <? c_now c - ts) then
            (delete (u32 (sw_next_pid x)) m,
             [RqEvent (sw_next_comm x) (sw_prev_comm x) (c_now c - ts) (c_now c)
                (u32 (sw_next_pid x)) (u32 (sw_prev_pid x)) (c_cpu c)])
          else (m, [])
      end
  end.

Fixpoint rq_spec (tr : list rq_in) (m : gmap Z Z) : list rqevent :=
  match tr with
  | [] => []
  | i :: tr' => (rq_spec_step i m).2 ++ rq_spec tr' (rq_spec_step i m).1
  end.

(** The tasks an input can stamp. *)
Definition pids_of (i : rq_in) : gset Z :=
  match i with
  | Wakeup _ pid | WakeupNew _ pid => {[u32 pid]}
  | Switch _ x => {[u32 (sw_prev_pid x)]}
  end.

Record rq_sim (P : gset Z) (now : Z) (s : rq_maps) : Prop := {
  rs_args : array_lookup args0 4 (argmap s) 0 = Some a;
  rs_dom : dom (start s) ⊆ P;
  rs_past pid ts : start s !! pid = Some ts → 0 ≤ ts ≤ now;
}.

Lemma wanted_guards pid :
  wanted pid
  = negb ((pid =? 0) || (pid =? u32 (filter_pid a)))
    && negb (negb (targ_tgid a =? 0))
    && negb (negb (targ_pid a =? 0) && negb (u32 (targ_pid a) =? pid)).
Proof.
  unfold wanted. destruct (pid =? 0), (pid =? u32 (filter_pid a)), (targ_tgid a =? 0),
    (targ_pid a =? 0), (u32 (targ_pid a) =? pid); done.
Qed.

(** [trace_enqueue] with room in the table. *)
Lemma trace_enqueue_spec P now s c pid :
  rq_sim P now s → (size P ≤ START_ENTRIES)%nat → now ≤ c_now c → 0 ≤ c_now c →
  0 < targ_tgid a < 2 ^ 31 ∨ targ_tgid a = 0 → pid ∈ P →
  start (trace_enqueue c 0 pid s) = spec_enqueue (c_now c) pid (start s)
  ∧ rq_sim P (c_now c) (trace_enqueue c 0 pid s).
Proof.
  intros [Ha Hd Hp] HP Hnow Hpos Htg Hin. unfold trace_enqueue. rewrite Ha.
  assert (rq_sim P (c_now c) s) as Hlater.
  { split; [done..|]. intros p ts Hts. specialize (Hp p ts Hts). lia. }
  assert (negb (targ_tgid a =? 0) && negb (u32 (targ_tgid a) =? 0) = negb (targ_tgid a =? 0)) as ->.
  { destruct Htg as [Htg| ->]; [|done].
    rewrite wrap_small, (proj2 (Z.eqb_neq _ 0)) by (eval_pow2; lia). done. }
  unfold spec_enqueue. rewrite wanted_guards.
  destruct ((pid =? 0) || (pid =? u32 (filter_pid a))); [done|]. cbn [negb andb].
  destruct (negb (targ_tgid a =? 0)); [done|]. cbn [negb andb].
  destruct (negb (targ_pid a =? 0) && negb (u32 (targ_pid a) =? pid)); [done|]. cbn [negb].
  rewrite map_update_room.
  - simpl. split; [done|]. split; simpl; [done| |].
    + rewrite dom_insert. set_solver.
    + intros p ts. destruct (decide (p = pid)) as [->|Hne].
      * rewrite lookup_insert_eq. intros [= <-]. lia.
      * rewrite lookup_insert_ne by done. intros Hts. specialize (Hp p ts Hts). lia.
  - destruct (start s !! pid) eqn:Hs; [by right|]. left. by eapply map_room_set.
Qed.

Lemma rq_step P now s i :
  rq_sim P now s → (size P ≤ START_ENTRIES)%nat → 0 ≤ now → 0 ≤ threshold a →
  0 < targ_tgid a < 2 ^ 31 ∨ targ_tgid a = 0 →
  now ≤ c_now (ctx_of i) < 2 ^ 64 → pids_of i ⊆ P →
  (handle i s).2 = (rq_spec_step i (start s)).2
  ∧ start (handle i s).1 = (rq_spec_step i (start s)).1
  ∧ rq_sim P (c_now (ctx_of i)) (handle i s).1.
Proof.
  intros Hsim HP Hpos Hth Htg Hnow Hin.
  destruct i as [c pid|c pid|c x]; cbv [ctx_of rq_ctx handle rq_tracer rq_spec_step] in *; simpl in Hin.
  1,2: destruct (trace_enqueue_spec P now s c (u32 pid)) as [Hs Hs']; [done|done|lia..|done|set_solver|];
    unfold handle__sched_wakeup, handle__sched_wakeup_new; simpl; by split.
  unfold handle_switch.
  assert (∃ s1, (if sw_prev_state x =? TASK_RUNNING
                 then trace_enqueue c 0 (u32 (sw_prev_pid x)) s else s) = s1
    ∧ start s1 = (if sw_prev_state x =? TASK_RUNNING
                  then spec_enqueue (c_now c) (u32 (sw_prev_pid x)) (start s) else start s)
    ∧ rq_sim P (c_now c) s1) as (s1 & -> & Hst & [Ha Hd Hp]).
  { eexists. split; [done|]. case_match.
    - apply (trace_enqueue_spec P now); [done|done|lia|lia|done|set_solver].
    - split; [done|]. destruct Hsim as [? ? Hpast]. split; [done..|].
      intros p ts Hts. specialize (Hpast p ts Hts). lia. }
  rewrite <-Hst, Ha. destruct (start s1 !! u32 (sw_next_pid x)) as [ts|] eqn:Hts; [|by split_and!].
  specialize (Hp _ _ Hts) as Hb. rewrite wrap_small by lia.
  destruct (Z.eqb_spec (threshold a) 0) as [H0|H0]; cbn [negb andb orb];
    [|destruct (Z.leb_spec (c_now c - ts) (threshold a)), (Z.ltb_spec (threshold a) (c_now c - ts)); try lia];
    simpl; split_and!; try done; split; simpl; try done.
  all: try (rewrite dom_delete; set_solver).
  all: intros p t Ht; apply lookup_delete_Some in Ht as [_ Ht]; by eapply Hp.
Qed.

Lemma rq_refines P tr : ∀ now s,
  rq_sim P now s → (size P ≤ START_ENTRIES)%nat → 0 ≤ now → 0 ≤ threshold a →
  0 < targ_tgid a < 2 ^ 31 ∨ targ_tgid a = 0 →
  clock_from now tr → Forall (λ i, pids_of i ⊆ P) tr →
  (run tr s).2 = rq_spec tr (start s).
Proof.
  induction tr as [|i tr IH]; intros now s Hsim HP Hpos Hth Htg Hclk Hin; [done|].
  destruct Hclk as [Hnow Hclk]. apply Forall_cons in Hin as [Hi Hin].
  destruct (rq_step P now s i) as (He & Hs & Hsim'); [done..|].
  rewrite run_cons. simpl. rewrite He. f_equal. rewrite <-Hs.
  apply (IH (c_now (ctx_of i))); [done|done|lia|done..].
Qed.
End spec.

Definition rq_maps0 (a : args) : rq_maps := RqMaps {[0 := a]} ∅.

(** C21: as long as the trace stamps at most 10240 different tasks, the
    programs output exactly the waits of the watched tasks: an event for each
    switch to a task whose latest wake-up or preemption is more than the
    threshold ago (any wait when the threshold is 0), with that wait. *)
Theorem runqslower_reports a tr (P : gset Z) :
  0 ≤ threshold a → 0 ≤ targ_tgid a < 2 ^ 31 →
  clock_from 0 tr → Forall (λ i, pids_of i ⊆ P) tr → (size P ≤ START_ENTRIES)%nat →
  (run tr (rq_maps0 a)).2 = rq_spec a tr ∅.
Proof.
  intros Hth Htg Hclk Hin HP.
  apply (rq_refines a P tr 0); [|done|lia|done|lia|done|done].
  split; simpl.
  - unfold array_lookup. simpl. by rewrite lookup_singleton_eq.
  - rewrite dom_empty_L. set_solver.
  - intros p ts. by rewrite lookup_empty.
Qed.

(** ** The group filter *)

Lemma trace_enqueue_tgid a c pid s :
  array_lookup args0 4 (argmap s) 0 = Some a → 0 < targ_tgid a < 2 ^ 31 →
  trace_enqueue c 0 pid s = s.
Proof.
  intros Ha Ht. unfold trace_enqueue. rewrite Ha. case_match; [done|].
  rewrite (wrap_small 32), (proj2 (Z.eqb_neq _ _)) by (eval_pow2; lia). done.
Qed.

(** Asking for one thread group silences the tool: every program passes 0
    as the group of the task it stamps, so with [targ_tgid] set no trace
    stamps a task or outputs an event. *)
Theorem runqslower_tgid_silent a tr :
  0 < targ_tgid a < 2 ^ 31 → run tr (rq_maps0 a) = (rq_maps0 a, []).
Proof.
  intros Ht.
  assert (array_lookup args0 4 (argmap (rq_maps0 a)) 0 = Some a) as Ha
    by (unfold array_lookup; simpl; by rewrite lookup_singleton_eq).
  assert (∀ i, handle i (rq_maps0 a) = (rq_maps0 a, [])) as Hstep.
  { intros [c p|c p|c x]; cbv [handle rq_tracer handle__sched_wakeup handle__sched_wakeup_new handle_switch];
      rewrite ?(trace_enqueue_tgid a) by done; [done..|].
    assert (∀ b : bool, (if b then rq_maps0 a else rq_maps0 a) = rq_maps0 a) as -> by (by intros []).
    simpl. by rewrite lookup_empty. }
  induction tr as [|i tr IH]; [done|]. simpl. by rewrite Hstep, IH.
Qed.

Definition s_ctx (now cpu : Z) : bctx := BCtx now cpu 42 "t" 7.

Lemma runqslower_tgid_silent_witness :
  run [Wakeup (s_ctx 10 0) 5; Switch (s_ctx 900 0) (SwitchArgs "a" 0 1 "b" 5)]
    (rq_maps0 (Args 100 0 77 0)) = (rq_maps0 (Args 100 0 77 0), []).
Proof. apply runqslower_tgid_silent. by simpl. Defined.

(** ** The full table *)

Section full.
Context (thr : Z).
Let a := Args thr 0 0 0.
Let idle_to (p : Z) : switch_args := SwitchArgs "swapper" 0 0 "task" p.

(** Tasks that are woken and switched in at once, from the idle task. *)
Definition brief (c : bctx) (pids : list Z) : list rq_in :=
  flat_map (λ p, [Wakeup c p; Switch c (idle_to p)]) pids.

Definition tracks (c : bctx) (pids : list Z) : gmap Z Z :=
  list_to_map ((λ p, (p, c_now c)) <$> pids).

Lemma tracks_lookup c pids p : tracks c pids !! p = if decide (p ∈ pids) then Some (c_now c) else None.
Proof.
  unfold tracks. induction pids as [|q pids IH]; [done|].
  rewrite fmap_cons. simpl list_to_map. destruct (decide (p = q)) as [->|Hne].
  - rewrite lookup_insert_eq. by rewrite decide_True by left.
  - rewrite lookup_insert_ne, IH by done. apply decide_ext. rewrite elem_of_cons. naive_solver.
Qed.

Lemma tracks_size c pids : NoDup pids → size (tracks c pids) = length pids.
Proof.
  intros Hnd. unfold tracks. rewrite map_size_list_to_map.
  - by rewrite length_fmap.
  - rewrite <-list_fmap_compose. simpl. by rewrite list_fmap_id.
Qed.

Lemma tracks_size_reverse c pids : NoDup pids → size (tracks c (reverse pids)) = length pids.
Proof.
  intros Hnd. rewrite tracks_size, length_reverse; [done|]. by rewrite reverse_Permutation.
Qed.

Lemma brief_step c p m :
  0 < thr → 0 < p < 2 ^ 32 → (size m < START_ENTRIES)%nat ∨ is_Some (m !! p) →
  run [Wakeup c p; Switch c (idle_to p)] (RqMaps {[0 := a]} m)
  = (RqMaps {[0 := a]} (<[p := c_now c]> m), []).
Proof.
  intros Hthr Hp Hroom.
  assert (∀ m', array_lookup args0 4 (argmap (RqMaps {[0 := a]} m')) 0 = Some a) as Ha
    by (intros; unfold array_lookup; simpl; by rewrite lookup_singleton_eq).
  assert (trace_enqueue c 0 p (RqMaps {[0 := a]} m) = RqMaps {[0 := a]} (<[p := c_now c]> m)) as Hw.
  { unfold trace_enqueue. rewrite Ha. simpl. change (u32 0) with 0.
    rewrite (proj2 (Z.eqb_neq p 0)) by lia. simpl. by rewrite map_update_room. }
  assert (trace_enqueue c 0 0 (RqMaps {[0 := a]} (<[p := c_now c]> m))
    = RqMaps {[0 := a]} (<[p := c_now c]> m)) as Hidle by (unfold trace_enqueue; by rewrite Ha).
  simpl. cbv [handle rq_tracer handle__sched_wakeup handle_switch]. simpl.
  change (u32 0) with 0. rewrite (wrap_small 32 p) by lia.
  rewrite Hw, Hidle. simpl. rewrite lookup_insert_eq, Z.sub_diag. simpl.
  unfold array_lookup. simpl. rewrite lookup_singleton_eq. simpl. change (u64 0) with 0.
  rewrite (proj2 (Z.eqb_neq thr 0)), (proj2 (Z.leb_le 0 thr)) by lia. done.
Qed.

Lemma brief_run c pids : 
  0 < thr → NoDup pids → Forall (λ p, 0 < p < 2 ^ 32) pids →
  (length pids ≤ START_ENTRIES)%nat →
  run (brief c pids) (RqMaps {[0 := a]} ∅) = (RqMaps {[0 := a]} (tracks c (reverse pids)), []).
Proof.
  intros Hthr. induction pids as [|p pids IH] using rev_ind; intros Hnd Hr Hlen; [done|].
  rewrite length_app in Hlen. simpl in Hlen.
  apply NoDup_app in Hnd as (Hnd & _ & _). apply Forall_app in Hr as [Hr Hp].
  rewrite Forall_singleton in Hp.
  unfold brief. rewrite flat_map_app, run_app. fold (brief c pids).
  rewrite IH by (done || lia). rewrite reverse_snoc. cbn [fst snd app flat_map].
  rewrite brief_step; [done|done|done|].
  left. rewrite tracks_size_reverse by done. lia.
Qed.
End full.

(** The table is never emptied of tasks that did not wait long: a switch
    within the threshold leaves the task's stamp behind. After 10240 tasks
    that ran at once, a new task is not stamped, and its wait, however long,
    is not reported. *)
Theorem runqslower_table_full thr c c' pids pid x :
  0 < thr → NoDup pids → Forall (λ p, 0 < p < 2 ^ 32) pids → length pids = START_ENTRIES →
  0 < pid < 2 ^ 32 → pid ∉ pids → sw_next_pid x = pid → sw_prev_state x ≠ TASK_RUNNING →
  (run (brief c pids ++ [Wakeup c' pid; Switch c' x]) (rq_maps0 (Args thr 0 0 0))).2 = [].
Proof.
  intros Hthr Hnd Hr Hlen Hpid Hnew Hx Hst. rewrite run_app. unfold rq_maps0.
  rewrite brief_run by (done || lia). cbn [fst snd app].
  set (s := RqMaps _ _).
  assert (start s !! pid = None) as Hnone.
  { simpl. rewrite tracks_lookup, decide_False; [done|]. by rewrite elem_of_reverse. }
  assert (trace_enqueue c' 0 pid s = s) as Henq.
  { unfold trace_enqueue. case_match; [|done]. repeat (case_match; [done|]).
    rewrite map_update_full; [done| |done]. simpl.
    rewrite tracks_size_reverse, Hlen by done. done. }
  rewrite run_cons. cbv [handle rq_tracer handle__sched_wakeup]. cbn [fst snd app].
  rewrite (wrap_small 32 pid), Henq by lia. rewrite run_cons. cbv [handle rq_tracer handle_switch].
  rewrite (proj2 (Z.eqb_neq _ _) Hst), Hx, (wrap_small 32 pid), Hnone by lia. done.
Qed.

Lemma runqslower_table_full_witness :
  (run (brief (s_ctx 10 0) (seqZ 1 10240)
        ++ [Wakeup (s_ctx 20 0) 20000; Switch (s_ctx 20 0) (SwitchArgs "a" 3 1 "b" 20000)])
     (rq_maps0 (Args 100 0 0 0))).2 = [].
Proof.
  apply (runqslower_table_full 100 _ _ _ 20000); [lia|apply NoDup_seqZ| | |done| |done|done].
  - apply Forall_forall. intros p Hp%elem_of_seqZ. eval_pow2. lia.
  - apply length_seqZ.
  - intros Hp%elem_of_seqZ. lia.
Defined.

Lemma runqslower_reports_witness :
  (run [Wakeup (s_ctx 10 0) 5; Wakeup (s_ctx 20 0) 6;
        Switch (s_ctx 50 0) (SwitchArgs "a" 0 1 "b" 6);
        Switch (s_ctx 300 0) (SwitchArgs "b" 6 1 "c" 5)] (rq_maps0 (Args 100 0 0 0))).2
  = [RqEvent "c" "b" 290 300 5 6 0].
Proof.
  rewrite (runqslower_reports (Args 100 0 0 0) _ {[0; 5; 6]}); [reflexivity|done|done|by repeat split| |].
  - repeat constructor; simpl; change (u32 5) with 5; change (u32 6) with 6; change (u32 0) with 0; set_solver.
  - unfold START_ENTRIES. apply Nat2Z.inj_le. rewrite Z2Nat.id by lia. by vm_compute.
Defined.
