(* ===== verification/Schedmoni.v ===== *)
(** * Schedmoni: the three scheduling detectors in one tool

    The BPF programs of [detect/sched/schedmoni/bpf/schedmoni.bpf.c], which
    merge the detectors of Irqoff.v, Nosched.v and Runqslower.v over one set of
    maps and three event channels. The theorems compare them with the single
    tools: the interrupt part agrees with [irqoff]; the others differ. *)

From S2P Require Import Prelude Bpf SchedJit.
From S2P Require Import Irqoff.

Definition START_ENTRIES : nat := Z.to_nat 10240.
Definition MAX_MONI_NR : nat := 1024.
Definition TASK_RUNNING : Z := 0.

Record comm_item := CommItem { ci_comm : list Z; ci_size : Z }.

Record args := Args {
  thresh : Z; targ_pid : Z; targ_tgid : Z; comm_i : comm_item; flag : Z; ready : bool;
}.
Definition args0 : args := Args 0 0 0 (CommItem [] 0) 0 false.

Record enq_info := EnqInfo { enq_rqlen : Z; enq_ts : Z }.

Record latinfo := LatInfo {
  last_seen_need_resched_ns : Z; last_perf_event : Z; lat_thresh : Z;
  ticks_without_resched : Z;
}.

(** [struct event]: [se_ret] is the union of [rqlen] and [ret]. *)
Record sm_event := SmEvent {
  se_ret : Z; se_task : string; se_prev_task : string;
  se_delay : Z; se_stamp : Z; se_enter : Z; se_exit : Z;
  se_pid : Z; se_prev_pid : Z; se_cpuid : Z;
}.

(** The three perf-event maps an event can go to. *)
Inductive channel := events_rnslw | events_nosch | events_irqof.

Record sm_maps := SmMaps {
  argmap : gmap Z args; start : gmap Z enq_info;
  info_map : gmap Z latinfo; tm_map : gmap (Z * Z) Z;
}.
Definition set_start m s := SmMaps (argmap s) m (info_map s) (tm_map s).
Definition set_info m s := SmMaps (argmap s) (start s) m (tm_map s).
Definition set_tm m s := SmMaps (argmap s) (start s) (info_map s) m.

Fixpoint strequal_loop (n : nat) (src dst : list Z) : bool :=
  match n with
  | O => true
  | S n' =>
      let c1 := u8 (hd 0 src) in
      let c2 := u8 (hd 0 dst) in
      if (c1 =? 0) || (c2 =? 0) || negb (c1 =? c2) then false
      else strequal_loop n' (tl src) (tl dst)
  end.

Definition strequal (src dst : list Z) : bool := strequal_loop 16 src dst.

Definition args_of (s : sm_maps) : option args := array_lookup args0 4 (argmap s) 0.

Definition get_thresh (s : sm_maps) : Z :=
  match args_of s with Some argp => thresh argp | None => u64 (-1) end.

Definition program_ready (s : sm_maps) : bool :=
  match args_of s with Some argp => ready argp | None => false end.

(** [GETARG_FROM_ARRYMAP]: a field of the arguments, 0 without them. *)
Definition getarg (f : args → Z) (s : sm_maps) : Z :=
  match args_of s with Some argp => f argp | None => 0 end.

Definition trace_enqueue (c : bctx) (p : task) (runqlen : Z) (s : sm_maps) : sm_maps :=
  let tgid := u32 (t_tgid p) in
  let pid := u32 (t_pid p) in
  if pid =? 0 then s
  else
    let ci := match args_of s with Some argp => comm_i argp | None => CommItem [] 0 end in
    let use_comm := negb (ci_size ci =? 0) in
    let enqueue := set_start
      (map_update START_ENTRIES BPF_ANY pid (EnqInfo (u32 runqlen) (c_now c)) (start s)).2 s in
    if use_comm then
      if strequal (t_comm p) (ci_comm ci) then enqueue else s
    else
      let tt := getarg targ_tgid s in
      let tp := getarg targ_pid s in
      if negb (tt =? 0) && negb (u32 tt =? tgid) then s
      else if negb (tp =? 0) && negb (u32 tp =? pid) then s
      else enqueue.

Definition out : Type := sm_maps * list (channel * sm_event).

Definition kp_ttwu_do_wakeup (c : bctx) (p : task) (s : sm_maps) : out :=
  if program_ready s then (trace_enqueue c p (t_rqlen p) s, []) else (s, []).

Definition raw_tp__sched_wakeup (c : bctx) (p : task) (s : sm_maps) : out :=
  (trace_enqueue c p (t_rqlen p) s, []).

Definition wake_up_new_task (c : bctx) (p : task) (s : sm_maps) : out :=
  if program_ready s then (trace_enqueue c p (t_rqlen p) s, []) else (s, []).

Record switch_args := SwitchArgs {
  sw_prev_comm : string; sw_prev_pid : Z; sw_prev_state : Z;
  sw_next_comm : string; sw_next_pid : Z;
}.

(** The first part of [handle_switch]: the end of a run without reschedule. *)
Definition switch_nosched (c : bctx) (s : sm_maps) : out :=
  let cpuid := c_cpu c in
  match info_map s !! cpuid with
  | None => (s, [])
  | Some latp =>
      let now := c_now c in
      let enter := last_seen_need_resched_ns latp in
      if negb (enter =? 0) && negb (lat_thresh latp =? 0)
         && (lat_thresh latp <? u64 (now - enter)) then
        (set_info (<[cpuid := LatInfo 0 now (lat_thresh latp) (ticks_without_resched latp)]>
           (info_map s)) s,
         [(events_nosch,
           SmEvent (u32 (c_stackid c)) (c_comm c) "" (u64 (now - last_seen_need_resched_ns latp))
             now enter now (c_pid c) 0 (i32 cpuid))])
      else
        (set_info (<[cpuid := LatInfo 0 (last_perf_event latp) (lat_thresh latp)
           (ticks_without_resched latp)]> (info_map s)) s, [])
  end.

(** The second part: the wait on the run queue. *)
Definition switch_runq (c : bctx) (prev : task) (x : switch_args) (s : sm_maps) : out :=
  let prev_pid := u32 (sw_prev_pid x) in
  let pid := u32 (sw_next_pid x) in
  if sw_prev_state x =? TASK_RUNNING then (trace_enqueue c prev (t_rqlen prev) s, [])
  else
    match start s !! pid with
    | None => (s, [])
    | Some enq =>
        let delay := u64 (c_now c - enq_ts enq) in
        let thr := getarg thresh s in
        if negb (thr =? 0) && (delay <=? thr) then (s, [])
        else
          (set_start (delete pid (start s)) s,
           [(events_rnslw,
             SmEvent (enq_rqlen enq) (sw_next_comm x) (sw_prev_comm x) delay (c_now c) 0 0
               pid prev_pid (i32 (c_cpu c)))])
    end.

Definition handle_switch (c : bctx) (prev : task) (x : switch_args) (s : sm_maps) : out :=
  if program_ready s then
    let '(s, e1) := switch_nosched c s in
    let '(s, e2) := switch_runq c prev x s in
    (s, e1 ++ e2)
  else (s, []).

Definition account_process_tick (c : bctx) (p : task) (s : sm_maps) : out :=
  if program_ready s then
    match args_of s with
    | None => (s, [])
    | Some argsp =>
        if test_tsk_need_resched p (flag argsp) =? 0 then (s, [])
        else if t_pid p =? 0 then (s, [])
        else
          let cpuid := c_cpu c in
          let now := c_now c in
          match info_map s !! cpuid with
          | Some latp =>
              if last_seen_need_resched_ns latp =? 0 then
                (set_info (<[cpuid := LatInfo now now 0 0]> (info_map s)) s, [])
              else
                let ticks := i32 (ticks_without_resched latp + 1) in
                let resched_latency := u64 (now - last_perf_event latp) in
                let thr := thresh argsp in
                if thr <? resched_latency then
                  (set_info (<[cpuid := LatInfo (last_seen_need_resched_ns latp) now thr ticks]>
                     (info_map s)) s,
                   [(events_nosch,
                     SmEvent (u32 (c_stackid c)) (c_comm c) ""
                       (u64 (now - last_seen_need_resched_ns latp)) now 0 0 (c_pid c) 0
                       (i32 cpuid))])
                else
                  (set_info (<[cpuid := LatInfo (last_seen_need_resched_ns latp)
                     (last_perf_event latp) thr ticks]> (info_map s)) s, [])
          | None =>
              (set_info (map_update MAX_MONI_NR BPF_ANY cpuid (LatInfo now now 0 0)
                 (info_map s)).2 s, [])
          end
    end
  else (s, []).

Definition irq_sm_event (c : bctx) (delta stamp : Z) : sm_event :=
  SmEvent (u32 (c_stackid c)) (c_comm c) "" delta stamp 0 0 (c_pid c) 0 (i32 (u32 (c_cpu c))).

Definition hw_irqoff_event (c : bctx) (s : sm_maps) : out :=
  let now := c_now c in
  match percpu_lookup 0 1 (c_cpu c) (tm_map s) 0 with
  | Some stamp =>
      let thr := get_thresh s in
      if negb (stamp =? 0) && negb (thr =? u64 (-1)) then
        let delta := u64 (now - stamp) in
        if thr <? delta then (s, [(events_irqof, irq_sm_event c delta now)]) else (s, [])
      else (s, [])
  | None => (s, [])
  end.

Definition sw_irqoff_event1 (c : bctx) (s : sm_maps) : out :=
  match percpu_lookup 0 1 (c_cpu c) (tm_map s) 0 with
  | Some _ => (set_tm (percpu_store (c_cpu c) 0 (c_now c) (tm_map s)) s, [])
  | None => (set_tm (percpu_store (c_cpu c) 0 (c_now c) (tm_map s)) s, [])
  end.

(** As the code has it, this event's [stamp] is not set. *)
Definition sw_irqoff_event2 (c : bctx) (s : sm_maps) : out :=
  let now := c_now c in
  match percpu_lookup 0 1 (c_cpu c) (tm_map s) 0 with
  | Some stamp =>
      let s := set_tm (percpu_store (c_cpu c) 0 now (tm_map s)) s in
      let thr := get_thresh s in
      if negb (stamp =? 0) && negb (thr =? u64 (-1)) then
        let delta := u64 (now - stamp) in
        if thr <? delta then (s, [(events_irqof, irq_sm_event c delta 0)]) else (s, [])
      else (s, [])
  | None => (set_tm (percpu_store (c_cpu c) 0 now (tm_map s)) s, [])
  end.

Inductive sm_in :=
  | Ttwu (c : bctx) (p : task) | RawWakeup (c : bctx) (p : task) | NewTask (c : bctx) (p : task)
  | Switch (c : bctx) (prev : task) (x : switch_args) | Tick (c : bctx) (p : task)
  | Irq (i : Irqoff.irq_in).

#[global] Instance sm_tracer : Tracer sm_maps sm_in (channel * sm_event) := λ i,
  match i with
  | Ttwu c p => kp_ttwu_do_wakeup c p
  | RawWakeup c p => raw_tp__sched_wakeup c p
  | NewTask c p => wake_up_new_task c p
  | Switch c prev x => handle_switch c prev x
  | Tick c p => account_process_tick c p
  | Irq (Irqoff.Hw c) => hw_irqoff_event c
  | Irq (Irqoff.Sw1 c) => sw_irqoff_event1 c
  | Irq (Irqoff.Sw2 c) => sw_irqoff_event2 c
  end.

(** ** The filter by name *)

(** A task name: 16 bytes with a terminating 0 among them. *)
Definition c_name (l : list Z) : Prop := ∃ i, (i < 16)%nat ∧ nth i l 0 = 0.

Lemma strequal_loop_terminated n : ∀ src dst i,
  (i < n)%nat → nth i src 0 = 0 → strequal_loop n src dst = false.
Proof.
  induction n as [|n IH]; intros src dst i Hi H0; [lia|]. simpl.
  destruct (_ || _ || _) eqn:Hg; [done|]. destruct i as [|i].
  - destruct src as [|x src]; simpl in *; subst; done.
  - apply (IH _ _ i); [lia|]. destruct src as [|x src]; [by destruct i|done].
Qed.

Lemma strequal_terminated src dst : c_name src → strequal src dst = false.
Proof. intros (i & Hi & H0). by eapply strequal_loop_terminated. Qed.

Definition sm_task (i : sm_in) : option task :=
  match i with Ttwu _ p | RawWakeup _ p | NewTask _ p | Switch _ p _ => Some p | _ => None end.

(** Nothing is stamped, and the arguments do not change. *)
Definition unstamped (a : args) (s : sm_maps) : Prop := args_of s = Some a ∧ start s = ∅.

Lemma trace_enqueue_comm a c p n s :
  ci_size (comm_i a) ≠ 0 → c_name (t_comm p) → args_of s = Some a → trace_enqueue c p n s = s.
Proof.
  intros Hsz Hn Ha. unfold trace_enqueue. rewrite Ha, (proj2 (Z.eqb_neq _ _) Hsz). simpl.
  rewrite strequal_terminated by done. by case_match.
Qed.

Lemma switch_nosched_fst c s :
  argmap (switch_nosched c s).1 = argmap s ∧ start (switch_nosched c s).1 = start s
  ∧ tm_map (switch_nosched c s).1 = tm_map s
  ∧ Forall (λ e, e.1 = events_nosch) (switch_nosched c s).2.
Proof. unfold switch_nosched. repeat case_match; simpl; split_and!; try done; by repeat constructor. Qed.

Lemma tick_fst c p s :
  argmap (account_process_tick c p s).1 = argmap s
  ∧ start (account_process_tick c p s).1 = start s
  ∧ Forall (λ e, e.1 = events_nosch) (account_process_tick c p s).2.
Proof. unfold account_process_tick. repeat case_match; simpl; split_and!; try done; by repeat constructor. Qed.

Lemma irq_fst i s :
  argmap (handle (Irq i) s).1 = argmap s ∧ start (handle (Irq i) s).1 = start s
  ∧ Forall (λ e, e.1 = events_irqof) (handle (Irq i) s).2.
Proof.
  destruct i as [c|c|c]; cbv [handle sm_tracer hw_irqoff_event sw_irqoff_event1 sw_irqoff_event2];
    repeat case_match; simpl; split_and!; try done; by repeat constructor.
Qed.

(** The filter by name silences the run-queue part: [strequal] fails at
    the end of a string, so with a name to look for no task is ever stamped
    and no trace outputs a run-queue event. *)
Theorem schedmoni_comm_silent a tr :
  ci_size (comm_i a) ≠ 0 →
  Forall (λ i, ∀ p, sm_task i = Some p → c_name (t_comm p)) tr →
  Forall (λ e, e.1 ≠ events_rnslw) (run tr (SmMaps {[0 := a]} ∅ ∅ ∅)).2.
Proof.
  intros Hsz Htr.
  apply (run_all _ (unstamped a) (λ e : channel * sm_event, e.1 ≠ events_rnslw)
    tr (SmMaps {[0 := a]} ∅ ∅ ∅)) in Htr as [_ H]; [exact H| |].
  - clear Htr. intros i s Hi [Ha Hst].
    assert (∀ c p n, sm_task i = Some p → trace_enqueue c p n s = s) as Hte
      by (intros c p n Hp; eapply trace_enqueue_comm; eauto).
    destruct i as [c p|c p|c p|c p x|c p|i]; simpl sm_task in *.
    1,2,3: cbv [handle sm_tracer kp_ttwu_do_wakeup raw_tp__sched_wakeup wake_up_new_task];
      rewrite ?Hte by done; repeat case_match; by split.
    + cbv [handle sm_tracer handle_switch]. case_match; [|by split].
      destruct (switch_nosched_fst c s) as (Ha' & Hst' & _ & Hev).
      destruct (switch_nosched c s) as [s1 e1]. simpl in *.
      assert (args_of s1 = Some a) as Ha1 by (unfold args_of in *; by rewrite Ha').
      unfold switch_runq. rewrite (trace_enqueue_comm a) by (eauto).
      rewrite Hst', Hst, lookup_empty. destruct (_ =? _); simpl; rewrite app_nil_r;
        (split; [split; [done|congruence]|]); (eapply Forall_impl; [exact Hev|]); by intros ? ->.
    + destruct (tick_fst c p s) as (Ha' & Hst' & Hev). split.
      * split; [unfold args_of; cbv [handle sm_tracer]; by rewrite Ha'|by rewrite <-Hst].
      * eapply Forall_impl; [exact Hev|]. by intros ? ->.
    + destruct (irq_fst i s) as (Ha' & Hst' & Hev). split.
      * split; [unfold args_of; by rewrite Ha'|by rewrite <-Hst].
      * eapply Forall_impl; [exact Hev|]. by intros ? ->.
  - split; [|done]. unfold args_of, array_lookup. simpl. by rewrite lookup_singleton_eq.
Qed.

(** ** Preemption *)

(** A switch away from a task that can still run never reports the wait
    of the task switched in, however long it was, and leaves its stamp: the
    program returns after stamping the preempted task. *)
Theorem schedmoni_preempt_silent c prev x s :
  sw_prev_state x = TASK_RUNNING → sw_next_pid x ≠ t_pid prev →
  0 ≤ sw_next_pid x < 2 ^ 32 → 0 ≤ t_pid prev < 2 ^ 32 →
  Forall (λ e, e.1 = events_nosch) (handle_switch c prev x s).2
  ∧ start (handle_switch c prev x s).1 !! sw_next_pid x = start s !! sw_next_pid x.
Proof.
  intros Hst Hne Hn Hp. unfold handle_switch. case_match; [|by split].
  destruct (switch_nosched_fst c s) as (_ & Hs & _ & Hev).
  destruct (switch_nosched c s) as [s1 e1]. simpl in *.
  unfold switch_runq. rewrite Hst. simpl. rewrite app_nil_r. split; [done|]. rewrite <-Hs.
  unfold trace_enqueue. rewrite (wrap_small 32 (t_pid prev)) by done.
  assert (start (set_start (map_update START_ENTRIES BPF_ANY (t_pid prev)
    (EnqInfo (u32 (t_rqlen prev)) (c_now c)) (start s1)).2 s1) !! sw_next_pid x
    = start s1 !! sw_next_pid x) as He.
  { simpl. unfold map_update. repeat case_match; try done; simpl; by rewrite lookup_insert_ne. }
  repeat case_match; done.
Qed.

Lemma schedmoni_preempt_silent_witness :
  let a := Args 100 0 0 (CommItem [] 0) 3 true in
  let s := SmMaps {[0 := a]} {[5 := EnqInfo 1 10]} ∅ ∅ in
  Forall (λ e, e.1 = events_nosch)
    (handle_switch (s_ctx 5000 0) (Task 6 6 [] true 0 0 1) (SwitchArgs "a" 6 0 "b" 5) s).2.
Proof.
  intros a s.
  apply (schedmoni_preempt_silent (s_ctx 5000 0) (Task 6 6 [] true 0 0 1)
    (SwitchArgs "a" 6 0 "b" 5) s); done.
Defined.

(** ** One tick *)

(** A tick that finds the running task marked, on a CPU without an episode. *)
Definition opens (c : bctx) (p : task) (s : sm_maps) : Prop :=
  (∃ a, args_of s = Some a ∧ ready a = true ∧ test_tsk_need_resched p (flag a) ≠ 0)
  ∧ t_pid p ≠ 0
  ∧ (∀ l, info_map s !! c_cpu c = Some l → last_seen_need_resched_ns l = 0)
  ∧ (size (info_map s) < MAX_MONI_NR)%nat.

(** A run without reschedule that only one tick saw is never reported:
    the threshold the switch compares with is stored by the second tick, so
    after the first one a switch outputs no event of this kind, however late. *)
Theorem schedmoni_one_tick c p s c' :
  opens c p s → c_cpu c' = c_cpu c →
  (account_process_tick c p s).2 = [] ∧ (switch_nosched c' (account_process_tick c p s).1).2 = [].
Proof.
  intros ((a & Ha & Hr & Hf) & Hp & Hl & Hroom) Hcpu.
  assert (account_process_tick c p s
    = (set_info (<[c_cpu c := LatInfo (c_now c) (c_now c) 0 0]> (info_map s)) s, [])) as ->.
  { unfold account_process_tick, program_ready. rewrite Ha, Hr.
    rewrite (proj2 (Z.eqb_neq _ _) Hf), (proj2 (Z.eqb_neq _ _) Hp).
    destruct (info_map s !! c_cpu c) as [l|] eqn:Hi.
    - by rewrite (Hl l).
    - by rewrite map_update_room by (by left). }
  split; [done|]. unfold switch_nosched. simpl. rewrite Hcpu, lookup_insert_eq. simpl.
  by rewrite andb_false_r.
Qed.

Lemma schedmoni_one_tick_witness :
  let a := Args 100 0 0 (CommItem [] 0) 3 true in
  let s := SmMaps {[0 := a]} ∅ ∅ ∅ in
  let p := Task 6 6 [] true 8 0 1 in
  (switch_nosched (s_ctx 900000 0) (account_process_tick (s_ctx 10 0) p s).1).2 = [].
Proof.
  intros a s p. apply (schedmoni_one_tick (s_ctx 10 0) p s (s_ctx 900000 0)); [|done].
  split_and!; [|done|done|].
  - exists a. by split_and!.
  - apply Nat.lt_0_succ.
Defined.

(** ** The interrupt part *)

(** What the maps and the events of [irqoff] become here. *)
Definition irq_view (s : sm_maps) : irq_maps := IrqMaps {[0 := get_thresh s]} (tm_map s).

Definition irq_conv (i : irq_in) (e : event) : channel * sm_event :=
  (events_irqof,
   SmEvent (ev_ret e) (ev_comm e) "" (ev_delay e) (match i with Sw2 _ => 0 | _ => ev_stamp e end)
     (ev_enter e) (ev_exit e) (ev_pid e) 0 (i32 (ev_cpu e))).

(** C40: the interrupt programs are those of [irqoff]: on every input they
    store the same stamps and output the same events, except that a tick's
    event has no time stamp (0 instead of the time). *)
Theorem schedmoni_irqoff_agrees i s :
  irq_view (handle (Irq i) s).1 = (handle i (irq_view s)).1
  ∧ (handle (Irq i) s).2 = irq_conv i <$> (handle i (irq_view s)).2.
Proof.
  assert (Irqoff.get_thresh (irq_view s) = get_thresh s) as Hth.
  { unfold Irqoff.get_thresh, array_lookup. simpl. by rewrite lookup_singleton_eq. }
  destruct i as [c|c|c];
    cbv [handle sm_tracer irq_tracer hw_irqoff_event sw_irqoff_event1 sw_irqoff_event2
         Irqoff.hw_irqoff_event Irqoff.sw_irqoff_event1 Irqoff.sw_irqoff_event2 percpu_lookup].
  - rewrite Hth. cbn [Z.leb Z.ltb Z.compare andb]. change (Irqoff.tm_map (irq_view s)) with (tm_map s).
    repeat case_match; by split.
  - cbn [Z.leb Z.ltb Z.compare andb]. by split.
  - change (Irqoff.get_thresh (Irqoff.set_tm _ (irq_view s))) with (Irqoff.get_thresh (irq_view s)).
    change (get_thresh (set_tm _ s)) with (get_thresh s).
    rewrite Hth. cbn [Z.leb Z.ltb Z.compare andb]. change (Irqoff.tm_map (irq_view s)) with (tm_map s).
    repeat case_match; by split.
Qed.

Lemma schedmoni_comm_silent_witness :
  let a := Args 100 0 0 (CommItem [98; 97; 115; 104] 4) 3 true in
  let p := Task 6 6 [98; 97; 115; 104; 0] true 8 0 1 in
  Forall (λ e, e.1 ≠ events_rnslw)
    (run [RawWakeup (s_ctx 10 0) p; Switch (s_ctx 9000 0) p (SwitchArgs "x" 3 1 "bash" 6)]
       (SmMaps {[0 := a]} ∅ ∅ ∅)).2.
Proof.
  intros a p. apply (schedmoni_comm_silent a); [done|].
  repeat constructor; intros ? [= <-]; exists 4%nat; split; [lia|done|lia|done].
Defined.
