(* ===== verification/Appnoise.v ===== *)
(** * Appnoise: what disturbs an application

    The BPF programs of [detect/sched/appnoise/bpf/appnoise.bpf.c]: histograms
    of the time that interrupts, soft interrupts, NMIs, run-queue waits, sleeps
    and system calls take from the watched threads, with totals per interrupt,
    soft interrupt and system call, and the threads that ran instead. The
    programs output no event; user space reads the maps.

    [log2] is proved to be the logarithm; all eight histograms are proved to
    count each sample of the watched threads once, in the slot of the power of
    two below it, where a sample is what the trace shows: the time an input
    carries, or the time since the latest entry of the same CPU or thread. The
    histograms are updated with atomic additions, so a program is one step. *)

From S2P Require Import Prelude Bpf.

Definition MAX_SLOTS : nat := 11.
Definition MAX_ENTRIES_IRQ : nat := 256.
Definition MAX_ENTRIES : nat := Z.to_nat 8192.
Definition NR_SOFTIRQS : Z := 10.
Definition NS_TO_US : Z := 1000.
Definition NS_TO_S : Z := 1000 * 1000 * 1000.

(** The keys of [histmap]. *)
Definition hist_irq : Z := 0.
Definition hist_softirq : Z := 1.
Definition hist_nmi : Z := 2.
Definition hist_wait : Z := 3.
Definition hist_sleep : Z := 4.
Definition hist_block : Z := 5.
Definition hist_iowait : Z := 6.
Definition hist_syscall : Z := 7.
Definition nr_hist : Z := 8.

Record args := Args { a_pid : Z; a_tgid : Z }.
Record thread_info_t := ThreadInfo { th_pid : Z; th_name : string; th_count : Z }.
Record histinfo := HistInfo { h_count : Z; h_slots : list Z; h_total : Z }.
Record irq_info_t := IrqInfo { ii_name : string; ii_count : Z; ii_total : Z }.
Record info := Info { in_count : Z; in_total : Z }.

Definition histinfo0 : histinfo := HistInfo 0 (replicate MAX_SLOTS 0) 0.

Record an_maps := AnMaps {
  filter_map : gmap Z args;
  histmap : gmap Z histinfo;
  start : gmap (Z * Z) Z;
  irq_infos : gmap Z irq_info_t;
  softirq_infos : gmap Z info;
  syscall_infos : gmap Z info;
  syscall_start : gmap Z Z;
  numa_map : gmap Z thread_info_t;
  wait_thread_info : gmap Z thread_info_t;
}.

Definition set_hist m s := AnMaps (filter_map s) m (start s) (irq_infos s) (softirq_infos s)
  (syscall_infos s) (syscall_start s) (numa_map s) (wait_thread_info s).
Definition set_start m s := AnMaps (filter_map s) (histmap s) m (irq_infos s) (softirq_infos s)
  (syscall_infos s) (syscall_start s) (numa_map s) (wait_thread_info s).
Definition set_irq m s := AnMaps (filter_map s) (histmap s) (start s) m (softirq_infos s)
  (syscall_infos s) (syscall_start s) (numa_map s) (wait_thread_info s).
Definition set_softirq m s := AnMaps (filter_map s) (histmap s) (start s) (irq_infos s) m
  (syscall_infos s) (syscall_start s) (numa_map s) (wait_thread_info s).
Definition set_syscall m s := AnMaps (filter_map s) (histmap s) (start s) (irq_infos s)
  (softirq_infos s) m (syscall_start s) (numa_map s) (wait_thread_info s).
Definition set_sysstart m s := AnMaps (filter_map s) (histmap s) (start s) (irq_infos s)
  (softirq_infos s) (syscall_infos s) m (numa_map s) (wait_thread_info s).
Definition set_numa m s := AnMaps (filter_map s) (histmap s) (start s) (irq_infos s)
  (softirq_infos s) (syscall_infos s) (syscall_start s) m (wait_thread_info s).
Definition set_wait m s := AnMaps (filter_map s) (histmap s) (start s) (irq_infos s)
  (softirq_infos s) (syscall_infos s) (syscall_start s) (numa_map s) m.

(** [log2] of a [u32]. *)
Definition log2 (v : Z) : Z :=
  let r := Z.shiftl (Z.b2z (0xFFFF <? v)) 4 in let v := Z.shiftr v r in
  let shift := Z.shiftl (Z.b2z (0xFF <? v)) 3 in let v := Z.shiftr v shift in let r := Z.lor r shift in
  let shift := Z.shiftl (Z.b2z (0xF <? v)) 2 in let v := Z.shiftr v shift in let r := Z.lor r shift in
  let shift := Z.shiftl (Z.b2z (0x3 <? v)) 1 in let v := Z.shiftr v shift in let r := Z.lor r shift in
  Z.lor r (Z.shiftr v 1).

(** The filter every program starts with; [pid] and [tgid] are [pid_t]. *)
Definition passes (args : args) (pid tgid : Z) : bool :=
  negb (negb (a_pid args =? 0) && negb (a_pid args =? pid))
  && negb (negb (a_tgid args =? 0) && negb (a_tgid args =? tgid)).

Definition get_args (s : an_maps) : option args := array_lookup (Args 0 0) 1 (filter_map s) 0.

(** The thread and group of the current context, as [pid_t]. *)
Definition cur_pid (c : bctx) : Z := i32 (c_pid_tgid c).
Definition cur_tgid (c : bctx) : Z := i32 (Z.shiftr (c_pid_tgid c) 32).

(** The slot of a duration; [log2] takes its low 32 bits. *)
Definition slot_of (duration : Z) : nat :=
  let slot := log2 (u32 duration) in
  if Z.of_nat MAX_SLOTS <=? slot then (MAX_SLOTS - 1)%nat else Z.to_nat slot.

(** The update of a histogram, which every program that measures ends with. *)
Definition hist_add (h : histinfo) (duration : Z) : histinfo :=
  HistInfo (u64 (h_count h + 1))
    (alter (λ n, u32 (n + 1)) (slot_of duration) (h_slots h))
    (u64 (h_total h + duration)).

(** Looks the histogram up and updates it; [None] when it is absent. *)
Definition add_hist (key duration : Z) (s : an_maps) : option an_maps :=
  h ← array_lookup histinfo0 nr_hist (histmap s) key;
  Some (set_hist (array_store key (hist_add h duration) (histmap s)) s).

Definition handle_irq_entry (c : bctx) (irq : Z) (name : string) (s : an_maps) : an_maps :=
  match get_args s with
  | None => s
  | Some args =>
      if passes args (cur_pid c) (cur_tgid c) then
        let s := set_start (percpu_store (c_cpu c) 0 (c_now c) (start s)) s in
        let irq_key := u32 irq in
        match irq_infos s !! irq_key with
        | None => set_irq (map_update MAX_ENTRIES_IRQ BPF_ANY irq_key
                             (IrqInfo (String.substring 0 32 name) 0 0) (irq_infos s)).2 s
        | Some _ => s
        end
      else s
  end.

(** The time since the stamp [key] of this CPU in microseconds, when it is
    set and not in the future. *)
Definition since_stamp (c : bctx) (stamp : option Z) : option Z :=
  match stamp with
  | None => None
  | Some ts =>
      if ts =? 0 then None
      else
        let duration := i64 (c_now c - ts) in
        if duration <? 0 then None else Some (Z.quot duration NS_TO_US)
  end.

Definition handle_irq_exit (c : bctx) (irq : Z) (s : an_maps) : an_maps :=
  match get_args s with
  | None => s
  | Some args =>
      if passes args (cur_pid c) (cur_tgid c) then
        match since_stamp c (percpu_lookup 0 4 (c_cpu c) (start s) 0) with
        | None => s
        | Some duration =>
            match add_hist hist_irq duration s with
            | None => s
            | Some s =>
                match irq_infos s !! u32 irq with
                | None => s
                | Some i => set_irq (<[u32 irq := IrqInfo (ii_name i) (u64 (ii_count i + 1))
                                         (u64 (ii_total i + duration))]> (irq_infos s)) s
                end
            end
        end
      else s
  end.

Definition handler_softirq_entry (c : bctx) (s : an_maps) : an_maps :=
  match get_args s with
  | None => s
  | Some args =>
      if passes args (cur_pid c) (cur_tgid c)
      then set_start (percpu_store (c_cpu c) 1 (c_now c) (start s)) s else s
  end.

Definition handler_softirq_exit (c : bctx) (vec : Z) (s : an_maps) : an_maps :=
  match get_args s with
  | None => s
  | Some args =>
      if passes args (cur_pid c) (cur_tgid c) then
        match since_stamp c (percpu_lookup 0 4 (c_cpu c) (start s) 1) with
        | None => s
        | Some duration =>
            match add_hist hist_softirq duration s with
            | None => s
            | Some s =>
                match array_lookup (Info 0 0) NR_SOFTIRQS (softirq_infos s) (u32 vec) with
                | None => s
                | Some i => set_softirq (array_store (u32 vec) (Info (u64 (in_count i + 1))
                                           (u64 (in_total i + duration))) (softirq_infos s)) s
                end
            end
        end
      else s
  end.

Definition handler_nmi (c : bctx) (delta_ns : Z) (s : an_maps) : an_maps :=
  match get_args s with
  | None => s
  | Some args =>
      if passes args (cur_pid c) (cur_tgid c)
      then default s (add_hist hist_nmi (u64 delta_ns / NS_TO_US) s) else s
  end.

(** [delay] is [ctx->args[1]]; the task waited, the current one ran. *)
Definition handler_sched_stat_wait (c : bctx) (p : task) (delay : Z) (s : an_maps) : an_maps :=
  let duration := delay / NS_TO_US in
  match get_args s with
  | None => s
  | Some args =>
      if passes args (t_pid p) (t_tgid p) then
        match add_hist hist_wait duration s with
        | None => s
        | Some s =>
            let pid_prev := cur_pid c in
            if negb (a_pid args =? 0) && (a_pid args =? pid_prev) then s
            else if negb (a_tgid args =? 0) && (a_tgid args =? cur_tgid c) then s
            else
              match wait_thread_info s !! pid_prev with
              | None => set_wait (map_update MAX_ENTRIES BPF_ANY pid_prev
                                    (ThreadInfo pid_prev (c_comm c) 1) (wait_thread_info s)).2 s
              | Some i => set_wait (<[pid_prev := ThreadInfo (th_pid i) (th_name i)
                                        (u64 (th_count i + 1))]> (wait_thread_info s)) s
              end
        end
      else s
  end.

Definition handler_sched_stat_sleep (p : task) (delay : Z) (s : an_maps) : an_maps :=
  match get_args s with
  | None => s
  | Some args =>
      if passes args (t_pid p) (t_tgid p)
      then default s (add_hist hist_sleep (delay / NS_TO_S) s) else s
  end.

Definition handler_sched_stat_blocked (p : task) (delay : Z) (s : an_maps) : an_maps :=
  match get_args s with
  | None => s
  | Some args =>
      if passes args (t_pid p) (t_tgid p)
      then default s (add_hist hist_block (delay / NS_TO_S) s) else s
  end.

Definition handler_sched_stat_iowait (p : task) (delay : Z) (s : an_maps) : an_maps :=
  match get_args s with
  | None => s
  | Some args =>
      if passes args (t_pid p) (t_tgid p)
      then default s (add_hist hist_iowait (delay / NS_TO_S) s) else s
  end.

Definition handler_sys_enter (c : bctx) (s : an_maps) : an_maps :=
  match get_args s with
  | None => s
  | Some args =>
      if passes args (cur_pid c) (cur_tgid c)
      then set_sysstart (map_update MAX_ENTRIES BPF_ANY (cur_pid c) (c_now c) (syscall_start s)).2 s
      else s
  end.

Definition handler_sys_exit (c : bctx) (id : Z) (s : an_maps) : an_maps :=
  match get_args s with
  | None => s
  | Some args =>
      if passes args (cur_pid c) (cur_tgid c) then
        match since_stamp c (syscall_start s !! cur_pid c) with
        | None => s
        | Some duration =>
            match add_hist hist_syscall duration s with
            | None => s
            | Some s =>
                match syscall_infos s !! u32 id with
                | None => set_syscall (map_update MAX_ENTRIES BPF_ANY (u32 id)
                                         (Info 1 duration) (syscall_infos s)).2 s
                | Some i => set_syscall (<[u32 id := Info (u64 (in_count i + 1))
                                             (u64 (in_total i + duration))]> (syscall_infos s)) s
                end
            end
        end
      else s
  end.

Definition migrate_misplaced_page_hook (c : bctx) (s : an_maps) : an_maps :=
  match get_args s with
  | None => s
  | Some args =>
      if passes args (cur_pid c) (cur_tgid c) then
        let pid := cur_pid c in
        match numa_map s !! pid with
        | None => set_numa (map_update MAX_ENTRIES BPF_ANY pid (ThreadInfo pid (c_comm c) 1)
                              (numa_map s)).2 s
        | Some i => set_numa (<[pid := ThreadInfo (th_pid i) (th_name i) (u64 (th_count i + 1))]>
                                (numa_map s)) s
        end
      else s
  end.

Inductive an_in :=
  | IrqEntry (c : bctx) (irq : Z) (name : string) | IrqExit (c : bctx) (irq : Z)
  | SoftirqEntry (c : bctx) | SoftirqExit (c : bctx) (vec : Z)
  | Nmi (c : bctx) (delta_ns : Z)
  | StatWait (c : bctx) (p : task) (delay : Z) | StatSleep (p : task) (delay : Z)
  | StatBlocked (p : task) (delay : Z) | StatIowait (p : task) (delay : Z)
  | SysEnter (c : bctx) | SysExit (c : bctx) (id : Z) | Migrate (c : bctx).

Definition an_step (i : an_in) : an_maps → an_maps :=
  match i with
  | IrqEntry c irq name => handle_irq_entry c irq name
  | IrqExit c irq => handle_irq_exit c irq
  | SoftirqEntry c => handler_softirq_entry c
  | SoftirqExit c vec => handler_softirq_exit c vec
  | Nmi c d => handler_nmi c d
  | StatWait c p d => handler_sched_stat_wait c p d
  | StatSleep p d => handler_sched_stat_sleep p d
  | StatBlocked p d => handler_sched_stat_blocked p d
  | StatIowait p d => handler_sched_stat_iowait p d
  | SysEnter c => handler_sys_enter c
  | SysExit c id => handler_sys_exit c id
  | Migrate c => migrate_misplaced_page_hook c
  end.

#[global] Instance an_tracer : Tracer an_maps an_in Empty_set := λ i s, (an_step i s, []).

(** ** The logarithm *)

(** One round of the bit search: the test picks the upper half. *)
Lemma log2_round v k :
  0 ≤ v < 2 ^ (2 * k) → 0 < k →
  let b := Z.b2z (2 ^ k - 1 <? v) in
  0 ≤ Z.shiftr v (b * k) < 2 ^ k ∧ (0 < v → Z.log2 v = b * k + Z.log2 (Z.shiftr v (b * k)))
  ∧ (0 < v → 0 < Z.shiftr v (b * k)).
Proof.
  intros Hv Hk b. subst b. assert (0 < 2 ^ k) by (apply Z.pow_pos_nonneg; lia).
  destruct (Z.ltb_spec (2 ^ k - 1) v); simpl Z.b2z.
  - rewrite Z.mul_1_l, Z.shiftr_div_pow2 by lia.
    assert (0 < v / 2 ^ k) by (apply Z.div_str_pos; lia).
    split; [|split; [|done]].
    + split; [lia|]. apply Z.div_lt_upper_bound; [lia|]. rewrite <-Z.pow_add_r by lia.
      replace (k + k) with (2 * k) by lia. lia.
    + intros _. rewrite <-Z.shiftr_div_pow2, Z.log2_shiftr by lia.
      assert (k ≤ Z.log2 v) by (apply Z.log2_le_pow2; lia). lia.
  - rewrite Z.mul_0_l, Z.shiftr_0_r. split; [lia|]. split; [|done]. lia.
Qed.

Lemma lor_bits (a b c d : bool) e :
  0 ≤ e < 2 →
  Z.lor (Z.lor (Z.lor (Z.lor (Z.b2z a * 16) (Z.b2z b * 8)) (Z.b2z c * 4)) (Z.b2z d * 2)) e
  = Z.b2z a * 16 + (Z.b2z b * 8 + (Z.b2z c * 4 + (Z.b2z d * 2 + e))).
Proof.
  intros He. assert (e = 0 ∨ e = 1) as [-> | ->] by lia; by destruct a, b, c, d.
Qed.

Lemma shiftl_bit (b : bool) k : 0 ≤ k → Z.shiftl (Z.b2z b) k = Z.b2z b * 2 ^ k.
Proof. intros. by rewrite Z.shiftl_mul_pow2. Qed.

(** The branch-free [log2] is the integer logarithm of every 32-bit value
    (and 0 for 0). *)
Theorem appnoise_log2 v : 0 ≤ v < 2 ^ 32 → log2 v = Z.log2 v.
Proof.
  intros Hv. destruct (decide (v = 0)) as [->|Hne]; [done|]. unfold log2. cbv zeta.
  set (a := 0xFFFF <? v). rewrite (shiftl_bit a 4) by lia.
  destruct (log2_round v 16 Hv ltac:(lia)) as (R1 & L1 & P1).
  change (2 ^ 16 - 1 <? v) with a in *. change (2 ^ 4) with 16.
  set (v1 := Z.shiftr v (Z.b2z a * 16)) in *.
  set (b := 0xFF <? v1). rewrite (shiftl_bit b 3) by lia.
  destruct (log2_round v1 8 R1 ltac:(lia)) as (R2 & L2 & P2).
  change (2 ^ 8 - 1 <? v1) with b in *. change (2 ^ 3) with 8.
  set (v2 := Z.shiftr v1 (Z.b2z b * 8)) in *.
  set (c := 0xF <? v2). rewrite (shiftl_bit c 2) by lia.
  destruct (log2_round v2 4 R2 ltac:(lia)) as (R3 & L3 & P3).
  change (2 ^ 4 - 1 <? v2) with c in *. change (2 ^ 2) with 4 in *.
  set (v3 := Z.shiftr v2 (Z.b2z c * 4)) in *.
  set (d := 0x3 <? v3). rewrite (shiftl_bit d 1) by lia.
  destruct (log2_round v3 2 R3 ltac:(lia)) as (R4 & L4 & P4).
  change (2 ^ 2 - 1 <? v3) with d in *. change (2 ^ 1) with 2 in *.
  set (v4 := Z.shiftr v3 (Z.b2z d * 2)) in *. change (2 ^ 2) with 4 in R4.
  rewrite lor_bits.
  2:{ rewrite Z.shiftr_div_pow2 by lia. change (2 ^ 1) with 2. clear -R4. Z.div_mod_to_equations. lia. }
  specialize (L1 ltac:(lia)). specialize (P1 ltac:(lia)).
  specialize (L2 P1). specialize (P2 P1). specialize (L3 P2). specialize (P3 P2).
  specialize (L4 P3). specialize (P4 P3). rewrite L1, L2, L3, L4.
  clearbody v4 d. clear -P4 R4.
  assert (v4 = 1 ∨ v4 = 2 ∨ v4 = 3) as [-> | [-> | ->]] by lia.
  - change (Z.shiftr 1 1) with 0. change (Z.log2 1) with 0. lia.
  - change (Z.shiftr 2 1) with 1. change (Z.log2 2) with 1. lia.
  - change (Z.shiftr 3 1) with 1. change (Z.log2 3) with 1. lia.
Qed.

Lemma appnoise_log2_witness : log2 1000 = 9 ∧ log2 1000 = Z.log2 1000.
Proof. split; [reflexivity|]. apply appnoise_log2. done. Defined.

(** ** The histograms *)

(** The histogram a map holds at a key. *)
Definition hist_at (k : Z) (m : gmap Z histinfo) : histinfo := default histinfo0 (m !! k).

(** What a step does to the histograms: nothing, or one sample in one of them. *)
Definition hist_effect (o : option (Z * Z)) (m : gmap Z histinfo) : gmap Z histinfo :=
  match o with
  | None => m
  | Some (k, d) => <[k := hist_add (hist_at k m) d]> m
  end.

(** The samples for the histogram [k]. *)
Definition for_key (k : Z) (o : option (Z * Z)) : list Z :=
  match o with Some (k', d) => if k' =? k then [d] else [] | None => [] end.

(** The time of the latest input of a history that [sel] selects. *)
Fixpoint latest (sel : an_in → option Z) (hist : list an_in) : option Z :=
  match hist with
  | [] => None
  | i :: hist' => match sel i with Some t => Some t | None => latest sel hist' end
  end.

Section samples.
Context (a : args).

Definition watched (c : bctx) : bool := passes a (cur_pid c) (cur_tgid c).

(** The entries of interrupts and soft interrupts on a CPU, and of system calls
    of a thread. *)
Definition irq_entry (cpu : Z) (i : an_in) : option Z :=
  match i with IrqEntry c _ _ => if watched c && (c_cpu c =? cpu) then Some (c_now c) else None | _ => None end.
Definition softirq_entry (cpu : Z) (i : an_in) : option Z :=
  match i with SoftirqEntry c => if watched c && (c_cpu c =? cpu) then Some (c_now c) else None | _ => None end.
Definition sys_entry (pid : Z) (i : an_in) : option Z :=
  match i with SysEnter c => if watched c && (cur_pid c =? pid) then Some (c_now c) else None | _ => None end.

(** The microseconds since an entry. *)
Definition took (c : bctx) (entry : option Z) : option Z :=
  match entry with Some t => if t <=? c_now c then Some ((c_now c - t) / 1000) else None | None => None end.

(** The sample of an input after a history, latest input first: the histogram
    and the time. *)
Definition noise_sample (hist : list an_in) (i : an_in) : option (Z * Z) :=
  match i with
  | IrqExit c _ =>
      if watched c then pair hist_irq <$> took c (latest (irq_entry (c_cpu c)) hist) else None
  | SoftirqExit c _ =>
      if watched c then pair hist_softirq <$> took c (latest (softirq_entry (c_cpu c)) hist) else None
  | SysExit c _ =>
      if watched c then pair hist_syscall <$> took c (latest (sys_entry (cur_pid c)) hist) else None
  | Nmi c d => if watched c then Some (hist_nmi, u64 d / 1000) else None
  | StatWait _ p d => if passes a (t_pid p) (t_tgid p) then Some (hist_wait, d / 1000) else None
  | StatSleep p d => if passes a (t_pid p) (t_tgid p) then Some (hist_sleep, d / 1000000000) else None
  | StatBlocked p d => if passes a (t_pid p) (t_tgid p) then Some (hist_block, d / 1000000000) else None
  | StatIowait p d => if passes a (t_pid p) (t_tgid p) then Some (hist_iowait, d / 1000000000) else None
  | _ => None
  end.

(** The samples of a trace for the histogram [k], in order. *)
Fixpoint noise_samples (k : Z) (hist tr : list an_in) : list Z :=
  match tr with
  | [] => []
  | i :: tr' => for_key k (noise_sample hist i) ++ noise_samples k (i :: hist) tr'
  end.

(** The same read off the maps. *)
Definition map_sample (s : an_maps) (i : an_in) : option (Z * Z) :=
  match i with
  | IrqExit c _ =>
      if watched c then pair hist_irq <$> since_stamp c (percpu_lookup 0 4 (c_cpu c) (start s) 0) else None
  | SoftirqExit c _ =>
      if watched c then pair hist_softirq <$> since_stamp c (percpu_lookup 0 4 (c_cpu c) (start s) 1) else None
  | SysExit c _ => if watched c then pair hist_syscall <$> since_stamp c (syscall_start s !! cur_pid c) else None
  | _ => noise_sample [] i
  end.
End samples.

Lemma add_hist_spec k d s :
  0 ≤ k < nr_hist → add_hist k d s = Some (set_hist (hist_effect (Some (k, d)) (histmap s)) s).
Proof.
  intros Hk. unfold add_hist, array_lookup.
  rewrite (proj2 (Z.leb_le 0 k)), (proj2 (Z.ltb_lt k nr_hist)) by lia. done.
Qed.

Ltac unfold_programs :=
  cbv [an_step handle_irq_entry handle_irq_exit handler_softirq_entry
    handler_softirq_exit handler_nmi handler_sched_stat_wait handler_sched_stat_sleep
    handler_sched_stat_blocked handler_sched_stat_iowait handler_sys_enter handler_sys_exit
    migrate_misplaced_page_hook].

(** The effect of every program on the histograms. *)
Lemma an_step_hist a i s :
  get_args s = Some a →
  get_args (an_step i s) = Some a ∧ histmap (an_step i s) = hist_effect (map_sample a s i) (histmap s).
Proof.
  intros Ha. destruct i; unfold_programs; cbv [map_sample noise_sample watched];
    rewrite Ha, ?add_hist_spec by done; (destruct (passes a _ _); [|by split]); simpl default;
    try (destruct (since_stamp _ _) as [d|]; [|done]); rewrite ?add_hist_spec by done; cbv zeta;
    repeat case_match; by split.
Qed.

(** The stamps the maps hold are those of the latest entries. *)
Record stamps_ok (a : args) (P : gset Z) (hist : list an_in) (s : an_maps) : Prop := {
  so_irq cpu : default 0 (start s !! (cpu, 0)) = default 0 (latest (irq_entry a cpu) hist);
  so_softirq cpu : default 0 (start s !! (cpu, 1)) = default 0 (latest (softirq_entry a cpu) hist);
  so_sys pid : syscall_start s !! pid = latest (sys_entry a pid) hist;
  so_dom : dom (syscall_start s) ⊆ P;
}.

(** The inputs of a trace: the clock is positive and below 2^63 ns, and the
    threads whose system calls are watched are in [P]. *)
Definition an_input (a : args) (P : gset Z) (i : an_in) : Prop :=
  match i with
  | IrqEntry c _ _ | IrqExit c _ | SoftirqEntry c | SoftirqExit c _ | SysExit c _ => 0 < c_now c < 2 ^ 63
  | SysEnter c => 0 < c_now c < 2 ^ 63 ∧ (watched a c = true → cur_pid c ∈ P)
  | _ => True
  end.

Lemma latest_timed a P sel hist t :
  Forall (an_input a P) hist →
  (∀ i t, an_input a P i → sel i = Some t → 0 < t < 2 ^ 63) →
  latest sel hist = Some t → 0 < t < 2 ^ 63.
Proof.
  intros Hin Hsel. induction Hin as [|i hist Hi _ IH]; simpl; [done|].
  destruct (sel i) as [t'|] eqn:Ht; [|done]. intros [= <-]. by eapply Hsel.
Qed.

Lemma since_took c stamp entry :
  0 < c_now c < 2 ^ 63 → default 0 stamp = default 0 entry → (∀ t, entry = Some t → 0 < t < 2 ^ 63) →
  since_stamp c stamp = took c entry.
Proof.
  intros Hc He Ht. unfold since_stamp, took.
  destruct entry as [t|].
  - specialize (Ht t eq_refl). simpl in He. destruct stamp as [ts|]; simpl in He; [subst ts|lia].
    rewrite (proj2 (Z.eqb_neq t 0)) by lia. rewrite swrap_small by (simpl Z.sub; lia).
    destruct (Z.ltb_spec (c_now c - t) 0), (Z.leb_spec t (c_now c)); try done; try lia.
    f_equal. by apply Z.quot_div_nonneg.
  - destruct stamp as [ts|]; simpl in He; [subst ts|done]. done.
Qed.

Lemma map_sample_ok a P hist s i :
  stamps_ok a P hist s → Forall (an_input a P) hist → an_input a P i →
  map_sample a s i = noise_sample a hist i.
Proof.
  intros [H0 H1 H2 _] Hin Hi. destruct i; cbn [map_sample noise_sample]; try done; (destruct (watched a c); [|done]); f_equal;
    (apply since_took; [done| |intros t; eapply latest_timed; [done|]]).
  - apply H0.
  - intros [] ?; simpl; try done. intros ? ?; case_match; by simplify_eq.
  - apply H1.
  - intros [] ?; simpl; try done. intros ? ?; case_match; by simplify_eq.
  - by rewrite H2.
  - intros [] ?; simpl; try done. intros [? _] ?; case_match; by simplify_eq.
Qed.

(** A program that keeps the stamps, on an input that is no entry. *)
Lemma stamps_keep a P hist s s' i :
  stamps_ok a P hist s → start s' = start s → syscall_start s' = syscall_start s →
  (∀ k, irq_entry a k i = None) → (∀ k, softirq_entry a k i = None) → (∀ k, sys_entry a k i = None) →
  stamps_ok a P (i :: hist) s'.
Proof.
  intros [H0 H1 H2 H3] Hs Hy E0 E1 E2.
  split; try intros k; simpl; rewrite ?Hs, ?Hy, ?E0, ?E1, ?E2; auto.
Qed.

Lemma stamps_irq a P hist s c irq name :
  stamps_ok a P hist s → watched a c = true →
  stamps_ok a P (IrqEntry c irq name :: hist) (set_start (percpu_store (c_cpu c) 0 (c_now c) (start s)) s).
Proof.
  intros [H0 H1 H2 H3] Hw. unfold percpu_store. split; try intros k; simpl; rewrite ?Hw; simpl; auto.
  - destruct (Z.eqb_spec (c_cpu c) k) as [<-|Hne]; [by rewrite lookup_insert_eq|].
    rewrite lookup_insert_ne by congruence. apply H0.
  - rewrite lookup_insert_ne by congruence. apply H1.
Qed.

Lemma stamps_softirq a P hist s c :
  stamps_ok a P hist s → watched a c = true →
  stamps_ok a P (SoftirqEntry c :: hist) (set_start (percpu_store (c_cpu c) 1 (c_now c) (start s)) s).
Proof.
  intros [H0 H1 H2 H3] Hw. unfold percpu_store. split; try intros k; simpl; rewrite ?Hw; simpl; auto.
  - rewrite lookup_insert_ne by congruence. apply H0.
  - destruct (Z.eqb_spec (c_cpu c) k) as [<-|Hne]; [by rewrite lookup_insert_eq|].
    rewrite lookup_insert_ne by congruence. apply H1.
Qed.

Lemma stamps_sys a P hist s c :
  stamps_ok a P hist s → watched a c = true → cur_pid c ∈ P → (size P ≤ MAX_ENTRIES)%nat →
  stamps_ok a P (SysEnter c :: hist)
    (set_sysstart (map_update MAX_ENTRIES BPF_ANY (cur_pid c) (c_now c) (syscall_start s)).2 s).
Proof.
  intros [H0 H1 H2 H3] Hw Hp HP. rewrite map_update_room.
  - split; try intros k; simpl; rewrite ?Hw; simpl; auto.
    + destruct (Z.eqb_spec (cur_pid c) k) as [<-|Hne]; [by rewrite lookup_insert_eq|].
      rewrite lookup_insert_ne by congruence. apply H2.
    + rewrite dom_insert. set_solver.
  - destruct (syscall_start s !! cur_pid c) eqn:He; [right; by eexists|left].
    by eapply (map_room_set MAX_ENTRIES P).
Qed.

Lemma stamps_step a P hist s i :
  stamps_ok a P hist s → get_args s = Some a → an_input a P i → (size P ≤ MAX_ENTRIES)%nat →
  stamps_ok a P (i :: hist) (an_step i s).
Proof.
  intros Hok Ha Hi HP.
  destruct i as [c irq name|c irq|c|c vec|c d|c p d|p d|p d|p d|c|c id|c];
    unfold_programs; rewrite Ha, ?add_hist_spec by done;
    match goal with |- context [passes a ?x ?y] => destruct (passes a x y) eqn:Hw end;
    try (apply (stamps_keep a P hist s); try done; intros k; simpl; unfold watched; by rewrite ?Hw).
  - cbv zeta. pose proof (stamps_irq a P hist s c irq name Hok Hw) as Hg.
    case_match; [done|]. destruct Hg. by split.
  - destruct (since_stamp _ _); rewrite ?add_hist_spec by done; repeat case_match; by apply (stamps_keep a P hist s).
  - by apply stamps_softirq.
  - destruct (since_stamp _ _); rewrite ?add_hist_spec by done; repeat case_match; by apply (stamps_keep a P hist s).
  - cbv zeta. repeat case_match; by apply (stamps_keep a P hist s).
  - destruct Hi as [_ Hi]. by apply stamps_sys; auto.
  - destruct (since_stamp _ _); rewrite ?add_hist_spec by done; repeat case_match; by apply (stamps_keep a P hist s).
  - cbv zeta. case_match; by apply (stamps_keep a P hist s).
Qed.

(** The slots by powers of two: slot 0 holds 0 and 1, slot [j] the times from
    2^j up to 2^(j+1), and the last slot all longer ones; of a time only the low
    32 bits count. *)
Definition in_slot (j : nat) (d : Z) : Prop :=
  let v := d `mod` 2 ^ 32 in
  (j ≠ 0%nat → 2 ^ Z.of_nat j ≤ v) ∧ (j ≠ 10%nat → v < 2 ^ (Z.of_nat j + 1)).
#[global] Instance in_slot_dec j d : Decision (in_slot j d).
Proof. unfold in_slot. apply _. Defined.

Lemma slot_of_spec d j : (j < MAX_SLOTS)%nat → slot_of d = j ↔ in_slot j d.
Proof.
  unfold slot_of, in_slot, MAX_SLOTS, wrap. intros Hj. set (v := d `mod` 2 ^ 32).
  assert (0 ≤ v < 2 ^ 32) as Hv by (apply Z.mod_pos_bound; lia).
  rewrite appnoise_log2 by done.
  pose proof (Z.log2_nonneg v) as Hn.
  destruct (decide (v = 0)) as [->|Hne].
  { change (Z.log2 0) with 0. simpl. split; [by intros <-|]. intros [Hp _].
    destruct j as [|j]; [done|]. specialize (Hp ltac:(done)).
    pose proof (Z.pow_pos_nonneg 2 (Z.of_nat (S j))). lia. }
  destruct (Z.log2_spec v ltac:(lia)) as [Hlo Hhi]. rewrite <-Z.add_1_r in Hhi.
  assert (∀ k, 0 ≤ k → 2 ^ k ≤ v ↔ k ≤ Z.log2 v) as Hle by (intros; apply Z.log2_le_pow2; lia).
  rewrite Hle by lia. rewrite Z.lt_nge, Hle by lia.
  destruct (Z.leb_spec (Z.of_nat 11) (Z.log2 v)); lia.
Qed.

(** The histogram of a list of samples: each is counted once, in its slot. *)
Record hist_of (h : histinfo) (ds : list Z) : Prop := {
  ho_count : h_count h = u64 (zlen ds);
  ho_total : h_total h = u64 (foldr Z.add 0 ds);
  ho_len : length (h_slots h) = MAX_SLOTS;
  ho_slots j : (j < MAX_SLOTS)%nat →
    h_slots h !! j = Some (u32 (zlen (filter (in_slot j) ds)));
}.

Lemma foldr_add_app ds1 ds2 : foldr Z.add 0 (ds1 ++ ds2) = foldr Z.add 0 ds1 + foldr Z.add 0 ds2.
Proof. induction ds1 as [|d ds1 IH]; simpl; [done|]. lia. Qed.

Lemma hist_of_nil : hist_of histinfo0 [].
Proof.
  split; try done. intros j Hj. change (h_slots histinfo0) with (replicate MAX_SLOTS 0).
  by rewrite lookup_replicate_2.
Qed.

Lemma hist_of_snoc h ds d : hist_of h ds → hist_of (hist_add h d) (ds ++ [d]).
Proof.
  intros [Hc Ht Hl Hs]. split; simpl.
  - rewrite Hc, wrap_add, zlen_app. done.
  - rewrite Ht, wrap_add, foldr_add_app. simpl. f_equal. lia.
  - by rewrite length_alter.
  - intros j Hj. rewrite filter_app, zlen_app, filter_cons. simpl filter.
    pose proof (slot_of_spec d j Hj) as Hslot. case_decide as Hd.
    + rewrite (proj2 Hslot Hd), list_lookup_alter_eq, (Hs _ Hj). simpl. by rewrite wrap_add.
    + rewrite list_lookup_alter_ne by tauto. rewrite (Hs _ Hj). by rewrite Z.add_0_r.
Qed.

Lemma hist_effect_key k o m : 
  hist_at k (hist_effect o m)
  = match for_key k o with [] => hist_at k m | d :: _ => hist_add (hist_at k m) d end.
Proof.
  destruct o as [[k' d]|]; simpl; [|done]. unfold hist_at. destruct (Z.eqb_spec k' k) as [->|Hne].
  - by rewrite lookup_insert_eq.
  - by rewrite lookup_insert_ne.
Qed.

Lemma for_key_one k o : for_key k o = [] ∨ ∃ d, for_key k o = [d].
Proof. destruct o as [[k' d]|]; simpl; [|by left]. case_match; [right; by eexists|by left]. Qed.

(** The histogram [k] along a trace. *)
Lemma hist_run a P k tr : ∀ hist s ds,
  Forall (an_input a P) tr → (size P ≤ MAX_ENTRIES)%nat → Forall (an_input a P) hist →
  get_args s = Some a → stamps_ok a P hist s → hist_of (hist_at k (histmap s)) ds →
  hist_of (hist_at k (histmap (run tr s).1)) (ds ++ noise_samples a k hist tr).
Proof.
  induction tr as [|i tr IH]; intros hist s ds Hin HP Hh Ha Hst Hds; simpl noise_samples.
  { by rewrite app_nil_r. }
  apply Forall_cons in Hin as [Hi Hin]. rewrite run_cons. change (handle i s).1 with (an_step i s). simpl.
  destruct (an_step_hist a i s Ha) as [Ha' Hm]. rewrite (map_sample_ok a P hist s i Hst Hh Hi) in Hm.
  rewrite app_assoc. apply IH; try done; [by constructor|by apply stamps_step|].
  rewrite Hm, hist_effect_key. destruct (for_key_one k (noise_sample a hist i)) as [->|[d ->]].
  - by rewrite app_nil_r.
  - by apply hist_of_snoc.
Qed.

Definition an_maps0 (a : args) : an_maps := AnMaps {[0 := a]} ∅ ∅ ∅ ∅ ∅ ∅ ∅ ∅.

Lemma get_args0 a : get_args (an_maps0 a) = Some a.
Proof. unfold get_args, array_lookup. simpl. by rewrite lookup_singleton_eq. Qed.

(** C25: all eight histograms (interrupts, soft interrupts, NMIs, waits, sleeps,
    blocks, I/O waits and system calls) count every sample of the watched
    threads exactly once: after any trace, the count is their number, the total
    their sum, and each slot the number of samples between its powers of two,
    where of a time only the low 32 bits of its microseconds count (all modulo the
    width of the counters). The sample of an NMI or of a scheduler
    statistic is the time it carries; that of an interrupt or soft interrupt is
    the time since the latest entry on its CPU, and that of a system call the
    time since its thread's latest entry. *)
Theorem appnoise_histograms a tr (P : gset Z) k :
  Forall (an_input a P) tr → (size P ≤ MAX_ENTRIES)%nat →
  hist_of (hist_at k (histmap (run tr (an_maps0 a)).1)) (noise_samples a k [] tr).
Proof.
  intros Hin HP. apply (hist_run a P k tr [] (an_maps0 a) []); try done. apply hist_of_nil.
Qed.

Lemma slot_of_lt d : (slot_of d < MAX_SLOTS)%nat.
Proof.
  unfold slot_of, MAX_SLOTS. destruct (Z.leb_spec (Z.of_nat 11) (log2 (u32 d))); lia.
Qed.

Lemma sum_bump l j :
  (j < length l)%nat →
  u32 (foldr Z.add 0 (alter (λ n, u32 (n + 1)) j l)) = u32 (foldr Z.add 0 l + 1).
Proof.
  revert j; induction l as [|x l IH]; intros j Hj; simpl in Hj; [lia|]. destruct j as [|j].
  - simpl. rewrite wrap_add. f_equal. lia.
  - change (alter _ (S j) (x :: l)) with (x :: alter (λ n, u32 (n + 1)) j l). simpl foldr.
    rewrite Z.add_comm, <-wrap_add, IH, wrap_add by lia. f_equal. lia.
Qed.

Lemma u32_u64 z : u32 (u64 z) = u32 z.
Proof. unfold wrap. apply Z.mod_mod_divide. by exists (2 ^ 32). Qed.

(** In every histogram, at any time, the slots add up to the count (modulo
    the 32 bits of a slot): no sample is counted in no slot or in two. *)
Theorem appnoise_slots_sum a tr k :
  let h := hist_at k (histmap (run tr (an_maps0 a)).1) in
  length (h_slots h) = MAX_SLOTS ∧ u32 (foldr Z.add 0 (h_slots h)) = u32 (h_count h).
Proof.
  cbv zeta. revert k.
  set (ok := λ s, get_args s = Some a ∧ ∀ k, length (h_slots (hist_at k (histmap s))) = MAX_SLOTS
    ∧ u32 (foldr Z.add 0 (h_slots (hist_at k (histmap s)))) = u32 (h_count (hist_at k (histmap s)))).
  enough (ok (run tr (an_maps0 a)).1) as [_ H] by exact H.
  apply run_inv; [|split; [apply get_args0|done]].
  intros i s [Ha Hok]. change (handle i s).1 with (an_step i s).
  destruct (an_step_hist a i s Ha) as [Ha' Hm]. split; [done|].
  intros k. rewrite Hm, hist_effect_key. destruct (Hok k) as [Hl Hs].
  destruct (for_key k _) as [|d l]; [done|]. simpl. rewrite length_alter. split; [done|].
  rewrite sum_bump by (rewrite Hl; apply slot_of_lt). by rewrite <-wrap_add, Hs, wrap_add, u32_u64.
Qed.

Lemma appnoise_histograms_witness :
  let p := Task 42 42 [] true 0 0 1 in
  let c t := BCtx t 0 42 "x" 0 in
  let tr := [StatWait (c 10) p 5000; SysEnter (c 1000); IrqEntry (c 2000) 9 "eth0"; StatWait (c 3000) p 70000;
             IrqExit (c 8000) 9; SysExit (c 21000) 3; IrqEntry (c 30000) 9 "eth0"; IrqExit (c 33000) 9] in
  let h k := hist_at k (histmap (run tr (an_maps0 (Args 42 0))).1) in
  h_count (h hist_wait) = 2 ∧ h_total (h hist_wait) = 75 ∧ h_total (h hist_syscall) = 20 ∧
  h_slots (h hist_irq) !! 2%nat = Some 1.
Proof.
  intros p c tr h.
  assert (Forall (an_input (Args 42 0) {[42]}) tr) as Hin by (by repeat constructor; vm_compute; try done).
  assert (size ({[42%Z]} : gset Z) ≤ MAX_ENTRIES)%nat as HP.
  { unfold MAX_ENTRIES. apply Nat2Z.inj_le. rewrite Z2Nat.id by lia. vm_compute. congruence. }
  destruct (appnoise_histograms (Args 42 0) tr {[42]} hist_wait Hin HP) as [Hc Ht _ _].
  destruct (appnoise_histograms (Args 42 0) tr {[42]} hist_syscall Hin HP) as [_ Ht' _ _].
  destruct (appnoise_histograms (Args 42 0) tr {[42]} hist_irq Hin HP) as [_ _ _ Hs].
  unfold h. rewrite Hc, Ht, Ht', Hs by (unfold MAX_SLOTS; lia). split_and!; reflexivity.
Defined.
