(* ===== verification/Kvmexit.v ===== *)
(** * Kvmexit: where virtual CPUs spend the time outside the guest

    The BPF programs of [detect/virt/kvmexittime/bpf/kvmexittime.bpf.c]. A
    [kvm_exit] stamps the thread of the virtual CPU with the time and the
    reason; until the next [kvm_entry] the time the thread was switched out is
    summed up; the entry adds the length of the exit and the switched-out part
    to the account of the reason.

    A row of [start] belongs to one thread, which runs one program at a time,
    so the programs that touch only that row are one step each. The rows of
    [counts] are shared by the CPUs, and [handle__kvm_entry] adds to them with
    plain loads and stores: its three [+=] are six steps, which interleave
    with the other CPUs'.

    The specification is a machine that keeps one open exit per thread and
    emits an account line at each entry; the code's accounts are the sums of
    those lines when entries of the same reason do not overlap, and may lose
    lines when they do ([kvmexit_lost_update]). *)

From S2P Require Import Prelude Bpf.

Definition TABLE_ENTRIES : nat := Z.to_nat 10240.

Record args := Args { targ_pid : Z; targ_tgid : Z }.

Record kvm_exit_timestamps := Stamps {
  exit_reason : Z; kvm_exit_timestamp : Z; sched_switch_timestamp : Z; sched_time : Z;
}.

Record kvm_exit_time := ExitTime {
  cumulative_time : Z; cumulative_sched_time : Z; kcount : Z;
}.

Record kvm_maps := KvmMaps {
  argmap : gmap Z args; start : gmap Z kvm_exit_timestamps; counts : gmap Z kvm_exit_time;
}.
Definition set_start m s := KvmMaps (argmap s) m (counts s).
Definition set_counts m s := KvmMaps (argmap s) (start s) m.

Definition filter (tgid pid : Z) (s : kvm_maps) : bool :=
  match array_lookup (Args 0 0) 4 (argmap s) 0 with
  | None => false
  | Some argp =>
      if negb (targ_tgid argp =? 0) && negb (u32 (targ_tgid argp) =? tgid) then true
      else negb (targ_pid argp =? 0) && negb (u32 (targ_pid argp) =? pid)
  end.

Definition handle__kvm_exit (c : bctx) (reason : Z) (s : kvm_maps) : kvm_maps :=
  let pid := c_pid c in
  if filter (c_tgid c) pid s then s
  else
    let s := match start s !! pid with
             | Some _ => s
             | None => set_start (map_update TABLE_ENTRIES BPF_NOEXIST pid (Stamps 0 0 0 0) (start s)).2 s
             end in
    match start s !! pid with
    | None => s
    | Some _ => set_start (<[pid := Stamps (u32 reason) (c_now c) 0 0]> (start s)) s
    end.

(** The fields of a row of [counts], in the order [handle__kvm_entry] adds to
    them. *)
Inductive kfield := FTime | FSched | FCount.
Definition get_field (f : kfield) (tm : kvm_exit_time) : Z :=
  match f with FTime => cumulative_time tm | FSched => cumulative_sched_time tm | FCount => kcount tm end.
Definition set_field (f : kfield) (v : Z) (tm : kvm_exit_time) : kvm_exit_time :=
  match f with
  | FTime => ExitTime v (cumulative_sched_time tm) (kcount tm)
  | FSched => ExitTime (cumulative_time tm) v (kcount tm)
  | FCount => ExitTime (cumulative_time tm) (cumulative_sched_time tm) v
  end.
Definition next_field (f : kfield) : option kfield :=
  match f with FTime => Some FSched | FSched => Some FCount | FCount => None end.

(** A [handle__kvm_entry] that holds its pointers [ts] and [tm] and has the
    fields from [j_field] on still to add to; [j_loaded] is what it has loaded
    of the first of them. [ts] does not change while its thread is in here. *)
Record job := Job { j_reason : Z; j_time : Z; j_sched : Z; j_field : kfield; j_loaded : option Z }.

Definition job_adds (j : job) : Z :=
  match j_field j with FTime => j_time j | FSched => j_sched j | FCount => 1 end.

(** [handle__kvm_entry] up to its first addition. *)
Definition handle__kvm_entry (c : bctx) (s : kvm_maps) : kvm_maps * option job :=
  let pid := c_pid c in
  if filter (c_tgid c) pid s then (s, None)
  else
    match start s !! pid with
    | None => (s, None)
    | Some ts =>
        let reason := exit_reason ts in
        let s := match counts s !! reason with
                 | Some _ => s
                 | None => set_counts (map_update TABLE_ENTRIES BPF_NOEXIST reason
                                         (ExitTime 0 0 0) (counts s)).2 s
                 end in
        match counts s !! reason with
        | None => (s, None)
        | Some _ => (s, Some (Job reason (u64 (c_now c - kvm_exit_timestamp ts)) (sched_time ts) FTime None))
        end
    end.

(** The next load or store of a [handle__kvm_entry]. *)
Definition kvm_entry_access (j : job) (s : kvm_maps) : kvm_maps * option job :=
  match j_loaded j with
  | None =>
      (s, Some (Job (j_reason j) (j_time j) (j_sched j) (j_field j)
                  (Some (default 0 (get_field (j_field j) <$> counts s !! j_reason j)))))
  | Some v =>
      (set_counts (alter (set_field (j_field j) (u64 (v + job_adds j))) (j_reason j) (counts s)) s,
       f ← next_field (j_field j); Some (Job (j_reason j) (j_time j) (j_sched j) f None))
  end.

Definition handle__sched_switch (c : bctx) (s : kvm_maps) : kvm_maps :=
  let pid := c_pid c in
  if filter (c_tgid c) pid s then s
  else
    match start s !! pid with
    | None => s
    | Some ts => set_start (<[pid := Stamps (exit_reason ts) (kvm_exit_timestamp ts) (c_now c)
                                       (sched_time ts)]> (start s)) s
    end.

Definition finish_task_switch (c : bctx) (s : kvm_maps) : kvm_maps :=
  let pid := c_pid c in
  if filter (c_tgid c) pid s then s
  else
    match start s !! pid with
    | None => s
    | Some ts =>
        if negb (sched_switch_timestamp ts =? 0) then
          set_start (<[pid := Stamps (exit_reason ts) (kvm_exit_timestamp ts)
            (sched_switch_timestamp ts)
            (u64 (sched_time ts + (c_now c - sched_switch_timestamp ts)))]> (start s)) s
        else s
    end.

(** The maps and the [handle__kvm_entry]s under way, by thread. *)
Record kvm_sys := KvmSys { maps : kvm_maps; jobs : gmap Z job }.

(** [Access] is the next load or store of the thread's [handle__kvm_entry]. *)
Inductive kvm_in :=
  | Exit (c : bctx) (reason : Z) | Entry (c : bctx) | SwitchOut (c : bctx) | SwitchIn (c : bctx)
  | Access (c : bctx).

Definition set_job (pid : Z) (r : kvm_maps * option job) (s : kvm_sys) : kvm_sys :=
  KvmSys r.1 (match r.2 with Some j => <[pid := j]> (jobs s) | None => delete pid (jobs s) end).

Definition kvm_step (i : kvm_in) (s : kvm_sys) : kvm_sys :=
  match i with
  | Exit c r => KvmSys (handle__kvm_exit c r (maps s)) (jobs s)
  | Entry c => set_job (c_pid c) (handle__kvm_entry c (maps s)) s
  | SwitchOut c => KvmSys (handle__sched_switch c (maps s)) (jobs s)
  | SwitchIn c => KvmSys (finish_task_switch c (maps s)) (jobs s)
  | Access c =>
      match jobs s !! c_pid c with
      | Some j => set_job (c_pid c) (kvm_entry_access j (maps s)) s
      | None => s
      end
  end.

#[global] Instance kvm_tracer : Tracer kvm_sys kvm_in Empty_set := λ i s, (kvm_step i s, []).
#[global] Instance kvm_ctx : HasCtx kvm_in := λ i,
  match i with Exit c _ | Entry c | SwitchOut c | SwitchIn c | Access c => c end.

(** ** The specification *)

(** An open exit: reason, time, last switch out, time switched out so far. *)
Record open_exit := Open { o_reason : Z; o_time : Z; o_switch : option Z; o_sched : Z }.

(** An account line: reason, length, switched-out part. *)
Record line := Line { l_reason : Z; l_time : Z; l_sched : Z }.

Section spec.
Context (a : args).

Definition watched (c : bctx) : bool :=
  ((targ_tgid a =? 0) || (u32 (targ_tgid a) =? c_tgid c))
  && ((targ_pid a =? 0) || (u32 (targ_pid a) =? c_pid c)).

Definition kvm_spec_step (i : kvm_in) (m : gmap Z open_exit) : gmap Z open_exit * list line :=
  let c := ctx_of i in
  if watched c then
    match i, m !! c_pid c with
    | Exit _ r, _ => (<[c_pid c := Open (u32 r) (c_now c) None 0]> m, [])
    | Entry _, Some o => (m, [Line (o_reason o) (c_now c - o_time o) (o_sched o)])
    | SwitchOut _, Some o =>
        (<[c_pid c := Open (o_reason o) (o_time o) (Some (c_now c)) (o_sched o)]> m, [])
    | SwitchIn _, Some (Open r t (Some w) d) =>
        (<[c_pid c := Open r t (Some w) (d + (c_now c - w))]> m, [])
    | _, _ => (m, [])
    end
  else (m, []).

Fixpoint kvm_spec (tr : list kvm_in) (m : gmap Z open_exit) : list line :=
  match tr with
  | [] => []
  | i :: tr' => (kvm_spec_step i m).2 ++ kvm_spec tr' (kvm_spec_step i m).1
  end.

(** The account of a reason in a list of lines. *)
Definition account (ls : list line) (r : Z) : option kvm_exit_time :=
  match base.filter (λ l, l_reason l = r) ls with
  | [] => None
  | ls' => Some (ExitTime (u64 (foldr (λ l n, l_time l + n) 0 ls'))
                   (u64 (foldr (λ l n, l_sched l + n) 0 ls')) (u64 (zlen ls')))
  end.

(** How the table represents an open exit. *)
Definition rep (ts : option kvm_exit_timestamps) (o : option open_exit) : Prop :=
  match ts, o with
  | None, None => True
  | Some ts, Some o =>
      exit_reason ts = o_reason o ∧ kvm_exit_timestamp ts = o_time o
      ∧ sched_switch_timestamp ts = default 0 (o_switch o) ∧ sched_time ts = u64 (o_sched o)
      ∧ match o_switch o with Some w => w ≠ 0 | None => True end
  | _, _ => False
  end.

(** The part of the simulation that concerns the threads. *)
Record kvm_sim (P R : gset Z) (s : kvm_maps) (m : gmap Z open_exit) : Prop := {
  ks_args : array_lookup (Args 0 0) 4 (argmap s) 0 = Some a;
  ks_rep pid : rep (start s !! pid) (m !! pid);
  ks_pids : dom (start s) ⊆ P;
  ks_reasons pid o : m !! pid = Some o → o_reason o ∈ R;
}.

(** The row [old] with all of a job's additions, and with the ones it has made. *)
Definition added (j : job) (old : kvm_exit_time) : kvm_exit_time :=
  ExitTime (u64 (cumulative_time old + j_time j)) (u64 (cumulative_sched_time old + j_sched j))
    (u64 (kcount old + 1)).
Definition progress (j : job) (old : kvm_exit_time) : kvm_exit_time :=
  match j_field j with
  | FTime => old
  | FSched => ExitTime (cumulative_time (added j old)) (cumulative_sched_time old) (kcount old)
  | FCount => ExitTime (cumulative_time (added j old)) (cumulative_sched_time (added j old)) (kcount old)
  end.

(** No job has the reason. *)
Definition idle (r : Z) (js : gmap Z job) : Prop := map_Forall (λ _ j, j_reason j ≠ r) js.

(** The part that concerns the accounts: the row of a reason without a job is
    its account; a job is the only one of its reason, and lacks the additions
    still to make. *)
Record acc_sim (R : gset Z) (cs : gmap Z kvm_exit_time) (js : gmap Z job) (ls : list line) : Prop := {
  as_idle r : idle r js → cs !! r = account ls r;
  as_alone p p' j j' : js !! p = Some j → js !! p' = Some j' → j_reason j = j_reason j' → p = p';
  as_busy p j : js !! p = Some j → ∃ old,
    account ls (j_reason j) = Some (added j old) ∧ cs !! j_reason j = Some (progress j old)
    ∧ (j_loaded j = None ∨ j_loaded j = Some (get_field (j_field j) old));
  as_rdom : dom cs ⊆ R;
}.

Lemma filter_watched c s :
  array_lookup (Args 0 0) 4 (argmap s) 0 = Some a →
  filter (c_tgid c) (c_pid c) s = negb (watched c).
Proof.
  intros Ha. unfold filter, watched. rewrite Ha.
  destruct (targ_tgid a =? 0), (u32 (targ_tgid a) =? c_tgid c), (targ_pid a =? 0),
    (u32 (targ_pid a) =? c_pid c); done.
Qed.

Lemma foldr_line_app (f : line → Z) l1 l2 :
  foldr (λ l n, f l + n) 0 (l1 ++ l2)
  = foldr (λ l n, f l + n) 0 l1 + foldr (λ l n, f l + n) 0 l2.
Proof. induction l1 as [|l l1 IH]; simpl; [done|]. lia. Qed.

(** One more line in the accounts. *)
Lemma account_snoc ls l r :
  account (ls ++ [l]) r
  = if decide (l_reason l = r) then
      let old := default (ExitTime 0 0 0) (account ls r) in
      Some (ExitTime (u64 (cumulative_time old + l_time l))
              (u64 (cumulative_sched_time old + l_sched l)) (u64 (kcount old + 1)))
    else account ls r.
Proof.
  unfold account. rewrite filter_app, filter_cons, filter_nil.
  destruct (decide (l_reason l = r)) as [He|He]; [|by rewrite app_nil_r].
  destruct (base.filter _ ls) as [|x xs] eqn:Hf; simpl.
  - by rewrite Z.add_0_r, Z.add_0_r.
  - rewrite !foldr_line_app. simpl. rewrite !Z.add_0_r.
    unfold wrap. rewrite !Zplus_mod_idemp_l, !zlen_cons, zlen_app.
    change (zlen [l]) with 1. f_equal. f_equal; f_equal; lia.
Qed.

Lemma kvm_sim_write P R s m pid ts o :
  kvm_sim P R s m → pid ∈ P → o_reason o ∈ R → rep (Some ts) (Some o) →
  kvm_sim P R (set_start (<[pid := ts]> (start s)) s) (<[pid := o]> m).
Proof.
  intros [Ha Hr Hp Hre] HP HR Hrep. split; simpl; try done.
  - intros k. destruct (decide (k = pid)) as [->|Hne];
      [by rewrite !lookup_insert_eq|by rewrite !lookup_insert_ne].
  - rewrite dom_insert. set_solver.
  - intros k x. destruct (decide (k = pid)) as [->|Hne].
    + rewrite lookup_insert_eq. by intros [= <-].
    + rewrite lookup_insert_ne by done. apply Hre.
Qed.

Lemma kvm_exit_sim P R s m c r :
  kvm_sim P R s m → (size P ≤ TABLE_ENTRIES)%nat → c_pid c ∈ P → u32 r ∈ R → watched c = true →
  kvm_sim P R (handle__kvm_exit c r s) (<[c_pid c := Open (u32 r) (c_now c) None 0]> m)
  ∧ counts (handle__kvm_exit c r s) = counts s.
Proof.
  intros Hsim HP Hin HR Hw. pose proof Hsim as [Ha Hr Hp _]. unfold handle__kvm_exit.
  rewrite (filter_watched c s Ha), Hw. cbn [negb].
  assert (rep (Some (Stamps (u32 r) (c_now c) 0 0)) (Some (Open (u32 r) (c_now c) None 0))) as Hrep
    by done.
  destruct (start s !! c_pid c) as [ts|] eqn:Hs.
  - rewrite Hs. split; [|done]. by apply kvm_sim_write.
  - unfold map_update. rewrite Hs. cbn [Z.eqb BPF_NOEXIST BPF_EXIST Pos.eqb].
    rewrite (proj2 (Nat.leb_gt _ _)) by (by eapply map_room_set). simpl.
    rewrite lookup_insert_eq. unfold set_start. simpl. rewrite insert_insert_eq.
    split; [|done]. by apply (kvm_sim_write P R s).
Qed.

(** An entry finds or makes the row of its reason, which stays as it was, and
    begins its additions. *)
Lemma kvm_entry_sim P R s m c o :
  kvm_sim P R s m → dom (counts s) ⊆ R → (size R ≤ TABLE_ENTRIES)%nat → watched c = true →
  m !! c_pid c = Some o →
  ∃ s' x, handle__kvm_entry c s = (s', Some (Job (o_reason o) (u64 (c_now c - o_time o)) (u64 (o_sched o)) FTime None))
    ∧ kvm_sim P R s' m ∧ counts s' = <[o_reason o := x]> (counts s)
    ∧ x = default (ExitTime 0 0 0) (counts s !! o_reason o).
Proof.
  intros Hsim Hd HR Hw Hm. pose proof Hsim as [Ha Hr Hp Hre]. unfold handle__kvm_entry.
  rewrite (filter_watched c s Ha), Hw. cbn [negb].
  specialize (Hr (c_pid c)) as Hrep. rewrite Hm in Hrep.
  destruct (start s !! c_pid c) as [ts|]; [|done]. destruct Hrep as (H1 & H2 & _ & H4 & _).
  specialize (Hre _ _ Hm) as HRo. rewrite H1, H2, H4.
  destruct (counts s !! o_reason o) as [tm|] eqn:Hcs.
  - rewrite Hcs. exists s, tm. split_and!; try done. by rewrite insert_id.
  - unfold map_update. rewrite Hcs. cbn [Z.eqb BPF_NOEXIST BPF_EXIST Pos.eqb].
    rewrite (proj2 (Nat.leb_gt _ _)) by (by eapply map_room_set). simpl.
    rewrite lookup_insert_eq. by eexists _, _.
Qed.

Lemma acc_begin R cs js ls p r now t d :
  acc_sim R cs js ls → r ∈ R → js !! p = None → idle r js →
  acc_sim R (<[r := default (ExitTime 0 0 0) (cs !! r)]> cs)
    (<[p := Job r (u64 (now - t)) (u64 d) FTime None]> js) (ls ++ [Line r (now - t) d]).
Proof.
  intros [Hi Ha Hb Hd] HR Hp Hr. pose proof (Hi r Hr) as Hrow.
  split.
  - intros k [Hk Hk']%map_Forall_insert; [|done]. simpl in Hk. rewrite account_snoc. simpl.
    rewrite decide_False, lookup_insert_ne by done. by apply Hi.
  - intros q q' j j' Hq Hq' He. apply lookup_insert_Some in Hq, Hq'.
    destruct Hq as [[<- <-]|[Hq Hj]], Hq' as [[<- <-]|[Hq' Hj']]; [done| | |by eapply Ha]; simpl in He.
    + by destruct (Hr q' j' Hj').
    + by destruct (Hr q j Hj).
  - intros q j [[<- <-]|[Hq Hj]]%lookup_insert_Some; simpl.
    + exists (default (ExitTime 0 0 0) (cs !! r)). rewrite account_snoc, lookup_insert_eq, Hrow. simpl.
      rewrite decide_True by done. split_and!; [|done|by left].
      unfold added. simpl. do 2 f_equal; unfold wrap; by rewrite Zplus_mod_idemp_r.
    + pose proof (Hr q j Hj) as Hne. simpl in Hne. destruct (Hb q j Hj) as (old & H1 & H2 & H3).
      exists old. rewrite account_snoc, lookup_insert_ne by done. simpl.
      by rewrite decide_False by congruence.
  - rewrite dom_insert. set_solver.
Qed.

(** A job whose row or state changes, with the other reasons as they were. *)
Lemma acc_keep R cs cs' js ls p j j' old :
  acc_sim R cs js ls → js !! p = Some j → j_reason j' = j_reason j →
  account ls (j_reason j) = Some (added j' old) →
  (∀ k, k ≠ j_reason j → cs' !! k = cs !! k) → cs' !! j_reason j = Some (progress j' old) →
  (j_loaded j' = None ∨ j_loaded j' = Some (get_field (j_field j') old)) →
  acc_sim R cs' (<[p := j']> js) ls.
Proof.
  intros [Hi Ha Hb Hd] Hj Hr Hacc Hne Hrow Hl. split.
  - intros k Hk. pose proof (Hk p _ (lookup_insert_eq _ _ _)) as Hk'. simpl in Hk'.
    rewrite Hne by congruence. apply Hi. intros q x Hq. destruct (decide (q = p)) as [->|Hqp].
    + rewrite Hj in Hq. injection Hq as <-. congruence.
    + apply (Hk q x). by rewrite lookup_insert_ne.
  - intros q q' x x' Hq Hq' He. apply lookup_insert_Some in Hq, Hq'.
    destruct Hq as [[<- <-]|[Hq Hx]], Hq' as [[<- <-]|[Hq' Hx']]; [done| | |by eapply Ha].
    + eapply Ha; [exact Hj|exact Hx'|congruence].
    + eapply Ha; [exact Hx|exact Hj|congruence].
  - intros q x [[<- <-]|[Hq Hx]]%lookup_insert_Some; [exists old; by rewrite Hr|].
    destruct (Hb q x Hx) as (o & H1 & H2 & H3). exists o. split; [done|]. split; [|done].
    rewrite Hne; [done|]. intros He. apply Hq. by eapply Ha.
  - intros k Hk. destruct (decide (k = j_reason j)) as [->|Hk'].
    + destruct (Hb p j Hj) as (o & _ & Ho & _). apply Hd, elem_of_dom. by eexists.
    + apply Hd. apply elem_of_dom. apply elem_of_dom in Hk. by rewrite <-Hne.
Qed.

(** A job that is done. *)
Lemma acc_finish R cs cs' js ls p j :
  acc_sim R cs js ls → js !! p = Some j →
  (∀ k, k ≠ j_reason j → cs' !! k = cs !! k) → cs' !! j_reason j = account ls (j_reason j) →
  acc_sim R cs' (delete p js) ls.
Proof.
  intros [Hi Ha Hb Hd] Hj Hne Hrow. split.
  - intros k Hk. destruct (decide (k = j_reason j)) as [->|Hk']; [done|].
    rewrite Hne by done. apply Hi. intros q x Hq. destruct (decide (q = p)) as [->|Hqp].
    + rewrite Hj in Hq. injection Hq as <-. done.
    + apply (Hk q x). by rewrite lookup_delete_ne.
  - intros q q' x x' [_ Hq]%lookup_delete_Some [_ Hq']%lookup_delete_Some. by apply Ha.
  - intros q x [Hq Hx]%lookup_delete_Some. destruct (Hb q x Hx) as (o & H1 & H2 & H3).
    exists o. split; [done|]. split; [|done]. rewrite Hne; [done|].
    intros He. apply Hq. by eapply Ha.
  - intros k Hk. destruct (decide (k = j_reason j)) as [->|Hk'].
    + destruct (Hb p j Hj) as (o & _ & Ho & _). apply Hd, elem_of_dom. by eexists.
    + apply Hd. apply elem_of_dom. apply elem_of_dom in Hk. by rewrite <-Hne.
Qed.

Lemma acc_access R s js ls p j :
  acc_sim R (counts s) js ls → js !! p = Some j →
  acc_sim R (counts (kvm_entry_access j s).1)
    (match (kvm_entry_access j s).2 with Some j' => <[p := j']> js | None => delete p js end) ls
  ∧ argmap (kvm_entry_access j s).1 = argmap s ∧ start (kvm_entry_access j s).1 = start s.
Proof.
  intros Hs Hj. destruct (as_busy _ _ _ _ Hs p j Hj) as (old & Hacc & Hrow & Hl).
  destruct j as [r t d f l]. unfold kvm_entry_access. simpl in *.
  destruct Hl as [->| ->]; simpl.
  - split; [|done]. eapply acc_keep; [exact Hs|exact Hj|done|exact Hacc|done|exact Hrow|].
    right. rewrite Hrow. by destruct f.
  - assert (∀ k v, k ≠ r → alter v r (counts s) !! k = counts s !! k) as Hne.
    { intros k v Hk. by rewrite lookup_alter_ne. }
    split; [|by destruct f]. destruct f; simpl.
    + eapply acc_keep; [exact Hs|exact Hj|done|exact Hacc|intros; by apply Hne| |by left].
      simpl. by rewrite lookup_alter_eq, Hrow.
    + eapply acc_keep; [exact Hs|exact Hj|done|exact Hacc|intros; by apply Hne| |by left].
      simpl. by rewrite lookup_alter_eq, Hrow.
    + eapply acc_finish; [exact Hs|exact Hj|intros; by apply Hne|]. simpl.
      by rewrite lookup_alter_eq, Hrow, Hacc.
Qed.

(** The inputs of a trace over the threads [P] and the reasons [R]. *)
Definition kvm_input (P R : gset Z) (i : kvm_in) : Prop :=
  0 < c_now (ctx_of i) ∧ c_pid (ctx_of i) ∈ P
  ∧ match i with Exit _ r => u32 r ∈ R | _ => True end.

(** Along the trace, a thread inside [handle__kvm_entry] runs no other program,
    and no two threads are inside it for the same reason. *)
Definition apart_at (i : kvm_in) (s : kvm_sys) : Prop :=
  match i with
  | Access _ => True
  | Entry c => jobs s !! c_pid c = None ∧
      match start (maps s) !! c_pid c with Some ts => idle (exit_reason ts) (jobs s) | None => True end
  | Exit c _ | SwitchOut c | SwitchIn c => jobs s !! c_pid c = None
  end.
Fixpoint apart (tr : list kvm_in) (s : kvm_sys) : Prop :=
  match tr with [] => True | i :: tr' => apart_at i s ∧ apart tr' (kvm_step i s) end.

#[global] Instance idle_dec r js : Decision (idle r js).
Proof. unfold idle. apply _. Defined.
#[global] Instance apart_at_dec i s : Decision (apart_at i s).
Proof. unfold apart_at. repeat case_match; apply _. Defined.
#[global] Instance apart_dec tr s : Decision (apart tr s).
Proof. revert s. induction tr; intros s; simpl; apply _. Defined.

Lemma kvm_step_sim P R s m ls i :
  kvm_sim P R (maps s) m → acc_sim R (counts (maps s)) (jobs s) ls →
  (size P ≤ TABLE_ENTRIES)%nat → (size R ≤ TABLE_ENTRIES)%nat → kvm_input P R i → apart_at i s →
  kvm_sim P R (maps (kvm_step i s)) (kvm_spec_step i m).1
  ∧ acc_sim R (counts (maps (kvm_step i s))) (jobs (kvm_step i s)) (ls ++ (kvm_spec_step i m).2).
Proof.
  destruct s as [s js]. simpl. intros Hsim Hacc HP HR (Hpos & Hin & Hreason) Hap.
  pose proof Hsim as [Ha Hr Hp Hre].
  assert (acc_sim R (counts s) js (ls ++ [])) as Hacc' by (by rewrite app_nil_r).
  unfold kvm_spec_step, kvm_step. specialize (Hr (c_pid (ctx_of i))) as Hrep.
  destruct i as [c r|c|c|c|c]; cbv [ctx_of kvm_ctx] in *; simpl in Hap |- *.
  5:{ assert (∀ A (x : A), (if watched c then x else x) = x) as Hif by (intros; by case_match).
      destruct (js !! c_pid c) as [j|] eqn:Hj; [|destruct (m !! c_pid c); by rewrite Hif].
      destruct (acc_access R s js _ (c_pid c) j Hacc' Hj) as (Hacc1 & H1 & H2).
      destruct (m !! c_pid c); rewrite Hif; split; try done; split; simpl; rewrite ?H1, ?H2; done. }
  all: destruct (watched c) eqn:Hw;
    [|cbv [handle__kvm_exit handle__kvm_entry handle__sched_switch finish_task_switch];
      rewrite (filter_watched c s Ha), Hw; simpl; try rewrite delete_id by tauto; done].
  - destruct (kvm_exit_sim P R s m c r) as [H1 H2]; try done. simpl. by rewrite H2.
  - destruct Hap as [Hfree Hidle]. destruct (m !! c_pid c) as [o|] eqn:Hm.
    + destruct (kvm_entry_sim P R s m c o) as (s' & x & -> & H1 & H2 & Hx); try done; [apply Hacc|].
      unfold set_job. simpl. split; [done|]. rewrite H2, Hx.
      destruct (start s !! c_pid c) as [ts|]; [|done]. destruct Hrep as (He & _).
      apply acc_begin; [done|exact (Hre _ _ Hm)|done|by rewrite <-He].
    + unfold handle__kvm_entry. rewrite (filter_watched c s Ha), Hw. simpl.
      destruct (start s !! c_pid c); [done|]. simpl. by rewrite delete_id.
  - unfold handle__sched_switch. rewrite (filter_watched c s Ha), Hw. simpl.
    destruct (m !! c_pid c) as [o|] eqn:Hm, (start s !! c_pid c) as [ts|]; try done.
    destruct Hrep as (H1 & H2 & _ & H4 & _). split; [|done].
    apply kvm_sim_write; [done|done|exact (Hre _ _ Hm)|]. simpl. split_and!; try done. lia.
  - unfold finish_task_switch. rewrite (filter_watched c s Ha), Hw. simpl.
    destruct (m !! c_pid c) as [[r t [w|] d]|] eqn:Hm, (start s !! c_pid c) as [ts|]; try done;
      destruct Hrep as (H1 & H2 & H3 & H4 & H5); simpl in H3; rewrite H3; [|done].
    rewrite (proj2 (Z.eqb_neq w 0)) by done. simpl. split; [|done].
    apply kvm_sim_write; [done|done|exact (Hre _ _ Hm)|]. simpl. split_and!; try done.
    rewrite H4. apply Zplus_mod_idemp_l.
Qed.

Lemma kvm_run_sim P R tr : ∀ s m ls,
  kvm_sim P R (maps s) m → acc_sim R (counts (maps s)) (jobs s) ls →
  (size P ≤ TABLE_ENTRIES)%nat → (size R ≤ TABLE_ENTRIES)%nat →
  Forall (kvm_input P R) tr → apart tr s →
  acc_sim R (counts (maps (run tr s).1)) (jobs (run tr s).1) (ls ++ kvm_spec tr m).
Proof.
  induction tr as [|i tr IH]; intros s m ls Hsim Hacc HP HR Hin Hap.
  - simpl. by rewrite app_nil_r.
  - apply Forall_cons in Hin as [Hi Hin]. destruct Hap as [Hai Hap].
    destruct (kvm_step_sim P R s m ls i Hsim Hacc HP HR Hi Hai) as [Hsim' Hacc'].
    rewrite run_cons. simpl. rewrite app_assoc. by apply IH.
Qed.
End spec.

Definition kvm_maps0 (a : args) : kvm_sys := KvmSys (KvmMaps {[0 := a]} ∅ ∅) ∅.

(** C22: the accounts of [kvmexittime]. For every interleaving of the exits,
    entries and switches of up to 10240 threads and reasons, down to the single
    loads and stores with which [handle__kvm_entry] adds to the shared table,
    in which no two entries for the same reason are inside that program at
    once: the account of a reason, when no entry for it is under way, holds the
    total length, the total time switched out and the number (modulo 2^64) of
    the finished exits of the watched threads with that reason, and there is no
    account for a reason that did not occur. Without the condition updates can
    be lost ([kvmexit_lost_update]). *)
Theorem kvmexit_accounts a tr (P R : gset Z) r :
  Forall (kvm_input P R) tr → (size P ≤ TABLE_ENTRIES)%nat → (size R ≤ TABLE_ENTRIES)%nat →
  apart tr (kvm_maps0 a) → idle r (jobs (run tr (kvm_maps0 a)).1) →
  counts (maps (run tr (kvm_maps0 a)).1) !! r = account (kvm_spec a tr ∅) r.
Proof.
  intros Hin HP HR Hap Hidle. refine (as_idle _ _ _ _ (kvm_run_sim a P R tr _ ∅ [] _ _ _ _ _ _) r Hidle); done.
Qed.

Definition k_ctx (pid now : Z) : bctx := BCtx now 0 (2 ^ 32 * 5 + pid) "qemu" 0.

(** A whole [handle__kvm_entry] with no other CPU in between. *)
Definition entry_alone (pid now : Z) : list kvm_in := Entry (k_ctx pid now) :: replicate 6 (Access (k_ctx pid now)).

(** One exit with a switch, and one of another thread whose entry overlaps an
    entry for another reason. *)
Definition k_trace : list kvm_in :=
  [Exit (k_ctx 6 100) 48; SwitchOut (k_ctx 6 120); SwitchIn (k_ctx 6 150)] ++ entry_alone 6 200
  ++ [Exit (k_ctx 6 300) 48; Exit (k_ctx 7 305) 12; Entry (k_ctx 7 308)] ++ entry_alone 6 310.

Lemma kvmexit_accounts_witness :
  counts (maps (run k_trace (kvm_maps0 (Args 0 5))).1) !! 48 = Some (ExitTime 110 30 2).
Proof.
  rewrite (kvmexit_accounts (Args 0 5) k_trace {[6; 7]} {[48; 12]}); [reflexivity| | | | |].
  - repeat constructor; vm_compute; try done.
  - unfold TABLE_ENTRIES. apply Nat2Z.inj_le. rewrite Z2Nat.id by lia. vm_compute. congruence.
  - unfold TABLE_ENTRIES. apply Nat2Z.inj_le. rewrite Z2Nat.id by lia. vm_compute. congruence.
  - apply (bool_decide_unpack _). vm_compute. exact I.
  - apply (bool_decide_unpack _). vm_compute. exact I.
Defined.

(** Updates can be lost: when two threads leave the guest for the same reason
    and their entries' loads and stores interleave, the row has one exit of the
    two and the time of one of them. *)
Theorem kvmexit_lost_update :
  counts (maps (run ([Exit (k_ctx 6 100) 48; Exit (k_ctx 7 100) 48; Entry (k_ctx 6 200); Entry (k_ctx 7 250)]
    ++ concat (replicate 6 [Access (k_ctx 6 200); Access (k_ctx 7 250)])) (kvm_maps0 (Args 0 5))).1) !! 48
  = Some (ExitTime 150 0 1).
Proof. vm_compute. reflexivity. Qed.
