(* ===== verification/SyscallSlow.v ===== *)
(** * SyscallSlow: the detector of slow system calls

    The BPF programs of [detect/generic/syscall_slow/bpf/syscall_slow.bpf.c].
    Entering a system call records the task's clocks; while it is inside, each
    switch in adds the time since the switch out to [itime] (the task could
    still run) or [vtime] (it slept); the exit outputs an event when the call
    took longer than the threshold. Calls can be filtered by thread, by name
    and by number. *)

From S2P Require Import Prelude Bpf.

Definition ENTER_ENTRIES : nat := Z.to_nat 10240.
Definition TASK_RUNNING : Z := 0.

(** One step of the comparison of [strequal]; names are arrays of 16 bytes. *)
Fixpoint strequal_loop (n : nat) (src dst : list Z) : bool :=
  match n with
  | O => true
  | S n' =>
      let c1 := u8 (hd 0 src) in
      let c2 := u8 (hd 0 dst) in
      if (c1 =? 0) || (c2 =? 0) then c1 =? c2
      else if negb (c1 =? c2) then false
      else strequal_loop n' (tl src) (tl dst)
  end.

Definition strequal (src dst : list Z) : bool := strequal_loop 16 src dst.

Record filter_t := FilterT { f_pid : Z; f_size : Z; f_comm : list Z }.
Record arg_info := ArgInfo { arg_pid : Z; arg_thresh : Z; arg_filter : filter_t }.
Definition arg_info0 : arg_info := ArgInfo 0 0 (FilterT 0 0 []).

(** The clocks and counters of a task the programs read. *)
Record task_stat := TaskStat { ts_exec : Z; ts_stime : Z; ts_nvcsw : Z; ts_nivcsw : Z }.

Record enter_info := EnterInfo {
  csw_begin : Z; enter_begin : Z; prev_state : Z; itime : Z; vtime : Z;
  e_stat : task_stat;    (* exec_time, stime, nvcsw and nivcsw *)
  e_ret : Z;
}.

Record event := Event {
  ev_ret : Z; ev_pid : Z; ev_sysid : Z; ev_delay : Z;
  ev_nvcsw : Z; ev_nivcsw : Z; ev_realtime : Z; ev_stime : Z; ev_itime : Z; ev_vtime : Z;
  ev_comm : list Z;
}.

Record sc_maps := ScMaps {
  arg_map : gmap Z arg_info; enter_map : gmap Z enter_info; sysnr_map : gmap Z Z;
}.
Definition set_enter m s := ScMaps (arg_map s) m (sysnr_map s).

Definition syscall_exclude (id : Z) (s : sc_maps) : bool :=
  match sysnr_map s !! i32 id with Some v => negb (v =? -1) | None => false end.

(** The fields of [sched_switch] the program reads. *)
Record switch_args := SwitchArgs { sw_prev_pid : Z; sw_prev_state : Z; sw_next_pid : Z }.

Definition handle__sched_switch (c : bctx) (x : switch_args) (s : sc_maps) : sc_maps * list event :=
  let prev_pid := u32 (sw_prev_pid x) in
  let pid := u32 (sw_next_pid x) in
  let now := c_now c in
  let s := match enter_map s !! prev_pid with
           | Some e => set_enter (<[prev_pid := EnterInfo now (enter_begin e) (sw_prev_state x)
                         (itime e) (vtime e) (e_stat e) (u32 (c_stackid c))]> (enter_map s)) s
           | None => s
           end in
  match enter_map s !! pid with
  | Some e =>
      let d := now - csw_begin e in
      (set_enter (<[pid :=
         if prev_state e =? TASK_RUNNING
         then EnterInfo (csw_begin e) (enter_begin e) (prev_state e) (u64 (itime e + d)) (vtime e)
                (e_stat e) (e_ret e)
         else EnterInfo (csw_begin e) (enter_begin e) (prev_state e) (itime e) (u64 (vtime e + d))
                (e_stat e) (e_ret e)]> (enter_map s)) s, [])
  | None => (s, [])
  end.

(** The test by thread and name that both programs make. *)
Definition filtered_out (f : filter_t) (pid : Z) (comm : list Z) : bool :=
  if negb (f_pid f =? 0) || negb (f_size f =? 0)
  then negb (f_pid f =? pid) && negb (strequal comm (f_comm f))
  else false.

Definition handle_raw_sys_enter (c : bctx) (comm : list Z) (t : task_stat) (id : Z) (s : sc_maps)
    : sc_maps * list event :=
  let pid := c_pid c in
  match array_lookup arg_info0 2 (arg_map s) 0 with
  | None => (s, [])
  | Some argp =>
      if filtered_out (arg_filter argp) pid comm then (s, [])
      else if syscall_exclude id s then (s, [])
      else
        match enter_map s !! pid with
        | Some _ => (s, [])
        | None => (set_enter (map_update ENTER_ENTRIES BPF_ANY pid
                     (EnterInfo 0 (c_now c) 0 0 0 t 0) (enter_map s)).2 s, [])
        end
  end.

Definition handle_raw_sys_exit (c : bctx) (comm : list Z) (t : task_stat) (id : Z) (s : sc_maps)
    : sc_maps * list event :=
  let pid := c_pid c in
  match array_lookup arg_info0 2 (arg_map s) 0 with
  | None => (s, [])
  | Some argp =>
      if filtered_out (arg_filter argp) pid comm then (s, [])
      else if syscall_exclude id s then (s, [])
      else
        match enter_map s !! pid with
        | None => (s, [])
        | Some e =>
            let delta := u64 (c_now c - enter_begin e) in
            (set_enter (delete pid (enter_map s)) s,
             if arg_thresh argp <? delta then
               [Event (e_ret e) pid id delta
                  (u64 (ts_nvcsw t - ts_nvcsw (e_stat e))) (u64 (ts_nivcsw t - ts_nivcsw (e_stat e)))
                  (u64 (ts_exec t - ts_exec (e_stat e))) (u64 (ts_stime t - ts_stime (e_stat e)))
                  (itime e) (vtime e) comm]
             else [])
        end
  end.

Inductive sc_in :=
  | Switch (c : bctx) (x : switch_args)
  | SysEnter (c : bctx) (comm : list Z) (t : task_stat) (id : Z)
  | SysExit (c : bctx) (comm : list Z) (t : task_stat) (id : Z).

#[global] Instance sc_tracer : Tracer sc_maps sc_in event := λ i,
  match i with
  | Switch c x => handle__sched_switch c x
  | SysEnter c comm t id => handle_raw_sys_enter c comm t id
  | SysExit c comm t id => handle_raw_sys_exit c comm t id
  end.

(** ** The comparison of names *)

Definition bytes (l : list Z) : Prop := Forall (λ x, 0 ≤ x < 256) l.

Lemma u8_byte x : 0 ≤ x < 256 → u8 x = x.
Proof. intros. apply wrap_small. eval_pow2. lia. Qed.

Lemma strequal_loop_spec n : ∀ src dst, bytes src → bytes dst →
  strequal_loop n src dst = true ↔ c_str n src = c_str n dst.
Proof.
  induction n as [|n IH]; intros src dst Hs Hd; [done|].
  destruct Hs as [|x src Hx Hs], Hd as [|y dst Hy Hd]; simpl; [done|..];
    rewrite ?u8_byte by done; change (u8 0) with 0; simpl; rewrite ?orb_true_r.
  - rewrite Z.eqb_sym. by case_match.
  - by case_match.
  - destruct (Z.eqb_spec x 0) as [->|Hx0], (Z.eqb_spec y 0) as [->|Hy0]; simpl; try done.
    + by destruct y.
    + by rewrite (proj2 (Z.eqb_neq x 0)).
    + destruct (Z.eqb_spec x y) as [->|]; simpl; [|split; congruence].
      rewrite IH by done. split; congruence.
Qed.

(** [strequal] is equality of the C strings in the 16 bytes of its
    arguments: an end of string in both at the same place, or 16 equal bytes. *)
Theorem syscall_slow_strequal src dst :
  bytes src → bytes dst → strequal src dst = true ↔ c_str 16 src = c_str 16 dst.
Proof. apply strequal_loop_spec. Qed.

Lemma syscall_slow_strequal_witness :
  strequal [98; 97; 0; 1] [98; 97; 0; 2] = true ∧ strequal [98; 97; 0] [98; 0] ≠ true.
Proof.
  split.
  - apply (syscall_slow_strequal [98; 97; 0; 1] [98; 97; 0; 2]);
      [repeat constructor; lia..|reflexivity].
  - intros H. apply (syscall_slow_strequal [98; 97; 0] [98; 0]) in H;
      [discriminate H|repeat constructor; lia..].
Defined.

(** ** The accounting of one call *)

(** An interval off the CPU: the contexts of the switch out and of the switch
    in, the state the task was switched out in, the tasks on the other side. *)
Record off_cpu := OffCpu { o_cout : bctx; o_cin : bctx; o_state : Z; o_next : Z; o_prev : Z; o_pstate : Z }.

Definition o_len (o : off_cpu) : Z := c_now (o_cin o) - c_now (o_cout o).
Definition o_out (pid : Z) (o : off_cpu) : sc_in :=
  Switch (o_cout o) (SwitchArgs pid (o_state o) (o_next o)).
Definition o_back (pid : Z) (o : off_cpu) : sc_in :=
  Switch (o_cin o) (SwitchArgs (o_prev o) (o_pstate o) pid).

(** An input of the other tasks. *)
Definition other (pid : Z) (i : sc_in) : Prop :=
  match i with
  | Switch _ x => u32 (sw_prev_pid x) ≠ pid ∧ u32 (sw_next_pid x) ≠ pid
  | SysEnter c _ _ _ | SysExit c _ _ _ => c_pid c ≠ pid
  end.

(** The inputs while the task is inside one call, with its intervals off the
    CPU; anything of the other tasks may come between. *)
Inductive inside (pid : Z) : list off_cpu → list sc_in → Prop :=
  | inside_nil : inside pid [] []
  | inside_other i l tr : other pid i → inside pid l tr → inside pid l (i :: tr)
  | inside_off o tr0 l tr :
      u32 (o_next o) ≠ pid → u32 (o_prev o) ≠ pid → Forall (other pid) tr0 → inside pid l tr →
      inside pid (o :: l) (o_out pid o :: tr0 ++ o_back pid o :: tr).

(** The time off the CPU in the states that satisfy [p]. *)
Definition off_sum (p : Z → bool) (l : list off_cpu) : Z :=
  foldr (λ o n, (if p (o_state o) then o_len o else 0) + n) 0 l.
Definition last_stack (l : list off_cpu) : Z := foldl (λ _ o, u32 (c_stackid (o_cout o))) 0 l.

(** What one interval does to the entry of the task. *)
Definition account (e : enter_info) (o : off_cpu) : enter_info :=
  let run := o_state o =? TASK_RUNNING in
  EnterInfo (c_now (o_cout o)) (enter_begin e) (o_state o)
    (if run then u64 (itime e + o_len o) else itime e)
    (if run then vtime e else u64 (vtime e + o_len o)) (e_stat e) (u32 (c_stackid (o_cout o))).

Definition same_args (s s' : sc_maps) : Prop := arg_map s' = arg_map s ∧ sysnr_map s' = sysnr_map s.

Lemma handle_other pid i s : other pid i →
  enter_map (handle i s).1 !! pid = enter_map s !! pid ∧ same_args s (handle i s).1 ∧
  Forall (λ ev, ev_pid ev ≠ pid) (handle i s).2.
Proof.
  destruct i as [c x|c comm t id|c comm t id]; simpl; unfold handle, sc_tracer.
  - intros [H1 H2]. unfold handle__sched_switch.
    repeat case_match; simpl; rewrite ?lookup_insert_ne by done; by repeat split.
  - intros H. unfold handle_raw_sys_enter. repeat case_match; try by repeat split.
    simpl. split; [|by repeat split]. unfold map_update. repeat case_match; try done.
    simpl. by rewrite lookup_insert_ne.
  - intros H. unfold handle_raw_sys_exit.
    repeat case_match; try (by repeat split); simpl; rewrite lookup_delete_ne by done;
      split; [done| |done|]; (split; [done|]); by repeat constructor.
Qed.

Lemma run_other pid tr s : Forall (other pid) tr →
  enter_map (run tr s).1 !! pid = enter_map s !! pid ∧ same_args s (run tr s).1 ∧
  Forall (λ ev, ev_pid ev ≠ pid) (run tr s).2.
Proof.
  intros Htr. revert s. induction Htr as [|i tr Hi _ IH]; intros s; [by repeat split|].
  rewrite run_cons. simpl. destruct (handle_other pid i s Hi) as (H1 & [H2 H2'] & H3).
  destruct (IH (handle i s).1) as (H4 & [H5 H5'] & H6).
  split; [congruence|]. split; [split; congruence|]. by apply Forall_app.
Qed.

Lemma handle_out pid o s e :
  u32 pid = pid → u32 (o_next o) ≠ pid → enter_map s !! pid = Some e →
  ∃ s', handle (o_out pid o) s = (s', []) ∧ same_args s s' ∧
    enter_map s' !! pid = Some (EnterInfo (c_now (o_cout o)) (enter_begin e) (o_state o)
      (itime e) (vtime e) (e_stat e) (u32 (c_stackid (o_cout o)))).
Proof.
  intros Hp Hn He. unfold handle, sc_tracer, o_out, handle__sched_switch. simpl.
  rewrite Hp, He. simpl. rewrite lookup_insert_ne by done.
  destruct (enter_map s !! u32 (o_next o)) as [e'|]; eexists; split_and!; try done; simpl;
    rewrite ?lookup_insert_ne by done; by rewrite lookup_insert_eq.
Qed.

Lemma handle_back pid o s e :
  u32 pid = pid → u32 (o_prev o) ≠ pid → enter_map s !! pid = Some e →
  ∃ s', handle (o_back pid o) s = (s', []) ∧ same_args s s' ∧
    enter_map s' !! pid = Some
      (let run := prev_state e =? TASK_RUNNING in
       let d := c_now (o_cin o) - csw_begin e in
       EnterInfo (csw_begin e) (enter_begin e) (prev_state e)
         (if run then u64 (itime e + d) else itime e)
         (if run then vtime e else u64 (vtime e + d)) (e_stat e) (e_ret e)).
Proof.
  intros Hp Hn He. unfold handle, sc_tracer, o_back, handle__sched_switch. simpl. rewrite Hp.
  destruct (enter_map s !! u32 (o_prev o)) as [e'|] eqn:He'; simpl;
    rewrite ?lookup_insert_ne by done; rewrite He; simpl;
    eexists; (split_and!; [done..|]); simpl; rewrite lookup_insert_eq; by case_match.
Qed.

Lemma run_inside pid l tr s e :
  u32 pid = pid → inside pid l tr → enter_map s !! pid = Some e →
  enter_map (run tr s).1 !! pid = Some (foldl account e l) ∧ same_args s (run tr s).1 ∧
  Forall (λ ev, ev_pid ev ≠ pid) (run tr s).2.
Proof.
  intros Hp Hin. revert s e.
  induction Hin as [|i l tr Hi _ IH|o tr0 l tr Hn Hv H0 _ IH]; intros s e He; [by repeat split|..].
  - rewrite run_cons. simpl. destruct (handle_other pid i s Hi) as (H1 & [H2 H2'] & H3).
    destruct (IH (handle i s).1 e) as (H4 & [H5 H5'] & H6); [congruence|].
    split; [done|]. split; [split; congruence|]. by apply Forall_app.
  - destruct (handle_out pid o s e) as (s1 & Hs1 & [A1 A1'] & He1); [done..|].
    destruct (run_other pid tr0 s1 H0) as (He2 & [A2 A2'] & Hev). rewrite He1 in He2.
    destruct (handle_back pid o _ _ Hp Hv He2) as (s3 & Hs3 & [A3 A3'] & He3). simpl in He3.
    rewrite run_cons, Hs1. simpl. rewrite run_app, run_cons, Hs3. simpl.
    destruct (IH s3 _ He3) as (He4 & [A4 A4'] & Hev4). split; [done|].
    split; [split; congruence|]. by apply Forall_app.
Qed.

Lemma foldl_account l e :
  u64 (itime e) = itime e → u64 (vtime e) = vtime e →
  let e' := foldl account e l in
  enter_begin e' = enter_begin e ∧ e_stat e' = e_stat e ∧
  itime e' = u64 (itime e + off_sum (λ st, st =? TASK_RUNNING) l) ∧
  vtime e' = u64 (vtime e + off_sum (λ st, negb (st =? TASK_RUNNING)) l) ∧
  e_ret e' = foldl (λ _ o, u32 (c_stackid (o_cout o))) (e_ret e) l.
Proof.
  revert e; induction l as [|o l IH]; intros e Hi Hv; simpl; [by rewrite !Z.add_0_r|].
  destruct (IH (account e o)) as (E1 & E2 & E3 & E4 & E5).
  1,2: simpl; case_match; by rewrite ?wrap_wrap.
  split_and!; [done..| | |done].
  - rewrite E3. simpl. case_match; [|done]. by rewrite wrap_add, Z.add_assoc.
  - rewrite E4. simpl. case_match; [done|]. by rewrite wrap_add, Z.add_assoc.
Qed.

(** C23: The account of one system call. The task [pid], not yet inside a call,
    enters call [id], is switched out and in any number of times while the
    other tasks do what they please, and leaves the call. When the filters let
    the call through and the table has room, exactly the calls longer than
    the threshold give one event of this task; it holds the length of the
    call, the time off the CPU while runnable, the time off the CPU while
    asleep, the stack of the last switch out and the growth of the task's
    counters. The task's entry is gone afterwards. *)
Theorem syscall_slow_accounts s c0 c1 comm t0 t1 id l tr pid argp :
  pid = c_pid c0 → c_pid c1 = pid →
  array_lookup arg_info0 2 (arg_map s) 0 = Some argp →
  filtered_out (arg_filter argp) pid comm = false → syscall_exclude id s = false →
  enter_map s !! pid = None → (size (enter_map s) < ENTER_ENTRIES)%nat →
  inside pid l tr →
  let r := run (SysEnter c0 comm t0 id :: tr ++ [SysExit c1 comm t1 id]) s in
  let delay := u64 (c_now c1 - c_now c0) in
  enter_map r.1 !! pid = None ∧
  filter (λ ev, ev_pid ev = pid) r.2 =
  if arg_thresh argp <? delay then
    [Event (last_stack l) pid id delay
       (u64 (ts_nvcsw t1 - ts_nvcsw t0)) (u64 (ts_nivcsw t1 - ts_nivcsw t0))
       (u64 (ts_exec t1 - ts_exec t0)) (u64 (ts_stime t1 - ts_stime t0))
       (u64 (off_sum (λ st, st =? TASK_RUNNING) l))
       (u64 (off_sum (λ st, negb (st =? TASK_RUNNING)) l)) comm]
  else [].
Proof.
  intros Hp0 Hp1 Ha Hf Hx Hn Hsz Hin. cbv zeta.
  set (e0 := EnterInfo 0 (c_now c0) 0 0 0 t0 0).
  set (s1 := set_enter (<[pid := e0]> (enter_map s)) s).
  assert (handle (SysEnter c0 comm t0 id) s = (s1, [])) as Hh.
  { unfold handle, sc_tracer, handle_raw_sys_enter.
    by rewrite <-Hp0, Ha, Hf, Hx, Hn, map_update_room by (by left). }
  destruct (run_inside pid l tr s1 e0) as (He & [A A'] & Hev);
    [rewrite Hp0; apply wrap_wrap|done|apply lookup_insert_eq|].
  destruct (foldl_account l e0) as (E1 & E2 & E3 & E4 & E5); [done..|].
  assert (syscall_exclude id (run tr s1).1 = false) as Hx'.
  { unfold syscall_exclude in *. by rewrite A'. }
  rewrite run_cons, Hh. simpl fst. simpl snd. rewrite run_snoc. simpl fst. simpl snd.
  rewrite filter_app, (filter_none _ (run tr s1).2) by done. simpl.
  change (handle (SysExit c1 comm t1 id)) with (handle_raw_sys_exit c1 comm t1 id).
  unfold handle_raw_sys_exit. rewrite A. change (arg_map s1) with (arg_map s).
  rewrite Hp1, Ha, Hf, Hx', He, E1. simpl. split; [apply lookup_delete_eq|].
  case_match; [|done]. rewrite filter_all by (by repeat constructor).
  by rewrite E2, E3, E4, E5.
Qed.

(** A 200 ns call, 30 ns asleep and 20 ns waiting for a CPU. *)
Definition sc_ctx (t pid : Z) : bctx := BCtx t 0 pid ""%string 7.
Definition sc_maps0 : sc_maps := ScMaps {[0 := ArgInfo 0 100 (FilterT 42 0 [])]} ∅ ∅.
Definition sc_offs : list off_cpu :=
  [OffCpu (sc_ctx 1010 42) (sc_ctx 1040 5) 1 5 5 0; OffCpu (sc_ctx 1100 42) (sc_ctx 1120 5) 0 5 5 0].

Lemma syscall_slow_accounts_witness :
  let tr := [o_out 42 (OffCpu (sc_ctx 1010 42) (sc_ctx 1040 5) 1 5 5 0);
             SysEnter (sc_ctx 1020 5) [] (TaskStat 0 0 0 0) 3;
             o_back 42 (OffCpu (sc_ctx 1010 42) (sc_ctx 1040 5) 1 5 5 0);
             o_out 42 (OffCpu (sc_ctx 1100 42) (sc_ctx 1120 5) 0 5 5 0);
             o_back 42 (OffCpu (sc_ctx 1100 42) (sc_ctx 1120 5) 0 5 5 0)] in
  let r := run (SysEnter (sc_ctx 1000 42) [] (TaskStat 10 5 2 1) 0 :: tr
                ++ [SysExit (sc_ctx 1200 42) [] (TaskStat 160 55 3 2) 0]) sc_maps0 in
  enter_map r.1 !! 42 = None ∧
  filter (λ ev, ev_pid ev = 42) r.2 = [Event 7 42 0 200 1 1 150 50 20 30 []].
Proof.
  intros tr r.
  apply (syscall_slow_accounts sc_maps0 (sc_ctx 1000 42) (sc_ctx 1200 42) [] (TaskStat 10 5 2 1)
           (TaskStat 160 55 3 2) 0 sc_offs tr 42 (ArgInfo 0 100 (FilterT 42 0 [])));
    [vm_compute; reflexivity..|vm_compute; lia|].
  apply (inside_off 42 (OffCpu (sc_ctx 1010 42) (sc_ctx 1040 5) 1 5 5 0) [_]);
    [discriminate..|repeat constructor; discriminate|].
  apply (inside_off 42 (OffCpu (sc_ctx 1100 42) (sc_ctx 1120 5) 0 5 5 0) []);
    [discriminate..|constructor|constructor].
Defined.
