(* ===== verification/CFloat.v ===== *)
(** * CFloat: doubles, floats and their conversions to integers

    Lua numbers are C doubles. The values are those of the Standard Library's
    [SpecFloat]; [cast_double] and [cast_float] are the C conversions (rounding
    to nearest even), [to_uint] and [to_int] truncate and are undefined when
    the result does not fit, [float_bits] and [bits_float] are the IEEE 754
    memory images. *)

From Stdlib Require Import SpecFloat.
From S2P Require Import Prelude.

Abbreviation double := spec_float.

(** [(double) z] for an integer. *)
Definition of_int (z : Z) : double := binary_normalize 53 1024 z 0 false.

(** A floating-point value rounded to another format. *)
Definition cast_to (prec emax : Z) (f : spec_float) : spec_float :=
  match f with S754_finite s m e => binary_round prec emax s m e | _ => f end.
Definition cast_float : double → spec_float := cast_to 24 128.
Definition cast_double : spec_float → double := cast_to 53 1024.

(** The integer part. *)
Definition trunc (f : spec_float) : option Z :=
  match f with
  | S754_zero _ => Some 0
  | S754_finite s m e =>
      let a := if 0 <=? e then Z.pos m * 2 ^ e else Z.pos m / 2 ^ (- e) in
      Some (if s then - a else a)
  | _ => None
  end.

Definition to_uint (w : Z) (f : double) : option Z :=
  z ← trunc f; if (0 <=? z) && (z <? 2 ^ w) then Some z else None.
Definition to_int (w : Z) (f : double) : option Z :=
  z ← trunc f; if (- 2 ^ (w - 1) <=? z) && (z <? 2 ^ (w - 1)) then Some z else None.

(** ** Memory images

    [mw] bits of mantissa and [ew] bits of exponent: 52 and 11 for a double,
    23 and 8 for a float. *)

Section images.
Context (mw ew : Z).

Definition f_prec : Z := mw + 1.
Definition f_emax : Z := 2 ^ (ew - 1).
Definition f_emin : Z := emin f_prec f_emax.

Definition join_bits (s : bool) (e m : Z) : Z := (Z.b2z s * 2 ^ ew + e) * 2 ^ mw + m.

Definition float_bits (f : spec_float) : Z :=
  match f with
  | S754_zero s => join_bits s 0 0
  | S754_infinity s => join_bits s (2 ^ ew - 1) 0
  | S754_nan => join_bits false (2 ^ ew - 1) (2 ^ (mw - 1))
  | S754_finite s m e =>
      if 2 ^ mw <=? Z.pos m then join_bits s (e - f_emin + 1) (Z.pos m - 2 ^ mw)
      else join_bits s 0 (Z.pos m)
  end.

Definition bits_float (z : Z) : spec_float :=
  let s := negb (z / 2 ^ (mw + ew) =? 0) in
  let e := (z / 2 ^ mw) mod 2 ^ ew in
  let m := z mod 2 ^ mw in
  if e =? 0 then match m with Z.pos p => S754_finite s p f_emin | _ => S754_zero s end
  else if e =? 2 ^ ew - 1 then (if m =? 0 then S754_infinity s else S754_nan)
  else match m + 2 ^ mw with Z.pos p => S754_finite s p (f_emin + e - 1) | _ => S754_nan end.
End images.

Abbreviation double_bits := (float_bits 52 11).
Abbreviation bits_double := (bits_float 52 11).
Abbreviation single_bits := (float_bits 23 8).
Abbreviation bits_single := (bits_float 23 8).

(** ** Exactness of small integers *)

Lemma digits2_pos_log2 p : Z.pos (digits2_pos p) = Z.log2 (Z.pos p) + 1.
Proof.
  induction p as [p IH|p IH|]; [..|done]; simpl digits2_pos; rewrite Pos2Z.inj_succ, IH.
  - rewrite (Pos2Z.inj_xI p), Z.log2_succ_double by lia. lia.
  - rewrite (Pos2Z.inj_xO p), Z.log2_double by lia. lia.
Qed.

Lemma digits2_pos_bounds p :
  2 ^ (Z.pos (digits2_pos p) - 1) ≤ Z.pos p < 2 ^ Z.pos (digits2_pos p).
Proof.
  rewrite digits2_pos_log2, Z.add_simpl_r. pose proof (Z.log2_spec (Z.pos p) ltac:(lia)). lia.
Qed.

Lemma digits2_pos_le p n : 0 ≤ n → Z.pos (digits2_pos p) ≤ n ↔ Z.pos p < 2 ^ n.
Proof.
  intros. rewrite digits2_pos_log2, (Z.log2_lt_pow2 (Z.pos p)) by lia. lia.
Qed.

Lemma iter_xO p d : Z.pos (Pos.iter xO p d) = Z.pos p * 2 ^ Z.pos d.
Proof.
  induction d as [|d IH] using Pos.peano_ind; [change (2 ^ 1) with 2; simpl; lia|].
  rewrite Pos.iter_succ, Pos2Z.inj_xO, IH, Pos2Z.inj_succ, Z.pow_succ_r by lia. lia.
Qed.

Lemma digits2_iter_xO p d :
  Z.pos (digits2_pos (Pos.iter xO p d)) = Z.pos (digits2_pos p) + Z.pos d.
Proof. rewrite !digits2_pos_log2, iter_xO, Z.log2_mul_pow2 by lia. lia. Qed.

Section rounding.
Context (prec emax : Z).

(** A canonical mantissa is not rounded. *)
Lemma binary_round_aux_id s m e :
  bounded prec emax m e = true →
  binary_round_aux prec emax s (Z.pos m) e loc_Exact = S754_finite s m e.
Proof.
  intros [Hc%Z.eqb_eq He]%andb_true_iff. unfold binary_round_aux, shr_fexp. simpl Zdigits2.
  rewrite Hc, Z.sub_diag. simpl. rewrite Hc, Z.sub_diag. simpl. by rewrite He.
Qed.

Lemma binary_round_id s m e :
  bounded prec emax m e = true → binary_round prec emax s m e = S754_finite s m e.
Proof.
  intros Hb. unfold binary_round, shl_align. pose proof Hb as [Hc%Z.eqb_eq _]%andb_true_iff.
  rewrite Hc, Z.sub_diag. by apply binary_round_aux_id.
Qed.
End rounding.

Lemma of_int_pos s m :
  Z.pos m < 2 ^ 53 →
  ∃ m' d, binary_round 53 1024 s m 0 = S754_finite s m' (- d) ∧ 0 ≤ d ∧ Z.pos m' = Z.pos m * 2 ^ d ∧
    bounded 53 1024 m' (- d) = true.
Proof.
  intros Hm%(digits2_pos_le m 53); [|lia]. unfold binary_round, shl_align.
  set (k := Z.pos (digits2_pos m)) in *.
  assert (fexp 53 1024 (k + 0) = k - 53) as ->.
  { unfold fexp, emin. lia. }
  destruct (k - 53 - 0) as [|p|d] eqn:Hk; [|lia|].
  - assert (bounded 53 1024 m 0 = true) as Hb.
    { unfold bounded, canonical_mantissa, fexp, emin. fold k.
      apply andb_true_iff. split; [apply Z.eqb_eq; lia|by vm_compute]. }
    exists m, 0. rewrite binary_round_aux_id by done. split_and!; [done|lia|lia|done].
  - assert (bounded 53 1024 (Pos.iter xO m d) (- Z.pos d) = true) as Hb.
    { unfold bounded, canonical_mantissa, fexp, emin. rewrite digits2_iter_xO. fold k.
      apply andb_true_iff. split; [apply Z.eqb_eq; lia|apply Z.leb_le; lia]. }
    exists (Pos.iter xO m d), (Z.pos d). replace (k - 53) with (- Z.pos d) by lia.
    rewrite binary_round_aux_id by done. split_and!; [done|lia|by rewrite iter_xO|done].
Qed.

Lemma of_int_valid z : - 2 ^ 53 < z < 2 ^ 53 → valid_binary 53 1024 (of_int z) = true.
Proof.
  intros Hz. destruct z as [|m|m]; [done|..]; unfold of_int, binary_normalize.
  all: edestruct of_int_pos as (m' & d & -> & _ & _ & Hb); [|exact Hb]; lia.
Qed.

Lemma trunc_of_int z : - 2 ^ 53 < z < 2 ^ 53 → trunc (of_int z) = Some z.
Proof.
  intros Hz. destruct z as [|m|m]; [done|..]; unfold of_int, binary_normalize.
  all: edestruct of_int_pos as (m' & d & -> & Hd & Hm' & _); [|simpl trunc].
  1,3: lia.
  all: destruct (Z.leb_spec 0 (- d)).
  all: rewrite Hm', ?Z.opp_involutive, ?Z.div_mul by (apply Z.pow_nonzero; lia).
  all: try done; by replace d with 0 by lia; rewrite !Z.mul_1_r.
Qed.

Lemma to_uint_of_int w z : 0 ≤ z < 2 ^ 53 → z < 2 ^ w → to_uint w (of_int z) = Some z.
Proof. intros. unfold to_uint. rewrite trunc_of_int by lia. simpl. by repeat zif. Qed.

Lemma to_int_of_int w z :
  - 2 ^ 53 < z < 2 ^ 53 → - 2 ^ (w - 1) ≤ z < 2 ^ (w - 1) → to_int w (of_int z) = Some z.
Proof. intros. unfold to_int. rewrite trunc_of_int by lia. simpl. by repeat zif. Qed.

(** ** The memory image determines the value *)

Section images_facts.
Context (mw ew : Z) (Hmw : 0 < mw) (Hew : 1 < ew).
Implicit Types (s : bool) (e m : Z).

Lemma join_bits_split s e m :
  0 ≤ e < 2 ^ ew → 0 ≤ m < 2 ^ mw →
  let z := join_bits mw ew s e m in
  negb (z / 2 ^ (mw + ew) =? 0) = s ∧ (z / 2 ^ mw) mod 2 ^ ew = e ∧ z mod 2 ^ mw = m.
Proof.
  intros He Hm. simpl. unfold join_bits.
  rewrite Z.pow_add_r, <-Z.div_div by lia.
  rewrite !Z.div_add_l, (Z.div_small m), Z.add_0_r by lia.
  rewrite Z.div_add_l, (Z.div_small e), Z.add_0_r by lia.
  rewrite (Z.add_comm _ e), (Z.add_comm _ m), !Z_mod_plus_full, !Z.mod_small by lia.
  by destruct s.
Qed.

(** A canonical pair is normal or subnormal. *)
Lemma bounded_cases p e :
  bounded (f_prec mw) (f_emax ew) p e = true →
  if 2 ^ mw <=? Z.pos p
  then 0 ≤ Z.pos p - 2 ^ mw < 2 ^ mw ∧ 1 ≤ e - f_emin mw ew + 1 < 2 ^ ew - 1
  else Z.pos p < 2 ^ mw ∧ e = f_emin mw ew.
Proof.
  intros [Hc%Z.eqb_eq He%Z.leb_le]%andb_true_iff.
  unfold fexp, f_emin, emin, f_prec, f_emax in *.
  assert (2 ^ ew = 2 * 2 ^ (ew - 1)) as Hpow.
  { rewrite <-Z.pow_succ_r by lia. f_equal. lia. }
  destruct (Z.leb_spec (2 ^ mw) (Z.pos p)) as [Hp|Hp].
  - assert (¬ Z.pos (digits2_pos p) ≤ mw) by (rewrite digits2_pos_le; lia).
    assert (Z.pos p < 2 ^ (mw + 1)) as Hp' by (apply digits2_pos_le; lia).
    rewrite Z.pow_add_r in Hp' by lia. lia.
  - split; [done|]. apply digits2_pos_le in Hp; lia.
Qed.

Lemma bits_float_bits f :
  valid_binary (f_prec mw) (f_emax ew) f = true → f ≠ S754_nan →
  bits_float mw ew (float_bits mw ew f) = f.
Proof.
  assert (2 ^ ew = 2 * 2 ^ (ew - 1)) as Hpow.
  { rewrite <-Z.pow_succ_r by lia. f_equal. lia. }
  assert (2 ^ 1 ≤ 2 ^ (ew - 1)) as H2 by (apply Z.pow_le_mono_r; lia).
  assert (0 < 2 ^ mw) as H1 by (apply Z.pow_pos_nonneg; lia). change (2 ^ 1) with 2 in H2.
  destruct f as [s|s| |s p e]; intros Hv Hn; [..|done|].
  - unfold bits_float, float_bits. destruct (join_bits_split s 0 0) as (-> & -> & ->); by try lia.
  - unfold bits_float, float_bits.
    destruct (join_bits_split s (2 ^ ew - 1) 0) as (-> & -> & ->); [lia..|].
    zif. by rewrite Z.eqb_refl.
  - apply bounded_cases in Hv. unfold float_bits. destruct (2 ^ mw <=? Z.pos p).
    + destruct Hv as [Hm He]. unfold bits_float.
      edestruct join_bits_split as (-> & -> & ->); [|exact Hm|]; [lia|]. do 2 zif.
      rewrite Z.sub_add. f_equal. lia.
    + destruct Hv as [Hm ->]. unfold bits_float.
      by edestruct (join_bits_split s 0 (Z.pos p)) as (-> & -> & ->); try lia.
Qed.

Lemma join_bits_range s e m :
  0 ≤ e < 2 ^ ew → 0 ≤ m < 2 ^ mw → 0 ≤ join_bits mw ew s e m < 2 ^ (1 + ew + mw).
Proof.
  intros He Hm. unfold join_bits. rewrite !Z.pow_add_r by lia. change (2 ^ 1) with 2.
  destruct s; simpl Z.b2z; nia.
Qed.

Lemma float_bits_range f :
  valid_binary (f_prec mw) (f_emax ew) f = true →
  0 ≤ float_bits mw ew f < 2 ^ (1 + ew + mw).
Proof.
  assert (2 ^ mw = 2 * 2 ^ (mw - 1)) as Hpow.
  { rewrite <-Z.pow_succ_r by lia. f_equal. lia. }
  assert (0 < 2 ^ ew) by (apply Z.pow_pos_nonneg; lia).
  assert (0 < 2 ^ (mw - 1)) by (apply Z.pow_pos_nonneg; lia).
  destruct f as [s|s| |s p e]; intros Hv; [apply join_bits_range; lia..|].
  apply bounded_cases in Hv. unfold float_bits. destruct (2 ^ mw <=? Z.pos p);
    apply join_bits_range; lia.
Qed.
End images_facts.
