(* ===== verification/Npb.v ===== *)
(** * Npb: the protocol-buffer codec of the collector

    [monitor/unity/protobuf/npb.c], the C half of the Lua protocol-buffer
    library. A Lua string is a list of bytes; in memory a 0 follows it. An
    argument read with [luaL_checknumber] is a double, one read with
    [luaL_checkinteger] a 64-bit integer; a result is what is pushed. *)

From Stdlib Require Import SpecFloat.
From S2P Require Import Prelude CFloat.

(** A C function called from Lua returns, raises a Lua error, or does
    something the C standard leaves undefined (here a read outside the string,
    a shift by 64 or more, a conversion out of range). *)
Inductive res (A : Type) := Ok (a : A) | LuaError | Undef.
Arguments Ok {A} a.
Arguments LuaError {A}.
Arguments Undef {A}.

Definition defined {A} (o : option A) : res A := match o with Some a => Ok a | None => Undef end.
Definition res_bind {A B} (r : res A) (f : A → res B) : res B :=
  match r with Ok a => f a | LuaError => LuaError | Undef => Undef end.

Definition SIZE_MAX : Z := 2 ^ 64 - 1.

(** ** Variable-length integers *)

(** The nested tests of [pack_varint], [n] of them left. *)
Fixpoint pack_varint_loop (n : nat) (value : Z) : list Z :=
  match n with
  | O => [u8 value]
  | S n' =>
      if 0x80 <=? value then u8 (Z.lor value 0x80) :: pack_varint_loop n' (Z.shiftr value 7)
      else [u8 value]
  end.

Definition pack_varint (value : Z) : list Z := pack_varint_loop 9 value.

Definition varint_encoder (l_value : double) : res (list Z) :=
  res_bind (defined (to_uint 64 l_value)) (λ value, Ok (pack_varint value)).

Definition signed_varint_encoder (l_value : double) : res (list Z) :=
  res_bind (defined (to_int 64 l_value)) (λ value,
    if value <? 0 then Ok (pack_varint (u64 value)) else Ok (pack_varint value)).

(** The loop of [size_varint] at [pos], with the memory from there on. *)
Fixpoint size_varint_loop (mem : list Z) (pos len : Z) : res Z :=
  match mem with
  | [] => Undef
  | b :: mem' =>
      if negb (Z.land b 0x80 =? 0) then
        if len <? pos + 1 then Ok SIZE_MAX else size_varint_loop mem' (pos + 1) len
      else Ok (pos + 1)
  end.

Definition size_varint (buffer : list Z) (len : Z) : res Z := size_varint_loop buffer 0 len.

(** The loop of [unpack_varint] with [n] bytes to go. *)
Fixpoint unpack_varint_loop (n : nat) (mem : list Z) (value shift : Z) : res Z :=
  match n with
  | O => Ok value
  | S n' =>
      match mem with
      | [] => Undef
      | b :: mem' =>
          if 64 <=? shift then Undef
          else unpack_varint_loop n' mem' (Z.lor value (u64 (Z.shiftl (Z.land b 0x7f) shift))) (shift + 7)
      end
  end.

Definition unpack_varint (buffer : list Z) (len : Z) : res Z :=
  match buffer with
  | [] => Undef
  | b :: mem => unpack_varint_loop (Z.to_nat (len - 1)) mem (Z.land b 0x7f) 7
  end.

(** The memory at [buffer + pos]. *)
Definition lua_at (s : list Z) (pos : Z) : list Z := drop (Z.to_nat pos) (s ++ [0]).

Definition varint_decoder (s : list Z) (ipos : Z) : res (double * Z) :=
  let pos := u64 ipos in
  let buffer := lua_at s pos in
  res_bind (size_varint buffer (zlen s)) (λ len,
    if len =? SIZE_MAX then LuaError
    else res_bind (unpack_varint buffer len) (λ v, Ok (of_int v, i64 (len + pos)))).

Definition signed_varint_decoder (s : list Z) (ipos : Z) : res (double * Z) :=
  let pos := u64 ipos in
  let buffer := lua_at s pos in
  res_bind (size_varint buffer (zlen s)) (λ len,
    if len =? SIZE_MAX then LuaError
    else res_bind (unpack_varint buffer len) (λ v, Ok (of_int (i64 v), i64 (len + pos)))).

Definition read_tag (s : list Z) (ipos : Z) : res (list Z * Z) :=
  let pos := u64 ipos in
  let buffer := lua_at s pos in
  res_bind (size_varint buffer (zlen s)) (λ len,
    if len =? SIZE_MAX then LuaError
    else Ok (take (Z.to_nat len) buffer, i64 (len + pos))).

(** ** Zig-zag integers *)

Definition zig_zag_encode32 (iarg : Z) : Z :=
  let n := i32 iarg in
  u32 (Z.lxor (i32 (Z.shiftl n 1)) (Z.shiftr n 31)).

Definition zig_zag_decode32 (iarg : Z) : Z :=
  let n := u32 iarg in
  i32 (Z.lxor (Z.shiftr n 1) (u32 (- Z.land n 1))).

Definition zig_zag_encode64 (arg : double) : res Z :=
  res_bind (defined (to_int 64 arg)) (λ n,
    Ok (i64 (u64 (Z.lxor (i64 (Z.shiftl n 1)) (Z.shiftr n 63))))).

Definition zig_zag_decode64 (arg : double) : res Z :=
  res_bind (defined (to_uint 64 arg)) (λ n,
    Ok (i64 (Z.lxor (Z.shiftr n 1) (u64 (- Z.land n 1))))).

(** ** Fixed-width values, on a little-endian machine *)

Definition pack_fixed32 (v : Z) : list Z := le_bytes 4 v.
Definition pack_fixed64 (v : Z) : list Z := le_bytes 8 v.

(** The format characters. *)
Definition FMT_i : Z := 105.
Definition FMT_q : Z := 113.
Definition FMT_f : Z := 102.
Definition FMT_d : Z := 100.
Definition FMT_I : Z := 73.
Definition FMT_Q : Z := 81.

Definition struct_pack (ifmt : Z) (value : double) : res (list Z) :=
  let format := u8 ifmt in
  if format =? FMT_i then res_bind (defined (to_int 32 value)) (λ v, Ok (pack_fixed32 (u32 v)))
  else if format =? FMT_q then res_bind (defined (to_int 64 value)) (λ v, Ok (pack_fixed64 (u64 v)))
  else if format =? FMT_f then Ok (pack_fixed32 (single_bits (cast_float value)))
  else if format =? FMT_d then Ok (pack_fixed64 (double_bits value))
  else if format =? FMT_I then res_bind (defined (to_uint 32 value)) (λ v, Ok (pack_fixed32 v))
  else if format =? FMT_Q then res_bind (defined (to_uint 64 value)) (λ v, Ok (pack_fixed64 v))
  else LuaError.

(** The [n] bytes at the start of [buffer], as one little-endian word. *)
Definition fixed (n : nat) (buffer : list Z) : res Z :=
  if (n <=? length buffer)%nat then Ok (le_val (take n buffer)) else Undef.
Definition unpack_fixed32 : list Z → res Z := fixed 4.
Definition unpack_fixed64 : list Z → res Z := fixed 8.

(** What [struct_unpack] pushes: an integer or a number. *)
Inductive pushed := PushInteger (z : Z) | PushNumber (f : double).

Definition struct_unpack (ifmt : Z) (s : list Z) (ipos : Z) : res pushed :=
  let format := u8 ifmt in
  let buffer := lua_at s (u64 ipos) in
  if format =? FMT_i then res_bind (unpack_fixed32 buffer) (λ v, Ok (PushInteger (i32 v)))
  else if format =? FMT_q then
    res_bind (unpack_fixed64 buffer) (λ v, Ok (PushNumber (of_int (i64 v))))
  else if format =? FMT_f then
    res_bind (unpack_fixed32 buffer) (λ v, Ok (PushNumber (cast_double (bits_single v))))
  else if format =? FMT_d then res_bind (unpack_fixed64 buffer) (λ v, Ok (PushNumber (bits_double v)))
  else if format =? FMT_I then res_bind (unpack_fixed32 buffer) (λ v, Ok (PushNumber (of_int v)))
  else if format =? FMT_Q then res_bind (unpack_fixed64 buffer) (λ v, Ok (PushNumber (of_int v)))
  else LuaError.

(** ** The output buffer *)

Definition IOSTRING_BUF_LEN : Z := 65535.

Record IOString := IOStr { io_size : Z; io_buf : list Z }.

Definition iostring_new (garbage : list Z) : IOString := IOStr 0 garbage.

(** The struct in memory: [size], then [buf]. *)
Definition io_mem (io : IOString) : list Z := le_bytes 8 (io_size io) ++ io_buf io.

Definition iostring_str (io : IOString) : list Z := take (Z.to_nat (io_size io)) (io_buf io).
Definition iostring_len (io : IOString) : Z := io_size io.

Definition iostring_write (str : list Z) (io : IOString) : res IOString :=
  let size := zlen str in
  if IOSTRING_BUF_LEN <? u64 (io_size io + size) then LuaError
  else Ok (IOStr (u64 (io_size io + size))
             (take (Z.to_nat (io_size io)) (io_buf io) ++ str
              ++ drop (Z.to_nat (io_size io + size)) (io_buf io))).

Definition iostring_sub (ibegin iend : Z) (io : IOString) : res (list Z) :=
  let begin := u64 ibegin in
  let end_ := u64 iend in
  if (end_ <? begin) || (io_size io <? end_) then LuaError
  else Ok (take (Z.to_nat (end_ - begin + 1)) (drop (Z.to_nat (8 + begin - 1)) (io_mem io))).

Definition iostring_clear (io : IOString) : IOString := IOStr 0 (io_buf io).

(** ** The codec of variable-length integers *)

Lemma cont_byte v : 0 ≤ v →
  Z.land (u8 (Z.lor v 0x80)) 0x80 = 0x80 ∧ Z.land (u8 (Z.lor v 0x80)) 0x7f = v mod 128.
Proof.
  intros Hv. unfold wrap. rewrite <-(Z.land_ones (Z.lor v 128) 8) by lia.
  change (v mod 128) with (v mod 2 ^ 7). rewrite <-(Z.land_ones v 7) by lia.
  change 128 with (2 ^ 7). change 127 with (Z.ones 7).
  split; apply Z.bits_inj'; intros n Hn;
    rewrite ?Z.land_spec, ?Z.lor_spec, ?Z.testbit_ones_nonneg, ?Z.pow2_bits_eqb by lia;
    destruct (Z.eqb_spec 7 n), (Z.ltb_spec n 8), (Z.ltb_spec n 7); try lia;
    by destruct (Z.testbit v n).
Qed.

Lemma last_byte v : 0 ≤ v < 128 →
  u8 v = v ∧ Z.land v 0x80 = 0 ∧ Z.land v 0x7f = v.
Proof.
  intros Hv. split_and!.
  - apply wrap_small. eval_pow2. lia.
  - apply Z.bits_inj'. intros n Hn. change 128 with (2 ^ 7).
    rewrite Z.land_spec, Z.pow2_bits_eqb, Z.bits_0 by lia.
    destruct (Z.eqb_spec 7 n) as [<-|]; [|by rewrite andb_false_r].
    rewrite Z.bits_above_log2; [done|lia|]. destruct (decide (v = 0)) as [->|]; [done|].
    apply Z.log2_lt_pow2; lia.
  - change 127 with (Z.ones 7). rewrite Z.land_ones by lia. apply Z.mod_small. lia.
Qed.

Lemma lor_shiftl acc x k :
  0 ≤ k → 0 ≤ acc < 2 ^ k → Z.lor acc (Z.shiftl x k) = acc + x * 2 ^ k.
Proof.
  intros Hk Ha. rewrite Z.shiftl_mul_pow2, <-Z.add_lor_land by lia.
  enough (Z.land acc (x * 2 ^ k) = 0) as -> by lia.
  apply Z.bits_inj'. intros n Hn. rewrite Z.land_spec, Z.bits_0, <-Z.shiftl_mul_pow2 by lia.
  destruct (Z.ltb_spec n k).
  - by rewrite Z.shiftl_spec_low, andb_false_r by lia.
  - destruct (decide (acc = 0)) as [->|]; [by rewrite Z.bits_0|].
    rewrite (Z.bits_above_log2 acc); [done|lia|].
    apply Z.lt_le_trans with k; [apply Z.log2_lt_pow2; lia|lia].
Qed.

Lemma length_pack_varint_loop n v : (1 ≤ length (pack_varint_loop n v) ≤ S n)%nat.
Proof. revert v; induction n as [|n IH]; intros v; simpl; [lia|]. case_match; simpl; [|lia].
  specialize (IH (Z.shiftr v 7)). lia. Qed.

(** A value that fits the rounds left. *)
Definition varint_fits (n : nat) (v : Z) : Prop := 0 ≤ v < 2 ^ (7 * (Z.of_nat n + 1)).

Lemma varint_fits_shift n v :
  varint_fits (S n) v → 128 ≤ v → varint_fits n (Z.shiftr v 7) ∧ 1 ≤ Z.shiftr v 7 ∧
  v = v mod 128 + 128 * Z.shiftr v 7.
Proof.
  unfold varint_fits. rewrite Z.shiftr_div_pow2 by lia. change (2 ^ 7) with 128.
  replace (7 * (Z.of_nat (S n) + 1)) with (7 * (Z.of_nat n + 1) + 7) by lia.
  rewrite Z.pow_add_r by lia. change (2 ^ 7) with 128. intros Hv Hv'.
  assert (v = 128 * (v / 128) + v mod 128) by (apply Z.div_mod; lia).
  pose proof (Z.mod_pos_bound v 128). split_and!; [lia| |lia|lia]. 
  apply Z.div_lt_upper_bound; lia.
Qed.

Lemma varint_fits_last v : varint_fits 0 v → 0 ≤ v < 128.
Proof. done. Qed.

Lemma size_varint_pack n v rest pos len :
  varint_fits n v → pos + zlen (pack_varint_loop n v) ≤ len →
  size_varint_loop (pack_varint_loop n v ++ rest) pos len
  = Ok (pos + zlen (pack_varint_loop n v)).
Proof.
  revert v pos; induction n as [|n IH]; intros v pos Hv Hlen; simpl in *.
  - destruct (last_byte v) as (-> & -> & _); [by apply varint_fits_last|]. done.
  - destruct (Z.leb_spec 128 v) as [H|H]; simpl in *; rewrite ?zlen_cons in *.
    + destruct (cont_byte v) as [-> _]; [destruct Hv; lia|]. simpl.
      destruct (varint_fits_shift n v Hv H) as (Hv' & _ & _).
      pose proof (zlen_nonneg (pack_varint_loop n (Z.shiftr v 7))).
      zif. rewrite IH; [f_equal; lia|done|lia].
    + destruct (last_byte v) as (-> & -> & _); [destruct Hv; lia|]. done.
Qed.

Lemma unpack_varint_pack n v rest acc shift :
  varint_fits n v → 0 ≤ acc < 2 ^ shift → 0 ≤ shift < 64 → v * 2 ^ shift < 2 ^ 64 →
  unpack_varint_loop (length (pack_varint_loop n v)) (pack_varint_loop n v ++ rest) acc shift
  = Ok (acc + v * 2 ^ shift).
Proof.
  assert (∀ b shift, 0 ≤ shift < 64 → 0 ≤ b → b * 2 ^ shift < 2 ^ 64 →
    u64 (Z.shiftl b shift) = Z.shiftl b shift) as Hw.
  { intros b k Hk Hb Hlt. apply wrap_small. rewrite Z.shiftl_mul_pow2 by lia.
    split; [apply Z.mul_nonneg_nonneg; [lia|apply Z.pow_nonneg; lia]|done]. }
  revert v acc shift; induction n as [|n IH]; intros v acc shift Hv Ha Hs Hlt; simpl.
  - destruct (last_byte v) as (-> & _ & ->); [by apply varint_fits_last|].
    destruct Hv. zif. by rewrite Hw, lor_shiftl by (done || lia).
  - destruct (Z.leb_spec 128 v) as [H|H]; simpl; zif.
    + destruct (cont_byte v) as [_ ->]; [destruct Hv; lia|].
      destruct (varint_fits_shift n v Hv H) as (Hv' & H1 & Heq).
      pose proof (Z.mod_pos_bound v 128 ltac:(lia)).
      assert (0 < 2 ^ shift) by (apply Z.pow_pos_nonneg; lia).
      assert (2 ^ (shift + 7) = 128 * 2 ^ shift) as Hp by (rewrite Z.pow_add_r by lia; lia).
      rewrite Hw, lor_shiftl by (nia || lia).
      rewrite IH; [f_equal; rewrite Hp; nia|done|rewrite Hp; nia| |rewrite Hp; nia].
      split; [lia|]. apply (Z.pow_lt_mono_r_iff 2); [lia..|]. rewrite Hp. nia.
    + destruct (last_byte v) as (-> & _ & ->); [destruct Hv; lia|].
      destruct Hv. by rewrite Hw, lor_shiftl by (done || lia).
Qed.

Lemma pack_varint_fits v : 0 ≤ v < 2 ^ 64 → varint_fits 9 v.
Proof. unfold varint_fits. intros. change (7 * (Z.of_nat 9 + 1)) with 70. lia. Qed.

Lemma unpack_varint_fold b mem n :
  unpack_varint (b :: mem) (Z.of_nat (S n)) = unpack_varint_loop (S n) (b :: mem) 0 0.
Proof.
  unfold unpack_varint. simpl unpack_varint_loop. rewrite Z.shiftl_0_r, Z.lor_0_l.
  replace (Z.to_nat (Z.of_nat (S n) - 1)) with n by lia.
  rewrite wrap_small; [done|]. change 127 with (Z.ones 7). rewrite Z.land_ones by lia.
  pose proof (Z.mod_pos_bound b (2 ^ 7) ltac:(lia)). lia.
Qed.

Lemma lua_at_app s1 s2 : lua_at (s1 ++ s2) (zlen s1) = s2 ++ [0].
Proof. unfold lua_at, zlen. rewrite Nat2Z.id, <-app_assoc. apply drop_app_length. Qed.

(** Decoding at the place where a value was encoded. *)
Lemma size_varint_at v rest len :
  0 ≤ v < 2 ^ 64 → zlen (pack_varint v) ≤ len →
  size_varint (pack_varint v ++ rest) len = Ok (zlen (pack_varint v)).
Proof. intros Hv Hl. by apply (size_varint_pack 9), Hl; apply pack_varint_fits. Qed.

Lemma unpack_varint_at v rest :
  0 ≤ v < 2 ^ 64 → unpack_varint (pack_varint v ++ rest) (zlen (pack_varint v)) = Ok v.
Proof.
  intros Hv. pose proof (unpack_varint_pack 9 v rest 0 0) as H.
  pose proof (length_pack_varint_loop 9 v) as Hl. fold (pack_varint v) in *. unfold zlen.
  destruct (pack_varint v) as [|b l]; [simpl in Hl; lia|].
  simpl app in *. simpl length in *. rewrite unpack_varint_fold, H; [f_equal; lia|..].
  - by apply pack_varint_fits.
  - done.
  - done.
  - lia.
Qed.

Lemma u64_pos {A} (s : list A) : zlen s < 2 ^ 63 → u64 (zlen s) = zlen s.
Proof. intros. apply wrap_small. pose proof (zlen_nonneg s). eval_pow2. lia. Qed.

Lemma zlen_pack_varint v : 1 ≤ zlen (pack_varint v) ≤ 10.
Proof. pose proof (length_pack_varint_loop 9 v). unfold zlen, pack_varint. lia. Qed.

(** What the three readers find where [pack_varint v] was put. *)
Lemma read_packed s1 s2 v :
  0 ≤ v < 2 ^ 64 → zlen s1 + 10 < 2 ^ 63 →
  let s := s1 ++ pack_varint v ++ s2 in
  let next := zlen s1 + zlen (pack_varint v) in
  varint_decoder s (zlen s1) = Ok (of_int v, next) ∧
  signed_varint_decoder s (zlen s1) = Ok (of_int (i64 v), next) ∧
  read_tag s (zlen s1) = Ok (pack_varint v, next).
Proof.
  intros Hv Hs. simpl. pose proof (zlen_pack_varint v) as Hl. pose proof (zlen_nonneg s1).
  pose proof (zlen_nonneg s2).
  unfold varint_decoder, signed_varint_decoder, read_tag.
  rewrite u64_pos, lua_at_app, <-app_assoc by lia.
  rewrite size_varint_at by (done || rewrite !zlen_app; lia). cbn [res_bind]. unfold SIZE_MAX.
  rewrite (proj2 (Z.eqb_neq _ _)), unpack_varint_at by (done || lia). cbn [res_bind].
  rewrite swrap_small, (Z.add_comm _ (zlen s1)) by (simpl Z.sub; lia). split_and!; [done..|].
  unfold zlen. by rewrite Nat2Z.id, take_app_length.
Qed.

(** C5: Variable-length integers round trip. Between -2^53 and 2^53, where a
    Lua number holds every integer, the signed encoder gives 1 to 10 bytes, the
    decoder applied where they stand in a message returns the number and the
    position after them, and [read_tag] returns the bytes themselves; from 0 on
    the unsigned pair does the same. *)
Theorem npb_varint_roundtrip s1 s2 v :
  - 2 ^ 53 < v < 2 ^ 53 → zlen s1 + 10 < 2 ^ 63 →
  (∃ bs, signed_varint_encoder (of_int v) = Ok bs ∧ 1 ≤ zlen bs ≤ 10 ∧
     signed_varint_decoder (s1 ++ bs ++ s2) (zlen s1) = Ok (of_int v, zlen s1 + zlen bs) ∧
     read_tag (s1 ++ bs ++ s2) (zlen s1) = Ok (bs, zlen s1 + zlen bs)) ∧
  (0 ≤ v →
   ∃ bs, varint_encoder (of_int v) = Ok bs ∧ 1 ≤ zlen bs ≤ 10 ∧
     varint_decoder (s1 ++ bs ++ s2) (zlen s1) = Ok (of_int v, zlen s1 + zlen bs)).
Proof.
  intros Hv Hs. split.
  - exists (pack_varint (u64 v)). unfold signed_varint_encoder.
    rewrite to_int_of_int by (simpl Z.sub; lia). simpl.
    destruct (read_packed s1 s2 (u64 v)) as (_ & -> & ->);
      [by apply wrap_range|done|].
    split; [|split; [apply zlen_pack_varint|split; [|done]]].
    + destruct (Z.ltb_spec v 0); [done|]. rewrite wrap_small; [done|lia].
    + do 3 f_equal. unfold swrap, wrap. rewrite Zplus_mod_idemp_l. apply (swrap_small 64);
        [lia|simpl Z.sub; lia].
  - intros H0. exists (pack_varint v). unfold varint_encoder.
    rewrite to_uint_of_int by lia. simpl. split; [done|]. split; [apply zlen_pack_varint|].
    by destruct (read_packed s1 s2 v) as (-> & _ & _); [lia|..].
Qed.

Lemma npb_varint_roundtrip_witness :
  signed_varint_decoder ([8] ++ [255; 255; 255; 255; 255; 255; 255; 255; 255; 1] ++ [16]) 1
  = Ok (of_int (-1), 11) ∧
  varint_decoder ([8] ++ [172; 2] ++ [16]) 1 = Ok (of_int 300, 3).
Proof.
  split.
  - destruct (npb_varint_roundtrip [8] [16] (-1)) as [(bs & He & _ & Hd & _) _]; [done..|].
    vm_compute in He. injection He as <-. exact Hd.
  - destruct (npb_varint_roundtrip [8] [16] 300) as [_ (bs & He & _ & Hd)]; [done..|].
    vm_compute in He. injection He as <-. exact Hd.
Defined.

(** ** Truncated input *)

Lemma size_varint_cut cut pos len :
  Forall (λ b, Z.land b 0x80 ≠ 0) cut → pos + zlen cut ≤ len →
  size_varint_loop (cut ++ [0]) pos len = Ok (pos + zlen cut + 1).
Proof.
  intros Hc. revert pos. induction Hc as [|b cut Hb _ IH]; intros pos Hlen; simpl.
  - f_equal. change (zlen []) with 0. lia.
  - rewrite zlen_cons in *. pose proof (zlen_nonneg cut).
    rewrite (proj2 (Z.eqb_neq _ _)) by done. simpl. zif. rewrite IH by lia. f_equal. lia.
Qed.

Lemma unpack_varint_defined n mem value shift :
  (n ≤ length mem)%nat → shift + 7 * (Z.of_nat n - 1) < 64 →
  ∃ v, unpack_varint_loop n mem value shift = Ok v.
Proof.
  revert mem value shift; induction n as [|n IH]; intros mem value shift Hm Hs; [by eexists|].
  destruct mem as [|b mem]; simpl in *; [lia|]. zif. apply IH; lia.
Qed.

(** A variable-length integer cut off by the end of the message is not an
    error: the decoder runs into the 0 that ends the Lua string, returns a
    number and a position one past the end of the message. *)
Theorem npb_varint_truncated s1 cut :
  Forall (λ b, Z.land b 0x80 ≠ 0) cut → zlen cut ≤ 9 → zlen (s1 ++ cut) + 1 < 2 ^ 63 →
  ∃ f, varint_decoder (s1 ++ cut) (zlen s1) = Ok (f, zlen (s1 ++ cut) + 1).
Proof.
  intros Hc H9 Hl. rewrite zlen_app in *. pose proof (zlen_nonneg s1). pose proof (zlen_nonneg cut).
  unfold varint_decoder, size_varint. rewrite u64_pos, lua_at_app, zlen_app by lia.
  rewrite size_varint_cut by (done || lia). simpl. unfold SIZE_MAX. zif.
  assert (∃ v, unpack_varint (cut ++ [0]) (0 + zlen cut + 1) = Ok v) as [v ->].
  { unfold unpack_varint. replace (Z.to_nat (0 + zlen cut + 1 - 1)) with (length cut)
      by (unfold zlen; lia).
    destruct cut as [|b cut]; [by eexists|].
    apply (unpack_varint_defined (S (length cut)) (cut ++ [0])).
    - rewrite length_app. simpl. lia.
    - rewrite zlen_cons in H9. unfold zlen in H9. lia. }
  eexists. simpl. rewrite swrap_small by (simpl Z.sub; lia). do 2 f_equal. lia.
Qed.

Lemma npb_varint_truncated_witness :
  ∃ f, varint_decoder ([8] ++ [0x80; 0x81]) 1 = Ok (f, 4).
Proof.
  apply (npb_varint_truncated [8] [0x80; 0x81]); [repeat constructor; discriminate|vm_compute; congruence|done].
Defined.

(** ** Zig-zag *)

Lemma wrap_opp w z : wrap w (- swrap w z - 1) = wrap w (- z - 1).
Proof.
  unfold wrap. rewrite <-(Z.sub_0_l (swrap w z)), <-(Zminus_mod_idemp_l (0 - _) 1).
  rewrite <-(Zminus_mod_idemp_r 0). fold (wrap w (swrap w z)). rewrite wrap_swrap. unfold wrap.
  by rewrite Zminus_mod_idemp_r, Zminus_mod_idemp_l, Z.sub_0_l.
Qed.

Section zigzag.
Context (w : Z) (Hw : 1 < w).

Definition zz_enc (n : Z) : Z := wrap w (Z.lxor (swrap w (Z.shiftl n 1)) (Z.shiftr n (w - 1))).
Definition zz_dec (n : Z) : Z := swrap w (Z.lxor (Z.shiftr n 1) (wrap w (- Z.land n 1))).

Lemma pow_half : 2 ^ w = 2 * 2 ^ (w - 1).
Proof using Hw. rewrite <-Z.pow_succ_r by lia. f_equal. lia. Qed.

(** The closed form of the encoding: 0, -1, 1, -2, ... become 0, 1, 2, 3, ... *)
Lemma zz_enc_spec n :
  - 2 ^ (w - 1) ≤ n < 2 ^ (w - 1) → zz_enc n = if 0 <=? n then 2 * n else - 2 * n - 1.
Proof using Hw.
  intros Hn. pose proof pow_half as Hp. assert (0 < 2 ^ (w - 1)) by (apply Z.pow_pos_nonneg; lia).
  unfold zz_enc. rewrite Z.shiftr_div_pow2, (Z.shiftl_mul_pow2 n 1) by lia. change (2 ^ 1) with 2.
  destruct (Z.leb_spec 0 n).
  - rewrite Z.div_small, Z.lxor_0_r, wrap_swrap, wrap_small by lia. lia.
  - replace (n / 2 ^ (w - 1)) with (-1) by (apply Z.div_unique with (n + 2 ^ (w - 1)); lia).
    rewrite Z.lxor_m1_r.
    replace (Z.lnot (swrap w (n * 2))) with (- swrap w (n * 2) - 1) by (unfold Z.lnot; lia).
    rewrite wrap_opp, wrap_small by lia. lia.
Qed.

Lemma lxor_ones k : 0 ≤ k < 2 ^ w → Z.lxor k (Z.ones w) = Z.ones w - k.
Proof using Hw.
  intros Hk. assert (∀ n, w ≤ n → Z.testbit k n = false) as Hh.
  { intros n Hn. destruct (decide (k = 0)) as [->|]; [apply Z.bits_0|].
    apply Z.bits_above_log2; [lia|]. apply Z.lt_le_trans with w; [|done]. apply Z.log2_lt_pow2; lia. }
  rewrite Z.sub_nocarry_ldiff.
  - apply Z.bits_inj'. intros n Hn. rewrite Z.lxor_spec, Z.ldiff_spec, Z.testbit_ones_nonneg by lia.
    destruct (Z.ltb_spec n w); [by destruct (Z.testbit k n)|by rewrite Hh].
  - apply Z.bits_inj'. intros n Hn. rewrite Z.ldiff_spec, Z.bits_0, Z.testbit_ones_nonneg by lia.
    destruct (Z.ltb_spec n w); [by rewrite andb_false_r|by rewrite Hh].
Qed.

Lemma zz_dec_enc n : - 2 ^ (w - 1) ≤ n < 2 ^ (w - 1) → zz_dec (zz_enc n) = n.
Proof using Hw.
  intros Hn. pose proof pow_half as Hp. rewrite zz_enc_spec by done. unfold zz_dec.
  rewrite (Z.land_ones _ 1), Z.shiftr_div_pow2 by lia. change (2 ^ 1) with 2.
  destruct (Z.leb_spec 0 n).
  - rewrite (Z.mul_comm 2 n), Z.mod_mul, Z.div_mul by lia. change (wrap w (- 0)) with (0 mod 2 ^ w).
    rewrite Z.mod_0_l, Z.lxor_0_r by (apply Z.pow_nonzero; lia). apply swrap_small; lia.
  - replace (-2 * n - 1) with (1 + (- n - 1) * 2) by lia.
    rewrite Z_mod_plus_full, Z.div_add by lia. change (1 / 2) with 0. change (- (1 mod 2)) with (-1).
    replace (wrap w (- 1)) with (Z.ones w).
    + rewrite Z.add_0_l, lxor_ones by lia. rewrite Z.ones_equiv.
      rewrite <-swrap_wrap. unfold wrap.
      replace (Z.pred (2 ^ w) - (- n - 1)) with (n + 1 * 2 ^ w) by lia.
      rewrite Z_mod_plus_full. fold (wrap w n). rewrite swrap_wrap. apply swrap_small; lia.
    + rewrite Z.ones_equiv. unfold wrap. apply Z.mod_unique with (-1); lia.
Qed.
End zigzag.

(** Zig-zag integers round trip. The 32-bit encoding of [n] is [2n] or
    [-2n-1], and decoding returns [n], for every 32-bit [n]; the 64-bit pair,
    which goes through Lua numbers, round trips below 2^52. *)
Theorem npb_zigzag_roundtrip n :
  (- 2 ^ 31 ≤ n < 2 ^ 31 →
   zig_zag_encode32 n = (if 0 <=? n then 2 * n else - 2 * n - 1) ∧
   zig_zag_decode32 (zig_zag_encode32 n) = n) ∧
  (- 2 ^ 52 < n < 2 ^ 52 →
   ∃ e, zig_zag_encode64 (of_int n) = Ok e ∧ zig_zag_decode64 (of_int e) = Ok n).
Proof.
  split; intros Hn.
  - assert (zig_zag_encode32 n = zz_enc 32 n) as ->.
    { unfold zig_zag_encode32. by rewrite (swrap_small 32 n) by (simpl Z.sub; lia). }
    split; [by apply zz_enc_spec|]. change (zz_dec 32 (u32 (zz_enc 32 n)) = n).
    unfold zz_enc at 1. rewrite wrap_wrap. by apply zz_dec_enc.
  - exists (zz_enc 64 n). assert (- 2 ^ (64 - 1) ≤ n < 2 ^ (64 - 1)) as H64 by (simpl Z.sub; lia).
    assert (0 ≤ zz_enc 64 n < 2 ^ 53) as He.
    { rewrite zz_enc_spec by done. case_match; lia. }
    unfold zig_zag_encode64, zig_zag_decode64.
    rewrite to_int_of_int, to_uint_of_int by (done || simpl Z.sub; lia). simpl. split.
    + f_equal. apply (swrap_small 64 (zz_enc 64 n)); simpl Z.sub; lia.
    + f_equal. apply (zz_dec_enc 64); [lia|done].
Qed.

Lemma npb_zigzag_roundtrip_witness :
  zig_zag_decode32 (zig_zag_encode32 (-3)) = -3 ∧ zig_zag_encode32 (-3) = 5.
Proof.
  destruct (npb_zigzag_roundtrip (-3)) as [[He Hd] _]; [lia|]. split; [exact Hd|exact He].
Defined.

(** ** Fixed-width values *)

Lemma fixed_at n s1 v s2 :
  zlen s1 < 2 ^ 63 → 0 ≤ v < 2 ^ (8 * Z.of_nat n) →
  fixed n (lua_at (s1 ++ le_bytes n v ++ s2) (u64 (zlen s1))) = Ok v.
Proof.
  intros Hs Hv. rewrite u64_pos, lua_at_app, <-app_assoc by done. unfold fixed.
  rewrite length_app, length_le_bytes, (proj2 (Nat.leb_le _ _)) by lia.
  rewrite take_app_exact by (by rewrite length_le_bytes). by rewrite le_val_le_bytes_small.
Qed.

(** Fixed-width values round trip: what [struct_pack] passes to the writer,
    read back where it stands in a message, is the value, for every finite or
    infinite double with 'd', every 32-bit integer with 'i' and 'I', and every
    integer below 2^53 with 'q' and 'Q'. *)
Theorem npb_struct_roundtrip s1 s2 :
  zlen s1 < 2 ^ 63 →
  (∀ f, valid_binary 53 1024 f = true → f ≠ S754_nan →
     ∃ bs, struct_pack FMT_d f = Ok bs ∧
       struct_unpack FMT_d (s1 ++ bs ++ s2) (zlen s1) = Ok (PushNumber f)) ∧
  (∀ v, - 2 ^ 31 ≤ v < 2 ^ 31 →
     ∃ bs, struct_pack FMT_i (of_int v) = Ok bs ∧
       struct_unpack FMT_i (s1 ++ bs ++ s2) (zlen s1) = Ok (PushInteger v)) ∧
  (∀ v, 0 ≤ v < 2 ^ 32 →
     ∃ bs, struct_pack FMT_I (of_int v) = Ok bs ∧
       struct_unpack FMT_I (s1 ++ bs ++ s2) (zlen s1) = Ok (PushNumber (of_int v))) ∧
  (∀ v, - 2 ^ 53 < v < 2 ^ 53 →
     ∃ bs, struct_pack FMT_q (of_int v) = Ok bs ∧
       struct_unpack FMT_q (s1 ++ bs ++ s2) (zlen s1) = Ok (PushNumber (of_int v))) ∧
  (∀ v, 0 ≤ v < 2 ^ 53 →
     ∃ bs, struct_pack FMT_Q (of_int v) = Ok bs ∧
       struct_unpack FMT_Q (s1 ++ bs ++ s2) (zlen s1) = Ok (PushNumber (of_int v))).
Proof.
  intros Hs. unfold struct_pack, struct_unpack, unpack_fixed32, unpack_fixed64. simpl Z.eqb. cbv iota.
  assert (∀ w z, 0 < w → 0 ≤ wrap w z < 2 ^ w) as Hr by (intros; apply wrap_range; lia).
  split_and!; [intros f Hf Hn|intros v Hv..]; (eexists; split;
    [rewrite ?to_int_of_int, ?to_uint_of_int by (simpl Z.sub; lia); reflexivity|]);
    unfold pack_fixed32, pack_fixed64; rewrite fixed_at; try done.
  all: try (by apply (Hr 32)); try (by apply (Hr 64)); try (change (2 ^ (8 * Z.of_nat 8)) with (2 ^ 64); lia).
  - simpl. by rewrite bits_float_bits.
  - by apply (float_bits_range 52 11).
  - simpl. by rewrite swrap_wrap, swrap_small.
  - simpl. rewrite swrap_wrap, swrap_small; [done|lia|simpl Z.sub; lia].
Qed.

Lemma npb_struct_roundtrip_witness :
  ∃ bs, struct_pack FMT_i (of_int (-2)) = Ok bs ∧
    struct_unpack FMT_i ([7] ++ bs ++ []) 1 = Ok (PushInteger (-2)).
Proof.
  destruct (npb_struct_roundtrip [7] []) as (_ & H & _); [done|].
  apply (H (-2)). split; [discriminate|reflexivity].
Defined.

(** [struct_unpack] does not look at the length of the message. *)
Lemma npb_struct_unpack_overrun s pos :
  0 ≤ pos < 2 ^ 63 → zlen s + 1 < pos + 8 → struct_unpack FMT_Q s pos = Undef.
Proof.
  intros Hp Hs. unfold struct_unpack. simpl Z.eqb. cbv iota. unfold unpack_fixed64, fixed, lua_at.
  rewrite wrap_small, length_drop, length_app by lia. simpl length. unfold zlen in Hs.
  by rewrite (proj2 (Nat.leb_gt _ _)) by lia.
Qed.

(** ** The output buffer *)

(** The buffer is inside its array. *)
Record io_ok (io : IOString) : Prop := {
  io_len : zlen (io_buf io) = IOSTRING_BUF_LEN;
  io_size_ok : 0 ≤ io_size io ≤ IOSTRING_BUF_LEN;
}.

Lemma iostring_new_ok g : zlen g = IOSTRING_BUF_LEN → io_ok (iostring_new g) ∧ iostring_str (iostring_new g) = [].
Proof. intros Hg. split; [|done]. by split. Qed.

Lemma iostring_write_spec str io :
  io_ok io → zlen str < 2 ^ 63 →
  if IOSTRING_BUF_LEN <? io_size io + zlen str then iostring_write str io = LuaError
  else ∃ io', iostring_write str io = Ok io' ∧ io_ok io' ∧ iostring_str io' = iostring_str io ++ str.
Proof.
  intros [Hl Hs] Hstr. pose proof (zlen_nonneg str). unfold iostring_write.
  unfold IOSTRING_BUF_LEN in *. rewrite wrap_small by (eval_pow2; lia).
  destruct (Z.ltb_spec 65535 (io_size io + zlen str)); [done|].
  eexists. split; [done|]. unfold zlen in *.
  assert (length (take (Z.to_nat (io_size io)) (io_buf io)) = Z.to_nat (io_size io)) as Ht
    by (rewrite length_take; lia).
  split; [split; simpl|].
  - unfold zlen, IOSTRING_BUF_LEN. rewrite !length_app, Ht, length_drop. lia.
  - unfold IOSTRING_BUF_LEN. lia.
  - unfold iostring_str. simpl. rewrite app_assoc. apply take_app_exact. rewrite length_app, Ht. lia.
Qed.

(** [write] after [write]. *)
Fixpoint iostring_writes (strs : list (list Z)) (io : IOString) : res IOString :=
  match strs with
  | [] => Ok io
  | str :: strs' => res_bind (iostring_write str io) (iostring_writes strs')
  end.

Lemma io_size_str io : io_ok io → io_size io = zlen (iostring_str io).
Proof. intros [Hl Hs]. unfold iostring_str, zlen in *. rewrite length_take. lia. Qed.

Lemma iostring_writes_spec strs io :
  io_ok io → zlen (concat strs) < 2 ^ 63 →
  if IOSTRING_BUF_LEN <? io_size io + zlen (concat strs) then iostring_writes strs io = LuaError
  else ∃ io', iostring_writes strs io = Ok io' ∧ io_ok io' ∧
         iostring_str io' = iostring_str io ++ concat strs.
Proof.
  revert io; induction strs as [|str strs IH]; intros io Hio Hlen; simpl in *.
  - destruct Hio as [? Hs]. change (zlen []) with 0. zif. exists io. by rewrite app_nil_r.
  - rewrite zlen_app in *. pose proof (zlen_nonneg (concat strs)). pose proof (zlen_nonneg str).
    pose proof (iostring_write_spec str io Hio ltac:(lia)) as Hw.
    destruct (Z.ltb_spec IOSTRING_BUF_LEN (io_size io + zlen str)).
    { rewrite Hw. simpl. by zif. }
    destruct Hw as (io1 & -> & Hio1 & Hstr). simpl. specialize (IH io1 Hio1 ltac:(lia)).
    rewrite (io_size_str io1 Hio1), Hstr, zlen_app, <-(io_size_str io Hio) in IH.
    rewrite Z.add_assoc. case_match; [done|]. destruct IH as (io' & -> & ? & Hs').
    exists io'. by rewrite Hs', app_assoc.
Qed.

(** The bytes [b] to [e] of the buffer; byte 0 is the last byte of [size]. *)
Lemma iostring_sub_spec io b e :
  io_ok io → 0 ≤ b ≤ e → e ≤ io_size io →
  iostring_sub b e io
  = Ok (if b =? 0 then 0 :: take (Z.to_nat e) (iostring_str io)
        else take (Z.to_nat (e - b + 1)) (drop (Z.to_nat (b - 1)) (iostring_str io))).
Proof.
  intros [Hl Hs] Hb He. unfold iostring_sub, IOSTRING_BUF_LEN in *.
  rewrite !wrap_small by (eval_pow2; lia). do 2 zif. simpl orb. f_equal. unfold io_mem, iostring_str.
  destruct (Z.eqb_spec b 0) as [->|].
  - change (Z.to_nat (8 + 0 - 1)) with 7%nat. rewrite drop_app_le by (rewrite length_le_bytes; lia).
    replace (Z.to_nat (e - 0 + 1)) with (S (Z.to_nat e)) by lia.
    rewrite take_take, Nat.min_l by lia. simpl. f_equal.
    rewrite !Z.div_div by lia. rewrite Z.div_small; [done|]. simpl. lia.
  - rewrite drop_app_ge by (rewrite length_le_bytes; lia). rewrite length_le_bytes.
    replace (Z.to_nat (8 + b - 1) - 8)%nat with (Z.to_nat (b - 1)) by lia.
    rewrite skipn_firstn_comm, take_take. f_equal. lia.
Qed.

(** The output buffer is the concatenation of the writes. From a new
    buffer, or one just cleared, any sequence of writes of at most 65535 bytes
    in all succeeds, [tostring] is the concatenation, [#] its length and
    [sub(b, e)] its bytes [b] to [e]; one more byte is an error. [sub(0, e)] is
    not refused and returns a byte of the [size] field first. *)
Theorem npb_iostring strs io :
  io_ok io →
  zlen (concat strs) < 2 ^ 63 →
  if IOSTRING_BUF_LEN <? zlen (concat strs) then iostring_writes strs (iostring_clear io) = LuaError
  else ∃ io', iostring_writes strs (iostring_clear io) = Ok io' ∧ io_ok io' ∧
         iostring_str io' = concat strs ∧ iostring_len io' = zlen (concat strs) ∧
         ∀ b e, 0 ≤ b ≤ e → e ≤ zlen (concat strs) →
           iostring_sub b e io'
           = Ok (if b =? 0 then 0 :: take (Z.to_nat e) (concat strs)
                 else take (Z.to_nat (e - b + 1)) (drop (Z.to_nat (b - 1)) (concat strs))).
Proof.
  intros Hio Hlen. assert (io_ok (iostring_clear io)) as Hc by (by destruct Hio; split).
  pose proof (iostring_writes_spec strs _ Hc Hlen) as H. simpl io_size in H. rewrite Z.add_0_l in H.
  case_match; [done|]. destruct H as (io' & Hw & Hio' & Hs).
  assert (iostring_str (iostring_clear io) = []) as Hnil by done. rewrite Hnil in Hs. simpl in Hs.
  pose proof (io_size_str io' Hio') as Hz. rewrite Hs in Hz.
  exists io'. split_and!; [done..|]. intros b e Hb He.
  rewrite iostring_sub_spec, Hs by (done || lia). done.
Qed.

Definition io0 : IOString := iostring_new (replicate (Z.to_nat IOSTRING_BUF_LEN) 0).

Lemma npb_iostring_witness :
  ∃ io, iostring_writes [[10; 11]; [12]] (iostring_clear io0) = Ok io ∧
    iostring_str io = [10; 11; 12] ∧ iostring_sub 2 3 io = Ok [11; 12] ∧
    iostring_sub 0 1 io = Ok [0; 10].
Proof.
  assert (io_ok io0) as Hok.
  { apply iostring_new_ok. unfold zlen. rewrite length_replicate. reflexivity. }
  destruct (npb_iostring [[10; 11]; [12]] io0 Hok ltac:(reflexivity)) as (io & Hw & _ & Hs & _ & Hsub).
  exists io. split; [exact Hw|]. split; [exact Hs|].
  split; [apply (Hsub 2 3)|apply (Hsub 0 1)]; vm_compute; try split; congruence.
Defined.
