(* ===== verification/CSort.v ===== *)
(** * CSort: the [qsort] of the C library

    The sort that [fastKsym.c], [slab.c], [page.c] and [vmalloc.c] call. Their
    comparisons return only 1 and 0, so the standard's contract (a consistent
    order with negative, zero and positive results) does not apply to them;
    what the calls do is a matter of the algorithm. It is the merge sort of
    glibc's [msort.c]: the halves are sorted and merged, and the element of the
    first half goes first unless [cmp] is positive. (glibc falls back to a
    quicksort for arrays above a quarter of the physical memory, which is not
    modelled.) *)

From S2P Require Import Prelude.

Definition not_after {A} (cmp : A → A → Z) (x y : A) : Prop := cmp x y ≤ 0.
#[global] Instance not_after_dec {A} (cmp : A → A → Z) (x y : A) : Decision (not_after cmp x y).
Proof. unfold not_after. apply _. Defined.

Fixpoint msort {A} (fuel : nat) (cmp : A → A → Z) (l : list A) : list A :=
  match fuel, l with
  | S f, _ :: _ :: _ =>
      let n1 := Nat.div2 (length l) in
      list_merge (not_after cmp) (msort f cmp (take n1 l)) (msort f cmp (drop n1 l))
  | _, _ => l
  end.
Definition qsort {A} (cmp : A → A → Z) (l : list A) : list A := msort (length l) cmp l.

(** The sort only moves elements, whatever the comparison. *)
Lemma msort_perm {A} (cmp : A → A → Z) fuel : ∀ l, msort fuel cmp l ≡ₚ l.
Proof.
  induction fuel as [|fuel IH]; intros l; [by destruct l|]. destruct l as [|x [|y l]]; [done..|].
  cbn [msort]. cbv zeta. rewrite merge_Permutation, !IH. by rewrite take_drop.
Qed.

Lemma qsort_perm {A} (cmp : A → A → Z) l : qsort cmp l ≡ₚ l.
Proof. apply msort_perm. Qed.

(** No element is after its successor, when of two elements one is not after
    the other. *)
Lemma msort_sorted {A} (cmp : A → A → Z) `{!Total (not_after cmp)} fuel : ∀ l, (length l ≤ fuel)%nat →
  Sorted (not_after cmp) (msort fuel cmp l).
Proof.
  induction fuel as [|fuel IH]; intros l Hl; [by destruct l; [constructor|cbn in Hl; lia]|].
  destruct l as [|x [|y l]]; [by repeat constructor..|]. cbn [msort]. cbv zeta.
  pose proof (Nat.div2_decr (length l) (length l) ltac:(lia)) as Hd. cbn [length] in Hl.
  apply Sorted_list_merge; [done|apply IH..]; rewrite ?length_take, ?length_drop; cbn [length Nat.div2]; generalize dependent (Nat.div2 (length l)); generalize dependent (length l).
  all: intros; lia.
Qed.

(** A comparison that is positive exactly when the weights are out of order
    sorts by weight. *)
Lemma qsort_ascending {A} (cmp : A → A → Z) (weight : A → Z) l :
  (∀ a b, cmp a b ≤ 0 ↔ weight a ≤ weight b) → StronglySorted (λ a b, weight a ≤ weight b) (qsort cmp l).
Proof.
  intros Heq.
  assert (Total (not_after cmp)) by (intros a b; unfold not_after; rewrite !Heq; lia).
  apply Sorted_StronglySorted; [intros a b c; lia|].
  pose proof (msort_sorted cmp (length l) l ltac:(lia)) as Hs.
  unfold qsort. induction Hs as [|x k Hs IH Hhd]; constructor; [done|].
  destruct Hhd as [|y k Hxy]; constructor. by apply Heq.
Qed.
