(* ===== verification/Ksym.v ===== *)
(** * Ksym: the kernel symbol table of the collector

    [monitor/unity/collector/native/fastKsym.c]. [ksym_setup] writes the
    symbols of [/proc/kallsyms] to a temporary file, maps the file and sorts
    it; [ksym_search] is a binary search in the mapped array. The result of
    [sscanf] on each line is an input of the model; [qsort] is the C library's
    merge sort of CSort.v. *)

From S2P Require Import Prelude CSort.

(** A cell is its address and the bytes after it: [func] at 0, [module] at 64,
    [type] at 95. *)
Record ksym_cell := Cell { addr : Z; image : list Z }.

Definition MODULE_OFF : nat := 64.
Definition TYPE_OFF : nat := 95.

Definition store_at (off : nat) (bs img : list Z) : list Z :=
  take off img ++ bs ++ drop (off + length bs) img.
Definition cell_type (img : list Z) : Z := nth TYPE_OFF img 0.

(** What [sscanf(buf, "%p %c %64s %31s", ...)] converts of a line; the two
    strings are cut to the field widths. *)
Inductive scanned :=
  | SEof | S0 | S1 (a : Z) | S2 (a t : Z)
  | S3 (a t : Z) (func : list Z) | S4 (a t : Z) (func module : list Z).

Definition scan_ret (l : scanned) : Z :=
  match l with SEof => -1 | S0 => 0 | S1 _ => 1 | S2 _ _ => 2 | S3 _ _ _ => 3 | S4 _ _ _ _ => 4 end.

(** The stores of [sscanf] into [addr] and [cell]. *)
Definition scan_store (l : scanned) (v : Z * list Z) : Z * list Z :=
  let '(a0, img) := v in
  match l with
  | SEof | S0 => (a0, img)
  | S1 a => (a, img)
  | S2 a t => (a, store_at TYPE_OFF [t] img)
  | S3 a t f => (a, store_at 0 (f ++ [0]) (store_at TYPE_OFF [t] img))
  | S4 a t f m => (a, store_at MODULE_OFF (m ++ [0]) (store_at 0 (f ++ [0]) (store_at TYPE_OFF [t] img)))
  end.

Definition CHAR_t : Z := 116.
Definition CHAR_T : Z := 84.

(** The loop of [load_ksyms]. [wr] holds the errno of each [write] that fails
    ([None] for one that succeeds; an exhausted list means success); the
    result is the return value and the cells in the file. *)
Fixpoint load_loop (stack_only : bool) (lines : list scanned) (wr : list (option Z))
    (v : Z * list Z) (count : Z) (file : list ksym_cell) : Z * list ksym_cell :=
  match lines with
  | [] => (count, file)
  | l :: lines' =>
      let ret := scan_ret l in
      let '(a, img) := scan_store l v in
      if ret <? 3 then (ret, file)
      else
        let img := if ret =? 3 then store_at MODULE_OFF [0] img else img in
        if a =? 0 then load_loop stack_only lines' wr (a, img) count file
        else if stack_only && negb (cell_type img =? CHAR_t) && negb (cell_type img =? CHAR_T) then
          load_loop stack_only lines' wr (a, img) count file
        else
          match wr with
          | Some errno :: _ => (-1, file)
          | _ => load_loop stack_only lines' (tail wr) (a, img) (i32 (count + 1)) (file ++ [Cell a img])
          end
  end.

(** The environment of one call of [ksym_setup]: whether the two opens, the
    [fstat] and the [mmap] fail (with their errno), the lines, the writes, and
    what the uninitialised [cell] holds. *)
Record ksym_env := Env {
  e_tmpfile : option Z; e_fopen : option Z; e_fstat : option Z; e_mmap : bool;
  e_lines : list scanned; e_wr : list (option Z); e_junk : Z * list Z;
}.

Definition load_ksyms (env : ksym_env) (stack_only : bool) : Z * list ksym_cell :=
  match e_fopen env with
  | Some errno => (- errno, [])
  | None => load_loop stack_only (e_lines env) (e_wr env) (e_junk env) 0 []
  end.

Definition sym_cmp (p1 p2 : ksym_cell) : Z := if addr p2 <? addr p1 then 1 else 0.

(** [sym_cnt] and [gCell]. *)
Record ksym_state := KsymState { sym_cnt : Z; gCell : list ksym_cell }.
Definition ksym_state0 : ksym_state := KsymState 0 [].

(** A call returns a value and the new state, or faults. *)
Inductive outcome := Returns (ret : Z) (s : ksym_state) | Faults.

(** A failed [mmap] returns [MAP_FAILED], which the code takes for a mapping;
    [qsort] faults when it touches it, or cells past the end of the file. *)
Definition sort_ksym (env : ksym_env) (file : list ksym_cell) (count : Z) (s : ksym_state) : outcome :=
  match e_fstat env with
  | Some _ => Returns (-1) s
  | None =>
      let mapped := if e_mmap env || (zlen file =? 0) then [] else file in
      if zlen mapped <? count then Faults
      else Returns 0 (KsymState (sym_cnt s)
                        (qsort sym_cmp (take (Z.to_nat count) mapped) ++ drop (Z.to_nat count) mapped))
  end.

Definition ksym_setup (env : ksym_env) (stack_only : bool) (s : ksym_state) : outcome :=
  match e_tmpfile env with
  | Some errno => Returns (- errno) s
  | None =>
      let '(ret, file) := load_ksyms env stack_only in
      if ret <? 0 then Returns ret s
      else sort_ksym env file ret (KsymState ret (gCell s))
  end.

(** ** The search *)

(** The addresses of the array; [past] is what lies behind its last cell. *)
Definition addr_at (past : Z) (cells : list ksym_cell) (i : Z) : Z :=
  match cells !! Z.to_nat i with Some c => addr c | None => past end.

Inductive search_res := Found (mid : Z) | Ended (start : Z) | OutOfFuel.

Fixpoint search_loop (fuel : nat) (past : Z) (cells : list ksym_cell) (key start end_ : Z) : search_res :=
  match fuel with
  | O => OutOfFuel
  | S fuel' =>
      if start <? end_ then
        let mid := start + (end_ - start) ÷ 2 in
        if key <? addr_at past cells mid then search_loop fuel' past cells key start mid
        else if addr_at past cells mid <? key then search_loop fuel' past cells key (mid + 1) end_
        else Found mid
      else Ended start
  end.

(** The index of the cell [ksym_search] returns; [None] is NULL. At the end of
    the loop [start] and [end] are equal. *)
Definition ksym_search (past : Z) (s : ksym_state) (key : Z) : option (option Z) :=
  if sym_cnt s <=? 0 then Some None
  else
    match search_loop (S (Z.to_nat (sym_cnt s))) past (gCell s) key 0 (sym_cnt s) with
    | OutOfFuel => None
    | Found mid => Some (Some mid)
    | Ended start =>
        if (0 <? start) && (addr_at past (gCell s) (start - 1) <? key)
           && (key <? addr_at past (gCell s) start)
        then Some (Some (start - 1))
        else if start =? sym_cnt s then Some (Some (start - 1))
        else Some None
    end.

(** ** The search finds the symbol that covers an address *)

Definition sorted (cells : list ksym_cell) : Prop :=
  ∀ (i j : nat) c d, (i ≤ j)%nat → cells !! i = Some c → cells !! j = Some d → addr c ≤ addr d.

Section search.
Context (past : Z) (cells : list ksym_cell) (key : Z) (Hsorted : sorted cells).
Abbreviation A := (addr_at past cells).
Abbreviation cnt := (zlen cells).

Lemma addr_at_mono i j : 0 ≤ i ≤ j → j < cnt → A i ≤ A j.
Proof using Hsorted.
  intros Hi Hj. unfold addr_at, zlen in *.
  destruct (lookup_lt_is_Some_2 cells (Z.to_nat i)) as [c Hc]; [lia|].
  destruct (lookup_lt_is_Some_2 cells (Z.to_nat j)) as [d Hd]; [lia|].
  rewrite Hc, Hd. apply (Hsorted (Z.to_nat i) (Z.to_nat j)); [lia|done..].
Qed.

(** Every cell before [start] is below the key and every cell from [end] on
    above it; the loop ends within [end - start] rounds. *)
Lemma search_loop_spec fuel start end_ :
  0 ≤ start ≤ end_ → end_ ≤ cnt → end_ - start < Z.of_nat fuel →
  (∀ i, 0 ≤ i < start → A i < key) → (∀ i, end_ ≤ i < cnt → key < A i) →
  match search_loop fuel past cells key start end_ with
  | Found mid => 0 ≤ mid < cnt ∧ A mid = key
  | Ended k => 0 ≤ k ≤ cnt ∧ (∀ i, 0 ≤ i < k → A i < key) ∧ (∀ i, k ≤ i < cnt → key < A i)
  | OutOfFuel => False
  end.
Proof using Hsorted.
  revert start end_; induction fuel as [|fuel IH]; intros start end_ Hs He Hf Hlo Hhi; [lia|]. simpl.
  destruct (Z.ltb_spec start end_).
  - rewrite Z.quot_div_nonneg by lia. set (mid := start + (end_ - start) / 2).
    assert (start ≤ mid < end_) as Hmid.
    { subst mid. split; [|]; Z.div_mod_to_equations; lia. }
    destruct (Z.ltb_spec key (A mid)); [|destruct (Z.ltb_spec (A mid) key); [|split; lia]].
    + apply IH; try lia; [done|]. intros i Hi. pose proof (addr_at_mono mid i). lia.
    + apply IH; try lia; [|done]. intros i Hi. pose proof (addr_at_mono i mid). lia.
  - assert (start = end_) as <- by lia. split; [lia|done].
Qed.
End search.

(** The symbol that covers [key]: the highest address not above it. *)
Definition covers (cells : list ksym_cell) (key : Z) (r : option Z) : Prop :=
  match r with
  | Some i => ∃ c, cells !! Z.to_nat i = Some c ∧ 0 ≤ i ∧ addr c ≤ key ∧
                ∀ d, d ∈ cells → addr d ≤ key → addr d ≤ addr c
  | None => ∀ d, d ∈ cells → key < addr d
  end.

Lemma covers_at past cells key i :
  0 ≤ i < zlen cells → addr_at past cells i ≤ key →
  (∀ j, 0 ≤ j < zlen cells → addr_at past cells j ≤ key → addr_at past cells j ≤ addr_at past cells i) →
  covers cells key (Some i).
Proof.
  intros Hi Hk Hmax. unfold addr_at, zlen in *.
  destruct (lookup_lt_is_Some_2 cells (Z.to_nat i)) as [c Hc]; [lia|]. rewrite Hc in *.
  exists c. split_and!; [done|lia|done|]. intros d [j Hd]%list_elem_of_lookup Hdk.
  pose proof (lookup_lt_Some _ _ _ Hd). specialize (Hmax (Z.of_nat j)).
  rewrite Nat2Z.id, Hd in Hmax. apply Hmax; lia.
Qed.

Lemma ksym_search_spec past cells key :
  sorted cells →
  ∃ r, ksym_search past (KsymState (zlen cells) cells) key = Some r ∧ covers cells key r.
Proof.
  intros Hs. unfold ksym_search. cbn [sym_cnt gCell].
  destruct (Z.leb_spec (zlen cells) 0) as [H0|H0].
  { exists None. split; [done|]. destruct cells; [by intros d ?%not_elem_of_nil|].
    rewrite zlen_cons in H0. pose proof (zlen_nonneg cells). lia. }
  pose proof (search_loop_spec past cells key Hs (S (Z.to_nat (zlen cells))) 0 (zlen cells)) as H.
  specialize (H ltac:(lia) ltac:(lia) ltac:(lia) ltac:(lia) ltac:(lia)).
  destruct (search_loop _ _ _ _ _ _) as [mid|k|]; [..|done].
  { destruct H as [Hm Hk]. eexists. split; [done|]. apply (covers_at past); lia. }
  destruct H as (Hk & Hlo & Hhi). destruct (Z.ltb_spec 0 k); simpl.
  - assert (covers cells key (Some (k - 1))) as Hc.
    { apply (covers_at past); [lia|specialize (Hlo (k - 1)); lia|]. intros j Hj Hjk.
      apply (addr_at_mono past cells Hs); [|lia]. specialize (Hhi j). lia. }
    rewrite (proj2 (Z.ltb_lt _ _)) by (apply Hlo; lia). simpl.
    destruct (Z.ltb_spec key (addr_at past cells k)) as [|Hp]; [by eexists|].
    destruct (Z.eqb_spec k (zlen cells)); [by eexists|]. specialize (Hhi k). lia.
  - rewrite (proj2 (Z.eqb_neq _ _)) by lia. eexists. split; [done|].
    intros d [j Hd]%list_elem_of_lookup. pose proof (lookup_lt_Some _ _ _ Hd).
    specialize (Hhi (Z.of_nat j)). unfold addr_at, zlen in Hhi. rewrite Nat2Z.id, Hd in Hhi.
    apply Hhi. lia.
Qed.

(** ** From the lines to the table *)

(** A symbol as the file shows it: address, name and type. *)
Definition sym : Type := Z * list Z * Z.
Definition sym_of (c : ksym_cell) : sym := (addr c, c_str 64 (image c), cell_type (image c)).

(** The names fit the fields with their terminating 0. *)
Definition name_ok (n : nat) (f : list Z) : Prop := Forall (λ x, x ≠ 0) f ∧ (length f < n)%nat.

(** A well-formed line that shows symbol [x]. *)
Inductive shows : scanned → sym → Prop :=
  | shows3 a t f : name_ok 64 f → shows (S3 a t f) (a, f, t)
  | shows4 a t f m : name_ok 64 f → name_ok 31 m → shows (S4 a t f m) (a, f, t).

(** The symbols [load_ksyms] keeps. *)
Definition wanted (stack_only : bool) (x : sym) : Prop :=
  x.1.1 ≠ 0 ∧ (stack_only = true → x.2 = CHAR_t ∨ x.2 = CHAR_T).
#[global] Instance wanted_dec so x : Decision (wanted so x).
Proof. unfold wanted. destruct so; solve_decision. Defined.

Lemma length_store_at off bs img :
  (off + length bs ≤ length img)%nat → length (store_at off bs img) = length img.
Proof. intros. unfold store_at. rewrite !length_app, length_take, length_drop. lia. Qed.

Lemma nth_store_at off bs img i :
  (off + length bs ≤ length img)%nat →
  nth i (store_at off bs img) 0
  = if (i <? off)%nat then nth i img 0
    else if (i <? off + length bs)%nat then nth (i - off) bs 0 else nth i img 0.
Proof.
  intros H. unfold store_at.
  destruct (Nat.ltb_spec i off).
  - rewrite app_nth1 by (rewrite length_take; lia). rewrite !nth_lookup, lookup_take_lt by lia. done.
  - rewrite app_nth2, length_take, Nat.min_l by (rewrite ?length_take; lia).
    destruct (Nat.ltb_spec i (off + length bs)).
    + by rewrite app_nth1 by lia.
    + rewrite app_nth2 by lia. rewrite !nth_lookup, lookup_drop. do 2 f_equal. lia.
Qed.

Lemma c_str_store f img n :
  name_ok n f → (n ≤ length img)%nat → c_str n (store_at 0 (f ++ [0]) img) = f.
Proof.
  unfold store_at. simpl. intros [Hf Hn] _. generalize (drop (length (f ++ [0])) img). intros r.
  rewrite <-app_assoc. revert n Hn. induction Hf as [|x f Hx _ IH]; intros [|n] Hn; simpl in *; try lia; [done|].
  rewrite (proj2 (Z.eqb_neq _ _)) by done. f_equal. apply IH. lia.
Qed.

Lemma nth_tail (l : list Z) i : nth i (tail l) 0 = nth (S i) l 0.
Proof. destruct l; [by destruct i|done]. Qed.

Lemma c_str_ext n l k : (∀ i, (i < n)%nat → nth i l 0 = nth i k 0) → c_str n l = c_str n k.
Proof.
  revert l k; induction n as [|n IH]; intros l k H; [done|].
  pose proof (H 0%nat ltac:(lia)) as H0.
  assert (c_str n (tail l) = c_str n (tail k)) as IH'.
  { apply IH. intros i Hi. rewrite !nth_tail. apply H. lia. }
  destruct l as [|x l], k as [|y k]; simpl in *; subst; by rewrite ?IH'.
Qed.

#[local] Arguments c_str : simpl never.

(** What a line leaves in [cell]. *)
Definition line_image (l : scanned) (img : list Z) : list Z :=
  let img' := (scan_store l (0, img)).2 in
  if scan_ret l =? 3 then store_at MODULE_OFF [0] img' else img'.

Ltac store_lia :=
  unfold MODULE_OFF, TYPE_OFF in *; rewrite ?length_store_at, ?length_app; simpl;
  rewrite ?length_store_at, ?length_app; simpl; lia.

(** Storing behind the first [n] bytes keeps the string in them. *)
Lemma c_str_store_ge n off bs img :
  (n ≤ off)%nat → (off + length bs ≤ length img)%nat → c_str n (store_at off bs img) = c_str n img.
Proof.
  intros Hn Hb. apply c_str_ext. intros i Hi. rewrite nth_store_at by done.
  by rewrite (proj2 (Nat.ltb_lt _ _)) by lia.
Qed.

Lemma cell_type_store off bs img :
  (off + length bs ≤ TYPE_OFF)%nat → length img = 96%nat → cell_type (store_at off bs img) = cell_type img.
Proof.
  intros Hb Hl. unfold cell_type. rewrite nth_store_at by store_lia.
  rewrite (proj2 (Nat.ltb_ge _ _)), (proj2 (Nat.ltb_ge _ _)); [done|lia..].
Qed.

Lemma line_image_ok l x img :
  shows l x → length img = 96%nat →
  length (line_image l img) = 96%nat ∧ c_str 64 (line_image l img) = x.1.2 ∧
  cell_type (line_image l img) = x.2.
Proof.
  intros Hl Hlen. set (i1 := λ t, store_at TYPE_OFF [t] img).
  assert (∀ t, length (i1 t) = 96%nat ∧ cell_type (i1 t) = t) as H1.
  { intros t. subst i1. simpl. split; [store_lia|].
    unfold cell_type. rewrite nth_store_at by store_lia. done. }
  assert (∀ t f, name_ok 64 f → let i2 := store_at 0 (f ++ [0]) (i1 t) in
    length i2 = 96%nat ∧ cell_type i2 = t ∧ c_str 64 i2 = f) as H2.
  { intros t f Hf. destruct (H1 t) as [Hl1 Ht]. pose proof Hf as [_ Hf']. simpl. split_and!.
    - rewrite length_store_at; store_lia.
    - rewrite cell_type_store; [done|store_lia|done].
    - apply c_str_store; [done|lia]. }
  destruct Hl as [a t f Hf|a t f m Hf [_ Hm]]; destruct (H2 t f Hf) as (Hl2 & Ht & Hs);
    unfold line_image; simpl; fold (i1 t);
    rewrite length_store_at, c_str_store_ge, cell_type_store;
    first [done|rewrite ?Hl2; store_lia].
Qed.

(** One well-formed line. *)
Lemma load_loop_line so l x rest v count file :
  shows l x → length v.2 = 96%nat →
  load_loop so (l :: rest) [] v count file
  = (if decide (wanted so x)
     then load_loop so rest [] (x.1.1, line_image l v.2) (i32 (count + 1))
            (file ++ [Cell x.1.1 (line_image l v.2)])
     else load_loop so rest [] (x.1.1, line_image l v.2) count file).
Proof.
  intros Hl Hlen. destruct (line_image_ok l x v.2 Hl Hlen) as (_ & _ & Ht).
  assert (∃ img, scan_store l v = (x.1.1, img) ∧ 3 ≤ scan_ret l ∧
    (if scan_ret l =? 3 then store_at MODULE_OFF [0] img else img) = line_image l v.2)
    as (img & Hs & H3 & Hi) by (destruct v; inversion Hl; subst; by eexists).
  simpl load_loop. rewrite Hs, (proj2 (Z.ltb_ge _ _)) by lia. rewrite Hi, Ht.
  unfold wanted. destruct (Z.eqb_spec x.1.1 0) as [H0|H0]; [by rewrite decide_False by tauto|].
  destruct so; simpl.
  - destruct (Z.eqb_spec x.2 CHAR_t), (Z.eqb_spec x.2 CHAR_T); simpl;
      [rewrite decide_True by tauto; done..|rewrite decide_False by tauto; done].
  - by rewrite decide_True.
Qed.

Lemma load_loop_good so lines xs rest v count file :
  Forall2 shows lines xs → length v.2 = 96%nat →
  0 ≤ count → count + zlen xs < 2 ^ 31 →
  ∃ v' cells,
    load_loop so (lines ++ rest) [] v count file
    = load_loop so rest [] v' (count + zlen cells) (file ++ cells) ∧
    map sym_of cells = filter (wanted so) xs ∧ length v'.2 = 96%nat.
Proof.
  intros Hl. revert v count file.
  induction Hl as [|l x lines xs Hl _ IH]; intros v count file Hv Hc Hlt.
  { exists v, []. by rewrite Z.add_0_r, app_nil_r. }
  destruct (line_image_ok l x v.2 Hl Hv) as (Hi & Hn & Ht).
  rewrite zlen_cons in Hlt. pose proof (zlen_nonneg xs). simpl app.
  rewrite (load_loop_line so l x) by done. destruct (decide (wanted so x)) as [Hw|Hw].
  - rewrite swrap_small by (simpl Z.sub; lia).
    destruct (IH (x.1.1, line_image l v.2) (count + 1) (file ++ [Cell x.1.1 (line_image l v.2)]))
      as (v' & cells & -> & Hm & Hv'); [done|lia..|].
    exists v', (Cell x.1.1 (line_image l v.2) :: cells). split_and!; [|..|done].
    + rewrite zlen_cons, <-app_assoc. f_equal. lia.
    + rewrite filter_cons_True by done. simpl. rewrite Hm. f_equal. unfold sym_of. simpl.
      rewrite Hn, Ht. by destruct x as [[??]?].
  - destruct (IH (x.1.1, line_image l v.2) count file) as (v' & cells & -> & Hm & Hv'); [done|lia..|].
    exists v', cells. by rewrite filter_cons_False.
Qed.

(** ** Setup and search together *)

Lemma sym_cmp_le a b : sym_cmp a b ≤ 0 ↔ addr a ≤ addr b.
Proof. unfold sym_cmp. destruct (Z.ltb_spec (addr b) (addr a)); lia. Qed.

Lemma sorted_of_StronglySorted l : StronglySorted (λ a b, addr a ≤ addr b) l → sorted l.
Proof.
  induction 1 as [|c l _ IH Hc]; intros i j a b Hij Ha Hb; [done|].
  destruct i as [|i], j as [|j]; simpl in *; simplify_eq; try lia.
  - rewrite Forall_lookup in Hc. by apply (Hc j).
  - apply (IH i j); [lia|done..].
Qed.

Lemma qsort_cells l : qsort sym_cmp l ≡ₚ l ∧ sorted (qsort sym_cmp l).
Proof.
  split; [apply qsort_perm|]. apply sorted_of_StronglySorted, qsort_ascending, sym_cmp_le.
Qed.

(** An environment in which no call fails. *)
Definition good_env (lines : list scanned) (junk : Z * list Z) : ksym_env :=
  Env None None None false lines [] junk.

(** C7: Setup and search. When no call fails and every line of the symbol file
    is well formed, [ksym_setup] succeeds with a table that holds exactly the
    wanted symbols (address, name and type), and afterwards [ksym_search]
    returns, for every address, the symbol with the highest address not above
    it, or NULL when every symbol is above it. *)
Theorem ksym_lookup so lines xs junk s0 :
  Forall2 shows lines xs → length junk.2 = 96%nat → zlen xs < 2 ^ 31 →
  ∃ s, ksym_setup (good_env lines junk) so s0 = Returns 0 s ∧
    map sym_of (gCell s) ≡ₚ filter (wanted so) xs ∧
    ∀ past key, ∃ r, ksym_search past s key = Some r ∧ covers (gCell s) key r.
Proof.
  intros Hl Hj Hx.
  destruct (load_loop_good so lines xs [] junk 0 []) as (v' & cells & Hload & Hm & _); [done..|].
  rewrite app_nil_r, Z.add_0_l in Hload. simpl in Hload. pose proof (zlen_nonneg cells).
  destruct (qsort_cells cells) as [Hp Hs].
  exists (KsymState (zlen cells) (qsort sym_cmp cells)). split_and!.
  - unfold ksym_setup, load_ksyms, sort_ksym. simpl. rewrite Hload. zif. simpl.
    assert ((if zlen cells =? 0 then [] else cells) = cells) as ->.
    { destruct cells; [done|]. rewrite zlen_cons. pose proof (zlen_nonneg cells). by zif. }
    rewrite Z.ltb_irrefl. unfold zlen. rewrite Nat2Z.id, firstn_all, drop_all, app_nil_r. done.
  - simpl. rewrite <-Hm. by apply Permutation_map.
  - intros past key. replace (zlen cells) with (zlen (qsort sym_cmp cells)).
    + by apply ksym_search_spec.
    + unfold zlen. by rewrite Hp.
Qed.

(** A malformed line is not reported. When [sscanf] converts only 0, 1 or 2
    fields of a line, [load_ksyms] returns that small number and [ksym_setup]
    takes it for the number of symbols: it succeeds and keeps at most two of
    the symbols read so far, or faults when fewer than that were read. *)
Theorem ksym_bad_line so lines xs bad rest junk s0 :
  Forall2 shows lines xs → length junk.2 = 96%nat → zlen xs < 2 ^ 31 → 0 ≤ scan_ret bad < 3 →
  if zlen (filter (wanted so) xs) <? scan_ret bad
  then ksym_setup (good_env (lines ++ bad :: rest) junk) so s0 = Faults
  else ∃ s, ksym_setup (good_env (lines ++ bad :: rest) junk) so s0 = Returns 0 s ∧
         sym_cnt s = scan_ret bad.
Proof.
  intros Hl Hj Hx Hb.
  destruct (load_loop_good so lines xs (bad :: rest) junk 0 []) as (v' & cells & Hload & Hm & _); [done..|].
  assert (load_loop so (bad :: rest) [] v' (0 + zlen cells) ([] ++ cells) = (scan_ret bad, cells)) as Hbad.
  { simpl. destruct (scan_store bad v'). by zif. }
  rewrite Hbad in Hload. unfold ksym_setup, load_ksyms, sort_ksym. simpl. rewrite Hload. zif. simpl.
  assert ((if zlen cells =? 0 then [] else cells) = cells) as ->.
  { destruct cells; [done|]. rewrite zlen_cons. pose proof (zlen_nonneg cells). by zif. }
  assert (zlen (filter (wanted so) xs) = zlen cells) as ->.
  { unfold zlen. by rewrite <-Hm, length_map. }
  case_match; [done|]. by eexists.
Qed.

(** A module name of 31 characters or more (cut to 31 by the scan) puts its
    terminating 0 on [type]: the symbol is not kept when only text symbols are
    wanted, whatever its type. *)
Lemma ksym_long_module a t f m rest wr v count file :
  (length f ≤ 64)%nat → length m = 31%nat → length v.2 = 96%nat →
  ∃ v', load_loop true (S4 a t f m :: rest) wr v count file = load_loop true rest wr v' count file.
Proof.
  intros Hf Hm Hv. destruct v as [a0 img]. simpl in *.
  set (i2 := store_at 0 (f ++ [0]) (store_at TYPE_OFF [t] img)).
  assert (length i2 = 96%nat) as H2.
  { subst i2. rewrite length_store_at; rewrite ?length_store_at, ?length_app; unfold TYPE_OFF; simpl; lia. }
  assert (cell_type (store_at MODULE_OFF (m ++ [0]) i2) = 0) as Ht.
  { unfold cell_type. rewrite nth_store_at by (unfold MODULE_OFF; rewrite length_app; simpl; lia).
    unfold MODULE_OFF, TYPE_OFF. rewrite length_app, Hm. simpl.
    by rewrite app_nth2, Hm by (rewrite Hm; lia). }
  rewrite Ht. simpl. destruct (a =? 0); by eexists.
Qed.

(** Two text symbols and a data symbol. *)
Definition k_lines : list scanned := [S3 5000 CHAR_T [115]; S3 1000 CHAR_t [97]; S4 3000 100 [98] [91; 109; 93]].
Definition k_syms : list sym := [(5000, [115], CHAR_T); (1000, [97], CHAR_t); (3000, [98], 100)].
Definition k_junk : Z * list Z := (0, replicate 96 0).

Lemma k_shows : Forall2 shows k_lines k_syms.
Proof. repeat constructor; simpl; lia || done. Qed.

Lemma ksym_lookup_witness :
  ∃ s, ksym_setup (good_env k_lines k_junk) true ksym_state0 = Returns 0 s ∧
    map sym_of (gCell s) ≡ₚ [(5000, [115], CHAR_T); (1000, [97], CHAR_t)] ∧
    ∀ past key, ∃ r, ksym_search past s key = Some r ∧ covers (gCell s) key r.
Proof.
  apply (ksym_lookup true k_lines k_syms k_junk ksym_state0 k_shows); reflexivity.
Defined.

Lemma ksym_bad_line_witness :
  ∃ s, ksym_setup (good_env (k_lines ++ [S1 7]) k_junk) false ksym_state0 = Returns 0 s ∧ sym_cnt s = 1.
Proof.
  apply (ksym_bad_line false k_lines k_syms (S1 7) [] k_junk ksym_state0 k_shows);
    [reflexivity..|vm_compute; split; congruence].
Defined.
