(* ===== verification/Workq.v ===== *)
(** * Workq: latency and run time of work items

    The BPF programs of [detect/sched/workqlatency/bpf/workqlatency.bpf.c].
    A work item is timed from its start to its end, and from its activation to
    its start; each stopwatch is an entry keyed by CPU and item, created with
    [BPF_NOEXIST] and removed when it is read. The specification reads the
    stopwatch off the history of the trace. *)

From S2P Require Import Prelude Bpf.

Definition KWORK_COUNT : nat := Z.to_nat 1000.
Definition KWORK_CLASS_WORKQUEUE : Z := 2.

(** [struct work_key]: type, cpu, id. *)
Definition work_key : Type := Z * Z * Z.

Record report_data := ReportData {
  r_nr : Z; r_cpuid : Z; r_total_time : Z; r_max_time : Z;
  r_max_time_start : Z; r_max_time_end : Z; r_name_addr : Z;
}.

(** [args_map] holds the threshold. *)
Record wq_maps := WqMaps {
  args_map : gmap Z Z;
  runtime_kwork_report : gmap work_key report_data;
  latency_kwork_report : gmap work_key report_data;
}.
Definition set_runtime m s := WqMaps (args_map s) m (latency_kwork_report s).
Definition set_latency m s := WqMaps (args_map s) (runtime_kwork_report s) m.

Inductive channel := runtime_events | latency_events.

Definition key_of (c : bctx) (work : Z) : work_key := (KWORK_CLASS_WORKQUEUE, u32 (c_cpu c), u64 work).

Definition report_workqueue_execute_start (c : bctx) (work func : Z) (s : wq_maps) : wq_maps :=
  set_runtime (map_update KWORK_COUNT BPF_NOEXIST (key_of c work)
    (ReportData 0 (c_cpu c) 0 0 (c_now c) 0 func) (runtime_kwork_report s)).2 s.

(** The stopwatch [data] is read: the event, when it is over the threshold, and
    whether the entry is deleted. [rename] is what the latency program stores
    as the function. *)
Definition finish (c : bctx) (thresh : Z) (rename : option Z) (data : report_data)
    : option (list report_data) :=
  let now := c_now c in
  let delta := i64 (now - r_max_time_start data) in
  if delta <? 0 then None
  else Some
    (if thresh <? u64 delta then
       let longest := (r_max_time data <? u64 delta) || (r_max_time data =? 0) in
       [ReportData (u64 (r_nr data + 1)) (r_cpuid data) (u64 (r_total_time data + delta))
          (if longest then u64 delta else r_max_time data) (r_max_time_start data)
          (if longest then now else r_max_time_end data)
          (default (r_name_addr data) rename)]
     else []).

Definition report_workqueue_execute_end (c : bctx) (work : Z) (s : wq_maps)
    : wq_maps * list (channel * report_data) :=
  match args_map s !! 0 with
  | None => (s, [])
  | Some thresh =>
      match runtime_kwork_report s !! key_of c work with
      | None => (s, [])
      | Some data =>
          match finish c thresh None data with
          | None => (s, [])
          | Some evs => (set_runtime (delete (key_of c work) (runtime_kwork_report s)) s,
                         pair runtime_events <$> evs)
          end
      end
  end.

Definition latency_workqueue_activate_work (c : bctx) (work : Z) (s : wq_maps) : wq_maps :=
  set_latency (map_update KWORK_COUNT BPF_NOEXIST (key_of c work)
    (ReportData 0 (c_cpu c) 0 0 (c_now c) 0 0) (latency_kwork_report s)).2 s.

Definition latency_workqueue_execute_start (c : bctx) (work func : Z) (s : wq_maps)
    : wq_maps * list (channel * report_data) :=
  match args_map s !! 0 with
  | None => (s, [])
  | Some thresh =>
      match latency_kwork_report s !! key_of c work with
      | None => (s, [])
      | Some data =>
          match finish c thresh (Some func) data with
          | None => (s, [])
          | Some evs => (set_latency (delete (key_of c work) (latency_kwork_report s)) s,
                         pair latency_events <$> evs)
          end
      end
  end.

(** The tracepoints; both programs are attached to [workqueue_execute_start]. *)
Inductive wq_in :=
  | Activate (c : bctx) (work : Z)
  | ExecStart (c : bctx) (work func : Z)
  | ExecEnd (c : bctx) (work : Z).

#[global] Instance wq_tracer : Tracer wq_maps wq_in (channel * report_data) := λ i s,
  match i with
  | Activate c work => (latency_workqueue_activate_work c work s, [])
  | ExecStart c work func =>
      latency_workqueue_execute_start c work func (report_workqueue_execute_start c work func s)
  | ExecEnd c work => report_workqueue_execute_end c work s
  end.

#[global] Instance wq_ctx : HasCtx wq_in := λ i,
  match i with Activate c _ | ExecStart c _ _ | ExecEnd c _ => c end.

(** ** Specification

    What an input does to a stopwatch: begin it with what it records, or read
    it with the function to report. *)

Inductive watch := Begin (k : work_key) (d : report_data) | Stop (k : work_key) (rename : option Z).

Definition watch_of (ch : channel) (i : wq_in) : option watch :=
  match ch, i with
  | runtime_events, ExecStart c w f => Some (Begin (key_of c w) (ReportData 0 (c_cpu c) 0 0 (c_now c) 0 f))
  | runtime_events, ExecEnd c w => Some (Stop (key_of c w) None)
  | latency_events, Activate c w => Some (Begin (key_of c w) (ReportData 0 (c_cpu c) 0 0 (c_now c) 0 0))
  | latency_events, ExecStart c w f => Some (Stop (key_of c w) (Some f))
  | _, _ => None
  end.

(** The entry of the stopwatch [k]: the first begin since it was last read;
    [hist] is the past, latest first. *)
Fixpoint running (ch : channel) (k : work_key) (hist : list wq_in) : option report_data :=
  match hist with
  | [] => None
  | i :: hist' =>
      match watch_of ch i with
      | Some (Begin k' d) =>
          if decide (k' = k) then Some (default d (running ch k hist')) else running ch k hist'
      | Some (Stop k' _) => if decide (k' = k) then None else running ch k hist'
      | None => running ch k hist'
      end
  end.

(** The report of a stopwatch that has run for longer than the threshold. *)
Definition report (c : bctx) (thresh : Z) (rename : option Z) (d : report_data) : list report_data :=
  let delta := c_now c - r_max_time_start d in
  if thresh <? delta
  then [ReportData 1 (r_cpuid d) delta delta (r_max_time_start d) (c_now c) (default (r_name_addr d) rename)]
  else [].

Definition wq_spec_step (thresh : Z) (ch : channel) (hist : list wq_in) (i : wq_in)
    : list (channel * report_data) :=
  match watch_of ch i with
  | Some (Stop k rename) =>
      match running ch k hist with
      | Some d => pair ch <$> report (ctx_of i) thresh rename d
      | None => []
      end
  | _ => []
  end.

Fixpoint wq_spec (thresh : Z) (hist tr : list wq_in) : list (channel * report_data) :=
  match tr with
  | [] => []
  | i :: tr' =>
      wq_spec_step thresh runtime_events hist i ++ wq_spec_step thresh latency_events hist i
      ++ wq_spec thresh (i :: hist) tr'
  end.

(** ** Simulation *)

(** An entry as it is while its stopwatch runs. *)
Definition fresh (now : Z) (d : report_data) : Prop :=
  r_nr d = 0 ∧ r_total_time d = 0 ∧ r_max_time d = 0 ∧ 0 ≤ r_max_time_start d ≤ now.

(** The table of a channel. *)
Definition table (ch : channel) (s : wq_maps) : gmap work_key report_data :=
  match ch with runtime_events => runtime_kwork_report s | latency_events => latency_kwork_report s end.

Record table_ok (P : gset work_key) (ch : channel) (now : Z) (hist : list wq_in)
    (m : gmap work_key report_data) : Prop := {
  tb_running : ∀ k, m !! k = running ch k hist;
  tb_keys : dom m ⊆ P;
  tb_fresh : ∀ k d, m !! k = Some d → fresh now d;
}.

Lemma fresh_mono now now' d : fresh now d → now ≤ now' → fresh now' d.
Proof. unfold fresh. intros. lia. Qed.

(** On a running stopwatch, and with a clock that has not wrapped, [finish]
    deletes the entry and gives the report. *)
Lemma finish_spec c thresh rename d :
  0 ≤ thresh → fresh (c_now c) d → c_now c < 2 ^ 63 →
  finish c thresh rename d = Some (report c thresh rename d).
Proof.
  intros Ht (Hn & Htot & Hm & Hs) Hc. unfold finish, report.
  rewrite swrap_small by (simpl Z.sub; lia). rewrite wrap_small by (eval_pow2; lia).
  rewrite (proj2 (Z.ltb_ge _ 0)) by lia. rewrite Hn, Htot, Hm.
  destruct (Z.ltb_spec thresh (c_now c - r_max_time_start d)); [|done].
  rewrite orb_true_r, Z.add_0_l, !wrap_small; [done|eval_pow2; lia..].
Qed.

Section table.
Context (P : gset work_key) (HP : (size P ≤ KWORK_COUNT)%nat) (ch : channel).
Implicit Types (hist : list wq_in).

Lemma table_begin now now' hist i m k d :
  table_ok P ch now hist m → now ≤ now' → watch_of ch i = Some (Begin k d) →
  k ∈ P → fresh now' d →
  table_ok P ch now' (i :: hist) (map_update KWORK_COUNT BPF_NOEXIST k d m).2.
Proof using HP.
  intros [Hr Hk Hf] Hnow Hi HkP Hd. unfold map_update.
  destruct (m !! k) as [d0|] eqn:Hmk.
  - split; [|done|by intros; eapply fresh_mono; eauto].
    intros k'. simpl. rewrite Hi. case_decide; [|done]. subst. by rewrite <-Hr, Hmk.
  - rewrite (proj2 (Nat.leb_gt _ _)) by (by eapply map_room_set).
    split; simpl.
    + intros k'. rewrite Hi. case_decide as Hkk; [|by rewrite lookup_insert_ne].
      subst. rewrite lookup_insert_eq, <-Hr, Hmk. done.
    + rewrite dom_insert. set_solver.
    + intros k' d'. destruct (decide (k = k')) as [<-|].
      * rewrite lookup_insert_eq. by intros [= <-].
      * rewrite lookup_insert_ne by done. intros. eapply fresh_mono; eauto.
Qed.

Lemma table_stop now now' hist i m k rename :
  table_ok P ch now hist m → now ≤ now' → watch_of ch i = Some (Stop k rename) →
  table_ok P ch now' (i :: hist) (delete k m).
Proof.
  intros [Hr Hk Hf] Hnow Hi. split.
  - intros k'. simpl. rewrite Hi. case_decide as Hkk.
    + subst. apply lookup_delete_eq.
    + by rewrite lookup_delete_ne.
  - rewrite dom_delete. set_solver.
  - intros k' d Hd. apply lookup_delete_Some in Hd as [_ Hd]. eapply fresh_mono; eauto.
Qed.

Lemma table_idle now now' hist i m :
  table_ok P ch now hist m → now ≤ now' → watch_of ch i = None →
  table_ok P ch now' (i :: hist) m.
Proof.
  intros [Hr Hk Hf] Hnow Hi. split; [|done|intros; eapply fresh_mono; eauto].
  intros k. simpl. by rewrite Hi.
Qed.
End table.

Definition work_of (i : wq_in) : Z := match i with Activate _ w | ExecStart _ w _ | ExecEnd _ w => w end.

(** The items and the clock of an input are in range. *)
Definition wq_input (P : gset work_key) (i : wq_in) : Prop :=
  key_of (ctx_of i) (work_of i) ∈ P ∧ c_now (ctx_of i) < 2 ^ 63.

Record wq_ok (P : gset work_key) (thresh now : Z) (hist : list wq_in) (s : wq_maps) : Prop := {
  wo_thresh : args_map s !! 0 = Some thresh;
  wo_runtime : table_ok P runtime_events now hist (runtime_kwork_report s);
  wo_latency : table_ok P latency_events now hist (latency_kwork_report s);
}.

Section steps.
Context (P : gset work_key) (HP : (size P ≤ KWORK_COUNT)%nat) (thresh : Z) (Hth : 0 ≤ thresh).

(** Reading a stopwatch, as both programs do it. *)
Definition read_entry (ch : channel) (c : bctx) (rename : option Z) (k : work_key)
    (m : gmap work_key report_data) : gmap work_key report_data * list (channel * report_data) :=
  match m !! k with
  | None => (m, [])
  | Some data =>
      match finish c thresh rename data with
      | None => (m, [])
      | Some evs => (delete k m, pair ch <$> evs)
      end
  end.

Lemma latency_start_read c w f s :
  args_map s !! 0 = Some thresh →
  latency_workqueue_execute_start c w f s
  = let r := read_entry latency_events c (Some f) (key_of c w) (latency_kwork_report s) in
    (set_latency r.1 s, r.2).
Proof.
  intros Ht. unfold latency_workqueue_execute_start, read_entry. rewrite Ht.
  destruct s; simpl. by repeat case_match.
Qed.

Lemma execute_end_read c w s :
  args_map s !! 0 = Some thresh →
  report_workqueue_execute_end c w s
  = let r := read_entry runtime_events c None (key_of c w) (runtime_kwork_report s) in
    (set_runtime r.1 s, r.2).
Proof.
  intros Ht. unfold report_workqueue_execute_end, read_entry. rewrite Ht.
  destruct s; simpl. by repeat case_match.
Qed.

Lemma read_entry_spec ch now hist i m k rename c :
  table_ok P ch now hist m → now ≤ c_now c < 2 ^ 63 → ctx_of i = c →
  watch_of ch i = Some (Stop k rename) →
  read_entry ch c rename k m = (delete k m, wq_spec_step thresh ch hist i).
Proof using Hth.
  clear HP. intros [Hr Hk Hf] Hnow Hc Hi. unfold wq_spec_step, read_entry. rewrite Hi, <-Hr.
  destruct (m !! k) as [d|] eqn:Hd; [|by rewrite delete_id].
  rewrite finish_spec; [by rewrite Hc|done| |lia]. eapply fresh_mono; [eauto|lia].
Qed.

Lemma wq_step now hist s i :
  wq_ok P thresh now hist s → wq_input P i → 0 ≤ now ≤ c_now (ctx_of i) →
  wq_ok P thresh (c_now (ctx_of i)) (i :: hist) (handle i s).1 ∧
  (handle i s).2 = wq_spec_step thresh runtime_events hist i ++ wq_spec_step thresh latency_events hist i.
Proof using HP Hth.
  intros [Ht Hrun Hlat] [Hk H63] Hnow.
  destruct i as [c w|c w f|c w]; unfold handle, wq_tracer; simpl in Hk; change (ctx_of _) with c in *.
  - split; [|done]. split; unfold latency_workqueue_activate_work; simpl; [done|eapply table_idle; eauto; lia|].
    eapply table_begin; eauto; [lia|]. unfold fresh. simpl. lia.
  - rewrite latency_start_read by done. simpl.
    rewrite (read_entry_spec latency_events now hist (ExecStart c w f)) by (done || lia). simpl.
    split; [|done]. split; simpl; [done|..].
    + eapply table_begin; eauto; [lia|]. unfold fresh. simpl. lia.
    + eapply table_stop; eauto. lia.
  - rewrite execute_end_read by done. simpl.
    rewrite (read_entry_spec runtime_events now hist (ExecEnd c w)) by (done || lia). simpl.
    split; [|by rewrite app_nil_r]. split; simpl; [done|..].
    + eapply table_stop; eauto. lia.
    + eapply table_idle; eauto. lia.
Qed.

Lemma wq_run tr now hist s :
  wq_ok P thresh now hist s → Forall (wq_input P) tr → 0 ≤ now → clock_from now tr →
  (run tr s).2 = wq_spec thresh hist tr.
Proof using HP Hth.
  revert now hist s. induction tr as [|i tr IH]; intros now hist s Hok Htr Hnow Hc; [done|].
  apply Forall_cons in Htr as [Hi Htr]. destruct Hc as [Hc1 Hc2]. rewrite run_cons. simpl.
  destruct (wq_step now hist s i Hok Hi ltac:(lia)) as [Hok' ->].
  rewrite <-app_assoc. do 2 f_equal. apply (IH (c_now (ctx_of i))); [done..|lia|done].
Qed.
End steps.

Definition wq_maps0 (thresh : Z) : wq_maps := WqMaps {[0 := thresh]} ∅ ∅.

Lemma wq_ok0 P thresh : wq_ok P thresh 0 [] (wq_maps0 thresh).
Proof. split; [done|..]; (split; [done|set_solver|done]). Qed.

(** C24: The reports of [workqlatency] are exactly those of the specification.
    On every trace of at most 1000 distinct (CPU, item) pairs, the runtime
    program reports an execution that lasted longer than the threshold, timed
    from its start, and the latency program an activation that waited longer
    than the threshold, timed from the first activation on that CPU since the
    item last started there. *)
Theorem workq_reports (thresh : Z) (tr : list wq_in) (P : gset work_key) :
  0 ≤ thresh → (size P ≤ KWORK_COUNT)%nat → Forall (wq_input P) tr → clock_from 0 tr →
  (run tr (wq_maps0 thresh)).2 = wq_spec thresh [] tr.
Proof. intros Ht HP Htr Hc. by apply (wq_run P HP thresh Ht tr 0), Hc; [apply wq_ok0|..]. Qed.

Definition w_ctx (now cpu : Z) : bctx := BCtx now cpu 0 "" 0.
Definition w_trace : list wq_in :=
  [Activate (w_ctx 10 0) 7; ExecStart (w_ctx 30 0) 7 9; ExecEnd (w_ctx 35 0) 7].

Lemma workq_reports_witness :
  (run w_trace (wq_maps0 15)).2 = [(latency_events, ReportData 1 0 20 20 10 30 9)].
Proof.
  apply (workq_reports 15 w_trace {[key_of (w_ctx 0 0) 7]}).
  - lia.
  - rewrite size_singleton. vm_compute. lia.
  - repeat constructor; set_solver.
  - vm_compute. repeat split; congruence.
Defined.

#[global] Instance channel_eq_dec : EqDecision channel.
Proof. solve_decision. Defined.

(** An item activated on one CPU and executed on another leaves its
    stopwatch running: its own wait is not reported, and the next activation on
    the first CPU is reported with the time since the old one. *)
Theorem workq_stale_activation thresh t0 t1 t2 t3 a b w f :
  0 ≤ thresh → 0 ≤ t0 ≤ t1 → t1 ≤ t2 ≤ t3 → t3 < 2 ^ 63 → u32 a ≠ u32 b → thresh < t3 - t0 →
  filter (λ e, e.1 = latency_events)
    (run [Activate (w_ctx t0 a) w; ExecStart (w_ctx t1 b) w f; ExecEnd (w_ctx t1 b) w;
          Activate (w_ctx t2 a) w; ExecStart (w_ctx t3 a) w f] (wq_maps0 thresh)).2
  = [(latency_events, ReportData 1 a (t3 - t0) (t3 - t0) t0 t3 f)].
Proof.
  intros Ht H01 H12 H3 Hab Hlong.
  set (ka := key_of (w_ctx 0 a) w). set (kb := key_of (w_ctx 0 b) w).
  assert (ka ≠ kb) as Hne by (unfold ka, kb, key_of; simpl; congruence).
  rewrite (wq_run {[ka; kb]}) with (thresh := thresh) (now := 0) (hist := []).
  - simpl. unfold wq_spec_step. simpl.
    repeat change (key_of (w_ctx ?t a) w) with ka. repeat change (key_of (w_ctx ?t b) w) with kb.
    rewrite !(decide_True (P := ka = ka)), !(decide_True (P := kb = kb)) by done.
    rewrite !(decide_False (P := ka = kb)), !(decide_False (P := kb = ka)) by done. simpl.
    unfold report. simpl. destruct (thresh <? t1 - t1); simpl.
    all: rewrite (proj2 (Z.ltb_lt thresh _)) by lia; done.
  - apply Nat.le_trans with 2%nat; [|vm_compute; lia].
    rewrite size_union, !size_singleton by set_solver. lia.
  - done.
  - apply wq_ok0.
  - repeat constructor; simpl; try lia; [change (key_of _ _) with ka || change (key_of _ _) with kb; set_solver..].
  - done.
  - simpl. lia.
Qed.

Lemma workq_stale_activation_witness :
  filter (λ e, e.1 = latency_events)
    (run [Activate (w_ctx 10 0) 7; ExecStart (w_ctx 11 1) 7 9; ExecEnd (w_ctx 11 1) 7;
          Activate (w_ctx 500 0) 7; ExecStart (w_ctx 501 0) 7 9] (wq_maps0 100)).2
  = [(latency_events, ReportData 1 0 491 491 10 501 9)].
Proof.
  apply (workq_stale_activation 100 10 11 500 501 0 1 7 9); [lia..|discriminate|lia].
Defined.
