(* ===== verification/Reclaimhung.v ===== *)
(** * Reclaimhung: who is stuck reclaiming memory

    The BPF programs of [detect/mem/reclaimhung/bpf/reclaimhung.bpf.c]: for
    direct reclaim, compaction and reclaim inside a memory cgroup, an entry per
    thread counts the calls and keeps the last one's start and duration. *)

From S2P Require Import Prelude Bpf.

Definition RH_ENTRIES : nat := Z.to_nat 10240.

Record data_t := DataT {
  d_pid : Z; d_tgid : Z; d_ts_begin : Z; d_ts_delay : Z; d_comm : string; d_time : Z;
}.
Record reclaim_data := ReclaimData { nr_reclaimed : Z; nr_pages : Z; rd_cgroup : Z; rd_da : data_t }.
Record compact_data := CompactData { nr_compacted : Z; cd_status : Z; cd_cgroup : Z; cd_da : data_t }.

Record rh_maps := RhMaps {
  reclaim_map : gmap Z reclaim_data; compact_map : gmap Z compact_data; cgroup_map : gmap Z reclaim_data;
}.
Definition set_reclaim m s := RhMaps m (compact_map s) (cgroup_map s).
Definition set_compact m s := RhMaps (reclaim_map s) m (cgroup_map s).
Definition set_cgroup m s := RhMaps (reclaim_map s) (compact_map s) m.

(** The stores of a first and of a later begin, and of an end. *)
Definition da_new (c : bctx) : data_t := DataT (c_pid c) (c_tgid c) (c_now c) 0 (c_comm c) (c_now c).
Definition da_again (c : bctx) (d : data_t) : data_t :=
  DataT (d_pid d) (d_tgid d) (c_now c) (d_ts_delay d) (d_comm d) (c_now c).
Definition da_end (c : bctx) (d : data_t) : data_t :=
  DataT (d_pid d) (d_tgid d) (d_ts_begin d) (u64 (c_now c - d_ts_begin d)) (c_comm c) (d_time d).

Definition handle_direct_reclaim_begin (c : bctx) (s : rh_maps) : rh_maps :=
  let pid := c_pid c in
  match reclaim_map s !! pid with
  | None =>
      set_reclaim (map_update RH_ENTRIES BPF_ANY pid (ReclaimData 1 0 0 (da_new c)) (reclaim_map s)).2 s
  | Some e =>
      set_reclaim (<[pid := ReclaimData (i32 (nr_reclaimed e + 1)) (nr_pages e) (rd_cgroup e)
                              (da_again c (rd_da e))]> (reclaim_map s)) s
  end.

Definition handle_direct_reclaim_end (c : bctx) (reclaimed : Z) (s : rh_maps) : rh_maps :=
  let pid := c_pid c in
  match reclaim_map s !! pid with
  | None => s
  | Some e =>
      set_reclaim (<[pid := ReclaimData (nr_reclaimed e) (i32 (nr_pages e + reclaimed)) (rd_cgroup e)
                              (da_end c (rd_da e))]> (reclaim_map s)) s
  end.

Definition handle_direct_compact_begin (c : bctx) (s : rh_maps) : rh_maps :=
  let pid := c_pid c in
  match compact_map s !! pid with
  | None =>
      set_compact (map_update RH_ENTRIES BPF_NOEXIST pid (CompactData 1 0 0 (da_new c)) (compact_map s)).2 s
  | Some e =>
      set_compact (<[pid := CompactData (i32 (nr_compacted e + 1)) (cd_status e) (cd_cgroup e)
                              (da_again c (cd_da e))]> (compact_map s)) s
  end.

Definition handle_direct_compact_end (c : bctx) (status : Z) (s : rh_maps) : rh_maps :=
  let pid := c_pid c in
  match compact_map s !! pid with
  | None => s
  | Some e =>
      set_compact (<[pid := CompactData (nr_compacted e) status (cd_cgroup e) (da_end c (cd_da e))]>
                     (compact_map s)) s
  end.

Definition handle_cgroup_reclaim_begin (c : bctx) (s : rh_maps) : rh_maps :=
  let pid := c_pid c in
  match cgroup_map s !! pid with
  | None =>
      set_cgroup (map_update RH_ENTRIES BPF_NOEXIST pid (ReclaimData 1 0 1 (da_new c)) (cgroup_map s)).2 s
  | Some e =>
      set_cgroup (<[pid := ReclaimData (i32 (nr_reclaimed e + 1)) (nr_pages e) (rd_cgroup e)
                             (da_again c (rd_da e))]> (cgroup_map s)) s
  end.

Definition handle_cgroup_reclaim_end (c : bctx) (reclaimed : Z) (s : rh_maps) : rh_maps :=
  let pid := c_pid c in
  match cgroup_map s !! pid with
  | None => s
  | Some e =>
      set_cgroup (<[pid := ReclaimData (nr_reclaimed e) (i32 (nr_pages e + reclaimed)) (rd_cgroup e)
                             (da_end c (rd_da e))]> (cgroup_map s)) s
  end.

(** The three kinds of work and their tracepoints; an end carries the pages
    reclaimed or the status of the compaction. *)
Inductive kind := Direct | Compact | Cgroup.
Inductive rh_in := RBegin (k : kind) (c : bctx) | REnd (k : kind) (c : bctx) (n : Z).

Definition rh_step (i : rh_in) : rh_maps → rh_maps :=
  match i with
  | RBegin Direct c => handle_direct_reclaim_begin c
  | REnd Direct c n => handle_direct_reclaim_end c n
  | RBegin Compact c => handle_direct_compact_begin c
  | REnd Compact c n => handle_direct_compact_end c n
  | RBegin Cgroup c => handle_cgroup_reclaim_begin c
  | REnd Cgroup c n => handle_cgroup_reclaim_end c n
  end.

#[global] Instance rh_tracer : Tracer rh_maps rh_in Empty_set := λ i s, (rh_step i s, []).

(** ** The account of a thread *)

#[global] Instance kind_eq_dec : EqDecision kind.
Proof. solve_decision. Defined.

Definition rh_key (i : rh_in) : kind * Z :=
  match i with RBegin k c | REnd k c _ => (k, c_pid c) end.

(** What an entry says, for all three kinds: the calls, the number carried by
    the ends (pages, summed up; or status, the last one), and the times. *)
Record summary := Summary { su_calls : Z; su_n : Z; su_da : data_t }.

Definition entry (k : kind) (pid : Z) (s : rh_maps) : option summary :=
  match k with
  | Direct => (λ e, Summary (nr_reclaimed e) (nr_pages e) (rd_da e)) <$> reclaim_map s !! pid
  | Compact => (λ e, Summary (nr_compacted e) (cd_status e) (cd_da e)) <$> compact_map s !! pid
  | Cgroup => (λ e, Summary (nr_reclaimed e) (nr_pages e) (rd_da e)) <$> cgroup_map s !! pid
  end.

(** The effect of the thread's own inputs on its entry. *)
Definition own (i : rh_in) (o : option summary) : option summary :=
  match i with
  | RBegin k c =>
      Some (match o with
            | None => Summary 1 0 (da_new c)
            | Some e => Summary (i32 (su_calls e + 1)) (su_n e) (da_again c (su_da e))
            end)
  | REnd k c n =>
      (λ e, Summary (su_calls e)
              (match k with Compact => n | _ => i32 (su_n e + n) end) (da_end c (su_da e))) <$> o
  end.

(** Every table holds threads of [P] only. *)
Definition rh_in_set (P : gset Z) (s : rh_maps) : Prop :=
  dom (reclaim_map s) ⊆ P ∧ dom (compact_map s) ⊆ P ∧ dom (cgroup_map s) ⊆ P.

Lemma map_update_new {V} (P : gset Z) flags pid (v : V) (m : gmap Z V) :
  (size P ≤ RH_ENTRIES)%nat → dom m ⊆ P → pid ∈ P → m !! pid = None → flags = BPF_ANY ∨ flags = BPF_NOEXIST →
  (map_update RH_ENTRIES flags pid v m).2 = <[pid := v]> m.
Proof.
  intros HP Hd Hp Hn Hf. unfold map_update. rewrite Hn.
  rewrite (proj2 (Nat.leb_gt _ _)) by (by eapply map_room_set). by destruct Hf as [-> | ->].
Qed.

(** An input changes the entry of its own thread and kind, and no other. *)
Lemma rh_step_entry P i s k pid :
  (size P ≤ RH_ENTRIES)%nat → rh_in_set P s → (rh_key i).2 ∈ P →
  rh_in_set P (rh_step i s) ∧
  entry k pid (rh_step i s) = if decide (rh_key i = (k, pid)) then own i (entry k pid s) else entry k pid s.
Proof.
  intros HP (H1 & H2 & H3) Hp. destruct s as [rm cm gm]. simpl in *.
  destruct i as [k' c|k' c n]; simpl in Hp; destruct k'; simpl;
    unfold handle_direct_reclaim_begin, handle_direct_reclaim_end, handle_direct_compact_begin,
      handle_direct_compact_end, handle_cgroup_reclaim_begin, handle_cgroup_reclaim_end; simpl;
    (case_match eqn:He; [|try (rewrite (map_update_new P) by (done || auto))]);
    unfold rh_in_set; simpl; rewrite ?dom_insert;
    (split; [split_and!; set_solver|]);
    destruct k; (case_decide as Hd; [simplify_eq|]); simpl;
    rewrite ?lookup_insert_eq, ?He; try done;
    destruct (decide (c_pid c = pid)); try congruence;
    by rewrite ?lookup_insert_ne.
Qed.

Lemma rh_run_entry P tr s k pid :
  (size P ≤ RH_ENTRIES)%nat → rh_in_set P s → Forall (λ i, (rh_key i).2 ∈ P) tr →
  entry k pid (run tr s).1
  = foldl (λ o i, own i o) (entry k pid s) (filter (λ i, rh_key i = (k, pid)) tr).
Proof.
  intros HP Hs Htr. revert s Hs.
  induction Htr as [|i tr Hi _ IH]; intros s Hs; [done|].
  destruct (rh_step_entry P i s k pid HP Hs Hi) as [Hs' He].
  rewrite run_cons. simpl. rewrite IH by done. unfold handle, rh_tracer. simpl.
  rewrite He, filter_cons. by destruct (decide (rh_key i = (k, pid))).
Qed.

(** ** Bracketed calls *)

(** A call: the contexts of its begin and its end, and the number of the end. *)
Abbreviation call := (bctx * bctx * Z)%type.
Definition brackets (k : kind) (l : list call) : list rh_in :=
  l ≫= λ '(b, e, n), [RBegin k b; REnd k e n].

(** What the entry should say after the calls [l] of a thread. *)
Definition account (k : kind) (l : list call) : option summary :=
  '(b, e, n) ← last l; '(b0, _, _) ← head l;
  Some (Summary (i32 (zlen l))
    (match k with Compact => n | _ => i32 (foldr (λ x t, x.2 + t) 0 l) end)
    (DataT (c_pid b0) (c_tgid b0) (c_now b) (u64 (c_now e - c_now b)) (c_comm e) (c_now b))).

Lemma foldr_pages_snoc (l : list call) x :
  foldr (λ x t, x.2 + t) 0 (l ++ [x]) = foldr (λ x t, x.2 + t) 0 l + x.2.
Proof. induction l as [|y l IH]; simpl; lia. Qed.

Lemma foldl_brackets k l :
  foldl (λ o i, own i o) None (brackets k l) = account k l.
Proof.
  induction l as [|[[b e] n] l IH] using rev_ind; [done|].
  unfold brackets in *. rewrite bind_app, foldl_app, IH. simpl. unfold account.
  rewrite last_snoc, foldr_pages_snoc, zlen_app. simpl.
  destruct l as [|[[b0 e0] n0] l _] using rev_ind; [by destruct k|].
  rewrite last_snoc. simpl. assert (∃ f, head (l ++ [(b0, e0, n0)]) = Some f ∧
    head ((l ++ [(b0, e0, n0)]) ++ [(b, e, n)]) = Some f) as ([[b1 e1] n1] & -> & ->).
  { destruct l as [|f l]; [by exists (b0, e0, n0)|by exists f]. }
  simpl. rewrite swrap_add. destruct k; by rewrite ?swrap_add.
Qed.

Definition rh_maps0 : rh_maps := RhMaps ∅ ∅ ∅.

(** The accounts of reclaim and compaction. Whatever the other threads, and
    the other kinds of work, do in between (at most 10240 threads in all), the
    entry of a thread after the calls [l] of one kind holds their number, the
    pages they reclaimed in all (for compaction the last status), and the
    start, duration and name of the last call. *)
Theorem reclaimhung_accounts tr (P : gset Z) k pid l :
  (size P ≤ RH_ENTRIES)%nat → Forall (λ i, (rh_key i).2 ∈ P) tr →
  filter (λ i, rh_key i = (k, pid)) tr = brackets k l →
  entry k pid (run tr rh_maps0).1 = account k l.
Proof.
  intros HP Htr Hl. rewrite (rh_run_entry P) by (done || by repeat split).
  rewrite Hl. destruct k; apply foldl_brackets.
Qed.

Definition rh_ctx (now pid : Z) : bctx := BCtx now 0 pid "sh" 0.

Lemma reclaimhung_accounts_witness :
  entry Direct 5 (run [RBegin Direct (rh_ctx 10 5); RBegin Compact (rh_ctx 11 5); REnd Direct (rh_ctx 14 6) 9;
    REnd Direct (rh_ctx 15 5) 32; RBegin Direct (rh_ctx 20 5); REnd Compact (rh_ctx 25 5) 3;
    REnd Direct (rh_ctx 27 5) 8] rh_maps0).1
  = Some (Summary 2 40 (DataT 5 0 20 7 "sh" 20)).
Proof.
  apply (reclaimhung_accounts _ {[5; 6]} Direct 5 [(rh_ctx 10 5, rh_ctx 15 5, 32); (rh_ctx 20 5, rh_ctx 27 5, 8)]).
  - vm_compute. lia.
  - repeat constructor; set_solver.
  - reflexivity.
Defined.
