(* ===== verification/CString.v ===== *)
(** * CString: C strings and the library functions the monitor uses on them

    A C string is the list of its bytes without the terminating 0; a pointer
    into a string is the suffix it points to. *)

From S2P Require Import Prelude.

(** Closes a decidable goal without variables by evaluation. *)
Ltac by_compute := solve [apply (bool_decide_unpack _); vm_compute; exact I].
(** [tac] on every element of a list of which [Forall] is to be shown. *)
Ltac each_element tac := repeat apply Forall_cons_2; try apply Forall_nil_2; tac.

(** [strpbrk] with a one-character set. *)
Fixpoint strpbrk (c : Z) (s : list Z) : option (list Z) :=
  match s with
  | [] => None
  | x :: s' => if x =? c then Some s else strpbrk c s'
  end.

Fixpoint is_prefix (p s : list Z) : bool :=
  match p, s with
  | [], _ => true
  | x :: p', y :: s' => (x =? y) && is_prefix p' s'
  | _ :: _, [] => false
  end.

Fixpoint strstr (s pat : list Z) : option (list Z) :=
  if is_prefix pat s then Some s
  else match s with [] => None | _ :: s' => strstr s' pat end.

Definition contains (s pat : list Z) : bool :=
  match strstr s pat with Some _ => true | None => false end.

(** The tokens [strtok] finds with a one-character set: the non-empty pieces. *)
Fixpoint strtok_count (c : Z) (inside : bool) (s : list Z) : Z :=
  match s with
  | [] => 0
  | x :: s' =>
      if x =? c then strtok_count c false s'
      else (if inside then 0 else 1) + strtok_count c true s'
  end.

Definition isdigit (c : Z) : bool := (48 <=? c) && (c <=? 57).
Definition isspace (c : Z) : bool := (c =? 32) || ((9 <=? c) && (c <=? 13)).

Fixpoint scan_digits (acc : Z) (s : list Z) : Z * list Z :=
  match s with
  | x :: s' => if isdigit x then scan_digits (acc * 10 + (x - 48)) s' else (acc, s)
  | [] => (acc, [])
  end.

Fixpoint skip_space (s : list Z) : list Z :=
  match s with x :: s' => if isspace x then skip_space s' else s | [] => [] end.

(** The sign of a number and the rest. *)
Definition scan_sign (s : list Z) : bool * list Z :=
  match s with
  | x :: s' => if x =? 45 then (true, s') else if x =? 43 then (false, s') else (false, s)
  | [] => (false, [])
  end.

Definition ULLONG_MAX : Z := 2 ^ 64 - 1.
Definition LONG_MAX : Z := 2 ^ 63 - 1.
Definition LONG_MIN : Z := - 2 ^ 63.

(** [strtoull(s, &end, 10)]: the value and [end]. *)
Definition strtoull (s : list Z) : Z * list Z :=
  let '(neg, s1) := scan_sign (skip_space s) in
  match s1 with
  | x :: _ =>
      if isdigit x then
        let '(v, end_) := scan_digits 0 s1 in
        (if ULLONG_MAX <? v then ULLONG_MAX else if (neg : bool) then u64 (- v) else v, end_)
      else (0, s)
  | [] => (0, s)
  end.

(** [atol], that is [strtol] without the end. *)
Definition atol (s : list Z) : Z :=
  let '(neg, s1) := scan_sign (skip_space s) in
  let v := (scan_digits 0 s1).1 in
  if (neg : bool) then Z.max LONG_MIN (- v) else Z.min LONG_MAX v.

(** The decimal digits of a number below 10^20, as [%llu] and [%ld] print it. *)
Fixpoint dec_digits (fuel : nat) (n : Z) : list Z :=
  match fuel with
  | O => []
  | S f => if n <? 10 then [48 + n] else dec_digits f (n / 10) ++ [48 + n mod 10]
  end.
Definition fmt_llu (n : Z) : list Z := dec_digits 20 n.
Definition fmt_ld (n : Z) : list Z := if n <? 0 then 45 :: dec_digits 20 (- n) else dec_digits 20 n.

(** The bytes of a string literal; [js] reads ['] as the double quote, which
    the literals of the JSON writers are full of. *)
Fixpoint lit (s : string) : list Z :=
  match s with
  | EmptyString => []
  | String a s' => Z.of_N (Ascii.N_of_ascii a) :: lit s'
  end.
Definition js (s : string) : list Z := (λ c, if c =? 39 then 34 else c) <$> lit s.

(** ** [sscanf] with sets, [fgets], [strrchr]

    The formats used have literals without white space and conversions
    [%[^c]], which take at least one character. The result is what was
    assigned, in order. *)

Inductive fmt_item := Lit (l : list Z) | NotSet (c : Z).

Fixpoint span_not (c : Z) (s : list Z) : list Z * list Z :=
  match s with
  | x :: s' => if x =? c then ([], s) else let '(a, r) := span_not c s' in (x :: a, r)
  | [] => ([], [])
  end.

Fixpoint sscanf (f : list fmt_item) (s : list Z) : list (list Z) :=
  match f with
  | [] => []
  | Lit l :: f' => if is_prefix l s then sscanf f' (drop (length l) s) else []
  | NotSet c :: f' => let '(a, r) := span_not c s in match a with [] => [] | _ => a :: sscanf f' r end
  end.

(** A C string in a buffer ends at its first 0. *)
Definition c_string (l : list Z) : list Z := c_str (length l) l.

(** The successive results of [fgets(buf, n + 1, fp)] until the end of the file:
    a line with its newline, or [n] bytes. *)
Fixpoint fgets_from (n : nat) (room : nat) (acc : list Z) (s : list Z) : list (list Z) :=
  match s with
  | [] => match acc with [] => [] | _ => [rev acc] end
  | x :: s' =>
      if x =? 10 then rev (x :: acc) :: fgets_from n n [] s'
      else match room with
           | S (S room') => fgets_from n (S room') (x :: acc) s'
           | _ => rev (x :: acc) :: fgets_from n n [] s'
           end
  end.
Definition fgets_all (n : nat) (content : list Z) : list (list Z) := c_string <$> fgets_from n n [] content.

Fixpoint strrchr (s : list Z) (c : Z) : option (list Z) :=
  match s with
  | [] => None
  | x :: s' =>
      match strrchr s' c with
      | Some r => Some r
      | None => if x =? c then Some s else None
      end
  end.

(** ** Facts *)

Lemma strpbrk_none c s : c ∉ s → strpbrk c s = None.
Proof.
  induction s as [|x s IH]; intros H; [done|]. simpl.
  rewrite (proj2 (Z.eqb_neq x c)) by set_solver. apply IH. set_solver.
Qed.

Lemma strpbrk_app c s1 s2 : c ∉ s1 → strpbrk c (s1 ++ c :: s2) = Some (c :: s2).
Proof.
  induction s1 as [|x s IH]; intros H; simpl; [by rewrite Z.eqb_refl|].
  rewrite (proj2 (Z.eqb_neq x c)) by set_solver. apply IH. set_solver.
Qed.

(** The character may also come from the second part. *)
Lemma strpbrk_app_r c s1 s2 : c ∉ s1 → strpbrk c (s1 ++ s2) = strpbrk c s2.
Proof.
  induction s1 as [|x s IH]; intros H; simpl; [done|].
  rewrite (proj2 (Z.eqb_neq x c)) by set_solver. apply IH. set_solver.
Qed.

Lemma is_prefix_spec p s : is_prefix p s = true ↔ p `prefix_of` s.
Proof.
  revert s; induction p as [|x p IH]; intros s; simpl; [split; [intros _; apply prefix_nil|done]|].
  destruct s as [|y s]; [split; [done|by intros ?%prefix_nil_not]|].
  rewrite andb_true_iff, Z.eqb_eq, IH. split.
  - intros [-> H]. by apply prefix_cons.
  - intros H. split; [by eapply prefix_cons_inv_1|by eapply prefix_cons_inv_2].
Qed.

(** A pattern that starts with [c] is not found before the first [c]. *)
Lemma strstr_skip c pat s1 s2 :
  c ∉ s1 → strstr (s1 ++ s2) (c :: pat) = strstr s2 (c :: pat).
Proof.
  induction s1 as [|x s1 IH]; intros Hc; [done|]. simpl.
  rewrite (proj2 (Z.eqb_neq c x)) by set_solver. simpl. apply IH. set_solver.
Qed.

Lemma strstr_here pat s : strstr (pat ++ s) pat = Some (pat ++ s).
Proof.
  assert (is_prefix pat (pat ++ s) = true) as H by (apply is_prefix_spec; by exists s).
  destruct (pat ++ s) as [|x l]; simpl; [by destruct pat|]. simpl in H. by rewrite H.
Qed.

Section digits.
Implicit Types (n acc : Z) (s : list Z).

(** The rest of a string does not continue a number. *)
Definition no_digit (s : list Z) : Prop := match s with x :: _ => isdigit x = false | [] => True end.

Lemma digit_byte n : 0 ≤ n < 10 → isdigit (48 + n) = true.
Proof. intros. unfold isdigit. apply andb_true_iff. split; apply Z.leb_le; lia. Qed.

Lemma scan_digits_app fuel n acc s :
  0 ≤ n < 10 ^ Z.of_nat fuel → 
  scan_digits acc (dec_digits fuel n ++ s)
  = scan_digits (acc * 10 ^ zlen (dec_digits fuel n) + n) s.
Proof.
  revert n acc s; induction fuel as [|f IH]; intros n acc s Hn; simpl.
  - change (zlen []) with 0. f_equal. simpl in Hn. lia.
  - destruct (Z.ltb_spec n 10).
    + simpl. rewrite digit_byte by lia. change (zlen [48 + n]) with 1. f_equal. lia.
    + rewrite <-app_assoc. rewrite IH.
      * simpl. rewrite digit_byte by (apply Z.mod_pos_bound; lia).
        rewrite zlen_app. change (zlen [48 + n mod 10]) with 1.
        rewrite Z.pow_add_r by (done || apply zlen_nonneg). f_equal.
        pose proof (Z.div_mod n 10). lia.
      * rewrite Nat2Z.inj_succ, Z.pow_succ_r in Hn by lia.
        split; [apply Z.div_pos; lia|apply Z.div_lt_upper_bound; lia].
Qed.

Lemma scan_digits_dec n s : 0 ≤ n < 10 ^ 20 → no_digit s → scan_digits 0 (dec_digits 20 n ++ s) = (n, s).
Proof.
  intros Hn Hs. rewrite scan_digits_app by done. rewrite Z.mul_0_l, Z.add_0_l.
  destruct s as [|x s]; [done|]. cbn [scan_digits]. by rewrite (Hs : isdigit x = false).
Qed.

Lemma dec_digits_digits fuel n : 0 ≤ n → Forall (λ c, 48 ≤ c ≤ 57) (dec_digits fuel n).
Proof.
  revert n; induction fuel as [|f IH]; intros n Hn; simpl; [done|].
  destruct (Z.ltb_spec n 10); [by repeat constructor; lia|].
  apply Forall_app. split; [apply IH, Z.div_pos; lia|].
  repeat constructor; pose proof (Z.mod_pos_bound n 10); lia.
Qed.

Lemma dec_digits_head fuel n s : 0 ≤ n →
  ∃ c l, dec_digits (S fuel) n ++ s = c :: l ∧ 48 ≤ c ≤ 57.
Proof.
  intros Hn. pose proof (dec_digits_digits (S fuel) n Hn) as Hd.
  destruct (dec_digits (S fuel) n) as [|c l] eqn:He.
  - simpl in He. destruct (n <? 10); [done|]. by destruct (dec_digits fuel (n / 10)).
  - apply Forall_cons in Hd as [Hc _]. by exists c, (l ++ s).
Qed.

(** A printed number at the start of a string is read back. *)
Lemma strtoull_fmt n s : 0 ≤ n < 2 ^ 64 → no_digit s → strtoull (fmt_llu n ++ s) = (n, s).
Proof.
  intros Hn Hs. unfold strtoull, fmt_llu.
  pose proof (scan_digits_dec n s ltac:(lia) Hs) as Hscan.
  destruct (dec_digits_head 19 n s ltac:(lia)) as (c & l & He & Hc). rewrite He in *.
  assert (isspace c = false) as Hsp.
  { unfold isspace. apply orb_false_iff. split; [apply Z.eqb_neq; lia|].
    apply andb_false_iff. right. apply Z.leb_gt. lia. }
  simpl skip_space. rewrite Hsp. unfold scan_sign.
  rewrite (proj2 (Z.eqb_neq c 45)), (proj2 (Z.eqb_neq c 43)) by lia.
  replace (isdigit c) with true
    by (symmetry; unfold isdigit; apply andb_true_iff; split; apply Z.leb_le; lia).
  rewrite Hscan. unfold ULLONG_MAX. by zif.
Qed.

Lemma atol_fmt n s : 0 ≤ n < 2 ^ 63 → no_digit s → atol (fmt_ld n ++ s) = n.
Proof.
  intros Hn Hs. unfold atol, fmt_ld. rewrite (proj2 (Z.ltb_ge n 0)) by lia.
  pose proof (scan_digits_dec n s ltac:(lia) Hs) as Hscan.
  destruct (dec_digits_head 19 n s ltac:(lia)) as (c & l & He & Hc). rewrite He in *.
  assert (isspace c = false) as Hsp.
  { unfold isspace. apply orb_false_iff. split; [apply Z.eqb_neq; lia|].
    apply andb_false_iff. right. apply Z.leb_gt. lia. }
  simpl skip_space. rewrite Hsp. unfold scan_sign.
  rewrite (proj2 (Z.eqb_neq c 45)), (proj2 (Z.eqb_neq c 43)) by lia.
  rewrite Hscan. simpl. unfold LONG_MAX. lia.
Qed.

(** No other byte is in a printed number. *)
Lemma fmt_llu_notin c n : 0 ≤ n → ¬ (48 ≤ c ≤ 57) → c ∉ fmt_llu n.
Proof.
  intros Hn Hc Hin. pose proof (dec_digits_digits 20 n Hn) as H.
  rewrite Forall_forall in H. by apply Hc, H.
Qed.
End digits.

(** ** Lines, sets and suffixes *)

Section lines.
Implicit Types (s l : list Z).

Lemma c_str_id n l : 0 ∉ l → (length l ≤ n)%nat → c_str n l = l.
Proof.
  revert n; induction l as [|x l IH]; intros n H0 Hn; [by destruct n|].
  destruct n as [|n]; simpl in *; [lia|].
  rewrite (proj2 (Z.eqb_neq x 0)) by set_solver. f_equal. apply IH; [set_solver|lia].
Qed.

Lemma c_string_id l : 0 ∉ l → c_string l = l.
Proof. intros. by apply c_str_id. Qed.

(** A line that fits is read whole. *)
Lemma fgets_from_line n room acc l s :
  10 ∉ l → (length l < room)%nat →
  fgets_from n room acc (l ++ 10 :: s) = (rev acc ++ l ++ [10]) :: fgets_from n n [] s.
Proof.
  revert room acc; induction l as [|x l IH]; intros room acc H10 Hl; [done|].
  simpl. rewrite (proj2 (Z.eqb_neq x 10)) by set_solver. simpl in Hl.
  destruct room as [|[|room]]; [lia|lia|]. rewrite IH; [|set_solver|lia].
  simpl. by rewrite <-app_assoc.
Qed.

(** A file of lines that fit is read line by line. *)
Lemma fgets_all_lines n ls :
  Forall (λ l, (10 ∉ l) ∧ (0 ∉ l) ∧ (length l < n)%nat) ls →
  fgets_all n (concat ((λ l, l ++ [10]) <$> ls)) = (λ l, l ++ [10]) <$> ls.
Proof.
  intros H. unfold fgets_all.
  assert (fgets_from n n [] (concat ((λ l, l ++ [10]) <$> ls)) = (λ l, l ++ [10]) <$> ls) as ->.
  { induction H as [|l ls (H10 & H0 & Hl) _ IH]; [done|]. cbn [fmap list_fmap concat].
    rewrite <-app_assoc. simpl app. rewrite fgets_from_line by done. simpl. f_equal. apply IH. }
  induction H as [|l ls (H10 & H0 & Hl) _ IH]; [done|]. cbn [fmap list_fmap]. f_equal; [|apply IH].
  apply c_string_id. set_solver.
Qed.

Lemma span_not_app c l s : c ∉ l → span_not c (l ++ c :: s) = (l, c :: s).
Proof.
  induction l as [|x l IH]; intros H; simpl; [by rewrite Z.eqb_refl|].
  rewrite (proj2 (Z.eqb_neq x c)) by set_solver. by rewrite IH by set_solver.
Qed.

Lemma is_prefix_app l s : is_prefix l (l ++ s) = true.
Proof. apply is_prefix_spec. by exists s. Qed.

Lemma sscanf_lit l f s : sscanf (Lit l :: f) (l ++ s) = sscanf f s.
Proof. simpl. by rewrite is_prefix_app, drop_app_length. Qed.

Lemma sscanf_char c f s : sscanf (Lit [c] :: f) (c :: s) = sscanf f s.
Proof. exact (sscanf_lit [c] f s). Qed.

Lemma sscanf_set c f l s :
  c ∉ l → l ≠ [] → sscanf (NotSet c :: f) (l ++ c :: s) = l :: sscanf f (c :: s).
Proof. intros Hc Hl. simpl. rewrite span_not_app by done. by destruct l. Qed.

(** A pattern with a [c] in it is not found where a [d] comes first. *)
Lemma is_prefix_stop c d p q l s :
  c ∉ l → d ∉ p → c ≠ d → is_prefix (p ++ c :: q) (l ++ d :: s) = false.
Proof.
  intros Hc Hd Hcd. revert l Hc; induction p as [|x p IH]; intros l Hc; destruct l as [|y l]; simpl.
  - by rewrite (proj2 (Z.eqb_neq c d)).
  - rewrite (proj2 (Z.eqb_neq c y)); [done|set_solver].
  - rewrite (proj2 (Z.eqb_neq x d)); [done|set_solver].
  - apply andb_false_iff. right. apply IH; set_solver.
Qed.

(** Two words that end at [c]. *)
Lemma is_prefix_word c p l s :
  c ∉ p → c ∉ l → p ≠ l → is_prefix (p ++ [c]) (l ++ c :: s) = false.
Proof.
  revert l; induction p as [|x p IH]; intros l Hp Hl Hne; destruct l as [|y l]; simpl; [done|..].
  - rewrite (proj2 (Z.eqb_neq c y)); [done|set_solver].
  - rewrite (proj2 (Z.eqb_neq x c)); [done|set_solver].
  - destruct (Z.eqb_spec x y) as [->|]; [|done]. apply IH; [set_solver|set_solver|congruence].
Qed.

Lemma strstr_cons_no x pat s : is_prefix pat (x :: s) = false → strstr (x :: s) pat = strstr s pat.
Proof. intros H. simpl. destruct pat; [done|]. simpl in *. by rewrite H. Qed.

Lemma strstr_absent c pat s : c ∉ s → strstr s (c :: pat) = None.
Proof.
  induction s as [|x s IH]; intros H; [done|]. rewrite strstr_cons_no; [apply IH; set_solver|].
  simpl. rewrite (proj2 (Z.eqb_neq c x)); [done|set_solver].
Qed.
End lines.

(** ** Numbers in a line *)

(** [%ld] and [%llu]: the number and what follows it. *)
Definition at_number (s : list Z) : bool :=
  match (scan_sign (skip_space s)).2 with x :: _ => isdigit x | [] => false end.
Definition scan_ld (s : list Z) : option Z := if at_number s then Some (atol s) else None.
Definition scan_ull (s : list Z) : option (Z * list Z) := if at_number s then Some (strtoull s) else None.
(** [%d] and [%ld] with the rest of the input. *)
Definition scan_int (s : list Z) : option (Z * list Z) :=
  if at_number s then
    let '(neg, s1) := scan_sign (skip_space s) in
    Some (atol s, (scan_digits 0 s1).2)
  else None.
Fixpoint scan_ulls (n : nat) (s : list Z) : list Z :=
  match n with
  | O => []
  | S n' => match scan_ull s with Some (v, s') => v :: scan_ulls n' s' | None => [] end
  end.

Lemma digit_not_space c : 48 ≤ c ≤ 57 → isspace c = false.
Proof.
  intros H. unfold isspace. apply orb_false_iff. split; [apply Z.eqb_neq; lia|].
  apply andb_false_iff. right. apply Z.leb_gt. lia.
Qed.

Lemma at_number_digits n s : 0 ≤ n → at_number (dec_digits 20 n ++ s) = true.
Proof.
  intros Hn. destruct (dec_digits_head 19 n s Hn) as (c & l & -> & Hc). unfold at_number. simpl.
  rewrite digit_not_space by done. simpl.
  rewrite (proj2 (Z.eqb_neq c 45)), (proj2 (Z.eqb_neq c 43)) by lia. simpl.
  unfold isdigit. rewrite (proj2 (Z.leb_le 48 c)), (proj2 (Z.leb_le c 57)) by lia. done.
Qed.

Lemma skip_space_blanks k s : skip_space (replicate k 32 ++ s) = skip_space s.
Proof. induction k as [|k IH]; [done|]. exact IH. Qed.

Lemma scan_int_blanks k v s : 0 ≤ v < 2 ^ 63 → no_digit s →
  scan_int (replicate k 32 ++ fmt_llu v ++ s) = Some (v, s).
Proof.
  intros Hv Hs. destruct (dec_digits_head 19 v s ltac:(lia)) as (c & l & Hd & Hc).
  assert (skip_space (replicate k 32 ++ fmt_llu v ++ s) = fmt_llu v ++ s) as Hskip.
  { rewrite skip_space_blanks. unfold fmt_llu. rewrite Hd. cbn. by rewrite digit_not_space. }
  assert (scan_sign (fmt_llu v ++ s) = (false, fmt_llu v ++ s)) as Hsign.
  { unfold fmt_llu. rewrite Hd. cbn. by rewrite (proj2 (Z.eqb_neq c 45)), (proj2 (Z.eqb_neq c 43)) by lia. }
  unfold scan_int, at_number, atol. rewrite Hskip, Hsign. unfold fmt_llu. rewrite scan_digits_dec by (done || lia).
  cbn [fst snd]. rewrite Hd. unfold isdigit. rewrite (proj2 (Z.leb_le 48 c)), (proj2 (Z.leb_le c 57)) by lia. cbn [andb].
  do 2 f_equal. unfold LONG_MAX. lia.
Qed.

(** A blank before a number is skipped. *)
Lemma strtoull_blank s : at_number s = true → strtoull (32 :: s) = strtoull s.
Proof.
  unfold at_number, strtoull. cbn [skip_space isspace Z.eqb Pos.eqb orb].
  destruct (scan_sign (skip_space s)) as [neg [|x r]]; simpl; [done|]. by intros ->.
Qed.

Lemma scan_ull_fmt v s : 0 ≤ v < 2 ^ 64 → no_digit s → scan_ull (32 :: fmt_llu v ++ s) = Some (v, s).
Proof.
  intros Hv Hs. unfold scan_ull.
  assert (at_number (fmt_llu v ++ s) = true) as Hn by (apply at_number_digits; lia).
  rewrite strtoull_blank, strtoull_fmt by done. change (at_number (32 :: fmt_llu v ++ s)) with (at_number (fmt_llu v ++ s)).
  by rewrite Hn.
Qed.

Lemma scan_ulls_fmt vals : Forall (λ v, 0 ≤ v < 2 ^ 64) vals → ∀ n, (length vals ≤ n)%nat →
  scan_ulls n (concat ((λ v, 32 :: fmt_llu v) <$> vals) ++ [10]) = vals.
Proof.
  induction 1 as [|v vals Hv _ IH]; intros n Hn; [by destruct n as [|[|n]]|].
  destruct n as [|n]; [simpl in Hn; lia|]. rewrite fmap_cons. cbn [concat scan_ulls].
  rewrite <-app_assoc, <-app_comm_cons, scan_ull_fmt; [|done|by destruct vals].
  f_equal. apply IH. simpl in Hn. lia.
Qed.

(** ** Words *)

(** [%s]: the word at the start of a line. *)
Fixpoint token (s : list Z) : list Z :=
  match s with x :: s' => if isspace x then [] else x :: token s' | [] => [] end.

(** The name of a CPU. *)
Definition cpu_word (i : nat) : list Z := lit "cpu" ++ fmt_ld (Z.of_nat i).

Lemma dec_digits_length fuel : ∀ n k, 0 ≤ n < 10 ^ Z.of_nat (S k) → (length (dec_digits fuel n) ≤ S k)%nat.
Proof.
  induction fuel as [|fuel IH]; intros n k Hn; simpl; [lia|].
  destruct (Z.ltb_spec n 10); simpl; [lia|]. rewrite length_app. simpl.
  destruct k as [|k]; [simpl in Hn; lia|].
  assert (0 ≤ n / 10 < 10 ^ Z.of_nat (S k)) as Hd.
  { rewrite (Nat2Z.inj_succ (S k)), Z.pow_succ_r in Hn by lia.
    split; [apply Z.div_pos; lia|apply Z.div_lt_upper_bound; lia]. }
  specialize (IH _ _ Hd). lia.
Qed.

Lemma token_app l s : Forall (λ c, isspace c = false) l → token (l ++ 32 :: s) = l.
Proof. induction 1 as [|x l Hx _ IH]; [done|]. simpl. rewrite Hx. by f_equal. Qed.

Lemma cpu_word_plain i : Forall (λ c, isspace c = false) (cpu_word i).
Proof.
  unfold cpu_word, fmt_ld. rewrite (proj2 (Z.ltb_ge _ 0)) by lia.
  apply Forall_app. split; [by repeat constructor|].
  eapply Forall_impl; [apply dec_digits_digits; lia|]. intros c Hc. by apply digit_not_space.
Qed.

Lemma cpu_word_short i : Z.of_nat i < 10000 → (length (cpu_word i) < 8)%nat.
Proof.
  intros Hi. unfold cpu_word, fmt_ld. rewrite (proj2 (Z.ltb_ge _ 0)) by lia. rewrite length_app.
  assert (length (dec_digits 20 (Z.of_nat i)) ≤ 4)%nat
    by (apply dec_digits_length; change (10 ^ Z.of_nat 4) with 10000; lia).
  change (length (lit "cpu")) with 3%nat. lia.
Qed.
