(* ===== verification/UnityLine.v ===== *)
(** * UnityLine: the lines a collector plugin publishes

    [monitor/unity/collector/plugin/plugin_head.h]: an array of lines, each
    with a table, up to 4 indexes, up to 32 values and a log. A name is the
    string stored in its fixed array; a value is a double. *)

From Stdlib Require Import SpecFloat.
From S2P Require Import Prelude CString CFloat.

Record unity_line := ULine {
  table : list Z; indexs : list (list Z * list Z); values : list (list Z * double);
  logs : list Z * list Z;
}.

(** [memset(line, 0, ...)] *)
Definition line0 : unity_line :=
  ULine [] (replicate 4 ([], [])) (replicate 32 ([], S754_zero false)) ([], []).

Definition MAX_UNITY_LINES : Z := 2048.

(** [unity_alloc_lines]: too many lines end the process ([None]). *)
Definition unity_alloc_lines (num : Z) : option (list unity_line) :=
  if MAX_UNITY_LINES <? num then None else Some (replicate (Z.to_nat num) line0).

(** [unity_get_line]: NULL behind the array, or the line's address, which need
    not be inside the array. *)
Inductive line_ptr := NoLine | Line (i : nat) | Outside.
Definition unity_get_line (lines : list unity_line) (i : Z) : line_ptr :=
  if zlen lines <? i then NoLine
  else if i <? zlen lines then Line (Z.to_nat i) else Outside.

(** [strncpy] into an array of [n] bytes. *)
Definition strncpy (n : nat) (s : list Z) : list Z := take n s.

Definition unity_set_table (t : list Z) (l : unity_line) : unity_line :=
  ULine (strncpy 32 t) (indexs l) (values l) (logs l).
Definition unity_set_index (i : Z) (name index : list Z) (l : unity_line) : Z * unity_line :=
  if 4 <=? i then (- ERANGE, l)
  else (0, ULine (table l) (<[Z.to_nat i := (strncpy 16 name, strncpy 16 index)]> (indexs l)) (values l) (logs l)).
Definition unity_set_value (i : Z) (name : list Z) (v : double) (l : unity_line) : Z * unity_line :=
  if 32 <=? i then (- ERANGE, l)
  else (0, ULine (table l) (indexs l) (<[Z.to_nat i := (strncpy 16 name, v)]> (values l)) (logs l)).
Definition unity_set_log (name log : list Z) (l : unity_line) : unity_line :=
  ULine (table l) (indexs l) (values l) (strncpy 16 name, log).

(** ** Facts *)

Lemma set_value_lookup i name v l :
  0 ≤ i < 32 → length (values l) = 32%nat →
  values (unity_set_value i name v l).2 !! Z.to_nat i = Some (strncpy 16 name, v).
Proof.
  intros Hi Hl. unfold unity_set_value. zif. simpl. apply list_lookup_insert_eq. lia.
Qed.

Lemma set_value_lookup_ne i j name v l :
  0 ≤ i → j ≠ Z.to_nat i → values (unity_set_value i name v l).2 !! j = values l !! j.
Proof.
  intros Hi Hj. unfold unity_set_value. destruct (32 <=? i); [done|]. simpl.
  by apply list_lookup_insert_ne.
Qed.

Lemma set_value_length i name v l : length (values (unity_set_value i name v l).2) = length (values l).
Proof. unfold unity_set_value. destruct (32 <=? i); [done|]. apply length_insert. Qed.

(** The bound test of [unity_get_line] is one too weak: the index that is equal
    to the number of lines gives a pointer behind the array. *)
Lemma get_line_spec lines i : 0 ≤ i →
  unity_get_line lines i = Line (Z.to_nat i) ∧ i < zlen lines ∨
  unity_get_line lines i = Outside ∧ i = zlen lines ∨
  unity_get_line lines i = NoLine ∧ zlen lines < i.
Proof.
  intros Hi. unfold unity_get_line.
  destruct (Z.ltb_spec (zlen lines) i); [tauto|]. destruct (Z.ltb_spec i (zlen lines)); [tauto|].
  right. left. split; [done|lia].
Qed.
