(* ===== verification/NetRetrans.v ===== *)
(** * NetRetrans: TCP retransmissions and resets

    [monitor/unity/collector/plugin/net_retrans]: probes count the events of
    each kind in a map and send details; the plugin publishes the counts of
    each period ([call]) and, within a budget, a log line for each event
    ([handle_event]). [handle_event] runs on the thread that polls the perf
    buffer and shares the variable [budget] with [call] without a lock. Here the
    two are steps of one sequence, each of them whole: the theorem on the budget
    is about executions in which they do not overlap. *)

From S2P Require Import Prelude Bpf CString CFloat UnityLine.

Definition NET_RETRANS_TYPE_RTO : Z := 0.
Definition NET_RETRANS_TYPE_ZERO : Z := 1.
Definition NET_RETRANS_TYPE_RST : Z := 2.
Definition NET_RETRANS_TYPE_RST_SK : Z := 3.
Definition NET_RETRANS_TYPE_RST_ACTIVE : Z := 4.
Definition NET_RETRANS_TYPE_SYN : Z := 5.
Definition NET_RETRANS_TYPE_SYN_ACK : Z := 6.
Definition NET_RETRANS_TYPE_MAX : Z := 7.

(** [struct data_t]; [d_tcp] are the twelve fields of [get_tcp_info], in order. *)
Record data_t := DataT {
  d_comm : list Z; d_pid : Z; d_type : Z; ip_src : Z; ip_dst : Z; sport : Z; dport : Z;
  sk_state : Z; stack_id : Z; d_tcp : list Z;
}.
Definition data0 : data_t := DataT [] 0 0 0 0 0 0 0 0 (replicate 12 0).

(** What the probes read of a socket; [sk_poller] is the thread polling it. *)
Record sock := Sock {
  skc_daddr : Z; skc_dport : Z; skc_rcv_saddr : Z; inet_sport : Z; skc_state : Z;
  sk_poller : option (Z * list Z); sk_tcp : list Z;
}.

(** [outCnt] *)
Abbreviation cnt_map := (gmap Z Z).

Definition addCnt (k val : Z) (m : cnt_map) : cnt_map :=
  match array_lookup 0 NET_RETRANS_TYPE_MAX m k with
  | Some v => array_store k (u64 (v + val)) m
  | None => m
  end.

Definition get_tcp_info (sk : sock) (d : data_t) : data_t :=
  DataT (d_comm d) (d_pid d) (d_type d) (ip_src d) (ip_dst d) (sport d) (dport d) (sk_state d) (stack_id d)
    (sk_tcp sk).

(** The packet from its IP header on; ports and addresses as they are stored. *)
Definition get_skb_info (pkt : list Z) (type : Z) (d : data_t) (m : cnt_map) : data_t * cnt_map :=
  let at_ i n := le_val (take n (drop i pkt)) in
  let ihl := Z.land (at_ 0 1)%nat 0x0f in
  let tcp := Z.to_nat (ihl * 4) in
  (DataT (d_comm d) (d_pid d) type (at_ 12 4)%nat (at_ 16 4)%nat (at_ tcp 2%nat) (at_ (tcp + 2) 2)%nat 0
     (stack_id d) (d_tcp d), addCnt type 1 m).

Definition get_task (sk : option sock) (d : data_t) : data_t :=
  let '(pid, comm) := default (0, []) (sk ≫= sk_poller) in
  DataT comm pid (d_type d) (ip_src d) (ip_dst d) (sport d) (dport d) (sk_state d) (stack_id d) (d_tcp d).

Definition get_info (sk : sock) (type : Z) (d : data_t) (m : cnt_map) : data_t * cnt_map :=
  (DataT (d_comm d) (d_pid d) type (skc_rcv_saddr sk) (skc_daddr sk) (inet_sport sk) (skc_dport sk)
     (skc_state sk) (stack_id d) (d_tcp d), addCnt type 1 m).

Definition set_stack (id : Z) (d : data_t) : data_t :=
  DataT (d_comm d) (d_pid d) (d_type d) (ip_src d) (ip_dst d) (sport d) (dport d) (sk_state d) id (d_tcp d).

(** The private networks, as masks of the stored address. *)
Definition inner_nets : list (Z * Z) :=
  [(0x0000000A, 0x000000ff); (0x000010AC, 0x0000f0ff); (0x0000A8C0, 0x0000ffff)].
Definition check_inner (ip : Z) : bool :=
  (ip =? 0) || existsb (λ '(net, mask), Z.land ip mask =? net) inner_nets.
Definition check_ip (d : data_t) : bool := check_inner (ip_src d) && check_inner (ip_dst d).

Definition send_inner (d : data_t) : list data_t := if check_ip d then [d] else [].

Definition j_tcp_enter_loss (c : bctx) (sk : sock) (m : cnt_map) : cnt_map * list data_t :=
  if negb (skc_state sk =? 1) then (m, [])
  else
    let '(d, m) := get_info sk NET_RETRANS_TYPE_RTO (get_task (Some sk) data0) m in
    (m, send_inner (get_tcp_info sk (set_stack 0 d))).

Definition j_tcp_send_probe0 (c : bctx) (sk : sock) (m : cnt_map) : cnt_map * list data_t :=
  if skc_state sk =? 0 then (m, [])
  else
    let '(d, m) := get_info sk NET_RETRANS_TYPE_ZERO data0 m in
    (m, [get_tcp_info sk (get_task (Some sk) (set_stack 0 d))]).

(** The socket can be missing; then the packet is looked at. *)
Definition j_tcp_v4_send_reset (c : bctx) (sk : option sock) (pkt : list Z) (m : cnt_map)
    : cnt_map * list data_t :=
  match sk with
  | None =>
      let '(d, m) := get_skb_info pkt NET_RETRANS_TYPE_RST data0 m in
      (m, send_inner (set_stack 0 (get_task None d)))
  | Some sk =>
      let '(d, m) := get_info sk NET_RETRANS_TYPE_RST_SK data0 m in
      (m, send_inner (set_stack (u16 (c_stackid c)) (get_task (Some sk) d)))
  end.

Definition j_tcp_send_active_reset (c : bctx) (sk : sock) (m : cnt_map) : cnt_map * list data_t :=
  let '(d, m) := get_info sk NET_RETRANS_TYPE_RST_ACTIVE data0 m in
  (m, send_inner (get_task (Some sk) (set_stack (u16 (c_stackid c)) d))).

Definition TCP_SYN_SENT : Z := 2.
Definition j_tcp_retransmit_skb (c : bctx) (sk : sock) (m : cnt_map) : cnt_map * list data_t :=
  if skc_state sk =? TCP_SYN_SENT then
    let '(d, m) := get_info sk NET_RETRANS_TYPE_SYN data0 m in (m, [get_task (Some sk) d])
  else (m, []).

Definition j_tcp_rtx_synack (c : bctx) (sk : sock) (m : cnt_map) : cnt_map * list data_t :=
  let '(d, m) := get_info sk NET_RETRANS_TYPE_SYN_ACK data0 m in (m, [get_task (Some sk) d]).

Inductive probe :=
  | EnterLoss (c : bctx) (sk : sock) | Probe0 (c : bctx) (sk : sock)
  | SendReset (c : bctx) (sk : option sock) (pkt : list Z) | ActiveReset (c : bctx) (sk : sock)
  | Retransmit (c : bctx) (sk : sock) | RtxSynack (c : bctx) (sk : sock).

#[global] Instance net_tracer : Tracer cnt_map probe data_t := λ i,
  match i with
  | EnterLoss c sk => j_tcp_enter_loss c sk
  | Probe0 c sk => j_tcp_send_probe0 c sk
  | SendReset c sk pkt => j_tcp_v4_send_reset c sk pkt
  | ActiveReset c sk => j_tcp_send_active_reset c sk
  | Retransmit c sk => j_tcp_retransmit_skb c sk
  | RtxSynack c sk => j_tcp_rtx_synack c sk
  end.

(** ** User space *)

Definition net_title : list (list Z) :=
  [lit "rto_retrans"; lit "zero_probe"; lit "noport_reset"; lit "bad_sync"; lit "net_proc"; lit "syn_send";
   lit "syn_ack"].

(** The plugin: the log budget, the counts at the last call ([rec]), the queue
    of lines sent. *)
Record plugin := Plugin { budget : Z; rec : list Z; sent : list unity_line }.

Definition get_count (m : cnt_map) : list Z :=
  (λ i, default 0 (m !! Z.of_nat i)) <$> seq 0 (Z.to_nat NET_RETRANS_TYPE_MAX).

Definition cal_retrans (m : cnt_map) (rec : list Z) : list Z * list Z :=
  let locals := get_count m in (zip_with (λ l r, u64 (l - r)) locals rec, locals).

(** The loop of [call] that fills the line. *)
Fixpoint fill_values (i : Z) (titles : list (list Z)) (vals : list Z) (l : unity_line) : unity_line :=
  match titles, vals with
  | t :: titles', v :: vals' => fill_values (i + 1) titles' vals' (unity_set_value i t (of_int v) l).2
  | _, _ => l
  end.

Definition call (t : Z) (m : cnt_map) (p : plugin) : unity_line * plugin :=
  let '(vals, rec) := cal_retrans m (rec p) in
  (fill_values 0 net_title vals (unity_set_table (lit "net_retrans_count") line0), Plugin t rec (sent p)).

Definition LOG_MAX : nat := 256.

Definition transIP (ip : Z) : list Z :=
  let byte i := fmt_llu (Z.land (Z.shiftr ip (8 * i)) 0xff) in
  byte 0 ++ lit "." ++ byte 1 ++ lit "." ++ byte 2 ++ lit "." ++ byte 3.
Definition htons (x : Z) : Z := Z.lor (Z.shiftl (Z.land x 0xff) 8) (Z.shiftr x 8).
Definition fmt_d (n : Z) : list Z := fmt_ld (i32 n).

Section log.
(** The kernel symbol of an address ([ksym_search] of [Ksym]) and the address
    under key 1 of the stack map. *)
Context (ksym : Z → option (list Z)) (addr : Z).

Definition resetSock (e : data_t) : list Z :=
  if negb (addr =? 0) then
    match ksym addr with
    | Some func =>
        if decide (func = lit "tcp_v4_rcv") then
          if sk_state e =? 12 then lit "bad_ack" else lit "tw_rst"
        else if decide (func = lit "tcp_check_req") then lit "bad_syn"
        else if decide (func = lit "tcp_v4_do_rcv") then lit "tcp_stat"
        else lit "unknown_sock"
    | None => lit "failure_sock"
    end
  else lit "failure_sock".

Definition resetActive (e : data_t) : list Z :=
  if negb (addr =? 0) then
    match ksym addr with
    | Some func =>
        if decide (func = lit "tcp_out_of_resources") then lit "tcp_oom"
        else if decide (func = lit "tcp_keepalive_timer") then lit "keep_alive"
        else if decide (func = lit "inet_release") then lit "bad_close"
        else if decide (func = lit "tcp_close") then lit "bad_close"
        else if decide (func = lit "tcp_disconnect") then lit "tcp_abort"
        else if decide (func = lit "tcp_abort") then lit "tcp_abort"
        else lit "unknown_active"
    | None => lit "failure_active"
    end
  else lit "failure_active".

Definition tcp_names : list (list Z) :=
  [lit "rcv_nxt:"; lit ", rcv_wup:"; lit ", snd_nxt:"; lit ", snd_una:"; lit ", copied_seq:"; lit ", snd_wnd:";
   lit ", rcv_wnd:"; lit ", lost_out:"; lit ", packets_out:"; lit ", retrans_out:"; lit ", sacked_out:";
   lit ", reordering:"].

(** [snprintf] into [LOG_MAX] bytes. *)
Definition cut (s : list Z) : list Z := take (LOG_MAX - 1) s.

Definition log_head (e : data_t) : list Z :=
  cut (lit "task:" ++ fmt_d (d_pid e) ++ lit "|" ++ d_comm e ++ lit ", tcp:" ++ transIP (ip_src e) ++ lit ":"
       ++ fmt_d (htons (sport e)) ++ lit "->" ++ transIP (ip_src e) ++ lit ":" ++ fmt_d (htons (sport e))
       ++ lit ", state:" ++ fmt_d (sk_state e) ++ lit ", ").

Definition log_tail (e : data_t) : list Z :=
  if (d_type e =? NET_RETRANS_TYPE_RTO) || (d_type e =? NET_RETRANS_TYPE_ZERO)
     || (d_type e =? NET_RETRANS_TYPE_SYN) || (d_type e =? NET_RETRANS_TYPE_SYN_ACK)
  then cut (concat (zip_with (λ n v, n ++ fmt_d v) tcp_names (d_tcp e)))
  else if d_type e =? NET_RETRANS_TYPE_RST then lit "noport"
  else if d_type e =? NET_RETRANS_TYPE_RST_SK then resetSock e
  else if d_type e =? NET_RETRANS_TYPE_RST_ACTIVE then resetActive e
  else [].

(** [proc]: [strncat] with [LOG_MAX] does not keep the sum in the buffer, so a
    text that does not fit is written behind it ([None]). *)
Definition proc (e : data_t) (line : unity_line) : option unity_line :=
  let log := log_head e ++ log_tail e in
  if (length log <? LOG_MAX)%nat then
    let line := unity_set_table (lit "net_retrans_log") line in
    let line := (unity_set_index 0 (lit "type") (nth (Z.to_nat (d_type e)) net_title []) line).2 in
    Some (unity_set_log (lit "log") log line)
  else None.

Definition handle_event (p : plugin) (e : data_t) : option plugin :=
  if 0 <? budget p then
    match proc e line0 with
    | Some line => Some (Plugin (budget p - 1) (rec p) (sent p ++ [line]))
    | None => None
    end
  else Some p.
End log.

(** ** What the plugin publishes *)

(** The kind an input counts, if it counts. *)
Definition kind_of (i : probe) : option Z :=
  match i with
  | EnterLoss _ sk => if skc_state sk =? 1 then Some NET_RETRANS_TYPE_RTO else None
  | Probe0 _ sk => if skc_state sk =? 0 then None else Some NET_RETRANS_TYPE_ZERO
  | SendReset _ None _ => Some NET_RETRANS_TYPE_RST
  | SendReset _ (Some _) _ => Some NET_RETRANS_TYPE_RST_SK
  | ActiveReset _ _ => Some NET_RETRANS_TYPE_RST_ACTIVE
  | Retransmit _ sk => if skc_state sk =? TCP_SYN_SENT then Some NET_RETRANS_TYPE_SYN else None
  | RtxSynack _ _ => Some NET_RETRANS_TYPE_SYN_ACK
  end.
Definition hits (k : Z) (tr : list probe) : Z := zlen (filter (λ i, kind_of i = Some k) tr).

Lemma handle_counts i (m : cnt_map) :
  (handle i m).1 = match kind_of i with Some k => addCnt k 1 m | None => m end.
Proof.
  destruct i as [c sk|c sk|c [sk|] pkt|c sk|c sk|c sk];
    cbv [handle net_tracer j_tcp_enter_loss j_tcp_send_probe0 j_tcp_v4_send_reset j_tcp_send_active_reset
         j_tcp_retransmit_skb j_tcp_rtx_synack get_info get_skb_info kind_of]; try done.
  - by destruct (skc_state sk =? 1).
  - by destruct (skc_state sk =? 0).
  - by destruct (skc_state sk =? TCP_SYN_SENT).
Qed.

Lemma kind_range i k : kind_of i = Some k → 0 ≤ k < NET_RETRANS_TYPE_MAX.
Proof. destruct i as [| |c [sk|] pkt| | |]; simpl; repeat case_match; intros; simplify_eq; by vm_compute. Qed.

Lemma addCnt_lookup k (m : cnt_map) j : 0 ≤ k < NET_RETRANS_TYPE_MAX → 
  default 0 (addCnt k 1 m !! j) = if k =? j then u64 (default 0 (m !! k) + 1) else default 0 (m !! j).
Proof.
  intros Hk. unfold addCnt, array_lookup, array_store.
  rewrite (proj2 (Z.leb_le 0 k)), (proj2 (Z.ltb_lt k _)) by lia. cbn [andb].
  destruct (Z.eqb_spec k j) as [<-|]; [by rewrite lookup_insert_eq|by rewrite lookup_insert_ne].
Qed.

Lemma run_counts tr : ∀ (m : cnt_map) k,
  u64 (default 0 ((run tr m).1 !! k)) = u64 (default 0 (m !! k) + hits k tr).
Proof.
  induction tr as [|i tr IH]; intros m k.
  { change (hits k []) with 0. by rewrite Z.add_0_r. }
  rewrite run_cons. cbn [fst]. rewrite IH, handle_counts. unfold hits. rewrite filter_cons.
  destruct (kind_of i) as [k'|] eqn:Hk; [|by rewrite decide_False].
  pose proof (kind_range _ _ Hk). rewrite addCnt_lookup by done.
  destruct (Z.eqb_spec k' k) as [->|Hne].
  - rewrite decide_True by done. rewrite zlen_cons, wrap_add. f_equal. lia.
  - by rewrite decide_False by congruence.
Qed.

(** The lines published by successive calls, each after the probes of its
    period. *)
Fixpoint periods (m : cnt_map) (p : plugin) (ps : list (list probe * Z)) : list unity_line :=
  match ps with
  | [] => []
  | (tr, t) :: ps' =>
      let m := (run tr m).1 in
      let '(l, p) := call t m p in l :: periods m p ps'
  end.

Lemma wrap_difference w a b h : wrap w a = wrap w (b + h) → wrap w (a - b) = wrap w h.
Proof.
  unfold wrap. intros H. rewrite <-Zminus_mod_idemp_l, H, Zminus_mod_idemp_l. f_equal. lia.
Qed.

(** The line of one call: each kind under its title. *)
Lemma call_line t (m : cnt_map) p k title :
  length (rec p) = 7%nat → net_title !! k = Some title →
  values (call t m p).1 !! k
  = Some (title, of_int (u64 (default 0 (m !! Z.of_nat k) - nth k (rec p) 0))).
Proof.
  intros Hl Hk. unfold call, cal_retrans, get_count.
  destruct (rec p) as [|r0 [|r1 [|r2 [|r3 [|r4 [|r5 [|r6 [|]]]]]]]]; try done.
  change (seq 0 (Z.to_nat NET_RETRANS_TYPE_MAX)) with [0; 1; 2; 3; 4; 5; 6]%nat.
  cbn [fmap list_fmap zip_with fst]. unfold net_title in *.
  do 7 (destruct k as [|k]; [injection Hk as <-; reflexivity|]). done.
Qed.

Lemma periods_counts ps : ∀ (m : cnt_map) p, rec p = get_count m →
  Forall2 (λ l pt, ∀ k title, net_title !! k = Some title →
             values l !! k = Some (title, of_int (u64 (hits (Z.of_nat k) pt.1)))) (periods m p ps) ps.
Proof.
  induction ps as [|[tr t] ps IH]; intros m p Hrec; [constructor|]. cbn [periods].
  destruct (call t (run tr m).1 p) as [l p'] eqn:Hc. constructor.
  - intros k title Hk. replace l with (call t (run tr m).1 p).1 by (by rewrite Hc).
    rewrite (call_line t _ p k title) by (done || by rewrite Hrec). do 3 f_equal.
    apply wrap_difference. rewrite run_counts. do 2 f_equal. rewrite Hrec. unfold get_count.
    rewrite nth_lookup, list_lookup_fmap. apply lookup_lt_Some in Hk. simpl in Hk.
    by rewrite lookup_seq_lt by (change (Z.to_nat NET_RETRANS_TYPE_MAX) with 7%nat; lia).
  - apply IH. unfold call, cal_retrans in Hc. by injection Hc as <- <-.
Qed.

(** The plugin when it is installed. *)
Definition plugin0 : plugin := Plugin 0 (replicate 7 0) [].

(** C12: every call publishes the events of its own period: whatever sockets the
    probes see, the value under each title is the number of events of that kind
    since the previous call (modulo 2^64). *)
Theorem net_retrans_counts ps :
  Forall2 (λ l pt, ∀ k title, net_title !! k = Some title →
             values l !! k = Some (title, of_int (u64 (hits (Z.of_nat k) pt.1)))) (periods ∅ plugin0 ps) ps.
Proof. by apply periods_counts. Qed.

Lemma omap_length {A B} (f : A → option B) l : (length (omap f l) ≤ length l)%nat.
Proof. unfold omap. induction l as [|x l IH]; simpl; [done|]. destruct (f x); simpl; lia. Qed.

Section events.
Context (ksym : Z → option (list Z)) (addr : Z).

Fixpoint events_loop (p : plugin) (es : list data_t) : option plugin :=
  match es with
  | [] => Some p
  | e :: es' => match handle_event ksym addr p e with Some p' => events_loop p' es' | None => None end
  end.

Lemma events_loop_budget es : ∀ p, 0 ≤ budget p →
  Forall (λ e, is_Some (proc ksym addr e line0)) (take (Z.to_nat (budget p)) es) →
  ∃ p', events_loop p es = Some p' ∧
    sent p' = sent p ++ omap (λ e, proc ksym addr e line0) (take (Z.to_nat (budget p)) es).
Proof.
  induction es as [|e es IH]; intros p Hb Hok.
  { exists p. rewrite take_nil. simpl. by rewrite app_nil_r. }
  cbn [events_loop]. unfold handle_event. destruct (Z.ltb_spec 0 (budget p)) as [Hpos|Hz].
  - replace (Z.to_nat (budget p)) with (S (Z.to_nat (budget p - 1))) in * by lia.
    cbn [take] in *. apply Forall_cons in Hok as [[line Hl] Hok]. rewrite Hl.
    destruct (IH (Plugin (budget p - 1) (rec p) (sent p ++ [line]))) as (p' & Hp & Hs); [simpl; lia|done|].
    exists p'. split; [done|]. rewrite Hs. cbn [omap list_omap sent]. rewrite Hl. by rewrite <-app_assoc.
  - assert (budget p = 0) as Hb0 by lia.
    destruct (IH p) as (p' & Hp & Hs); [lia|rewrite Hb0; constructor|].
    exists p'. split; [done|]. rewrite Hs. by rewrite Hb0.
Qed.

(** C13: the log is bounded: after a call with period [t], the plugin sends a
    line for the first [t] events and for no other until the next call,
    provided the text of those events fits its buffer. *)
Theorem net_retrans_budget t (m : cnt_map) p es :
  0 ≤ t → Forall (λ e, is_Some (proc ksym addr e line0)) (take (Z.to_nat t) es) →
  ∃ p', events_loop (call t m p).2 es = Some p' ∧
    sent p' = sent p ++ omap (λ e, proc ksym addr e line0) (take (Z.to_nat t) es) ∧
    zlen (sent p') ≤ zlen (sent p) + t.
Proof.
  intros Ht Hok. destruct (events_loop_budget es (call t m p).2) as (p' & Hp & Hs); [done|done|].
  exists p'. split; [done|]. cbn [call cal_retrans snd budget sent] in Hs. split; [done|].
  rewrite Hs, zlen_app. unfold zlen.
  assert (length (omap (λ e, proc ksym addr e line0) (take (Z.to_nat t) es)) ≤ length (take (Z.to_nat t) es))%nat as Hle.
  { apply omap_length. }
  rewrite length_take in Hle. lia.
Qed.

(** The log line does not say where the connection goes: it prints the
    source address and port twice, so two events that differ in the
    destination only give the same line. *)
Theorem net_retrans_log_no_destination e dst port line :
  proc ksym addr (DataT (d_comm e) (d_pid e) (d_type e) (ip_src e) dst (sport e) port (sk_state e)
                    (stack_id e) (d_tcp e)) line
  = proc ksym addr e line.
Proof. done. Qed.
End events.

(** The stored address of a.b.c.d: the first byte is the lowest. *)
Definition addr_of (a b c d : Z) : Z := a + 256 * b + 65536 * c + 16777216 * d.

Lemma land_low ip mask k : 0 ≤ k → Z.land mask (Z.ones k) = mask → Z.land ip mask = Z.land (ip mod 2 ^ k) mask.
Proof.
  intros Hk Hm. rewrite <-Z.land_ones by done. rewrite <-Hm at 1.
  rewrite (Z.land_comm mask), Z.land_assoc. done.
Qed.

(** The mask of the 172.16/12 network keeps the first byte and the upper half of
    the second. *)
Lemma land_f0ff x : 0 ≤ x < 65536 → Z.land x 0xf0ff = x mod 256 + 4096 * (x / 4096).
Proof.
  intros Hx.
  change 256 with (2 ^ 8). rewrite <-(Z.land_ones x 8) by lia.
  rewrite Z.mul_comm. change 4096 with (2 ^ 12). rewrite <-(Z.shiftr_div_pow2 x 12), <-Z.shiftl_mul_pow2 by lia.
  rewrite <-Z.ldiff_ones_r by lia.
  assert (Z.land (Z.land x (Z.ones 8)) (Z.ldiff x (Z.ones 12)) = 0) as Hno.
  { apply Z.bits_inj'. intros n Hn. rewrite Z.bits_0, !Z.land_spec, Z.ldiff_spec, !Z.testbit_ones_nonneg by lia.
    destruct (Z.ltb_spec n 8), (Z.ltb_spec n 12); try lia; by destruct (Z.testbit x n). }
  rewrite Z.add_nocarry_lxor, Z.lxor_lor by done.
  change 0xf0ff with (Z.lor (Z.ones 8) (Z.ldiff (Z.ones 16) (Z.ones 12))).
  apply Z.bits_inj'. intros n Hn.
  rewrite Z.land_spec, !Z.lor_spec, Z.land_spec, !Z.ldiff_spec, !Z.testbit_ones_nonneg by lia.
  destruct (Z.ltb_spec n 16) as [|H16]; [by destruct (Z.testbit x n), (n <? 8), (n <? 12)|].
  rewrite (Z.bits_above_log2 x n); [done|lia|].
  destruct (Z.eq_dec x 0) as [->|]; [simpl; lia|]. apply Z.log2_lt_pow2; [lia|].
  apply Z.lt_le_trans with (2 ^ 16); [lia|]. by apply Z.pow_le_mono_r.
Qed.

(** The address filter is the test for private IPv4 addresses: an address is
    reported as internal exactly when it is 0.0.0.0 or in 10/8, 172.16/12 or
    192.168/16. *)
Theorem check_inner_private a b c d :
  0 ≤ a < 256 → 0 ≤ b < 256 → 0 ≤ c < 256 → 0 ≤ d < 256 →
  check_inner (addr_of a b c d) = true ↔
  (a = 0 ∧ b = 0 ∧ c = 0 ∧ d = 0) ∨ a = 10 ∨ (a = 172 ∧ 16 ≤ b < 32) ∨ (a = 192 ∧ b = 168).
Proof.
  intros Ha Hb Hc Hd. unfold check_inner, inner_nets. cbn [existsb].
  rewrite (land_low _ 0xff 8), (land_low _ 0xf0ff 16), (land_low _ 0xffff 16) by done.
  change (2 ^ 8) with 256. change (2 ^ 16) with 65536.
  assert (addr_of a b c d mod 256 = a) as -> by (unfold addr_of; Z.div_mod_to_equations; lia).
  assert (addr_of a b c d mod 65536 = a + 256 * b) as -> by (unfold addr_of; Z.div_mod_to_equations; lia).
  assert (addr_of a b c d = 0 ↔ a = 0 ∧ b = 0 ∧ c = 0 ∧ d = 0) as H0 by (unfold addr_of; lia).
  rewrite !orb_true_iff, !Z.eqb_eq, H0, land_f0ff by lia.
  change 255 with (Z.ones 8). change 65535 with (Z.ones 16). rewrite !Z.land_ones by lia.
  change (2 ^ 8) with 256. change (2 ^ 16) with 65536. rewrite (Z.mod_small (a + 256 * b) 65536) by lia.
  split.
  - intros [H|[H|[H|[H|H]]]]; try done; clear H0; Z.div_mod_to_equations; lia.
  - intros [H|[H|[H|H]]]; [by left|right; left|do 2 right; left|do 3 right; left];
      clear H0; Z.div_mod_to_equations; lia.
Qed.

(** ** Concrete events *)

Definition s_sk : sock := Sock (addr_of 10 0 0 2) 0x5000 (addr_of 10 0 0 1) 0x1f90 1 (Some (42, lit "curl"))
  (replicate 12 7).
Definition s_net (now : Z) : bctx := BCtx now 0 42 "curl" 5.

Lemma net_retrans_budget_witness : ∃ p',
  events_loop (λ _, None) 0 (call 1 ∅ plugin0).2
    ((run [RtxSynack (s_net 1) s_sk; ActiveReset (s_net 2) s_sk] (∅ : cnt_map)).2) = Some p' ∧
  zlen (sent p') ≤ 1.
Proof.
  destruct (net_retrans_budget (λ _, None) 0 1 ∅ plugin0
    ((run [RtxSynack (s_net 1) s_sk; ActiveReset (s_net 2) s_sk] (∅ : cnt_map)).2)) as (p' & H1 & _ & H2).
  - lia.
  - repeat constructor. by_compute.
  - exists p'. split; [exact H1|exact H2].
Defined.

Lemma check_inner_private_witness :
  check_inner (addr_of 172 20 0 1) = true ∧ check_inner (addr_of 8 8 8 8) = false.
Proof.
  split.
  - apply (check_inner_private 172 20 0 1); lia.
  - apply not_true_iff_false. intros H. apply (check_inner_private 8 8 8 8) in H; lia.
Defined.

(** The log buffer overflows on large TCP counters: for a retransmission of a
    connection whose twelve counters have ten digits, the text is longer than
    the buffer [strncat] appends to. *)
Theorem net_retrans_log_overflow :
  proc (λ _, None) 0
    (DataT (lit "curl") 42 NET_RETRANS_TYPE_RTO (addr_of 10 0 0 1) (addr_of 10 0 0 2) 8080 80 1 0
       (replicate 12 (2 ^ 31 - 1))) line0 = None.
Proof. vm_compute. reflexivity. Qed.
