(* ===== verification/Schedstat.v ===== *)
(** * Schedstat: run-queue delays of the CPUs

    [monitor/unity/collector/plugin/proc_schedstat/proc_schedstat.c]: each call
    reads [/proc/schedstat], publishes for each CPU the growth of the two
    counters since the last call, their averages, and the CPUs with the
    largest and the smallest delay. A copy that does not fit its array is
    [None]. *)

From Stdlib Require Import SpecFloat.
From S2P Require Import Prelude CString CFloat UnityLine.

Record sched_stats := SchedStats {
  cpu_name : list Z; yld_count : Z; sched_count : Z; sched_goidle : Z; ttwu_count : Z; ttwu_local : Z;
  rq_cpu_time : Z; delay : Z; pcount : Z;
}.
Definition stats0 : sched_stats := SchedStats [] 0 0 0 0 0 0 0 0.

(** The globals; [curr] and [oldp] swap at each call. *)
Record state := State {
  nr_cpus : Z; curr : list sched_stats; oldp : list sched_stats; delta : list sched_stats;
  curr_min : sched_stats; curr_max : sched_stats;
}.

(** [init]: everything zero, the minimum at the largest value. *)
Definition init (n : Z) : state :=
  let zeros := replicate (Z.to_nat n) stats0 in
  State n zeros zeros zeros (SchedStats [] 0 0 0 0 0 0 (u64 (-1)) 0) stats0.

(** ** Scanning a line *)

(** What the conversions of a CPU line leave in its entry: nine values with the
    legacy column, eight without it; otherwise only the first is stored. *)
Definition store_values (vals : list Z) (st : sched_stats) : sched_stats :=
  let v i := nth i vals 0 in
  match vals with
  | [] => st
  | y :: _ =>
      if (length vals =? 8)%nat then
        SchedStats (cpu_name st) y (v 1%nat) (v 2%nat) (v 3%nat) (v 4%nat) (v 5%nat) (v 6%nat) (v 7%nat)
      else if (length vals =? 9)%nat then
        SchedStats (cpu_name st) y (v 2%nat) (v 3%nat) (v 4%nat) (v 5%nat) (v 6%nat) (v 7%nat) (v 8%nat)
      else SchedStats (cpu_name st) y (sched_count st) (sched_goidle st) (ttwu_count st) (ttwu_local st)
             (rq_cpu_time st) (delay st) (pcount st)
  end.

Definition gen_delta (c o d : sched_stats) : sched_stats :=
  SchedStats (cpu_name d) (yld_count d) (sched_count d) (sched_goidle d) (ttwu_count d) (ttwu_local d)
    (rq_cpu_time d) (u64 (delay c - delay o)) (u64 (pcount c - pcount o)).

(** The record of the largest or smallest delay. *)
Definition extreme (name : list Z) (d : sched_stats) (e : sched_stats) : sched_stats :=
  SchedStats name (yld_count e) (sched_count e) (sched_goidle e) (ttwu_count e) (ttwu_local e)
    (rq_cpu_time e) (delay d) (pcount d).

Definition at_ (l : list sched_stats) (i : nat) : sched_stats := nth i l stats0.

(** The line of a CPU. *)
Definition cpu_values (name : list Z) (d : sched_stats) (l : unity_line) : unity_line :=
  let l := (unity_set_index 0 (lit "cpu") name l).2 in
  let l := (unity_set_value 0 (lit "pcount") (of_int (pcount d)) l).2 in
  (unity_set_value 1 (lit "delay") (of_int (delay d)) l).2.

(** One round of the loop of [full_line]. *)
Definition line_step (line : list Z) (s : state) (ls : list unity_line) : option (state * list unity_line) :=
  if negb (is_prefix (lit "cpu") line) then Some (s, ls)
  else
    match scan_ld (drop 3 line) with
    | Some cpu =>
        if (0 <=? cpu) && (cpu <? nr_cpus s) then
          let i := Z.to_nat cpu in
          let name := token line in
          if (length name <? 8)%nat then
            let st := store_values (scan_ulls 9 (drop (length name) line)) (at_ (curr s) i) in
            let d := gen_delta st (at_ (oldp s) i) (at_ (delta s) i) in
            Some (State (nr_cpus s) (<[i := st]> (curr s)) (oldp s) (<[i := d]> (delta s))
                    (if delay d <? delay (curr_min s) then extreme name d (curr_min s) else curr_min s)
                    (if delay (curr_max s) <? delay d then extreme name d (curr_max s) else curr_max s),
                  alter (cpu_values name d) i ls)
          else None
        else Some (s, ls)
    | None => Some (s, ls)
    end.

Fixpoint lines_loop (lines : list (list Z)) (s : state) (ls : list unity_line) : option (state * list unity_line) :=
  match lines with
  | [] => Some (s, ls)
  | line :: lines' =>
      match line_step line s ls with Some (s, ls) => lines_loop lines' s ls | None => None end
  end.

Definition sum64 (l : list Z) : Z := foldl (λ a x, u64 (a + x)) 0 l.

(** [full_line] on the contents of the file ([None] if it cannot be opened). *)
Definition full_line (content : option (list Z)) (s : state) (ls : list unity_line)
    : option (state * list unity_line) :=
  match content with
  | None => Some (s, ls)
  | Some text =>
      match lines_loop (fgets_all 127 text) s ls with
      | None => None
      | Some (s, ls) =>
          let sum_cnt := sum64 (pcount <$> delta s) in
          let sum_delay := sum64 (delay <$> delta s) in
          let avg l :=
            let l := (unity_set_index 0 (lit "summary") (lit "avg") l).2 in
            let l := (unity_set_value 0 (lit "pcount") (of_int (sum_cnt / nr_cpus s)) l).2 in
            (unity_set_value 1 (lit "delay") (of_int (sum_delay / nr_cpus s)) l).2 in
          Some (State (nr_cpus s) (oldp s) (curr s) (delta s) (curr_min s) (curr_max s),
                alter avg (Z.to_nat (nr_cpus s)) ls)
      end
  end.

(** The lines of the extremes. *)
Definition extreme_line (what : list Z) (e : sched_stats) (l : unity_line) : unity_line :=
  let l := unity_set_table (lit "proc_schedstat") l in
  let l := (unity_set_index 0 what (cpu_name e) l).2 in
  let l := (unity_set_value 0 (lit "pcount") (of_int (delay e)) l).2 in
  (unity_set_value 1 (lit "delay") (of_int (pcount e)) l).2.

Definition call (content : option (list Z)) (s : state) : option (state * list unity_line) :=
  match unity_alloc_lines (nr_cpus s + 3) with
  | None => None
  | Some lines =>
      let n := Z.to_nat (nr_cpus s) in
      let tbl := unity_set_table (lit "proc_schedstat") in
      let lines := imap (λ i l, if (i <=? n)%nat then tbl l else l) lines in
      match full_line content s lines with
      | None => None
      | Some (s, lines) =>
          let lines := alter (extreme_line (lit "max") (curr_max s)) (n + 1)%nat lines in
          Some (s, alter (extreme_line (lit "min") (curr_min s)) (n + 2)%nat lines)
      end
  end.

(** ** The file

    A line for each CPU, in order, among other lines. *)

Inductive item := Other (l : list Z) | Cpu (i : nat) (vals : list Z).

Definition item_line (x : item) : list Z :=
  match x with
  | Other l => l
  | Cpu i vals => cpu_word i ++ concat ((λ v, 32 :: fmt_llu v) <$> vals)
  end.
Definition item_ok (n : nat) (x : item) : Prop :=
  (10 ∉ item_line x) ∧ (0 ∉ item_line x) ∧ (length (item_line x) < 127)%nat ∧
  match x with
  | Other l => is_prefix (lit "cpu") l = false
  | Cpu i vals => (i < n)%nat ∧ Z.of_nat i < 10000 ∧ length vals = 9%nat ∧ Forall (λ v, 0 ≤ v < 2 ^ 64) vals
  end.
Definition file_text (xs : list item) : list Z := concat ((λ l, l ++ [10]) <$> (item_line <$> xs)).
Definition cpus (xs : list item) : list nat := omap (λ x, match x with Cpu i _ => Some i | _ => None end) xs.

(** ** Scanning what the kernel prints *)

(** What a CPU line does. *)
Definition new_delta (s : state) (i : nat) (vals : list Z) : sched_stats :=
  gen_delta (store_values vals (at_ (curr s) i)) (at_ (oldp s) i) (at_ (delta s) i).

Lemma line_step_cpu s ls i vals : item_ok (Z.to_nat (nr_cpus s)) (Cpu i vals) →
  line_step (item_line (Cpu i vals) ++ [10]) s ls
  = let d := new_delta s i vals in
    Some (State (nr_cpus s) (<[i := store_values vals (at_ (curr s) i)]> (curr s)) (oldp s) (<[i := d]> (delta s))
            (if delay d <? delay (curr_min s) then extreme (cpu_word i) d (curr_min s) else curr_min s)
            (if delay (curr_max s) <? delay d then extreme (cpu_word i) d (curr_max s) else curr_max s),
          alter (cpu_values (cpu_word i) d) i ls).
Proof.
  intros (_ & _ & _ & Hi & Hi' & Hv & Hvals). unfold line_step. cbn [item_line]. rewrite <-app_assoc.
  destruct vals as [|v vals]; [done|].
  replace (is_prefix (lit "cpu") _) with true by reflexivity. cbn [negb].
  assert (drop 3 (cpu_word i ++ concat ((λ v, 32 :: fmt_llu v) <$> v :: vals) ++ [10])
    = fmt_ld (Z.of_nat i) ++ concat ((λ v, 32 :: fmt_llu v) <$> v :: vals) ++ [10]) as -> by reflexivity.
  unfold scan_ld. assert (at_number (fmt_ld (Z.of_nat i) ++ concat ((λ v, 32 :: fmt_llu v) <$> v :: vals) ++ [10]) = true) as ->.
  { unfold fmt_ld. rewrite (proj2 (Z.ltb_ge _ 0)) by lia. apply at_number_digits. lia. }
  rewrite atol_fmt by (done || lia).
  rewrite (proj2 (Z.leb_le 0 (Z.of_nat i))), (proj2 (Z.ltb_lt (Z.of_nat i) (nr_cpus s))) by lia.
  cbn [andb]. rewrite Nat2Z.id.
  assert (token (cpu_word i ++ concat ((λ v, 32 :: fmt_llu v) <$> v :: vals) ++ [10]) = cpu_word i) as ->.
  { rewrite fmap_cons. cbn [concat]. rewrite <-app_assoc, <-app_comm_cons. apply token_app, cpu_word_plain. }
  rewrite (proj2 (Nat.ltb_lt _ 8)) by (by apply cpu_word_short).
  rewrite drop_app_length, scan_ulls_fmt by (done || lia). done.
Qed.

Lemma line_step_other s ls l : is_prefix (lit "cpu") l = false → (length l < 127)%nat →
  line_step (l ++ [10]) s ls = Some (s, ls).
Proof.
  intros Hl _. unfold line_step.
  assert (is_prefix (lit "cpu") (l ++ [10]) = false) as ->; [|done].
  destruct l as [|a [|b [|c l]]]; [done| | |exact Hl]; simpl in *.
  - by rewrite !andb_false_r.
  - by rewrite !andb_false_r.
Qed.


(** ** A call on what the kernel prints *)

(** The effect of a line on the globals and the published lines. *)
Definition item_step (x : item) (p : state * list unity_line) : state * list unity_line :=
  let '(s, ls) := p in
  match x with
  | Other _ => p
  | Cpu i vals =>
      let d := new_delta s i vals in
      (State (nr_cpus s) (<[i := store_values vals (at_ (curr s) i)]> (curr s)) (oldp s) (<[i := d]> (delta s))
         (if delay d <? delay (curr_min s) then extreme (cpu_word i) d (curr_min s) else curr_min s)
         (if delay (curr_max s) <? delay d then extreme (cpu_word i) d (curr_max s) else curr_max s),
       alter (cpu_values (cpu_word i) d) i ls)
  end.
Fixpoint items_step (xs : list item) (p : state * list unity_line) : state * list unity_line :=
  match xs with [] => p | x :: xs' => items_step xs' (item_step x p) end.

Lemma item_step_nr x p : nr_cpus (item_step x p).1 = nr_cpus p.1.
Proof. by destruct p, x. Qed.

Lemma lines_loop_items xs : ∀ s ls, Forall (item_ok (Z.to_nat (nr_cpus s))) xs →
  lines_loop ((λ l, l ++ [10]) <$> (item_line <$> xs)) s ls = Some (items_step xs (s, ls)).
Proof.
  induction xs as [|x xs IH]; intros s ls Hxs; [done|].
  apply Forall_cons in Hxs as [Hx Hxs]. rewrite !fmap_cons. cbn [lines_loop items_step].
  assert (line_step (item_line x ++ [10]) s ls = Some (item_step x (s, ls))) as ->.
  { destruct x as [l|i vals]; [|by apply line_step_cpu].
    destruct Hx as (_ & _ & Hl & Hp). by apply line_step_other. }
  destruct (item_step x (s, ls)) as [s' ls'] eqn:He. apply IH.
  pose proof (item_step_nr x (s, ls)) as Hn. rewrite He in Hn. simpl in Hn. by rewrite Hn.
Qed.

(** The three tables have an entry for each CPU. *)
Definition wf (s : state) : Prop :=
  0 < nr_cpus s ∧ length (curr s) = Z.to_nat (nr_cpus s) ∧ length (oldp s) = Z.to_nat (nr_cpus s) ∧
  length (delta s) = Z.to_nat (nr_cpus s).

Lemma items_step_frame xs : ∀ p, wf p.1 →
  wf (items_step xs p).1 ∧ nr_cpus (items_step xs p).1 = nr_cpus p.1 ∧
  oldp (items_step xs p).1 = oldp p.1 ∧ length (items_step xs p).2 = length p.2 ∧
  ∀ i, i ∉ cpus xs → curr (items_step xs p).1 !! i = curr p.1 !! i ∧
    delta (items_step xs p).1 !! i = delta p.1 !! i ∧ (items_step xs p).2 !! i = p.2 !! i.
Proof.
  induction xs as [|x xs IH]; intros p Hp; [done|]. cbn [items_step].
  assert (wf (item_step x p).1 ∧ nr_cpus (item_step x p).1 = nr_cpus p.1 ∧
    oldp (item_step x p).1 = oldp p.1 ∧ length (item_step x p).2 = length p.2) as (Hw & Hn & Ho & Hl).
  { destruct p as [s ls], x as [l|i vals]; [done|]. destruct Hp as (? & ? & ? & ?). unfold wf. simpl.
    rewrite !length_insert, length_alter. auto 10. }
  destruct (IH _ Hw) as (IHw & IHn & IHo & IHl & IHi).
  split; [done|]. split; [congruence|]. split; [congruence|]. split; [congruence|].
  intros i Hi. destruct p as [s ls], x as [l|j vals]; [by apply IHi|].
  apply not_elem_of_cons in Hi as [Hij Hi]. destruct (IHi i Hi) as (-> & -> & ->). simpl.
  rewrite !list_lookup_insert_ne, list_lookup_alter_ne by done. done.
Qed.

Lemma cpus_elem xs i vals : Cpu i vals ∈ xs → i ∈ cpus xs.
Proof. intros H. apply list_elem_of_omap. by exists (Cpu i vals). Qed.

Lemma items_step_cpu xs : ∀ p i vals, wf p.1 → (i < Z.to_nat (nr_cpus p.1))%nat → NoDup (cpus xs) → Cpu i vals ∈ xs →
  curr (items_step xs p).1 !! i = Some (store_values vals (at_ (curr p.1) i)) ∧
  delta (items_step xs p).1 !! i = Some (new_delta p.1 i vals) ∧
  (items_step xs p).2 !! i = cpu_values (cpu_word i) (new_delta p.1 i vals) <$> p.2 !! i.
Proof.
  induction xs as [|x xs IH]; intros p i vals Hp Hi Hnd Hx; [by apply not_elem_of_nil in Hx|].
  cbn [items_step]. apply elem_of_cons in Hx as [<-|Hx].
  - apply NoDup_cons in Hnd as [Hni Hnd]. destruct p as [s ls]. destruct Hp as (Hp & Hc & Ho & Hd). simpl in *.
    pose proof (items_step_frame xs (item_step (Cpu i vals) (s, ls))) as Hf. simpl in Hf.
    destruct Hf as (_ & _ & _ & _ & Hf).
    { unfold wf. simpl. rewrite !length_insert. auto. }
    destruct (Hf i Hni) as (-> & -> & ->).
    rewrite !list_lookup_insert_eq, list_lookup_alter_eq by lia. done.
  - pose proof (cpus_elem _ _ _ Hx) as Hin.
    destruct p as [s ls], x as [l|j vals']; [by apply IH|].
    apply NoDup_cons in Hnd as [Hnj Hnd]. assert (i ≠ j) as Hij by (by intros ->).
    destruct Hp as (Hp & Hc & Ho & Hd). simpl in Hp, Hc, Ho, Hd, Hi.
    destruct (IH (item_step (Cpu j vals') (s, ls)) i vals) as (-> & -> & ->); try done.
    { unfold wf. simpl. rewrite !length_insert. auto. }
    unfold new_delta, at_. simpl. rewrite !nth_lookup, !list_lookup_insert_ne, list_lookup_alter_ne by done. done.
Qed.

(** Extremes only move outwards. *)
Lemma extreme_max name d e : delay e ≤ delay (if delay e <? delay d then extreme name d e else e).
Proof. destruct (Z.ltb_spec (delay e) (delay d)); simpl; lia. Qed.

Lemma extreme_min name d e : delay (if delay d <? delay e then extreme name d e else e) ≤ delay e.
Proof. destruct (Z.ltb_spec (delay d) (delay e)); simpl; lia. Qed.

Lemma line_step_extremes line s ls s' ls' : line_step line s ls = Some (s', ls') →
  nr_cpus s' = nr_cpus s ∧ (∀ j, (Z.to_nat (nr_cpus s) ≤ j)%nat → ls' !! j = ls !! j) ∧
  delay (curr_max s) ≤ delay (curr_max s') ∧ delay (curr_min s') ≤ delay (curr_min s).
Proof.
  unfold line_step. intros H.
  destruct (negb _); [by simplify_eq|]. destruct (scan_ld _); [|by simplify_eq].
  destruct (_ && _) eqn:Hc; [|by simplify_eq]. destruct (_ <? 8)%nat; [|done]. simplify_eq.
  cbn [nr_cpus curr_max curr_min]. apply andb_true_iff in Hc as [?%Z.leb_le ?%Z.ltb_lt].
  split; [done|]. split; [|auto using extreme_max, extreme_min].
  intros j Hj. apply list_lookup_alter_ne. lia.
Qed.

Lemma lines_loop_extremes lines : ∀ s ls s' ls', lines_loop lines s ls = Some (s', ls') →
  nr_cpus s' = nr_cpus s ∧ (∀ j, (Z.to_nat (nr_cpus s) ≤ j)%nat → ls' !! j = ls !! j) ∧
  delay (curr_max s) ≤ delay (curr_max s') ∧ delay (curr_min s') ≤ delay (curr_min s).
Proof.
  induction lines as [|line lines IH]; intros s ls s' ls' H; simpl in H; [by simplify_eq|].
  destruct (line_step line s ls) as [[s1 ls1]|] eqn:He; [|done].
  apply line_step_extremes in He as (Hn & Hj & ? & ?). apply IH in H as (Hn' & Hj' & ? & ?).
  split; [congruence|]. split; [|lia]. intros j Hle. rewrite Hj' by congruence. by apply Hj.
Qed.

(** A published line with its two values. *)
Definition stat_line (what name : list Z) (v0 v1 : double) : unity_line :=
  ULine (lit "proc_schedstat") ((what, name) :: replicate 3 ([], []))
    ((lit "pcount", v0) :: (lit "delay", v1) :: replicate 30 ([], S754_zero false)) ([], []).

Definition fresh_lines (n : nat) : list unity_line :=
  imap (λ i l, if (i <=? n)%nat then unity_set_table (lit "proc_schedstat") l else l) (replicate (n + 3) line0).

Lemma fresh_lines_lookup n i : (i < n + 3)%nat →
  fresh_lines n !! i = Some (if (i <=? n)%nat then unity_set_table (lit "proc_schedstat") line0 else line0).
Proof. intros Hi. unfold fresh_lines. by rewrite list_lookup_imap, lookup_replicate_2 by done. Qed.

Lemma call_alloc content s : 0 < nr_cpus s → nr_cpus s + 3 ≤ MAX_UNITY_LINES →
  call content s
  = let n := Z.to_nat (nr_cpus s) in
    match full_line content s (fresh_lines n) with
    | None => None
    | Some (s', lines) =>
        Some (s', alter (extreme_line (lit "min") (curr_min s')) (n + 2)%nat
               (alter (extreme_line (lit "max") (curr_max s')) (n + 1)%nat lines))
    end.
Proof.
  intros Hs Hm. unfold call, unity_alloc_lines. rewrite (proj2 (Z.ltb_ge _ _)) by lia.
  replace (Z.to_nat (nr_cpus s + 3)) with (Z.to_nat (nr_cpus s) + 3)%nat by lia. done.
Qed.

Lemma store_nine vals st : length vals = 9%nat →
  delay (store_values vals st) = nth 7 vals 0 ∧ pcount (store_values vals st) = nth 8 vals 0.
Proof. intros H. do 10 (destruct vals as [|? vals]; try done). Qed.

(** C14: when the file has exactly one line for each CPU, a call publishes for
    each of them the growth of its number of waits and of its delay since the
    call before (modulo 2^64), keeps the new counters for the next call, and
    publishes the averages of the growth over all the CPUs. *)
Theorem schedstat_deltas s xs :
  wf s → nr_cpus s + 3 ≤ MAX_UNITY_LINES →
  Forall (item_ok (Z.to_nat (nr_cpus s))) xs → NoDup (cpus xs) →
  (∀ i, (i < Z.to_nat (nr_cpus s))%nat → i ∈ cpus xs) →
  ∃ s' ls, call (Some (file_text xs)) s = Some (s', ls) ∧ wf s' ∧ nr_cpus s' = nr_cpus s ∧
    (∀ i vals, Cpu i vals ∈ xs →
      let p := u64 (nth 8 vals 0 - pcount (at_ (oldp s) i)) in
      let d := u64 (nth 7 vals 0 - delay (at_ (oldp s) i)) in
      ls !! i = Some (stat_line (lit "cpu") (cpu_word i) (of_int p) (of_int d)) ∧
      pcount (at_ (delta s') i) = p ∧ delay (at_ (delta s') i) = d ∧
      pcount (at_ (oldp s') i) = nth 8 vals 0 ∧ delay (at_ (oldp s') i) = nth 7 vals 0) ∧
    ls !! Z.to_nat (nr_cpus s)
    = Some (stat_line (lit "summary") (lit "avg") (of_int (sum64 (pcount <$> delta s') / nr_cpus s))
              (of_int (sum64 (delay <$> delta s') / nr_cpus s))).
Proof.
  intros Hw Hm Hxs Hnd Hall. rewrite call_alloc by (destruct Hw; done || lia). cbv zeta.
  set (n := Z.to_nat (nr_cpus s)) in *. unfold full_line, file_text.
  rewrite fgets_all_lines.
  2:{ apply Forall_fmap. eapply Forall_impl; [exact Hxs|]. intros x (? & ? & ? & _). done. }
  rewrite lines_loop_items by done.
  pose proof (items_step_frame xs (s, fresh_lines n) Hw) as (Hw' & Hn & Ho & Hl & Hf).
  pose proof (items_step_cpu xs (s, fresh_lines n)) as Hcpu.
  destruct (items_step xs (s, fresh_lines n)) as [s' ls] eqn:He. cbn [fst snd] in *.
  eexists _, _. split; [reflexivity|]. cbn [nr_cpus oldp delta curr].
  split; [by destruct Hw' as (? & ? & ? & ?)|]. split; [done|]. rewrite Hn. fold n. split.
  - intros i vals Hx. assert (i < n)%nat as Hi.
    { rewrite Forall_forall in Hxs. by destruct (Hxs _ Hx) as (_ & _ & _ & Hi & _). }
    assert (length vals = 9%nat ∧ Z.of_nat i < 10000) as [Hv Hi'].
    { rewrite Forall_forall in Hxs. by destruct (Hxs _ Hx) as (_ & _ & _ & _ & ? & ? & _). }
    destruct (Hcpu i vals Hw Hi Hnd Hx) as (Hc & Hd & Hls).
    rewrite !list_lookup_alter_ne, Hls by lia. rewrite fresh_lines_lookup by lia.
    rewrite (proj2 (Nat.leb_le i n)) by lia.
    rewrite (nth_lookup_Some _ _ stats0 _ Hd : at_ _ _ = _), (nth_lookup_Some _ _ stats0 _ Hc : at_ _ _ = _).
    destruct (store_nine vals (at_ (curr s) i) Hv) as [Hd7 Hd8].
    unfold new_delta, gen_delta. cbn [pcount delay]. rewrite !Hd7, !Hd8.
    split; [|done]. cbn [fmap option_fmap option_map].
    unfold cpu_values, unity_set_index. cbn [Z.leb Z.compare Pos.compare Pos.compare_cont].
    replace (strncpy 16 (cpu_word i)) with (cpu_word i); [reflexivity|].
    symmetry. apply take_ge. pose proof (cpu_word_short i Hi'). lia.
  - rewrite !list_lookup_alter_ne by lia. rewrite list_lookup_alter_eq.
    assert (n ∉ cpus xs) as Hnn.
    { intros ([j|j vals] & Hx & Hj)%list_elem_of_omap; simplify_eq.
      rewrite Forall_forall in Hxs. destruct (Hxs _ Hx) as (_ & _ & _ & Hi & _). lia. }
    destruct (Hf n Hnn) as (_ & _ & ->). rewrite fresh_lines_lookup by lia. by rewrite Nat.leb_refl.
Qed.

(** Two CPUs, after the banner of the file. *)
Definition sample_items : list item :=
  [Other (lit "version 15"); Cpu 0 [1; 0; 2; 3; 4; 5; 100; 70; 7]; Cpu 1 [1; 0; 2; 3; 4; 5; 100; 90; 9]].

Lemma sample_items_ok : Forall (item_ok 2) sample_items.
Proof. repeat constructor; by_compute. Qed.

Lemma schedstat_deltas_witness :
  wf (init 2) ∧
  ∃ s' ls, call (Some (file_text sample_items)) (init 2) = Some (s', ls) ∧
    ls !! 1%nat = Some (stat_line (lit "cpu") (lit "cpu1") (of_int 9) (of_int 90)).
Proof.
  assert (wf (init 2)) as Hw by done. split; [done|].
  destruct (schedstat_deltas (init 2) sample_items Hw ltac:(done) sample_items_ok)
    as (s' & ls & Hc & _ & _ & Hi & _).
  - apply (bool_decide_unpack _). by vm_compute.
  - intros i Hi. change (Z.to_nat (nr_cpus (init 2))) with 2%nat in Hi.
    apply (bool_decide_unpack _). destruct i as [|[|i]]; [by vm_compute..|lia].
  - exists s', ls. split; [done|].
    apply (Hi 1%nat [1; 0; 2; 3; 4; 5; 100; 90; 9]). by apply list_elem_of_further, list_elem_of_further, list_elem_of_here.
Defined.

(** Whatever the file holds, the extremes are those of the whole life of the
    collector, not of the call: the largest delay never falls and the smallest
    never rises from one call to the next. The lines that publish them carry
    the delay under the name of the count and the count under the name of the
    delay. *)
Theorem schedstat_extremes content s s' ls :
  0 < nr_cpus s → nr_cpus s + 3 ≤ MAX_UNITY_LINES → call content s = Some (s', ls) →
  let n := Z.to_nat (nr_cpus s) in
  let swapped what e := stat_line (lit what) (strncpy 16 (cpu_name e)) (of_int (delay e)) (of_int (pcount e)) in
  delay (curr_max s) ≤ delay (curr_max s') ∧ delay (curr_min s') ≤ delay (curr_min s) ∧
  ls !! (n + 1)%nat = Some (swapped "max" (curr_max s')) ∧ ls !! (n + 2)%nat = Some (swapped "min" (curr_min s')).
Proof.
  intros Hs Hm Hc. rewrite call_alloc in Hc by done. cbv zeta in *. set (n := Z.to_nat (nr_cpus s)) in *.
  destruct (full_line content s (fresh_lines n)) as [[s1 ls1]|] eqn:Hf; [|done]. simplify_eq.
  assert (delay (curr_max s) ≤ delay (curr_max s') ∧ delay (curr_min s') ≤ delay (curr_min s) ∧
    ∀ j, (n < j < n + 3)%nat → ls1 !! j = Some line0) as (Hmax & Hmin & Hj).
  { assert (∀ j, (n < j < n + 3)%nat → fresh_lines n !! j = Some line0) as Hfr.
    { intros j Hj. rewrite fresh_lines_lookup, (proj2 (Nat.leb_gt j n)) by lia. done. }
    destruct content as [text|]; [|by simplify_eq/=]. unfold full_line in Hf.
    destruct (lines_loop _ s _) as [[s2 ls2]|] eqn:Hl; [|done]. simplify_eq. cbn [curr_max curr_min].
    apply lines_loop_extremes in Hl as (Hn & Hj & ? & ?). split; [done|]. split; [done|]. intros j Hlt.
    rewrite list_lookup_alter_ne, Hj by lia. auto. }
  split; [done|]. split; [done|].
  rewrite list_lookup_alter_ne, !list_lookup_alter_eq by lia. rewrite list_lookup_alter_ne, !Hj by lia. done.
Qed.

Lemma schedstat_extremes_witness :
  ∃ s' ls, call (Some (file_text sample_items)) (init 2) = Some (s', ls) ∧
    ls !! 3%nat = Some (stat_line (lit "max") (lit "cpu1") (of_int 90) (of_int 9)).
Proof.
  destruct (call (Some (file_text sample_items)) (init 2)) as [[s' ls]|] eqn:Hc; [|by vm_compute in Hc].
  exists s', ls. split; [done|].
  pose proof (schedstat_extremes _ (init 2) _ _ ltac:(done) ltac:(done) Hc) as (_ & _ & Hl & _).
  change (ls !! 3%nat = Some (stat_line (lit "max") (strncpy 16 (cpu_name (curr_max s')))
    (of_int (delay (curr_max s'))) (of_int (pcount (curr_max s'))))) in Hl.
  rewrite Hl. vm_compute in Hc. by simplify_eq.
Defined.
