(* ===== verification/Runlat.v ===== *)
(** * Runlat: the reports of the run-latency kernel module

    [detect/sched/runlatency/parser.c] turns the text of the kernel module's
    report files into JSON objects. A pointer into the stream is the suffix it
    points to (the bytes before the terminator); an access behind the
    terminator, and a copy of a negative length, are [Crash]. The kernel module
    is not part of the sources, so nothing is assumed about what it prints: the
    theorem says which streams the parsers accept, and with which result. The
    JSON library is not part of the parser: an object
    is the list of what was added to it, and what is printed is the list of
    objects. *)

From S2P Require Import Prelude CString.

Inductive jvalue := JNumber (n : Z) | JString (s : list Z) | JArray (l : list (list Z)).
Definition jobject : Type := list (list Z * jvalue).

(** Out of fuel is an outcome of the model, not of the code. *)
Inductive res (A : Type) := Ok (a : A) | Crash | OutOfFuel.
Arguments Ok {A}.
Arguments Crash {A}.
Arguments OutOfFuel {A}.
Definition res_bind {A B} (m : res A) (f : A → res B) : res B :=
  match m with Ok a => f a | Crash => Crash | OutOfFuel => OutOfFuel end.
Declare Scope res_scope.
Notation "'let?' x ':=' m 'in' k" := (res_bind m (λ x, k))
  (at level 10, x pattern, m at level 100, k at level 200) : res_scope.
Open Scope res_scope.

(** Behind the first [c], or at the end. *)
Fixpoint accept (s : list Z) (c : Z) : list Z :=
  match s with [] => [] | x :: s' => if x =? c then s' else accept s' c end.
Fixpoint accepts (s : list Z) (c1 c2 : Z) : list Z :=
  match s with [] => [] | x :: s' => if (x =? c1) || (x =? c2) then s' else accepts s' c1 c2 end.

Definition isdigits (s : list Z) : bool := forallb isdigit s.

(** [copy_name(beg, size)]: the first [size - 1] bytes. *)
Definition copy_name (beg : list Z) (size : Z) : res (list Z) :=
  if size <=? 0 then Crash else Ok (take (Z.to_nat (size - 1)) beg).

(** [cur - s] for two suffixes of the stream. *)
Definition distance (s cur : list Z) : Z := zlen s - zlen cur.

Definition json_value (value : list Z) : jvalue :=
  if isdigits value then JNumber (strtoull value).1 else JString value.

Fixpoint parser_args (fuel : nat) (s : list Z) (parent : jobject) : res (list Z * jobject) :=
  match fuel with
  | O => OutOfFuel
  | S fuel' =>
      let cur := accept s 58 in
      let? title := copy_name s (distance s cur) in
      let s := cur in
      let cur := accepts s 9 10 in
      let size := distance s cur in
      let? value := copy_name s size in
      let parent := parent ++ [(title, json_value value)] in
      if nth (Z.to_nat (size - 1)) s 0 =? 10 then Ok (cur, parent)
      else parser_args fuel' cur parent
  end.

Fixpoint skip_blanks (s : list Z) : list Z :=
  match s with x :: s' => if x =? 32 then skip_blanks s' else s | [] => [] end.

Definition head_args (fuel : nat) (beg : list Z) (parent : jobject) : res (list Z * jobject) :=
  parser_args fuel (skip_blanks beg) parent.

(** The loop of [stack_get] over the lines of a stack. *)
Fixpoint stack_loop (fuel : nat) (s : list Z) (arr : list (list Z)) : res (list Z * list (list Z)) :=
  match fuel with
  | O => OutOfFuel
  | S fuel' =>
      if hd 0 s =? 10 then Ok (s, arr)
      else
        let s := skip_blanks s in
        let cur := accept s 10 in
        let? stack := copy_name s (distance s cur) in
        stack_loop fuel' cur (arr ++ [stack])
  end.

Definition stack_get (fuel : nat) (beg : list Z) (parent : jobject) : res (list Z * jobject) :=
  let? (s, arr) := stack_loop fuel beg [] in
  Ok (tail s, parent ++ [(lit "stack", JArray arr)]).

Inductive IRQOFF := HARD_IRQ | SOFT_IRQ.

(** The bodies give the rest of the stream and the object they print. *)
Definition body_irqoff (fuel : nat) (beg : list Z) (stat : IRQOFF) : res (list Z * jobject) :=
  let root := [(lit "mode", JString (match stat with HARD_IRQ => lit "hard" | SOFT_IRQ => lit "soft" end))] in
  let? (s, root) := head_args fuel beg root in
  stack_get fuel s root.

Definition body_nosch (fuel : nat) (beg : list Z) : res (list Z * jobject) :=
  let? (s, root) := head_args fuel beg [(lit "mode", JString (lit "nosch"))] in
  stack_get fuel s root.

Definition body_runq (fuel : nat) (beg : list Z) : res (list Z * jobject) :=
  let? (s, root) := head_args fuel beg [(lit "mode", JString (lit "runq"))] in
  match s with [] => Crash | _ :: s' => Ok (s', root) end.

(** [while (sBeg[1] != 's') sBeg = body_irqoff(sBeg, ...)] *)
Fixpoint hard_loop (fuel : nat) (s : list Z) (out : list jobject) : res (list Z * list jobject) :=
  match fuel with
  | O => OutOfFuel
  | S fuel' =>
      match s with
      | [] => Crash
      | _ :: s' =>
          if hd 0 s' =? 115 then Ok (s, out)
          else let? (s, o) := body_irqoff fuel s HARD_IRQ in hard_loop fuel' s (out ++ [o])
      end
  end.

(** [while (sBeg[0] != '\0') sBeg = body(sBeg)] *)
Fixpoint body_loop (body : nat → list Z → res (list Z * jobject)) (fuel : nat) (s : list Z)
    (out : list jobject) : res (list jobject) :=
  match fuel with
  | O => OutOfFuel
  | S fuel' =>
      match s with
      | [] => Ok out
      | _ => let? (s, o) := body fuel s in body_loop body fuel' s (out ++ [o])
      end
  end.

Definition fuel_of (stream : list Z) : nat := S (length stream).

Definition parser_irqoff (stream : list Z) : res (list jobject) :=
  let fuel := fuel_of stream in
  let sCursor := accept (accept (accept stream 10) 10) 10 in
  let? (sBeg, out) := hard_loop fuel sCursor [] in
  let sBeg := accept sBeg 10 in
  body_loop (λ fuel s, body_irqoff fuel s SOFT_IRQ) fuel sBeg out.

Definition parser_nosch (stream : list Z) : res (list jobject) :=
  body_loop body_nosch (fuel_of stream) stream [].

Definition parser_runq (stream : list Z) : res (list jobject) :=
  body_loop body_runq (fuel_of stream) stream [].

(** ** The streams the parsers accept

    A record is an indented line of fields [key:value] separated by tabs. The
    reports about missed interrupts and schedules follow it with the stack, one
    indented function on each line, and an empty line; the report about the run
    queue follows it with one byte. The first key, and a function, start behind
    the indentation; a line of a stack is not empty. *)

Record record_ := Record_ { rc_indent : nat; rc_fields : list (list Z * list Z); rc_stack : list (nat * list Z) }.

Fixpoint fields_text (fs : list (list Z * list Z)) : list Z :=
  match fs with
  | [] => []
  | [(k, v)] => k ++ 58 :: v ++ [10]
  | (k, v) :: fs' => k ++ 58 :: v ++ 9 :: fields_text fs'
  end.

Definition head_text (r : record_) : list Z := replicate (rc_indent r) 32 ++ fields_text (rc_fields r).
Definition frame_text (x : nat * list Z) : list Z := replicate x.1 32 ++ x.2 ++ [10].
Definition frames_text (fr : list (nat * list Z)) : list Z := concat (frame_text <$> fr).
Definition record_text (r : record_) : list Z := head_text r ++ frames_text (rc_stack r) ++ [10].
Definition runq_text (x : record_ * Z) : list Z := head_text x.1 ++ [x.2].

Definition field_ok (x : list Z * list Z) : Prop := (58 ∉ x.1) ∧ (9 ∉ x.2) ∧ (10 ∉ x.2).
Definition head_ok (r : record_) : Prop :=
  Forall field_ok (rc_fields r) ∧
  match rc_fields r with [] => False | (k, _) :: _ => head k ≠ Some 32 end.
Definition frame_ok (x : nat * list Z) : Prop := (10 ∉ x.2) ∧ head x.2 ≠ Some 32 ∧ (x.1 = 0%nat → x.2 ≠ []).
Definition record_ok (r : record_) : Prop := head_ok r ∧ Forall frame_ok (rc_stack r).

Definition fields_of (r : record_) : jobject := (λ x, (x.1, json_value x.2)) <$> rc_fields r.
Definition object_of (mode : string) (r : record_) : jobject := (lit "mode", JString (lit mode)) :: fields_of r.
Definition object_stack (mode : string) (r : record_) : jobject :=
  object_of mode r ++ [(lit "stack", JArray (rc_stack r).*2)].

(** The records of the interrupt report before the mark: at each of them, and
    not at the mark, the second byte is not an s. *)
Fixpoint hard_then (hard : list record_) (rest : list Z) : Prop :=
  match hard with
  | [] => nth 1 rest 0 = 115
  | r :: hard' => nth 1 (concat (record_text <$> hard) ++ rest) 0 ≠ 115 ∧ hard_then hard' rest
  end.

(** The interrupt report: three lines, the records of hard interrupts, a line
    whose second byte is an s (the last line may lack its newline), and the
    records of soft interrupts. *)
Definition irqoff_stream (hard soft : list record_) (stream : list Z) : Prop :=
  ∃ l1 l2 l3 mark behind, (10 ∉ l1) ∧ (10 ∉ l2) ∧ (10 ∉ l3) ∧ (10 ∉ mark) ∧
    stream = l1 ++ 10 :: l2 ++ 10 :: l3 ++ 10 :: concat (record_text <$> hard) ++ mark ++ behind ∧
    hard_then hard (mark ++ behind) ∧
    (behind = 10 :: concat (record_text <$> soft) ∨ behind = [] ∧ soft = []).

(** ** Every such stream is accepted *)

Lemma accept_app l c s : c ∉ l → accept (l ++ c :: s) c = s.
Proof.
  induction l as [|x l IH]; intros H; simpl; [by rewrite Z.eqb_refl|].
  rewrite (proj2 (Z.eqb_neq x c)) by set_solver. apply IH. set_solver.
Qed.

Lemma accept_none l c : c ∉ l → accept l c = [].
Proof.
  induction l as [|x l IH]; intros H; simpl; [done|].
  rewrite (proj2 (Z.eqb_neq x c)) by set_solver. apply IH. set_solver.
Qed.

Lemma accept_length s c : (length (accept s c) ≤ length s)%nat.
Proof. induction s as [|x s IH]; simpl; [done|]. destruct (x =? c); lia. Qed.

Lemma accepts_length s c d : (length (accepts s c d) ≤ length s)%nat.
Proof. induction s as [|x s IH]; simpl; [done|]. destruct ((x =? c) || (x =? d)); lia. Qed.

Lemma skip_blanks_length s : (length (skip_blanks s) ≤ length s)%nat.
Proof. induction s as [|x s IH]; simpl; [done|]. destruct (x =? 32); simpl; lia. Qed.

Lemma accepts_app l d s : 9 ∉ l → 10 ∉ l → d = 9 ∨ d = 10 → accepts (l ++ d :: s) 9 10 = s.
Proof.
  intros H9 H10 Hd. induction l as [|x l IH]; simpl; [by destruct Hd as [-> | ->]|].
  rewrite (proj2 (Z.eqb_neq x 9)), (proj2 (Z.eqb_neq x 10)) by set_solver. apply IH; set_solver.
Qed.

Lemma distance_app l c s : distance (l ++ c :: s) s = zlen l + 1.
Proof. unfold distance. rewrite zlen_app, zlen_cons. lia. Qed.

Lemma copy_name_app l c s : copy_name (l ++ c :: s) (distance (l ++ c :: s) s) = Ok l.
Proof.
  rewrite distance_app. unfold copy_name. pose proof (zlen_nonneg l). zif.
  f_equal. rewrite Z.add_simpl_r. unfold zlen. rewrite Nat2Z.id. apply take_app_length.
Qed.

Lemma nth_distance_app l c s : nth (Z.to_nat (distance (l ++ c :: s) s - 1)) (l ++ c :: s) 0 = c.
Proof.
  rewrite distance_app, Z.add_simpl_r. unfold zlen. rewrite Nat2Z.id. apply nth_middle.
Qed.

Lemma skip_blanks_indent n s : head s ≠ Some 32 → skip_blanks (replicate n 32 ++ s) = s.
Proof.
  intros Hs. induction n; [|done]. destruct s as [|c s]; [done|]. simpl.
  by rewrite (proj2 (Z.eqb_neq c 32)) by (intros ->; done).
Qed.

Lemma parser_args_fields fs : Forall field_ok fs → fs ≠ [] → ∀ fuel s parent, (length fs ≤ fuel)%nat →
  parser_args fuel (fields_text fs ++ s) parent
  = Ok (s, parent ++ ((λ x, (x.1, json_value x.2)) <$> fs)).
Proof.
  induction 1 as [|[k v] fs (Hk & H9 & H10) _ IH]; intros Hne fuel s parent Hf; [done|].
  destruct fuel as [|fuel]; [simpl in Hf; lia|]. simpl in Hk, H9, H10.
  assert (∃ d t, fields_text ((k, v) :: fs) ++ s = k ++ 58 :: v ++ d :: t ∧
    (fs = [] ∧ d = 10 ∧ t = s ∨ fs ≠ [] ∧ d = 9 ∧ t = fields_text fs ++ s)) as (d & t & -> & Hd).
  { destruct fs as [|x fs].
    - exists 10, s. split; [|by left]. simpl. by rewrite <-!app_assoc; simpl; rewrite <-app_assoc.
    - exists 9, (fields_text (x :: fs) ++ s). split; [|by right].
      change (fields_text ((k, v) :: x :: fs)) with (k ++ 58 :: v ++ 9 :: fields_text (x :: fs)).
      rewrite <-app_assoc. simpl. by rewrite <-app_assoc. }
  cbn [parser_args]. rewrite accept_app by done. rewrite copy_name_app. cbn [res_bind].
  rewrite accepts_app by (try done; destruct Hd as [(_ & -> & _)|(_ & -> & _)]; auto).
  rewrite copy_name_app. cbn [res_bind]. rewrite nth_distance_app.
  destruct Hd as [(-> & -> & ->)|(Hfs & -> & ->)]; [done|].
  cbn [Z.eqb Pos.eqb]. rewrite IH; [|done|simpl in Hf; lia].
  by rewrite <-app_assoc.
Qed.

Lemma frame_text_head x s : frame_ok x → hd 0 (frame_text x ++ s) ≠ 10.
Proof.
  destruct x as [[|n] [|c f]]; intros (H10 & _ & Hne); cbn in *; try done; [by destruct Hne|set_solver].
Qed.

Lemma stack_loop_frames fr : Forall frame_ok fr → ∀ fuel s arr, (length fr < fuel)%nat →
  stack_loop fuel (frames_text fr ++ 10 :: s) arr = Ok (10 :: s, arr ++ fr.*2).
Proof.
  induction 1 as [|x fr Hx _ IH]; intros fuel s arr Hfuel;
    (destruct fuel as [|fuel]; [simpl in Hfuel; lia|]).
  - simpl. by rewrite app_nil_r.
  - unfold frames_text. rewrite !fmap_cons. cbn [concat]. rewrite <-app_assoc.
    fold (frames_text fr). cbn [stack_loop].
    rewrite (proj2 (Z.eqb_neq _ _)) by (by apply frame_text_head). destruct Hx as (H10 & H32 & _).
    unfold frame_text. rewrite <-!app_assoc. cbn [app].
    rewrite skip_blanks_indent by (by destruct x.2). rewrite accept_app by done.
    rewrite copy_name_app. cbn [res_bind]. rewrite IH; [by rewrite <-app_assoc|simpl in Hfuel; lia].
Qed.

Lemma fields_text_length fs : (length fs ≤ length (fields_text fs))%nat.
Proof.
  induction fs as [|[k v] [|x fs] IH]; [done|simpl; rewrite length_app; simpl; lia|].
  change (fields_text ((k, v) :: x :: fs)) with (k ++ 58 :: v ++ 9 :: fields_text (x :: fs)).
  rewrite length_app. simpl length in *. rewrite length_app. simpl length. lia.
Qed.

Lemma frames_length fr : (length fr ≤ length (frames_text fr))%nat.
Proof.
  unfold frames_text. induction fr; [done|]. rewrite fmap_cons. cbn [concat].
  unfold frame_text at 1. rewrite !length_app. cbn [length]. lia.
Qed.

Lemma head_args_record r fuel s parent : head_ok r → (length (head_text r) ≤ fuel)%nat →
  head_args fuel (head_text r ++ s) parent = Ok (s, parent ++ fields_of r).
Proof.
  intros [Hf Hh] Hl. unfold head_args, head_text in *. rewrite <-app_assoc, skip_blanks_indent.
  - pose proof (fields_text_length (rc_fields r)). rewrite length_app in Hl.
    apply parser_args_fields; [done|by destruct (rc_fields r)|lia].
  - destruct (rc_fields r) as [|[[|c k] v] [|y fs]]; try done; simpl in *; congruence.
Qed.

(** A body that ends with the stack reads one record. *)
Lemma stack_body r fuel s mode : record_ok r → (length (record_text r ++ s) < fuel)%nat →
  (let? (s, root) := head_args fuel (record_text r ++ s) [(lit "mode", JString (lit mode))] in stack_get fuel s root)
  = Ok (s, object_stack mode r).
Proof.
  intros [Hh Hs] Hl. unfold record_text in *. rewrite <-!app_assoc in *.
  rewrite !length_app in Hl. rewrite head_args_record by (done || lia). cbn [res_bind app].
  unfold stack_get. pose proof (frames_length (rc_stack r)) as Hfr.
  rewrite stack_loop_frames by (done || lia). done.
Qed.

Lemma runq_body x fuel s : head_ok x.1 → (length (runq_text x ++ s) < fuel)%nat →
  body_runq fuel (runq_text x ++ s) = Ok (s, object_of "runq" x.1).
Proof.
  intros Hh Hl. unfold body_runq, runq_text in *. rewrite <-!app_assoc in *.
  rewrite !length_app in Hl. rewrite head_args_record by (done || lia). done.
Qed.

(** ** Nothing else is accepted *)

Lemma accept_cases s c : ((c ∉ s) ∧ accept s c = []) ∨ ∃ l t, s = l ++ c :: t ∧ (c ∉ l) ∧ accept s c = t.
Proof.
  destruct (decide (c ∈ s)) as [Hin|Hin]; [right|left; split; [done|by apply accept_none]].
  apply list_elem_of_split_l in Hin as (l & t & -> & Hl). exists l, t.
  split_and!; [done..|by apply accept_app].
Qed.

Lemma accepts_cases s :
  ((9 ∉ s) ∧ (10 ∉ s) ∧ accepts s 9 10 = []) ∨
  ∃ l d t, s = l ++ d :: t ∧ (9 ∉ l) ∧ (10 ∉ l) ∧ (d = 9 ∨ d = 10) ∧ accepts s 9 10 = t.
Proof.
  induction s as [|x s IH]; [left; split_and!; set_solver|]. simpl.
  destruct (Z.eqb_spec x 9) as [->|H9]; [right; exists [], 9, s; split_and!; set_solver|].
  destruct (Z.eqb_spec x 10) as [->|H10]; [right; exists [], 10, s; split_and!; set_solver|]. cbn [orb].
  destruct IH as [(? & ? & ?)|(l & d & t & -> & ? & ? & ? & ?)]; [left; split_and!; set_solver|].
  right. exists (x :: l), d, t. split_and!; set_solver.
Qed.

Lemma copy_name_nil t : copy_name [] (distance [] t) = Crash.
Proof. unfold copy_name, distance. pose proof (zlen_nonneg t). change (zlen []) with 0. by zif. Qed.

(** Without a colon the parser runs off the end of the stream. *)
Lemma parser_args_end fuel s parent : 58 ∉ s → ∀ r, parser_args fuel s parent ≠ Ok r.
Proof.
  intros Hs r. destruct fuel as [|fuel]; [done|]. cbn [parser_args]. rewrite accept_none by done.
  destruct (copy_name s _); cbn [res_bind accepts]; [|done..]. by rewrite copy_name_nil.
Qed.

Lemma parser_args_inv fuel : ∀ s parent s' o, parser_args fuel s parent = Ok (s', o) →
  ∃ fs, fs ≠ [] ∧ Forall field_ok fs ∧ s = fields_text fs ++ s' ∧
    o = parent ++ ((λ x, (x.1, json_value x.2)) <$> fs).
Proof.
  induction fuel as [|fuel IH]; intros s parent s' o H; [done|].
  destruct (accept_cases s 58) as [[Hno _]|(k & t & -> & Hk & Ht)]; [by apply parser_args_end in H|].
  cbn [parser_args] in H. rewrite Ht, copy_name_app in H. cbn [res_bind] in H.
  destruct (accepts_cases t) as [(H9 & H10 & Ha)|(v & d & t' & -> & H9 & H10 & Hd & Ha)]; rewrite Ha in H.
  - destruct (copy_name t _) as [value| |]; cbn [res_bind] in H; [|done..].
    destruct (_ =? 10) eqn:He; [|by apply parser_args_end in H; [|apply not_elem_of_nil]].
    exfalso. apply Z.eqb_eq in He. destruct (nth_in_or_default (Z.to_nat (distance t [] - 1)) t 0) as [Hin|Hin].
    + rewrite He in Hin. by apply list_elem_of_In in Hin.
    + congruence.
  - rewrite copy_name_app, nth_distance_app in H. cbn [res_bind] in H. destruct Hd as [-> | ->]; cbn [Z.eqb Pos.eqb] in H.
    + apply IH in H as (fs & Hne & Hok & -> & ->). exists ((k, v) :: fs). split_and!; [done|by constructor|..].
      * destruct fs as [|x fs]; [done|].
        change (fields_text ((k, v) :: x :: fs)) with (k ++ 58 :: v ++ 9 :: fields_text (x :: fs)).
        rewrite <-app_assoc. cbn [app]. by rewrite <-app_assoc.
      * by rewrite <-app_assoc.
    + injection H as <- <-. exists [(k, v)]. split_and!; [done|by repeat constructor| |done].
      simpl. rewrite <-app_assoc. simpl. by rewrite <-app_assoc.
Qed.

Lemma skip_blanks_inv s : ∃ n, s = replicate n 32 ++ skip_blanks s ∧ head (skip_blanks s) ≠ Some 32.
Proof.
  induction s as [|x s (n & Hs & Hh)]; [by exists 0%nat|]. simpl.
  destruct (Z.eqb_spec x 32) as [->|Hx]; [|by exists 0%nat; split; [|simpl; congruence]].
  exists (S n). split; [simpl; by f_equal|done].
Qed.

Lemma head_args_inv fuel s parent s' o : head_args fuel s parent = Ok (s', o) →
  ∃ r, head_ok r ∧ rc_stack r = [] ∧ s = head_text r ++ s' ∧ o = parent ++ fields_of r.
Proof.
  intros H. destruct (skip_blanks_inv s) as (n & Hs & Hh).
  apply parser_args_inv in H as (fs & Hne & Hok & Hfs & ->). exists (Record_ n fs []).
  split_and!; [split; [done|]|done| |done]; simpl.
  - rewrite Hfs in Hh. destruct fs as [|[[|c k] v] [|y fs]]; try done; simpl in *; congruence.
  - unfold head_text. simpl. by rewrite <-app_assoc, <-Hfs.
Qed.

Lemma stack_loop_inv fuel : ∀ s arr s' a, stack_loop fuel s arr = Ok (s', a) →
  ∃ fr, Forall frame_ok fr ∧ s = frames_text fr ++ 10 :: tail s' ∧ s' = 10 :: tail s' ∧ a = arr ++ fr.*2.
Proof.
  induction fuel as [|fuel IH]; intros s arr s' a H; [done|]. cbn [stack_loop] in H.
  destruct (Z.eqb_spec (hd 0 s) 10) as [He|He].
  { injection H as <- <-. exists []. destruct s as [|x s]; [done|]. simpl in *. subst. by rewrite app_nil_r. }
  destruct (skip_blanks_inv s) as (n & Hs & Hh). set (k := skip_blanks s) in *.
  destruct (accept_cases k 10) as [[Hno Ha]|(f & t & Hk & Hf & Ha)]; rewrite Ha in H.
  { destruct (copy_name k _); cbn [res_bind] in H; [|done..]. destruct fuel; [done|].
    cbn [stack_loop hd Z.eqb skip_blanks accept] in H. by rewrite copy_name_nil in H. }
  rewrite Hk, copy_name_app in H. cbn [res_bind] in H. apply IH in H as (fr & Hok & Ht & Hs' & ->).
  exists ((n, f) :: fr). split_and!; [constructor; [|done]| |done|by rewrite <-app_assoc].
  - split_and!; simpl; [done|rewrite Hk in Hh; by destruct f|].
    intros -> ->. apply He. by rewrite Hs, Hk.
  - unfold frames_text. rewrite fmap_cons. cbn [concat]. rewrite <-app_assoc. fold (frames_text fr).
    rewrite <-Ht, Hs, Hk. unfold frame_text. simpl. by rewrite <-!app_assoc.
Qed.

Lemma stack_body_inv fuel s mode s' o :
  (let? (s, root) := head_args fuel s [(lit "mode", JString (lit mode))] in stack_get fuel s root) = Ok (s', o) →
  ∃ r, record_ok r ∧ s = record_text r ++ s' ∧ o = object_stack mode r.
Proof.
  destruct (head_args _ _ _) as [[s1 o1]| |] eqn:H1; cbn [res_bind]; [|done..].
  apply head_args_inv in H1 as (r & Hr & _ & -> & ->). unfold stack_get.
  destruct (stack_loop _ _ _) as [[s2 a]| |] eqn:H2; cbn [res_bind]; [|done..]. intros [= <- <-].
  apply stack_loop_inv in H2 as (fr & Hok & -> & Hs2 & ->).
  exists (Record_ (rc_indent r) (rc_fields r) fr). split_and!; [by split| |done].
  unfold record_text. change (head_text (Record_ _ _ fr)) with (head_text r). simpl.
  by rewrite <-!app_assoc.
Qed.

Lemma runq_body_inv fuel s s' o : body_runq fuel s = Ok (s', o) →
  ∃ x : record_ * Z, (head_ok x.1 ∧ rc_stack x.1 = []) ∧ s = runq_text x ++ s' ∧ o = object_of "runq" x.1.
Proof.
  unfold body_runq. destruct (head_args _ _ _) as [[s1 o1]| |] eqn:H1; cbn [res_bind]; [|done..].
  apply head_args_inv in H1 as (r & Hr & Hst & -> & ->). destruct s1 as [|x s1]; [done|]. intros [= <- <-].
  exists (r, x). split_and!; [done..| |done]. unfold runq_text. simpl. by rewrite <-app_assoc.
Qed.

(** A loop over records accepts their texts one after the other, and nothing
    else. *)
Section loop.
Context {R : Type} (body : nat → list Z → res (list Z * jobject)) (ok : R → Prop) (text : R → list Z) (obj : R → jobject).
Hypothesis body_reads : ∀ r fuel s, ok r → (length (text r ++ s) < fuel)%nat → body fuel (text r ++ s) = Ok (s, obj r).
Hypothesis body_inv : ∀ fuel s s' o, body fuel s = Ok (s', o) → ∃ r, ok r ∧ s = text r ++ s' ∧ o = obj r.
Hypothesis text_ne : ∀ r, text r ≠ [].

Lemma body_loop_records rs : Forall ok rs → ∀ fuel out, (length (concat (text <$> rs)) < fuel)%nat →
  body_loop body fuel (concat (text <$> rs)) out = Ok (out ++ (obj <$> rs)).
Proof using body_reads text_ne.
  induction 1 as [|r rs Hr _ IH]; intros fuel out Hl;
    (destruct fuel as [|fuel]; [lia|]); [simpl; by rewrite app_nil_r|].
  cbn [fmap list_fmap concat] in *. cbn [body_loop]. specialize (text_ne r).
  destruct (text r ++ concat (text <$> rs)) as [|x l] eqn:He; [by destruct (text r)|].
  rewrite <-He in *. rewrite body_reads by done. cbn [res_bind]. rewrite IH; [by rewrite <-app_assoc|].
  rewrite length_app in Hl. destruct (text r); [done|]. simpl in Hl. lia.
Qed.

Lemma body_loop_inv fuel : ∀ s out out', body_loop body fuel s out = Ok out' →
  ∃ rs, Forall ok rs ∧ s = concat (text <$> rs) ∧ out' = out ++ (obj <$> rs).
Proof using body_inv.
  induction fuel as [|fuel IH]; intros s out out' H; [done|]. cbn [body_loop] in H.
  destruct s as [|x s]; [injection H as <-; exists []; by rewrite app_nil_r|].
  destruct (body _ _) as [[s' o]| |] eqn:Hb; cbn [res_bind] in H; [|done..].
  apply body_inv in Hb as (r & Hr & Hs & ->). apply IH in H as (rs & Hrs & -> & ->).
  exists (r :: rs). split_and!; [by constructor|done|]. by rewrite <-app_assoc.
Qed.

Lemma body_loop_iff s out' : body_loop body (fuel_of s) s [] = Ok out' ↔
  ∃ rs, Forall ok rs ∧ s = concat (text <$> rs) ∧ out' = obj <$> rs.
Proof using body_reads body_inv text_ne.
  split; [apply body_loop_inv|]. intros (rs & Hrs & -> & ->).
  apply (body_loop_records rs Hrs). unfold fuel_of. lia.
Qed.
End loop.

Lemma record_text_ne r : record_text r ≠ [].
Proof. unfold record_text. by destruct (head_text r), (frames_text (rc_stack r)). Qed.

Lemma hard_loop_records rest rs : Forall record_ok rs → hard_then rs rest → ∀ fuel out,
  (length (concat (record_text <$> rs) ++ rest) < fuel)%nat →
  hard_loop fuel (concat (record_text <$> rs) ++ rest) out = Ok (rest, out ++ (object_stack "hard" <$> rs)).
Proof.
  induction 1 as [|r rs Hr _ IH]; intros Hh fuel out Hl; (destruct fuel as [|fuel]; [lia|]).
  { destruct rest as [|x [|y rest]]; simpl in Hh; [done..|]. subst y. simpl. by rewrite app_nil_r. }
  destruct Hh as [H1 Hh]. pose proof (record_text_ne r) as Hne.
  rewrite fmap_cons in *. cbn [concat] in *. rewrite <-app_assoc in *. cbn [hard_loop].
  destruct (record_text r ++ concat (record_text <$> rs) ++ rest) as [|x l] eqn:He; [by destruct (record_text r)|].
  rewrite (proj2 (Z.eqb_neq _ _)) by (by destruct l). rewrite <-He in *. unfold body_irqoff.
  rewrite (stack_body r _ _ "hard") by done. cbn [res_bind]. rewrite IH; [by rewrite <-app_assoc|done|].
  rewrite length_app in Hl. destruct (record_text r); [done|]. simpl in Hl. lia.
Qed.

Lemma hard_loop_inv fuel : ∀ s out rest out', hard_loop fuel s out = Ok (rest, out') →
  ∃ rs, Forall record_ok rs ∧ hard_then rs rest ∧ s = concat (record_text <$> rs) ++ rest ∧
    out' = out ++ (object_stack "hard" <$> rs).
Proof.
  induction fuel as [|fuel IH]; intros s out rest out' H; [done|]. cbn [hard_loop] in H.
  destruct s as [|x s]; [done|]. destruct (Z.eqb_spec (hd 0 s) 115) as [He|He].
  { injection H as <- <-. exists []. split_and!; [done|by destruct s|done|by rewrite app_nil_r]. }
  destruct (body_irqoff _ _ _) as [[s' o]| |] eqn:Hb; cbn [res_bind] in H; [|done..].
  apply (stack_body_inv _ _ "hard") in Hb as (r & Hr & Hs & ->). apply IH in H as (rs & Hrs & Hh & -> & ->).
  exists (r :: rs). rewrite fmap_cons. cbn [concat]. rewrite <-app_assoc.
  split_and!; [by constructor| |done|by rewrite <-app_assoc]. split; [|done].
  rewrite fmap_cons. cbn [concat]. rewrite <-app_assoc, <-Hs. by destruct s.
Qed.

Lemma accept_ne s c : accept s c ≠ [] → ∃ l, s = l ++ c :: accept s c ∧ (c ∉ l).
Proof. intros H. destruct (accept_cases s c) as [[_ ?]|(l & t & -> & Hl & ->)]; [done|by exists l]. Qed.

Lemma accept_nil c : accept [] c = [].
Proof. done. Qed.

Lemma soft_inv fuel s out out' : body_loop (λ fuel s, body_irqoff fuel s SOFT_IRQ) fuel s out = Ok out' →
  ∃ rs, Forall record_ok rs ∧ s = concat (record_text <$> rs) ∧ out' = out ++ (object_stack "soft" <$> rs).
Proof. apply body_loop_inv. intros f t t' o. apply (stack_body_inv _ _ "soft"). Qed.

Lemma irqoff_accepts hard soft stream :
  Forall record_ok hard → Forall record_ok soft → irqoff_stream hard soft stream →
  parser_irqoff stream = Ok ((object_stack "hard" <$> hard) ++ (object_stack "soft" <$> soft)).
Proof.
  intros Hh Hs (l1 & l2 & l3 & mark & behind & H1 & H2 & H3 & Hm & Hst & Hthen & Hb).
  assert (length (concat (record_text <$> hard) ++ mark ++ behind) < fuel_of stream)%nat as Hl.
  { subst stream. unfold fuel_of. rewrite !length_app. cbn [length]. rewrite !length_app. cbn [length].
    rewrite !length_app. cbn [length]. rewrite !length_app. lia. }
  unfold parser_irqoff. generalize dependent (fuel_of stream). intros fuel Hl. subst stream.
  rewrite !accept_app by done. rewrite hard_loop_records by done. cbn [res_bind].
  assert (accept (mark ++ behind) 10 = concat (record_text <$> soft)) as ->.
  { destruct Hb as [->|[-> ->]]; [by apply accept_app|]. rewrite app_nil_r. by apply accept_none. }
  apply (body_loop_records _ record_ok); [|by apply record_text_ne|done|].
  - intros r f s. apply (stack_body r f s "soft").
  - rewrite !length_app in Hl. destruct Hb as [->|[-> ->]]; [cbn [length] in Hl; lia|simpl; lia].
Qed.

Lemma irqoff_inv stream objs : parser_irqoff stream = Ok objs →
  ∃ hard soft, Forall record_ok hard ∧ Forall record_ok soft ∧ irqoff_stream hard soft stream ∧
    objs = (object_stack "hard" <$> hard) ++ (object_stack "soft" <$> soft).
Proof.
  unfold parser_irqoff. generalize (fuel_of stream). intros fuel. cbv zeta.
  destruct (hard_loop _ _ _) as [[rest out]| |] eqn:Hh; cbn [res_bind]; [|done..]. intros Hb.
  apply hard_loop_inv in Hh as (hard & Hok & Hthen & Hs & ->). apply soft_inv in Hb as (soft & Hsok & Hrest & ->).
  assert (accept (accept (accept stream 10) 10) 10 ≠ []) as Hne3.
  { intros He. rewrite He in Hs. symmetry in Hs. apply app_eq_nil in Hs as [Hs ->].
    destruct hard as [|r hard]; [done|]. rewrite fmap_cons in Hs. cbn [concat] in Hs.
    apply app_eq_nil in Hs as [Hs _]. by apply record_text_ne in Hs. }
  assert (accept (accept stream 10) 10 ≠ []) as Hne2 by (intros He; apply Hne3; by rewrite He).
  assert (accept stream 10 ≠ []) as Hne1 by (intros He; apply Hne2; by rewrite He).
  destruct (accept_ne _ _ Hne1) as (l1 & E1 & H1). destruct (accept_ne _ _ Hne2) as (l2 & E2 & H2).
  destruct (accept_ne _ _ Hne3) as (l3 & E3 & H3).
  exists hard, soft. split_and!; [done..| |done].
  destruct (accept_cases rest 10) as [[Hno Ha]|(mark & t & -> & Hm & Ha)].
  - exists l1, l2, l3, rest, []. rewrite app_nil_r. split_and!; [done..| |done|].
    + by rewrite E1, E2, E3, Hs at 1.
    + right. split; [done|]. rewrite Ha in Hrest. destruct soft as [|r soft]; [done|].
      rewrite fmap_cons in Hrest. cbn [concat] in Hrest. symmetry in Hrest.
      apply app_eq_nil in Hrest as [Hr _]. by apply record_text_ne in Hr.
  - exists l1, l2, l3, mark, (10 :: t). split_and!; [done..| |done|].
    + by rewrite E1, E2, E3, Hs at 1.
    + left. by rewrite <-Hrest, Ha.
Qed.

(** ** Termination on every input *)

Lemma copy_name_ok s t n : copy_name s (distance s t) = Ok n → (length t < length s)%nat.
Proof.
  unfold copy_name, distance, zlen. destruct (Z.leb_spec (Z.of_nat (length s) - Z.of_nat (length t)) 0); [done|].
  intros _. lia.
Qed.
Lemma copy_name_fuel s n : copy_name s n ≠ OutOfFuel.
Proof. unfold copy_name. by case_match. Qed.

(** The computation ends with the fuel it has, and an [Ok] result is shorter. *)
Definition ends {A} (s : list Z) (m : res (list Z * A)) : Prop :=
  match m with Ok (s', _) => (length s' < length s)%nat | Crash => True | OutOfFuel => False end.

Lemma parser_args_ends fuel : ∀ s parent, (length s < fuel)%nat → ends s (parser_args fuel s parent).
Proof.
  induction fuel as [|fuel IH]; intros s parent Hl; [lia|]. cbn [parser_args].
  destruct (copy_name s _) as [title| |] eqn:H1; cbn [res_bind]; [|done|by apply copy_name_fuel in H1].
  apply copy_name_ok in H1.
  destruct (copy_name (accept s 58) _) as [value| |] eqn:H2; cbn [res_bind]; [|done|by apply copy_name_fuel in H2].
  apply copy_name_ok in H2. case_match; [simpl; lia|].
  specialize (IH (accepts (accept s 58) 9 10) (parent ++ [(title, json_value value)]) ltac:(lia)).
  destruct (parser_args fuel _ _) as [[s' p]| |]; simpl in *; [lia|done|done].
Qed.

Lemma stack_loop_ends fuel : ∀ s arr, (length s < fuel)%nat →
  match stack_loop fuel s arr with
  | Ok (s', _) => (length s' ≤ length s)%nat ∧ hd 0 s' = 10 | Crash => True | OutOfFuel => False end.
Proof.
  induction fuel as [|fuel IH]; intros s arr Hl; [lia|]. cbn [stack_loop].
  destruct (Z.eqb_spec (hd 0 s) 10); [done|].
  destruct (copy_name _ _) as [fr| |] eqn:H1; cbn [res_bind]; [|done|by apply copy_name_fuel in H1].
  apply copy_name_ok in H1. pose proof (skip_blanks_length s).
  specialize (IH (accept (skip_blanks s) 10) (arr ++ [fr]) ltac:(lia)).
  destruct (stack_loop fuel _ _) as [[s' a]| |]; [|done|done]. split; [lia|apply IH].
Qed.

Lemma stack_body_ends fuel s root : (length s < fuel)%nat →
  ends s (let? (s, root) := head_args fuel s root in stack_get fuel s root).
Proof.
  intros Hl. pose proof (skip_blanks_length s) as Hb.
  pose proof (parser_args_ends fuel (skip_blanks s) root ltac:(lia)) as H. unfold head_args.
  destruct (parser_args fuel _ _) as [[s1 r1]| |]; cbn [res_bind]; [|done|done]. simpl in H.
  unfold stack_get. pose proof (stack_loop_ends fuel s1 [] ltac:(lia)) as H2.
  destruct (stack_loop fuel s1 []) as [[s2 a]| |]; cbn [res_bind]; [|done|done].
  destruct H2 as [H2 H10]. simpl. destruct s2 as [|x s2]; [done|]. simpl in *. lia.
Qed.

Lemma runq_body_ends fuel s : (length s < fuel)%nat → ends s (body_runq fuel s).
Proof.
  intros Hl. pose proof (skip_blanks_length s) as Hb.
  pose proof (parser_args_ends fuel (skip_blanks s) [(lit "mode", JString (lit "runq"))] ltac:(lia)) as H.
  unfold body_runq, head_args.
  destruct (parser_args fuel _ _) as [[[|x s1] r1]| |]; cbn [res_bind]; [done| |done|done]. simpl in *. lia.
Qed.

Lemma body_loop_ends body : (∀ fuel s, (length s < fuel)%nat → ends s (body fuel s)) →
  ∀ fuel s out, (length s < fuel)%nat → body_loop body fuel s out ≠ OutOfFuel.
Proof.
  intros Hb. induction fuel as [|fuel IH]; intros s out Hl; [lia|]. cbn [body_loop].
  destruct s as [|x s]; [done|]. specialize (Hb (S fuel) (x :: s) Hl).
  destruct (body (S fuel) (x :: s)) as [[s' o]| |]; cbn [res_bind]; [|done|done]. simpl in Hb.
  apply IH. simpl in Hl. lia.
Qed.

Lemma hard_loop_ends fuel : ∀ s out, (length s < fuel)%nat →
  match hard_loop fuel s out with
  | Ok (s', _) => (length s' ≤ length s)%nat | Crash => True | OutOfFuel => False end.
Proof.
  induction fuel as [|fuel IH]; intros s out Hl; [lia|]. cbn [hard_loop].
  destruct s as [|x s]; [done|]. destruct (hd 0 s =? 115); [done|].
  assert (ends (x :: s) (body_irqoff (S fuel) (x :: s) HARD_IRQ)) as Hb by (by apply stack_body_ends).
  destruct (body_irqoff _ _ _) as [[s' o]| |]; cbn [res_bind]; [|done|done].
  simpl in Hb, Hl. specialize (IH s' (out ++ [o]) ltac:(lia)).
  destruct (hard_loop fuel s' _) as [[s2 o2]| |]; [simpl; lia|done|done].
Qed.

(** The parsers end on every input: with the fuel they start with, one more
    than the length of the stream, no stream makes them run out of it; a
    malformed report ends in an access out of bounds, never in a loop. *)
Lemma parsers_end stream :
  parser_irqoff stream ≠ OutOfFuel ∧ parser_nosch stream ≠ OutOfFuel ∧ parser_runq stream ≠ OutOfFuel.
Proof.
  split_and!.
  - unfold parser_irqoff. set (s := accept (accept (accept stream 10) 10) 10).
    assert (length s < fuel_of stream)%nat as Hl.
    { pose proof (accept_length stream 10). pose proof (accept_length (accept stream 10) 10).
      pose proof (accept_length (accept (accept stream 10) 10) 10). unfold fuel_of. subst s. lia. }
    pose proof (hard_loop_ends (fuel_of stream) s [] Hl) as H.
    destruct (hard_loop _ s []) as [[s' o]| |]; cbn [res_bind]; [|done|done].
    apply body_loop_ends; [intros fuel t; apply stack_body_ends|]. pose proof (accept_length s' 10). lia.
  - apply body_loop_ends; [intros fuel t; apply stack_body_ends|unfold fuel_of; lia].
  - apply body_loop_ends; [apply runq_body_ends|unfold fuel_of; lia].
Qed.


(** A report of a hard interrupt, and the objects it gives. *)
Definition s_hard : list Z :=
  lit "trace_irqoff_latency: 10ms" ++ [10; 10] ++ lit " hardirq:" ++ [10]
  ++ lit "     cpu:1" ++ [9] ++ lit "COMMAND:insmod" ++ [9] ++ lit "LATENCY:202ms" ++ [10]
  ++ lit "     do_one_initcall+0xb8/0x230" ++ [10] ++ lit "     load_module+0x1318/0x1b40" ++ [10].
Example runlat_hard :
  parser_irqoff (s_hard ++ [10] ++ lit " softirq:" ++ [10])
  = Ok [[(lit "mode", JString (lit "hard")); (lit "cpu", JNumber 1); (lit "COMMAND", JString (lit "insmod"));
         (lit "LATENCY", JString (lit "202ms"));
         (lit "stack", JArray [lit "do_one_initcall+0xb8/0x230"; lit "load_module+0x1318/0x1b40"])]].
Proof. reflexivity. Qed.

(** The same report without the empty line before the mark, which is how the
    comment in [parser.c] shows it, is not accepted: the mark is taken for a
    line of the stack, and the parser runs off the end. *)
Example runlat_comment_sample : parser_irqoff (s_hard ++ lit " softirq:" ++ [10]) = Crash.
Proof. reflexivity. Qed.

(** A report that stops after a field ends in an access out of bounds. *)
Example runlat_cut_crashes : parser_nosch (lit "     cpu:1" ++ [9] ++ lit "PID:42") = Crash.
Proof. reflexivity. Qed.
