(* ===== verification/Sysak.v ===== *)
(** * Sysak: the command-line front end

    [source/sysak.c]: finds a tool in the rule files the build writes, installs
    what it depends on, and runs it with its arguments; [list] prints the
    tools. A path, a command and a rule file are byte strings.

    The state holds the globals and what the process does to the outside: the
    files, the characters still to be read from the terminal, and the actions
    performed, in order. The shell is not part of the program: [shell] says
    what a command returns and what it does to the files. A copy that does not
    fit its buffer, or the use of an unassigned variable, is [Crash]. *)

From S2P Require Import Prelude CString.

(** ** State *)

Record tool_info := ToolInfo { ti_module : list Z; ti_name : list Z; ti_helpinfo : list Z }.

Record path_info := PathInfo {
  kern_version : list Z; machine : list Z;
  tools_path : list Z; module_path : list Z;
  sysak_rule : list Z; sysak_other_rule : list Z; sysak_work_path : list Z;
}.

Record dep_info := DepInfo {
  prev_dep : list Z; post_dep : list Z; run_depend : list Z;
  pre_module : bool; post_module : bool; btf_depend : bool;
}.

Inductive action :=
  | System (cmd : list Z)          (* system(cmd) *)
  | Run (cmd : list Z)             (* fork, exec sh -c cmd and wait *)
  | Print (text : list Z)
  | Mkdir (path : list Z)
  | Kill (pid sig : Z).

(** The files by path, and the shell: the status of a command and its effect. *)
Abbreviation fs := (gmap (list Z) (list Z)).
Definition shell_fn : Type := list Z → fs → Z * fs.

Record sysak := Sysak {
  paths : path_info;
  deps : dep_info;
  tool_lists : list (list tool_info);
  auto_get_components : bool;
  sysak_components_server : list Z;
  child_pid : Z;
  tools_exec : list Z;
  files : fs;
  stdin : list Z;
  actions : list action;
}.

Definition set_paths x s := Sysak x (deps s) (tool_lists s) (auto_get_components s)
  (sysak_components_server s) (child_pid s) (tools_exec s) (files s) (stdin s) (actions s).
Definition set_deps x s := Sysak (paths s) x (tool_lists s) (auto_get_components s)
  (sysak_components_server s) (child_pid s) (tools_exec s) (files s) (stdin s) (actions s).
Definition set_lists x s := Sysak (paths s) (deps s) x (auto_get_components s)
  (sysak_components_server s) (child_pid s) (tools_exec s) (files s) (stdin s) (actions s).
Definition set_auto x s := Sysak (paths s) (deps s) (tool_lists s) x (sysak_components_server s)
  (child_pid s) (tools_exec s) (files s) (stdin s) (actions s).
Definition set_server x s := Sysak (paths s) (deps s) (tool_lists s) (auto_get_components s) x
  (child_pid s) (tools_exec s) (files s) (stdin s) (actions s).
Definition set_child x s := Sysak (paths s) (deps s) (tool_lists s) (auto_get_components s)
  (sysak_components_server s) x (tools_exec s) (files s) (stdin s) (actions s).
Definition set_exec x s := Sysak (paths s) (deps s) (tool_lists s) (auto_get_components s)
  (sysak_components_server s) (child_pid s) x (files s) (stdin s) (actions s).
Definition set_files x s := Sysak (paths s) (deps s) (tool_lists s) (auto_get_components s)
  (sysak_components_server s) (child_pid s) (tools_exec s) x (stdin s) (actions s).
Definition set_stdin x s := Sysak (paths s) (deps s) (tool_lists s) (auto_get_components s)
  (sysak_components_server s) (child_pid s) (tools_exec s) (files s) x (actions s).
Definition add_action a s := Sysak (paths s) (deps s) (tool_lists s) (auto_get_components s)
  (sysak_components_server s) (child_pid s) (tools_exec s) (files s) (stdin s) (actions s ++ [a]).

Definition set_pre b d := DepInfo (prev_dep d) (post_dep d) (run_depend d) b (post_module d) (btf_depend d).
Definition set_post b d := DepInfo (prev_dep d) (post_dep d) (run_depend d) (pre_module d) b (btf_depend d).
Definition set_btf b d := DepInfo (prev_dep d) (post_dep d) (run_depend d) (pre_module d) (post_module d) b.
Definition set_run r d := DepInfo (prev_dep d) (post_dep d) r (pre_module d) (post_module d) (btf_depend d).

(** ** The monad *)

Inductive out (A : Type) := Done (a : A) (s : sysak) | Crash.
Arguments Done {A}.
Arguments Crash {A}.
Definition M (A : Type) : Type := sysak → out A.
Definition m_ret {A} (a : A) : M A := λ s, Done a s.
Definition m_bind {A B} (m : M A) (f : A → M B) : M B :=
  λ s, match m s with Done a s' => f a s' | Crash => Crash end.
Definition m_crash {A} : M A := λ _, Crash.
Definition m_get {A} (f : sysak → A) : M A := λ s, Done (f s) s.
Definition m_mod (f : sysak → sysak) : M unit := λ s, Done tt (f s).

Declare Scope sysak_scope.
Delimit Scope sysak_scope with sysak.
Notation "'let*' x ':=' m 'in' k" := (m_bind m (λ x, k))
  (at level 10, x pattern, m at level 100, k at level 200) : sysak_scope.
Open Scope sysak_scope.

(** [sprintf] and [strcpy] into a buffer of [n] bytes; [snprintf] truncates. *)
Definition copy (n : nat) (s : list Z) : M (list Z) :=
  if (length s <? n)%nat then m_ret s else m_crash.
Definition snprintf (n : nat) (s : list Z) : list Z := take (n - 1) s.

Definition print (text : list Z) : M unit := m_mod (add_action (Print text)).
(** [access(path, 0) == 0] *)
Definition access (path : list Z) (s : sysak) : bool := bool_decide (is_Some (files s !! path)).
Definition fopen (path : list Z) (s : sysak) : option (list Z) := files s !! path.

(** ** Strings *)

Definition KVERSION : nat := 64.
Definition MAX_SUBCMD_ARGS : nat := 512.
Definition MAX_DEPEND_LEN : nat := 128.
Definition MAX_NAME_LEN : nat := 64.
Definition MAX_WORK_PATH_LEN : nat := 512.
Definition LINE_BUFF_LEN : nat := 1024.
Definition ERR_NOSUBTOOL : Z := 2.
Definition ERR_MISSARG : Z := 3.

(** The offset of the first character that is not white space. *)
Fixpoint start_of (s : list Z) : option nat :=
  match s with
  | [] => None
  | x :: s' => if isspace x then S <$> start_of s' else Some O
  end.

(** [strim]: white space becomes the end of the string, which then moves to the
    front of the buffer. *)
Definition strim (s : list Z) : list Z :=
  let z := (λ c, if isspace c then 0 else c) <$> s in
  match start_of s with
  | Some start => c_string (drop start z)
  | None => c_string z
  end.

Fixpoint char_num (s : list Z) (c : Z) : Z :=
  match s with
  | [] => 0
  | x :: s' => (if x =? c then 1 else 0) + char_num s' c
  end.

(** The loop of [dirpath]: what precedes the first suffix equal to [substr]. *)
Fixpoint before_suffix (substr s : list Z) : list Z :=
  if decide (s = substr) then []
  else match s with [] => [] | x :: s' => x :: before_suffix substr s' end.

Definition dirpath (fullpath : list Z) : option (list Z) :=
  match strrchr fullpath 47 with
  | Some substr => Some (before_suffix substr fullpath)
  | None => None
  end.

(** ** Kernel module and downloads *)

Section front_end.
Context (shell : shell_fn).
Context (fork_ok : bool).

Definition module : list Z := lit "/sysak.ko".
Definition system_modules : list Z := lit "/proc/modules".
Definition sysak_root_path : list Z := lit "/usr/local/sysak".

Definition system (cmd : list Z) : M Z := λ s,
  let '(r, f) := shell cmd (files s) in Done r (set_files f (add_action (System cmd) s)).

Definition mod_ctrl (enable : bool) : M Z :=
  let* ok := m_get (access system_modules) in
  if negb ok then m_ret (-1)
  else
    let* fp := m_get (fopen system_modules) in
    match fp with
    | None => let* _ := print (lit "open /proc/modules failed" ++ [10]) in m_ret (-1)
    | Some content =>
        let has_ko := existsb (λ modinfo, contains modinfo (lit "sysak"))
                        (fgets_all (MAX_SUBCMD_ARGS - 1) content) in
        let* p := m_get paths in
        let ko := module_path p ++ kern_version p ++ module in
        if (enable : bool) then
          if (has_ko : bool) then m_ret 0
          else system (snprintf (4 * KVERSION) (lit "insmod " ++ ko))
        else if has_ko then system (snprintf (4 * KVERSION) (lit "rmmod " ++ ko))
        else m_ret (-1)
    end.

Definition get_server_addr : M bool :=
  let* filename := copy MAX_WORK_PATH_LEN (sysak_root_path ++ lit "/sysak_server.conf") in
  let* fp := m_get (fopen filename) in
  match fp with
  | None => let* _ := print (lit "no sysak server config file" ++ [10]) in m_ret false
  | Some content =>
      let* old := m_get sysak_components_server in
      let server := strim (default old (head (fgets_all (MAX_WORK_PATH_LEN - 1) content))) in
      let* _ := m_mod (set_server server) in
      if (length server =? 0)%nat
      then let* _ := print (lit "no sysak server setting" ++ [10]) in m_ret false
      else m_ret true
  end.

(** The first rule line that has the tag decides. *)
Fixpoint module_tag_loop (lines : list (list Z)) : M bool :=
  match lines with
  | [] => m_ret false
  | buf :: lines' =>
      match strstr buf (lit "sysak_module_tag=") with
      | Some pstr =>
          let* module_tag := copy MAX_NAME_LEN (drop 17 pstr) in
          m_ret (negb (length (strim module_tag) =? 0)%nat)
      | None => module_tag_loop lines'
      end
  end.

Definition get_module_tag : M bool :=
  let* p := m_get paths in
  let* filename := copy MAX_WORK_PATH_LEN (module_path p ++ lit "/.sysak.rules") in
  let* fp := m_get (fopen filename) in
  match fp with
  | None => let* _ := print (lit "open " ++ filename ++ lit " failed" ++ [10]) in m_ret false
  | Some content => module_tag_loop (fgets_all (LINE_BUFF_LEN - 1) content)
  end.

(** The loop over the downloaded rule: the file name and the rule line. *)
Fixpoint ext_rule_loop (lines : list (list Z)) (filename : list Z) (rule : option (list Z))
    : M (list Z * option (list Z)) :=
  match lines with
  | [] => m_ret (filename, rule)
  | buf :: lines' =>
      match strstr buf (lit "target=") with
      | Some pstr =>
          let* filename := copy MAX_WORK_PATH_LEN (drop 7 pstr) in ext_rule_loop lines' filename rule
      | None =>
          match strstr buf (lit "info=") with
          | Some pstr => ext_rule_loop lines' filename (Some (drop 5 pstr))
          | None => ext_rule_loop lines' filename rule
          end
      end
  end.

Definition wget (rest : list Z) : M Z :=
  let* download_cmd := copy MAX_WORK_PATH_LEN (lit "wget " ++ rest ++ lit " &>/dev/null") in
  system download_cmd.

Definition down_install_ext_tools (tool : list Z) : M Z :=
  let* p := m_get paths in
  let* server := m_get sysak_components_server in
  let url := server ++ lit "/sysak/ext_tools/" ++ machine p ++ lit "/" ++ tool in
  let* ret := wget (url ++ lit "/rule -P " ++ tools_path p) in
  if ret <? 0 then m_ret ret
  else
    let* filename := copy MAX_WORK_PATH_LEN (tools_path p ++ lit "/rule") in
    let* fp := m_get (fopen filename) in
    match fp with
    | None => m_ret (-1)
    | Some content =>
        let* (filename, rule) := ext_rule_loop (fgets_all (LINE_BUFF_LEN - 1) content) filename None in
        let filename := strim filename in
        if (length filename =? 0)%nat then let* _ := print (lit "invalid ext tool" ++ [10]) in m_ret (-1)
        else
          let* ret := wget (url ++ lit "/" ++ filename ++ lit " -P " ++ tools_path p) in
          if ret <? 0 then m_ret ret
          else
            let* ret :=
              (if contains filename (lit ".zip") then
                 let* buf := copy LINE_BUFF_LEN (lit "unzip " ++ tools_path p ++ lit "/" ++ filename
                                                  ++ lit " -d " ++ tools_path p ++ [10]) in system buf
               else if contains filename (lit ".tar") then
                 let* buf := copy LINE_BUFF_LEN (lit "tar xf " ++ tools_path p ++ lit "/" ++ filename
                                                  ++ lit " -C " ++ tools_path p ++ [10]) in system buf
               else m_ret 0) in
            if ret <? 0 then m_ret ret
            else
              match rule with
              | None => m_crash
              | Some rule =>
                  let* _ := m_mod (λ s, set_files
                    (<[sysak_rule p := default [] (files s !! sysak_rule p) ++ rule]> (files s)) s) in
                  m_ret 0
              end
    end.

Definition down_install (component_name : list Z) : M Z :=
  let* ok := get_server_addr in
  if negb ok then m_ret (-1)
  else
    let* p := m_get paths in
    let* server := m_get sysak_components_server in
    if decide (component_name = lit "sysak_modules") then
      let* tag := get_module_tag in
      if negb tag then m_ret (-1)
      else
        let* ko_path := copy MAX_WORK_PATH_LEN (module_path p ++ lit "/" ++ kern_version p) in
        let* ko_file := copy MAX_WORK_PATH_LEN (module_path p ++ lit "/" ++ kern_version p ++ lit "/sysak.ko") in
        let* _ := copy MAX_WORK_PATH_LEN (tools_path p ++ lit "/" ++ kern_version p ++ lit "/vmlinux-" ++ kern_version p) in
        let* there := m_get (access ko_path) in
        let* _ := (if negb there then
                     m_mod (λ s, set_files (<[ko_path := []]> (files s)) (add_action (Mkdir ko_path) s))
                   else m_ret tt) in
        let* ret := wget (server ++ lit "/sysak/modules/" ++ machine p ++ lit "/sysak-" ++ kern_version p
                          ++ lit ".ko -O " ++ module_path p ++ lit "/" ++ kern_version p ++ lit "/sysak.ko") in
        let* got := m_get (access ko_file) in
        m_ret (if (got : bool) then 0 else ret)
    else if decide (component_name = lit "btf") then
      let* btf_file := copy MAX_WORK_PATH_LEN (tools_path p ++ lit "/" ++ kern_version p ++ lit "/vmlinux-" ++ kern_version p) in
      let* ret := wget (server ++ lit "/coolbpf/btf/" ++ machine p ++ lit "/vmlinux-" ++ kern_version p
                        ++ lit " -P " ++ tools_path p) in
      let* got := m_get (access btf_file) in
      m_ret (if (got : bool) then 0 else ret)
    else down_install_ext_tools component_name.

Definition promt : list Z :=
  lit "has not been installed, do you want to auto download and install ? Enter Y/N:".

(** [scanf] of one character; at the end of the input it stays a blank. *)
Definition scan_char : M Z := λ s,
  match stdin s with x :: i => Done x (set_stdin i s) | [] => Done 32 s end.

Definition pre_down_install (need_module need_btf : bool) (compents : option (list Z)) : M Z :=
  let* auto := m_get auto_get_components in
  let* download :=
    (if (auto : bool) then m_ret true
     else
       let* _ := print ((if need_module && need_btf then lit "sysak_modules and btf"
                         else if need_module then lit "sysak_modules"
                         else if need_btf then lit "btf" else default [] compents) ++ lit " " ++ promt) in
       let* user_input := scan_char in
       m_ret ((user_input =? 121) || (user_input =? 89))) in
  if (download : bool) then
    let* ret := (if need_module then down_install (lit "sysak_modules") else m_ret 0) in
    let* ret := (if need_btf then down_install (lit "btf") else m_ret ret) in
    let* ret := match compents with Some name => down_install name | None => m_ret ret end in
    m_ret (if ret <? 0 then - EEXIST else ret)
  else m_ret (- EEXIST).

(** The paths of the parts that are not needed are not assigned in the code; the
    tests on them cannot change the result. *)
Definition check_or_install_components (name : list Z) : M Z :=
  let* p := m_get paths in
  let need_module := contains name (lit "sysak_modules") in
  let need_btf := contains name (lit "btf") in
  let need_compents := negb (need_module || need_btf) in
  let* ko_path := (if need_module then copy MAX_WORK_PATH_LEN (module_path p ++ kern_version p ++ module)
                   else m_ret []) in
  let* btf_path := (if need_btf then copy MAX_WORK_PATH_LEN (tools_path p ++ lit "/vmlinux-" ++ kern_version p)
                    else m_ret []) in
  let* _ := (if need_compents then copy MAX_WORK_PATH_LEN (tools_path p ++ name) else m_ret []) in
  let* ko := m_get (access ko_path) in
  let* btf := m_get (access btf_path) in
  let need_module := need_module && negb ko in
  let need_btf := need_btf && negb btf in
  if need_module || need_btf then pre_down_install need_module need_btf None
  else if need_compents then pre_down_install false false (Some name)
  else m_ret 0.

Definition do_prev_depend : M Z :=
  let* d := m_get deps in
  if pre_module d && btf_depend d then check_or_install_components (lit "sysak_modules and btf")
  else if pre_module d then
    let* r := check_or_install_components (lit "sysak_modules") in
    if r =? 0 then mod_ctrl true
    else let* _ := print (lit "sysak_modules not installed, exit ..." ++ [10]) in m_ret (-1)
  else if btf_depend d then check_or_install_components (lit "btf")
  else m_ret 0.

(** ** Running a tool *)

Definition add_python_depend (depend cmd : list Z) : M unit :=
  let run python := m_mod (set_exec (snprintf MAX_WORK_PATH_LEN (python ++ cmd))) in
  if decide (depend = lit "all") then
    let* py := m_get (access (lit "/usr/bin/python")) in
    let* py2 := m_get (access (lit "/usr/bin/python2")) in
    let* py3 := m_get (access (lit "/usr/bin/python3")) in
    if (py : bool) then run (lit "python ")
    else if (py2 : bool) then run (lit "python2 ")
    else if (py3 : bool) then run (lit "python3 ")
    else print (lit "please install python!" ++ [10])
  else if decide (depend = lit "python3") then run (lit "python3 ")
  else if decide (depend = lit "python2") then run (lit "python2 ")
  else m_ret tt.

Definition sig_handler (sig : Z) : M unit :=
  let* pid := m_get child_pid in
  let* _ := (if 0 <? pid then m_mod (add_action (Kill (- pid) sig)) else m_ret tt) in
  let* d := m_get deps in
  if post_module d then let* _ := mod_ctrl false in m_ret tt else m_ret tt.

(** [register_sig_handler] when the handlers can be installed. *)
Definition register_sig_handler (pid : Z) : M unit := m_mod (set_child pid).

(** [my_system]: the status of the command is not used. [pid] is the child's. *)
Definition my_system (pid : Z) (cmd : list Z) : M Z :=
  if negb fork_ok then m_ret (-1)
  else
    let* _ := register_sig_handler pid in
    λ s, Done 0 (set_files (shell cmd (files s)).2 (add_action (Run cmd) s)).

(** The loop that appends the quoted arguments. *)
Fixpoint append_args (subcmd_name : list Z) (args : list (list Z)) : M (list Z) :=
  match args with
  | [] => m_ret subcmd_name
  | a :: args' =>
      let subcmd_args := snprintf MAX_SUBCMD_ARGS ([32; 34] ++ a ++ [34]) in
      let* subcmd_name := copy (MAX_NAME_LEN + MAX_SUBCMD_ARGS) (subcmd_name ++ subcmd_args) in
      append_args subcmd_name args'
  end.

Definition exectue (pid : Z) (tool : list Z) (args : list (list Z)) : M Z :=
  let* r := do_prev_depend in
  if r <? 0 then m_ret (-1)
  else
    let* p := m_get paths in
    let n := (MAX_NAME_LEN + MAX_SUBCMD_ARGS)%nat in
    let subcmd_name := snprintf n (tools_path p ++ tool) in
    let* there := m_get (access subcmd_name) in
    let subcmd_name := if (there : bool) then subcmd_name
                       else snprintf n (tools_path p ++ kern_version p ++ tool) in
    let* subcmd_name := append_args subcmd_name args in
    let* d := m_get deps in
    let* _ := (if negb (length (run_depend d) =? 0)%nat then add_python_depend (run_depend d) subcmd_name
               else let* e := copy MAX_WORK_PATH_LEN subcmd_name in m_mod (set_exec e)) in
    let* e := m_get tools_exec in
    let subcmd_exec_final := snprintf n (sysak_work_path p ++ [59] ++ e) in
    let* ret := my_system pid subcmd_exec_final in
    if ret <? 0 then m_ret ret
    else
      let* d := m_get deps in
      let* _ := (if post_module d then mod_ctrl false else m_ret 0) in
      m_ret ret.

(** ** Rules *)

(** [sscanf(buf, "%[^:]:%[^:]", class, name)] *)
Definition scan_class_name : list fmt_item := [NotSet 58; Lit [58]; NotSet 58].

(** The dependencies of the rule line of a tool: [":prev{%[^}]};post{%[^}]}"],
    [":python-dep{%[^}]}"] and the word "bpf". *)
Definition rule_deps (buf : list Z) (d : dep_info) : M dep_info :=
  let* d :=
    match strstr buf (lit ":prev{") with
    | None => m_ret d
    | Some pstr =>
        match sscanf [Lit (lit ":prev{"); NotSet 125; Lit (lit "};post{"); NotSet 125; Lit [125]] pstr with
        | [] => m_ret d
        | [a] => let* a := copy MAX_DEPEND_LEN a in
                 m_ret (DepInfo a (post_dep d) (run_depend d) (pre_module d) (post_module d) (btf_depend d))
        | a :: b :: _ =>
            let* a := copy MAX_DEPEND_LEN a in
            let* b := copy MAX_DEPEND_LEN b in
            m_ret (DepInfo a b (run_depend d) (pre_module d) (post_module d) (btf_depend d))
        end
    end in
  let* d :=
    match strstr buf (lit ":python-dep{") with
    | None => m_ret d
    | Some pstr =>
        match sscanf [Lit (lit ":python-dep{"); NotSet 125; Lit [125]] pstr with
        | [] => m_ret d
        | a :: _ => let* a := copy MAX_DEPEND_LEN a in m_ret (set_run a d)
        end
    end in
  m_ret (if contains buf (lit "bpf") then set_btf true d else d).

Fixpoint rule_loop (tool : list Z) (lines : list (list Z)) : M bool :=
  match lines with
  | [] => m_ret false
  | buf :: lines' =>
      match sscanf scan_class_name buf with
      | class_name :: tools_name :: _ =>
          let* class_name := copy MAX_NAME_LEN class_name in
          let* tools_name := copy MAX_NAME_LEN tools_name in
          if contains class_name (lit "combine") && contains class_name [47] then rule_loop tool lines'
          else if decide (tools_name = tool) then
            let* d := m_get deps in
            let* d := rule_deps buf d in
            let* _ := m_mod (set_deps d) in
            m_ret true
          else rule_loop tool lines'
      | _ => m_crash
      end
  end.

Definition tool_rule_parse (path tool : list Z) : M bool :=
  let* fp := m_get (fopen path) in
  match fp with
  | None => m_ret false
  | Some content => rule_loop tool (fgets_all (MAX_NAME_LEN + MAX_SUBCMD_ARGS - 1) content)
  end.

Definition tool_lookup (tool : list Z) : M bool :=
  let* p := m_get paths in
  let tool_exec_file := snprintf MAX_WORK_PATH_LEN (tools_path p ++ kern_version p ++ tool) in
  let* there := m_get (access tool_exec_file) in
  let tool_exec_file := if (there : bool) then tool_exec_file
                        else snprintf MAX_WORK_PATH_LEN (tools_path p ++ tool) in
  let* there := m_get (access tool_exec_file) in
  let* r := (if (there : bool) then m_ret 0 else check_or_install_components tool) in
  if negb there && (r <? 0) then m_ret false
  else
    let* other := tool_rule_parse (sysak_other_rule p) tool in
    if (other : bool) then m_ret true else tool_rule_parse (sysak_rule p) tool.

(** The loop over the arguments that decides about the kernel module. *)
Fixpoint module_args (args : list (list Z)) (d : dep_info) : dep_info :=
  match args with
  | [] => d
  | a :: args' =>
      if contains (prev_dep d) a then set_pre true d
      else if contains (post_dep d) a then set_post true d
      else module_args args' d
  end.

Definition subcmd_parse (pid : Z) (tool : list Z) (args : list (list Z)) : M Z :=
  let* found := tool_lookup tool in
  if negb found then
    let* _ := print (lit "no components, you should get first" ++ [10]) in m_ret (- ERR_NOSUBTOOL)
  else
    let* d := m_get deps in
    let d := if contains (prev_dep d) (lit "btf") then set_btf true d
             else if contains (prev_dep d) (lit "default") || contains (post_dep d) (lit "default")
             then set_post true (set_pre true d)
             else module_args args d in
    let* _ := m_mod (set_deps d) in
    exectue pid tool args.

(** ** The list of tools *)

Definition type_names : list (list Z) :=
  [lit "sysak tools for user self-help analysis"; lit "sysak tools for system detail info";
   lit "sysak monitor service"; lit "sysak tools for bclinux"].

(** The list a tool goes to, with its module; [None]: it is not listed. *)
Definition classify (class : list Z) : M (option (nat * list Z)) :=
  if decide (class = lit "combine") then m_ret (Some (0%nat, []))
  else if is_prefix (lit "detect") class then
    if 2 <=? char_num class 47 then m_ret None
    else
      match sscanf [Lit (lit "detect/"); NotSet 58] class with
      | [] => m_ret (Some (1%nat, []))
      | m :: _ => let* m := copy MAX_NAME_LEN m in m_ret (Some (1%nat, m))
      end
  else if is_prefix (lit "monitor") class then m_ret (Some (2%nat, []))
  else if is_prefix (lit "bclinux") class then m_ret (Some (3%nat, []))
  else m_ret None.

Definition helpinfo (buf : list Z) : M (list Z) :=
  match strstr buf (lit ":help{") with
  | None => m_ret []
  | Some sptr =>
      match sscanf [Lit (lit ":help{"); NotSet 125; Lit [125]] sptr with
      | [] => m_ret []
      | h :: _ => copy MAX_SUBCMD_ARGS h
      end
  end.

(** [class] and [name] keep what the last line assigned. *)
Fixpoint build_loop (all : bool) (lines : list (list Z)) (class name : option (list Z)) (ret : Z) : M Z :=
  match lines with
  | [] => m_ret ret
  | buf :: lines' =>
      let scanned := sscanf scan_class_name buf in
      let* class := match scanned with
                    | a :: _ => let* a := copy MAX_NAME_LEN a in m_ret (Some a) | [] => m_ret class end in
      let* name := match scanned with
                   | _ :: b :: _ => let* b := copy MAX_NAME_LEN b in m_ret (Some b) | _ => m_ret name end in
      match class with
      | None => m_crash
      | Some c =>
          if negb all && negb (bool_decide (c = lit "combine")) then build_loop all lines' class name ret
          else
            let* slot := classify c in
            match slot with
            | None => build_loop all lines' class name ret
            | Some (l, m) =>
                match name with
                | None => m_crash
                | Some nm =>
                    let* h := helpinfo buf in
                    let* _ := m_mod (λ s, set_lists
                      (alter (cons (ToolInfo m nm h)) l (tool_lists s)) s) in
                    build_loop all lines' class name (ret + 1)
                end
            end
      end
  end.

Definition build_subcmd_info_from_file (content : list Z) (all : bool) : M Z :=
  build_loop all (fgets_all (MAX_NAME_LEN + MAX_SUBCMD_ARGS - 1) content) None None 0.

Definition build_subcmd_info (all : bool) : M Z :=
  let* p := m_get paths in
  let from path : M Z :=
    let* fp := m_get (fopen path) in
    match fp with Some content => build_subcmd_info_from_file content all | None => m_ret 0 end in
  let* r1 := from (sysak_rule p) in
  let* r2 := from (sysak_other_rule p) in
  m_ret (r1 + r2).

Definition pad16 (s : list Z) : list Z := s ++ replicate (16 - length s) 32.

(** The lines of one list; [last] is the module printed last. *)
Fixpoint tool_lines (tools : list tool_info) (last : list Z) : list Z * list Z :=
  match tools with
  | [] => ([], last)
  | t :: tools' =>
      let new := negb (length (ti_module t) =? 0)%nat && negb (bool_decide (ti_module t = last)) in
      let last := if new then ti_module t else last in
      let '(text, last) := tool_lines tools' last in
      ((if new then lit "  " ++ ti_module t ++ lit ":" ++ [10] else [])
       ++ lit "    " ++ pad16 (ti_name t) ++ lit "    " ++ ti_helpinfo t ++ [10] ++ text, last)
  end.

Fixpoint list_lines (ls : list (list Z * list tool_info)) (last : list Z) : list Z :=
  match ls with
  | [] => []
  | (_, []) :: ls' => list_lines ls' last
  | (type_name, tools) :: ls' =>
      let '(text, last) := tool_lines tools last in
      type_name ++ [10] ++ text ++ [10] ++ list_lines ls' last
  end.

Definition print_each_tool (all : bool) : M unit :=
  let* lists := m_get tool_lists in
  let* _ := print (list_lines (take (if all then 4 else 1)%nat (zip type_names lists)) []) in
  if negb all then
    print (lit "If you want to known the detail about the system, please use 'sysak list -a'." ++ [10])
  else m_ret tt.

Definition subcmd_list (show_all : bool) : M unit :=
  let* r := build_subcmd_info show_all in
  if r <=? 0 then m_ret tt else print_each_tool show_all.

(** ** [main] *)

Definition usage : M unit :=
  print (lit "Usage: sysak [cmd] [subcmd [cmdargs]]" ++ [10] ++ lit "       cmd:" ++ [10] ++
         lit "              list [-a]," ++ [9] ++ lit "show subcmds" ++ [10] ++
         lit "              -h/help, " ++ [9] ++ lit "help information for specify subcmd" ++ [10] ++
         lit "              -g, " ++ [9; 9] ++ lit "auto download btf and components" ++ [10] ++
         lit "       subcmd: see the result of list" ++ [10]).

(** The arguments after the program's name. *)
Definition parse_arg (pid : Z) (argv : list (list Z)) : M Z :=
  match argv with
  | [] => let* _ := usage in m_ret (- ERR_MISSARG)
  | a1 :: rest =>
      if decide (a1 = lit "list") then
        let* _ := subcmd_list (bool_decide (rest = [lit "-a"])) in m_ret 0
      else if decide (a1 = lit "help" ∨ a1 = lit "-h") then
        let* _ := usage in m_ret 0
      else if decide (a1 = lit "-g") then
        match rest with
        | [] => let* _ := usage in m_ret (- ERR_MISSARG)
        | tool :: args => let* _ := m_mod (set_auto true) in subcmd_parse pid tool args
        end
      else subcmd_parse pid a1 rest
  end.

(** [uname] gives the release and the machine. *)
Definition kern_release (uname : option (list Z * list Z)) : M unit :=
  match uname with
  | None => print (lit "cannot get system version" ++ [10])
  | Some (release, mach) =>
      let* release := copy KVERSION release in
      let* mach := copy KVERSION mach in
      m_mod (λ s, set_paths (PathInfo release mach (tools_path (paths s)) (module_path (paths s))
        (sysak_rule (paths s)) (sysak_other_rule (paths s)) (sysak_work_path (paths s))) s)
  end.

(** [exe] is what [realpath(argv[0])] gives. *)
Definition set_path (exe : list Z) : M unit :=
  match dirpath exe with
  | None => m_crash
  | Some current_path =>
      let n := MAX_WORK_PATH_LEN in
      let components_path := snprintf n (current_path ++ lit "/.sysak_components") in
      let* there := m_get (access components_path) in
      let components_path := if (there : bool) then components_path
                             else snprintf n (sysak_root_path ++ lit "/.sysak_components") in
      m_mod (λ s, set_paths (PathInfo (kern_version (paths s)) (machine (paths s))
        (snprintf n (components_path ++ lit "/tools/")) (snprintf n (components_path ++ lit "/lib/"))
        (snprintf n (components_path ++ lit "/tools/.sysak.rules"))
        (snprintf n (components_path ++ lit "/tools/" ++ kern_version (paths s) ++ lit "/.sysak.rules"))
        (snprintf n (lit "export SYSAK_WORK_PATH=" ++ components_path))) s)
  end.

Definition log_path : list Z := lit "/var/log/sysak".

Definition main (uname : option (list Z * list Z)) (exe : list Z) (pid : Z) (argv : list (list Z)) : M Z :=
  let* there := m_get (access log_path) in
  let* _ := (if negb there then
               m_mod (λ s, set_files (<[log_path := []]> (files s)) (add_action (Mkdir log_path) s))
             else m_ret tt) in
  let* _ := kern_release uname in
  let* _ := set_path exe in
  parse_arg pid argv.
End front_end.
