(* ===== verification/SysakFacts.v ===== *)
(** * SysakFacts: what the front end does

    The rule files are written by the build ([mk/target.inc]), one line
    [class:tool:depend:help{text}] for each tool. The theorems say what the
    front end of [Sysak] reads from such a file, what it lists, and which
    commands it runs, in which order. *)

From S2P Require Import Prelude CString Sysak.

(** ** The rule files *)

(** The dependencies the Makefiles declare: [prev{a}], with or without
    [post{b}], a Python interpreter, BPF; separated by semicolons. *)
Record depend := Depend {
  d_prev : option (list Z * option (list Z));
  d_python : option (list Z);
  d_bpf : bool;
}.

Definition braced (word text : list Z) : list Z := word ++ [123] ++ text ++ [125].

Definition depend_items (d : depend) : list (list Z) :=
  match d_prev d with
  | Some (a, post) => braced (lit "prev") a :: match post with Some b => [braced (lit "post") b] | None => [] end
  | None => []
  end ++ match d_python d with Some x => [braced (lit "python-dep") x] | None => [] end
  ++ if d_bpf d then [lit "{bpf}"] else [].

Fixpoint join (sep : Z) (ls : list (list Z)) : list Z :=
  match ls with
  | [] => []
  | [l] => l
  | l :: ls' => l ++ sep :: join sep ls'
  end.

Record rule := Rule { r_class : list Z; r_tool : list Z; r_depend : depend; r_help : list Z }.

Definition rule_line (r : rule) : list Z :=
  r_class r ++ [58] ++ r_tool r ++ [58] ++ join 59 (depend_items (r_depend r)) ++
  lit ":help{" ++ r_help r ++ [125].
Definition rules_file (rs : list rule) : list Z := concat ((λ l, l ++ [10]) <$> (rule_line <$> rs)).

(** The characters with a meaning in a rule file. *)
Definition special : list Z := [0; 10; 58; 123; 125].
Definition plain (s : list Z) : Prop := s ≠ [] ∧ Forall (λ c, c ∉ special) s.
Definition word (n : nat) (s : list Z) : Prop := plain s ∧ (length s < n)%nat.

Definition depend_ok (d : depend) : Prop :=
  match d_prev d with
  | Some (a, post) => word MAX_DEPEND_LEN a ∧ from_option (word MAX_DEPEND_LEN) True post
  | None => True
  end ∧ from_option (word MAX_DEPEND_LEN) True (d_python d).

Record rule_ok (r : rule) : Prop := {
  ok_class : word MAX_NAME_LEN (r_class r);
  ok_tool : word MAX_NAME_LEN (r_tool r);
  ok_depend : depend_ok (r_depend r);
  ok_help : word MAX_SUBCMD_ARGS (r_help r);
  ok_length : (length (rule_line r) < MAX_NAME_LEN + MAX_SUBCMD_ARGS - 1)%nat;
}.

Lemma plain_notin c s : c ∈ special → plain s → c ∉ s.
Proof. intros Hc [_ Hs] Hin. rewrite Forall_forall in Hs. by apply (Hs c). Qed.

Lemma word_plain n s : word n s → plain s.
Proof. by intros []. Qed.

Lemma word_copy n s st : word n s → copy n s st = Done s st.
Proof. intros [_ H]. unfold copy. by rewrite (proj2 (Nat.ltb_lt _ _)). Qed.

Lemma join_notin c sep ls : c ≠ sep → Forall (λ l, c ∉ l) ls → c ∉ join sep ls.
Proof.
  intros Hc. induction 1 as [|l ls Hl Hls IH]; [by apply not_elem_of_nil|].
  destruct ls as [|l' ls]; [done|]. simpl. apply not_elem_of_app. split; [done|].
  apply not_elem_of_cons. by split.
Qed.

(** A special character is in a dependency string only as a brace. *)
Lemma depend_notin c d :
  c ∈ special → c ≠ 123 → c ≠ 125 → depend_ok d → c ∉ join 59 (depend_items d).
Proof.
  intros Hc H1 H2 [Hp Hpy].
  assert ((c ∉ lit "prev") ∧ (c ∉ lit "post") ∧ (c ∉ lit "python-dep") ∧ (c ∉ lit "{bpf}") ∧ c ≠ 59)
    as (Hw1 & Hw2 & Hw3 & Hw4 & H59).
  { pose proof Hc as Hc'. unfold special in Hc'.
    repeat (apply elem_of_cons in Hc' as [->|Hc'];
      [first [done|split_and!; [by_compute..|done]]|]).
    by apply not_elem_of_nil in Hc'. }
  assert (∀ w x, c ∉ w → word MAX_DEPEND_LEN x → c ∉ braced w x) as Hb.
  { intros w x Hw Hx. pose proof (plain_notin c x Hc (word_plain _ _ Hx)). unfold braced.
    rewrite !not_elem_of_app, !not_elem_of_cons. auto using not_elem_of_nil. }
  apply join_notin; [done|]. unfold depend_items.
  destruct (d_prev d) as [[a [b|]]|], (d_python d) as [x|], (d_bpf d); simpl in *;
    destruct_and?; repeat constructor; auto.
Qed.

Definition line_tail (r : rule) : list Z := lit ":help{" ++ r_help r ++ [125].

(** The first colons of a line are those that separate its fields. *)
Lemma rule_line_split r :
  rule_line r = r_class r ++ 58 :: r_tool r ++ 58 :: join 59 (depend_items (r_depend r)) ++ line_tail r.
Proof. done. Qed.

(** Closes [c ∉ w] for a special [c] and a plain word, and [w ≠ []]. *)
Ltac by_plain :=
  solve [ match goal with
          | H : word _ ?w |- _ ∉ ?w => apply plain_notin; [by_compute|exact (word_plain _ _ H)]
          | H : word _ ?w |- ?w ≠ [] => exact (proj1 (word_plain _ _ H))
          end ].

Lemma scan_rule r : rule_ok r →
  sscanf scan_class_name (rule_line r ++ [10]) = [r_class r; r_tool r].
Proof.
  intros [Hc Ht _ _ _]. rewrite rule_line_split, <-app_assoc. cbn [app]. rewrite <-app_assoc. cbn [app].
  unfold scan_class_name. rewrite sscanf_set by by_plain.
  f_equal. rewrite sscanf_char. by rewrite sscanf_set by by_plain.
Qed.

(** A pattern [:p{] is in a line exactly when the dependencies start with
    [p{]; [p] is not "help". *)
Lemma find_dep r p :
  rule_ok r → 58 ∉ p → 123 ∉ p → p ≠ lit "help" →
  let rest := join 59 (depend_items (r_depend r)) ++ line_tail r ++ [10] in
  strstr (rule_line r ++ [10]) (58 :: p ++ [123])
  = if is_prefix (p ++ [123]) rest then Some (58 :: rest) else None.
Proof.
  intros [Hc Ht Hd Hh _] Hp1 Hp2 Hp3 rest. rewrite rule_line_split, <-app_assoc. cbn [app].
  rewrite <-app_assoc. cbn [app]. rewrite <-app_assoc. fold rest.
  rewrite strstr_skip by by_plain.
  rewrite strstr_cons_no; cycle 1.
  { simpl. by apply is_prefix_stop; [by_plain| |]. }
  rewrite strstr_skip by by_plain.
  destruct (is_prefix (p ++ [123]) rest) eqn:He.
  { simpl. by rewrite He. }
  rewrite strstr_cons_no by (simpl; by rewrite He).
  subst rest. rewrite strstr_skip by (apply depend_notin; [by_compute|done..]).
  unfold line_tail. rewrite <-app_assoc.
  change (lit ":help{" ++ ?x) with (58 :: lit "help" ++ 123 :: x).
  rewrite strstr_cons_no.
  - apply strstr_absent. rewrite <-app_assoc, !not_elem_of_app, not_elem_of_cons, not_elem_of_app.
    split_and!; try by_plain; try done; try (by_compute).
  - by apply (is_prefix_word 123 p (lit "help")); [|by_compute|].
Qed.

(** What a line declares about its tool: [post] counts only behind [prev], and
    the interpreter only when nothing precedes it. *)
Definition deps_of (r : rule) (d : dep_info) : dep_info :=
  let dp := r_depend r in
  DepInfo (from_option fst (prev_dep d) (d_prev dp))
          (match d_prev dp with Some (_, Some b) => b | _ => post_dep d end)
          (match d_prev dp, d_python dp with None, Some x => x | _, _ => run_depend d end)
          (pre_module d) (post_module d)
          (btf_depend d || contains (rule_line r ++ [10]) (lit "bpf")).

Lemma join_cons sep l ls : join sep (l :: ls) = l ++ concat (cons sep <$> ls).
Proof.
  revert l; induction ls as [|l' ls IH]; intros l; simpl; [by rewrite app_nil_r|].
  f_equal. f_equal. apply IH.
Qed.

Definition prev_fmt : list fmt_item :=
  [Lit (lit ":prev{"); NotSet 125; Lit (lit "};post{"); NotSet 125; Lit [125]].
Definition python_fmt : list fmt_item := [Lit (lit ":python-dep{"); NotSet 125; Lit [125]].

Lemma scan_braced n f w a k : word n a →
  sscanf (Lit (58 :: w ++ [123]) :: NotSet 125 :: f) (58 :: braced w a ++ k) = a :: sscanf f (125 :: k).
Proof.
  intros Ha. replace (58 :: braced w a ++ k) with ((58 :: w ++ [123]) ++ a ++ 125 :: k).
  - rewrite sscanf_lit. by rewrite sscanf_set by by_plain.
  - unfold braced. by rewrite <-app_comm_cons, <-!app_assoc.
Qed.

(** The two scans of the code, on the rest of the line from the second colon. *)
Lemma scan_prev dp t : depend_ok dp →
  let rest := join 59 (depend_items dp) ++ lit ":help{" ++ t in
  match d_prev dp with
  | Some (a, post) => is_prefix (lit "prev{") rest = true ∧
      sscanf prev_fmt (58 :: rest) = a :: from_option (λ b, [b]) [] post
  | None => is_prefix (lit "prev{") rest = false
  end.
Proof.
  intros [Hp Hpy] rest. subst rest. unfold depend_items.
  destruct (d_prev dp) as [[a post]|]; [|by destruct (d_python dp), (d_bpf dp)].
  destruct Hp as [Ha Hb]. rewrite <-app_comm_cons, join_cons, <-app_assoc. split; [done|].
  unfold prev_fmt. rewrite (scan_braced MAX_DEPEND_LEN _ (lit "prev") a) by done. f_equal.
  destruct post as [b|]; [|by destruct (d_python dp), (d_bpf dp)].
  simpl in Hb. cbn [app fmap list_fmap concat]. rewrite <-app_assoc.
  change (125 :: 59 :: braced (lit "post") b ++ ?k) with (lit "};post{" ++ (b ++ [125]) ++ k).
  rewrite sscanf_lit, <-app_assoc. cbn [app]. by rewrite sscanf_set by by_plain.
Qed.

Lemma scan_python dp t : depend_ok dp →
  let rest := join 59 (depend_items dp) ++ lit ":help{" ++ t in
  match d_prev dp, d_python dp with
  | None, Some x => is_prefix (lit "python-dep{") rest = true ∧ sscanf python_fmt (58 :: rest) = [x]
  | _, _ => is_prefix (lit "python-dep{") rest = false
  end.
Proof.
  intros [Hp Hpy] rest. subst rest. unfold depend_items.
  destruct (d_prev dp) as [[a post]|]; [by destruct post, (d_python dp), (d_bpf dp)|].
  destruct (d_python dp) as [x|]; [|by destruct (d_bpf dp)]. simpl in Hpy.
  cbn [app]. rewrite join_cons, <-app_assoc. split; [done|].
  unfold python_fmt. by rewrite (scan_braced MAX_DEPEND_LEN _ (lit "python-dep") x) by done.
Qed.

Lemma rule_deps_spec r d st : rule_ok r →
  rule_deps (rule_line r ++ [10]) d st = Done (deps_of r d) st.
Proof.
  intros Hr. unfold rule_deps. fold prev_fmt python_fmt.
  pose proof (find_dep r (lit "prev") Hr ltac:(by_compute) ltac:(by_compute) ltac:(by_compute)) as Hprev.
  pose proof (find_dep r (lit "python-dep") Hr ltac:(by_compute) ltac:(by_compute) ltac:(by_compute)) as Hpy.
  unfold line_tail in Hprev, Hpy. rewrite <-app_assoc in Hprev, Hpy.
  change (58 :: lit "prev" ++ [123]) with (lit ":prev{") in Hprev.
  change (lit "prev" ++ [123]) with (lit "prev{") in Hprev.
  change (58 :: lit "python-dep" ++ [123]) with (lit ":python-dep{") in Hpy.
  change (lit "python-dep" ++ [123]) with (lit "python-dep{") in Hpy.
  rewrite Hprev, Hpy. clear Hprev Hpy. unfold deps_of.
  generalize (contains (rule_line r ++ [10]) (lit "bpf")). intros bpf.
  destruct Hr as [_ _ Hdp _ _].
  pose proof (scan_prev (r_depend r) ((r_help r ++ [125]) ++ [10]) Hdp) as Hs1.
  pose proof (scan_python (r_depend r) ((r_help r ++ [125]) ++ [10]) Hdp) as Hs2. cbv zeta in Hs1, Hs2.
  revert Hs1 Hs2.
  generalize (join 59 (depend_items (r_depend r)) ++ lit ":help{" ++ (r_help r ++ [125]) ++ [10]).
  intros rest. destruct Hdp as [Hw Hx].
  destruct (d_prev (r_depend r)) as [[a [b|]]|]; [| |destruct (d_python (r_depend r)) as [x|]].
  - intros [-> ->] ->. destruct Hw as [Ha Hb]. cbn [from_option]. unfold m_bind, m_ret.
    rewrite !(word_copy MAX_DEPEND_LEN) by done. by destruct bpf; rewrite ?orb_true_r, ?orb_false_r.
  - intros [-> ->] ->. destruct Hw as [Ha _]. cbn [from_option]. unfold m_bind, m_ret.
    rewrite !(word_copy MAX_DEPEND_LEN) by done. by destruct bpf; rewrite ?orb_true_r, ?orb_false_r.
  - intros -> [-> ->]. unfold m_bind, m_ret.
    rewrite !(word_copy MAX_DEPEND_LEN) by done. by destruct bpf; rewrite ?orb_true_r, ?orb_false_r.
  - intros -> ->. by destruct bpf, d; rewrite ?orb_true_r, ?orb_false_r.
Qed.

(** The rule of a tool: the first of its name, but not in a subdirectory of
    the combined tools. *)
Definition rule_of (tool : list Z) (r : rule) : Prop :=
  r_tool r = tool ∧ contains (r_class r) (lit "combine") && contains (r_class r) [47] = false.
#[global] Instance rule_of_dec tool r : Decision (rule_of tool r).
Proof. apply _. Defined.

Definition first_rule (tool : list Z) (rs : list rule) : option rule := head (filter (rule_of tool) rs).

Lemma rule_loop_spec tool rs st : Forall rule_ok rs →
  rule_loop tool ((λ l, l ++ [10]) <$> (rule_line <$> rs)) st
  = match first_rule tool rs with
    | Some r => Done true (set_deps (deps_of r (deps st)) st)
    | None => Done false st
    end.
Proof.
  induction 1 as [|r rs Hr _ IH]; [done|].
  cbn [fmap list_fmap rule_loop]. rewrite scan_rule by done.
  pose proof (ok_class _ Hr). pose proof (ok_tool _ Hr).
  unfold m_bind at 1. rewrite word_copy by done. unfold m_bind at 1. rewrite word_copy by done.
  unfold first_rule. rewrite filter_cons.
  destruct (contains (r_class r) (lit "combine") && contains (r_class r) [47]) eqn:Hb.
  { rewrite decide_False by (intros [_ ?]; congruence). apply IH. }
  destruct (decide (r_tool r = tool)) as [He|Hne].
  - rewrite decide_True by done. unfold m_bind, m_get, m_mod, m_ret. simpl. by rewrite rule_deps_spec.
  - rewrite decide_False by (by intros [? _]). apply IH.
Qed.

(** The lines of a rule file fit the buffer of [fgets]. *)
Lemma rules_lines rs : Forall rule_ok rs →
  fgets_all (MAX_NAME_LEN + MAX_SUBCMD_ARGS - 1) (rules_file rs) = (λ l, l ++ [10]) <$> (rule_line <$> rs).
Proof.
  intros H. apply fgets_all_lines. apply Forall_fmap. eapply Forall_impl; [exact H|].
  intros r [Hc Ht Hd Hh Hl]. simpl. rewrite rule_line_split. unfold line_tail.
  assert (∀ c, c ∈ special → c ≠ 58 → c ≠ 123 → c ≠ 125 → c ∉ lit ":help{" → c ∉ rule_line r) as Hn.
  { intros c Hin H1 H2 H3 H4. rewrite rule_line_split. unfold line_tail.
    pose proof (depend_notin c (r_depend r) Hin H2 H3 Hd).
    pose proof (plain_notin c _ Hin (word_plain _ _ Hc)). pose proof (plain_notin c _ Hin (word_plain _ _ Ht)).
    pose proof (plain_notin c _ Hin (word_plain _ _ Hh)).
    rewrite !not_elem_of_app, !not_elem_of_cons, !not_elem_of_app, !not_elem_of_cons, !not_elem_of_app,
      not_elem_of_cons. auto 20 using not_elem_of_nil. }
  rewrite <-rule_line_split. split_and!; [apply Hn; by_compute..|exact Hl].
Qed.

Lemma tool_rule_parse_spec path tool rs st :
  files st !! path = Some (rules_file rs) → Forall rule_ok rs →
  tool_rule_parse path tool st
  = match first_rule tool rs with
    | Some r => Done true (set_deps (deps_of r (deps st)) st)
    | None => Done false st
    end.
Proof.
  intros Hf Hrs. unfold tool_rule_parse, m_bind, m_get, fopen. rewrite Hf, rules_lines by done.
  by apply rule_loop_spec.
Qed.

(** ** Running a tool *)

Definition no_deps : dep_info := DepInfo [] [] [] false false false.

Definition quote (a : list Z) : list Z := [32; 34] ++ a ++ [34].
Definition tool_file (p : path_info) (tool : list Z) : list Z := tools_path p ++ tool.
Definition command (p : path_info) (tool : list Z) (args : list (list Z)) : list Z :=
  tool_file p tool ++ concat (quote <$> args).
Definition full_command (p : path_info) (tool : list Z) (args : list (list Z)) : list Z :=
  sysak_work_path p ++ [59] ++ command p tool args.

(** Is the kernel module loaded, as [/proc/modules] says? *)
Definition loaded (f : fs) : bool :=
  match f !! system_modules with
  | Some content => existsb (λ l, contains l (lit "sysak")) (fgets_all (MAX_SUBCMD_ARGS - 1) content)
  | None => false
  end.
Definition ko_cmd (verb : list Z) (p : path_info) : list Z :=
  snprintf (4 * KVERSION) (verb ++ module_path p ++ kern_version p ++ module).

(** A fresh process in which the tool is installed and has rule [r], and whose
    command line fits the buffers. *)
Record ready (tool : list Z) (args : list (list Z)) (r : rule) (st : sysak) : Prop := {
  rd_deps : deps st = no_deps;
  rd_file : is_Some (files st !! tool_file (paths st) tool);
  rd_rules : ∃ (o : option (list rule)) rs,
    files st !! sysak_other_rule (paths st) = rules_file <$> o ∧
    files st !! sysak_rule (paths st) = Some (rules_file rs) ∧
    Forall rule_ok (default [] o) ∧ Forall rule_ok rs ∧
    first_rule tool (default [] o ++ rs) = Some r;
  rd_args : Forall (λ a, a ≠ [] ∧ (length (quote a) < MAX_SUBCMD_ARGS)%nat) args;
  rd_fits : (length (command (paths st) tool args) < MAX_WORK_PATH_LEN)%nat;
  rd_final : (length (full_command (paths st) tool args) < MAX_NAME_LEN + MAX_SUBCMD_ARGS)%nat;
}.

Lemma snprintf_fits n s : (length s < n)%nat → snprintf n s = s.
Proof. intros. unfold snprintf. apply take_ge. lia. Qed.

Lemma copy_fits n s st : (length s < n)%nat → copy n s st = Done s st.
Proof. intros H. unfold copy. by rewrite (proj2 (Nat.ltb_lt _ _)). Qed.

Lemma access_some path st : is_Some (files st !! path) → access path st = true.
Proof. intros H. unfold access. by rewrite bool_decide_true. Qed.

Lemma append_args_fits args st : ∀ name,
  Forall (λ a, a ≠ [] ∧ (length (quote a) < MAX_SUBCMD_ARGS)%nat) args →
  (length (name ++ concat (quote <$> args)) < MAX_NAME_LEN + MAX_SUBCMD_ARGS)%nat →
  append_args name args st = Done (name ++ concat (quote <$> args)) st.
Proof.
  induction args as [|a args IH]; intros name Hargs Hl; [by rewrite app_nil_r|].
  apply Forall_cons in Hargs as [[_ Ha] Hargs]. cbn [append_args fmap list_fmap concat].
  fold (quote a). rewrite snprintf_fits by done. unfold m_bind. rewrite copy_fits; cycle 1.
  { cbn [fmap list_fmap concat] in Hl. rewrite !length_app in *. lia. }
  rewrite IH; [by rewrite <-app_assoc|done|].
  cbn [fmap list_fmap concat] in Hl. by rewrite <-app_assoc.
Qed.

Section running.
Context (shell : shell_fn).
Implicit Types (st : sysak) (tool : list Z) (args : list (list Z)).

Lemma tool_lookup_ready tool args r st : ready tool args r st →
  tool_lookup shell tool st = Done true (set_deps (deps_of r no_deps) st).
Proof.
  intros [Hd Hfile (o & rs & Ho & Hr & Hoko & Hokr & Hfirst) _ Hfits _].
  assert (length (tools_path (paths st) ++ tool) < MAX_WORK_PATH_LEN)%nat as Hlen.
  { revert Hfits. unfold command, tool_file. rewrite (length_app (_ ++ _)). lia. }
  unfold tool_lookup, m_bind, m_get. rewrite (snprintf_fits _ (tools_path (paths st) ++ tool)) by done.
  assert (access (if access (snprintf MAX_WORK_PATH_LEN (tools_path (paths st) ++ kern_version (paths st) ++ tool)) st
    then snprintf MAX_WORK_PATH_LEN (tools_path (paths st) ++ kern_version (paths st) ++ tool)
    else tools_path (paths st) ++ tool) st = true) as ->.
  { destruct (access (snprintf _ _) st) eqn:He; [done|]. by apply access_some. }
  cbn [m_ret negb andb]. unfold first_rule in Hfirst. rewrite filter_app in Hfirst.
  assert (tool_rule_parse (sysak_other_rule (paths st)) tool st
    = match first_rule tool (default [] o) with
      | Some r => Done true (set_deps (deps_of r (deps st)) st) | None => Done false st end) as ->.
  { destruct o as [rs1|]; [by apply tool_rule_parse_spec|].
    unfold tool_rule_parse, m_bind, m_get, fopen. by rewrite Ho. }
  rewrite Hd. unfold first_rule. destruct (filter (rule_of tool) (default [] o)) as [|r1 k]; simpl in *.
  - rewrite (tool_rule_parse_spec _ tool rs) by done. unfold first_rule. by rewrite Hfirst, Hd.
  - by simplify_eq.
Qed.

(** What runs once the dependencies are there. *)
Lemma exectue_rest pid tool args r st st1 ret code : ready tool args r st →
  do_prev_depend shell (set_deps ret st) = Done code st1 → 0 ≤ code →
  paths st1 = paths st → deps st1 = ret → run_depend ret = [] →
  is_Some (files st1 !! tool_file (paths st) tool) →
  let f2 := (shell (full_command (paths st) tool args) (files st1)).2 in
  exectue shell true pid tool args (set_deps ret st)
  = match (if post_module ret then mod_ctrl shell false else m_ret 0)
      (set_files f2 (add_action (Run (full_command (paths st) tool args))
         (set_child pid (set_exec (command (paths st) tool args) st1)))) with
    | Done _ s => Done 0 s | Crash => Crash end.
Proof.
  intros [_ _ _ Hargs Hfits Hfinal] Hprev Hcode Hpaths Hdeps Hrun Hfile f2.
  unfold exectue. unfold m_bind at 1. rewrite Hprev. rewrite (proj2 (Z.ltb_ge code 0)) by done.
  unfold m_bind at 1, m_get at 1. rewrite Hpaths. fold (tool_file (paths st) tool).
  assert (length (command (paths st) tool args) < MAX_NAME_LEN + MAX_SUBCMD_ARGS)%nat as Hl
    by (unfold MAX_NAME_LEN, MAX_SUBCMD_ARGS, MAX_WORK_PATH_LEN in *; lia).
  rewrite (snprintf_fits _ (tool_file _ _)); cycle 1.
  { revert Hl. unfold command. rewrite length_app. lia. }
  unfold m_bind at 1, m_get at 1. rewrite access_some by done.
  unfold m_bind at 1. rewrite append_args_fits by done. fold (command (paths st) tool args).
  unfold m_bind at 1, m_get at 1. rewrite Hdeps, Hrun. cbn [length Nat.eqb negb].
  unfold m_bind at 1. unfold m_bind at 1. rewrite copy_fits by done. unfold m_mod at 1.
  unfold m_bind at 1, m_get at 1.
  change (tools_exec (set_exec ?x ?y)) with x.
  fold (full_command (paths st) tool args). rewrite snprintf_fits by done.
  unfold m_bind at 1, my_system. cbn [negb]. unfold m_bind at 1, register_sig_handler, m_mod at 1.
  cbn [Z.ltb Z.compare]. unfold m_bind at 1, m_get at 1.
  change (deps (set_files _ (add_action _ (set_child _ (set_exec _ st1))))) with (deps st1).
  rewrite Hdeps. done.
Qed.

Lemma mod_ctrl_false st :
  mod_ctrl shell false st
  = if loaded (files st) then system shell (ko_cmd (lit "rmmod ") (paths st)) st else Done (-1) st.
Proof.
  unfold mod_ctrl, m_bind, m_get, loaded, access, fopen. cbv beta iota.
  destruct (files st !! system_modules) as [content|] eqn:Hf; [|done].
  rewrite bool_decide_true by (by eexists). cbn [negb]. rewrite Hf. by destruct (existsb _ _).
Qed.

Lemma mod_ctrl_true st : is_Some (files st !! system_modules) →
  mod_ctrl shell true st
  = if loaded (files st) then Done 0 st else system shell (ko_cmd (lit "insmod ") (paths st)) st.
Proof.
  intros Hm. unfold mod_ctrl, m_bind, m_get, loaded, access, fopen. cbv beta iota.
  rewrite bool_decide_true by done. cbn [negb]. destruct Hm as [content ->]. by destruct (existsb _ _).
Qed.

Definition ko_file (p : path_info) : list Z := module_path p ++ kern_version p ++ module.

(** A module that is in place is not downloaded. *)
Lemma check_module_there st :
  is_Some (files st !! ko_file (paths st)) → (length (ko_file (paths st)) < MAX_WORK_PATH_LEN)%nat →
  check_or_install_components shell (lit "sysak_modules") st = Done 0 st.
Proof.
  intros Hko Hl. unfold check_or_install_components. unfold m_bind at 1, m_get at 1.
  replace (contains (lit "sysak_modules") (lit "sysak_modules")) with true by reflexivity.
  replace (contains (lit "sysak_modules") (lit "btf")) with false by reflexivity.
  cbn [orb negb]. unfold m_bind at 1. fold (ko_file (paths st)). rewrite copy_fits by done.
  unfold m_bind, m_get, m_ret. rewrite access_some by done. done.
Qed.

(** The module is needed: what [do_prev_depend] then does. *)
Lemma prev_module d st :
  pre_module d = true → btf_depend d = false →
  is_Some (files st !! ko_file (paths st)) → (length (ko_file (paths st)) < MAX_WORK_PATH_LEN)%nat →
  is_Some (files st !! system_modules) →
  do_prev_depend shell (set_deps d st)
  = if loaded (files st) then Done 0 (set_deps d st)
    else system shell (ko_cmd (lit "insmod ") (paths st)) (set_deps d st).
Proof.
  intros Hp Hb Hko Hl Hm. unfold do_prev_depend. unfold m_bind at 1, m_get at 1.
  change (deps (set_deps d st)) with d. rewrite Hp, Hb. cbn [andb].
  unfold m_bind. rewrite check_module_there by done. cbn [Z.eqb]. by rewrite mod_ctrl_true by done.
Qed.

Lemma contains_nil a : a ≠ [] → contains [] a = false.
Proof. intros H. unfold contains. by destruct a. Qed.

Lemma module_args_none args : Forall (λ a, a ≠ [] ∧ (length (quote a) < MAX_SUBCMD_ARGS)%nat) args →
  module_args args no_deps = no_deps.
Proof. induction 1 as [|a args [Ha _] _ IH]; [done|]. simpl. by rewrite contains_nil by done. Qed.

(** The arguments reach [subcmd_parse] unless they are a command of the front
    end itself. *)
Definition own_command (tool : list Z) : Prop :=
  tool = lit "list" ∨ tool = lit "help" ∨ tool = lit "-h" ∨ tool = lit "-g".

Lemma parse_arg_tool pid tool args st : ¬ own_command tool →
  parse_arg shell true pid (tool :: args) st = subcmd_parse shell true pid tool args st.
Proof.
  unfold own_command. intros H. unfold parse_arg.
  rewrite !decide_False by tauto. done.
Qed.
End running.

(** C9: a tool without dependencies is run with exactly its arguments: when it
    is installed and its rule is in one of the rule files, the front end
    performs one action, the shell command that sets the work path and calls
    the tool with every argument in quotes, and returns 0; it touches neither
    the kernel module nor the network. *)
Theorem sysak_runs_tool shell pid tool args r st :
  ready tool args r st → ¬ own_command tool →
  r_depend r = Depend None None false → contains (rule_line r ++ [10]) (lit "bpf") = false →
  ∃ st', parse_arg shell true pid (tool :: args) st = Done 0 st' ∧
    actions st' = actions st ++ [Run (full_command (paths st) tool args)] ∧
    files st' = (shell (full_command (paths st) tool args) (files st)).2.
Proof.
  intros Hr Hown Hdep Hbpf. rewrite parse_arg_tool by done.
  unfold subcmd_parse. unfold m_bind at 1. rewrite (tool_lookup_ready shell tool args r) by done.
  assert (deps_of r no_deps = no_deps) as -> by (unfold deps_of; by rewrite Hdep, Hbpf).
  cbn [negb]. unfold m_bind at 1, m_get at 1. change (deps (set_deps no_deps st)) with no_deps.
  replace (contains (prev_dep no_deps) (lit "btf")) with false by reflexivity.
  replace (contains (prev_dep no_deps) (lit "default")) with false by reflexivity.
  replace (contains (post_dep no_deps) (lit "default")) with false by reflexivity.
  cbn [orb]. rewrite module_args_none by apply Hr.
  unfold m_bind at 1, m_mod at 1. change (set_deps no_deps (set_deps no_deps st)) with (set_deps no_deps st).
  rewrite (exectue_rest shell pid tool args r st (set_deps no_deps st) no_deps 0); try done; [|apply Hr].
  eexists. split; [done|]. by split.
Qed.

(** The actions of a session with the kernel module: before and after. *)
Definition insmod_step (shell : shell_fn) (p : path_info) (f : fs) : Z * fs * list action :=
  if loaded f then (0, f, [])
  else ((shell (ko_cmd (lit "insmod ") p) f).1, (shell (ko_cmd (lit "insmod ") p) f).2,
        [System (ko_cmd (lit "insmod ") p)]).
Definition rmmod_step (p : path_info) (f : fs) : list action :=
  if loaded f then [System (ko_cmd (lit "rmmod ") p)] else [].

(** The module of the rule's [prev] and [post], when both are needed. *)
Definition session_deps (a : list Z) (post : option (list Z)) (bpf : bool) : dep_info :=
  DepInfo a (default [] post) [] true true bpf.

Lemma parse_arg_default shell pid tool args r st a post :
  ready tool args r st → ¬ own_command tool →
  d_prev (r_depend r) = Some (a, post) → contains a (lit "default") = true → contains a (lit "btf") = false →
  parse_arg shell true pid (tool :: args) st
  = exectue shell true pid tool args
      (set_deps (session_deps a post (contains (rule_line r ++ [10]) (lit "bpf"))) st).
Proof.
  intros Hr Hown Hprev Hdef Hbtf. rewrite parse_arg_tool by done. unfold subcmd_parse. unfold m_bind at 1.
  rewrite (tool_lookup_ready shell tool args r) by done. cbn [negb].
  unfold m_bind at 1, m_get at 1. change (deps (set_deps ?x st)) with x.
  unfold deps_of. rewrite Hprev. cbn [prev_dep post_dep from_option fst]. rewrite Hbtf, Hdef.
  cbn [orb]. unfold m_bind at 1, m_mod at 1. by destruct post.
Qed.

(** Once the module is dealt with, the tool runs and the module goes. *)
Lemma session_rest shell pid tool args r st st1 d code : ready tool args r st →
  do_prev_depend shell (set_deps d st) = Done code st1 → 0 ≤ code →
  paths st1 = paths st → deps st1 = d → run_depend d = [] → post_module d = true →
  is_Some (files st1 !! tool_file (paths st) tool) →
  ∃ st', exectue shell true pid tool args (set_deps d st) = Done 0 st' ∧
    actions st' = actions st1 ++ [Run (full_command (paths st) tool args)]
      ++ rmmod_step (paths st) (shell (full_command (paths st) tool args) (files st1)).2.
Proof.
  intros Hr Hdo Hcode Hp Hd Hrun Hpost Hf.
  rewrite (exectue_rest shell pid tool args r st st1 d code) by done.
  rewrite Hpost, mod_ctrl_false. change (files (set_files ?f _)) with f.
  unfold rmmod_step. destruct (loaded _).
  - unfold system. change (paths (set_files _ _)) with (paths st1). rewrite Hp.
    destruct (shell (ko_cmd _ _) _) as [r' f']. eexists. split; [done|].
    change (actions (set_files ?f ?x)) with (actions x). unfold add_action. simpl actions.
    by rewrite <-app_assoc.
  - eexists. split; [done|]. done.
Qed.


(** A tool that needs both the kernel module and BPF (all combined tools
    declare both) never gets its module: with the module and the type
    information installed, the front end runs the tool without inserting the
    module, and removes the module afterwards if it was loaded. *)
Theorem sysak_bpf_no_insmod shell pid tool args r st a post :
  ready tool args r st → ¬ own_command tool →
  d_prev (r_depend r) = Some (a, post) → contains a (lit "default") = true → contains a (lit "btf") = false →
  contains (rule_line r ++ [10]) (lit "bpf") = true →
  is_Some (files st !! ko_file (paths st)) → (length (ko_file (paths st)) < MAX_WORK_PATH_LEN)%nat →
  is_Some (files st !! (tools_path (paths st) ++ lit "/vmlinux-" ++ kern_version (paths st))) →
  (length (tools_path (paths st) ++ lit "/vmlinux-" ++ kern_version (paths st)) < MAX_WORK_PATH_LEN)%nat →
  ∃ st', parse_arg shell true pid (tool :: args) st = Done 0 st' ∧
    actions st' = actions st ++ [Run (full_command (paths st) tool args)]
      ++ rmmod_step (paths st) (shell (full_command (paths st) tool args) (files st)).2.
Proof.
  intros Hr Hown Hprev Hdef Hbtf Hbpf Hko Hkol Hv Hvl.
  rewrite (parse_arg_default shell pid tool args r st a post) by done. rewrite Hbpf.
  set (d := session_deps a post true).
  apply (session_rest shell pid tool args r st (set_deps d st) d 0); try done; [|apply Hr].
  unfold do_prev_depend. unfold m_bind at 1, m_get at 1. change (deps (set_deps d st)) with d.
  change (pre_module d && btf_depend d) with true. cbv iota.
  unfold check_or_install_components. unfold m_bind at 1, m_get at 1.
  change (contains (lit "sysak_modules and btf") (lit "sysak_modules")) with true.
  change (contains (lit "sysak_modules and btf") (lit "btf")) with true. cbn [orb negb].
  change (paths (set_deps d st)) with (paths st). fold (ko_file (paths st)).
  unfold m_bind at 1. rewrite copy_fits by done. unfold m_bind at 1. rewrite copy_fits by done.
  unfold m_bind, m_get, m_ret. by rewrite !access_some by done.
Qed.

(** ** Listing the tools *)

Lemma depend_not_help dp t : is_prefix (lit "help{") (join 59 (depend_items dp) ++ lit ":help{" ++ t) = false.
Proof. unfold depend_items. by destruct (d_prev dp) as [[a [b|]]|], (d_python dp), (d_bpf dp). Qed.

Lemma helpinfo_rule r st : rule_ok r → helpinfo (rule_line r ++ [10]) st = Done (r_help r) st.
Proof.
  intros [Hc Ht Hd Hh _]. unfold helpinfo. rewrite rule_line_split, <-app_assoc. cbn [app].
  rewrite <-app_assoc. cbn [app]. rewrite <-app_assoc. unfold line_tail. rewrite <-app_assoc.
  change (strstr ?x (lit ":help{")) with (strstr x (58 :: lit "help{")).
  rewrite strstr_skip by by_plain. rewrite strstr_cons_no; cycle 1.
  { simpl. apply (is_prefix_stop 123 58 (lit "help") []); [by_plain|by_compute|done]. }
  rewrite strstr_skip by by_plain. rewrite strstr_cons_no by (apply depend_not_help).
  rewrite strstr_skip by (by apply depend_notin; [by_compute|..]).
  change (58 :: lit "help{") with (lit ":help{"). rewrite strstr_here.
  rewrite sscanf_lit, <-app_assoc. cbn [app]. rewrite sscanf_set by by_plain. by apply word_copy.
Qed.

(** The list a class belongs to, and the heading of its tools. *)
Definition slot_of (class : list Z) : option (nat * list Z) :=
  if decide (class = lit "combine") then Some (0%nat, [])
  else if is_prefix (lit "detect") class then
    if 2 <=? char_num class 47 then None
    else Some (1%nat, if is_prefix (lit "detect/") class then drop 7 class else [])
  else if is_prefix (lit "monitor") class then Some (2%nat, [])
  else if is_prefix (lit "bclinux") class then Some (3%nat, [])
  else None.

Lemma span_not_end c l : c ∉ l → span_not c l = (l, []).
Proof.
  induction l as [|x l IH]; intros H; [done|]. simpl.
  rewrite (proj2 (Z.eqb_neq x c)) by set_solver. by rewrite IH by set_solver.
Qed.

Lemma classify_spec class st : word MAX_NAME_LEN class → classify class st = Done (slot_of class) st.
Proof.
  intros Hc. unfold classify, slot_of. case_decide; [done|].
  destruct (is_prefix (lit "detect") class); [|by repeat case_match].
  destruct (2 <=? char_num class 47); [done|]. cbn [sscanf].
  destruct (is_prefix (lit "detect/") class); [|done].
  change (length (lit "detect/")) with 7%nat.
  rewrite span_not_end; cycle 1.
  { intros Hin. assert (58 ∈ class) as Hin' by (rewrite <-(take_drop 7 class); apply elem_of_app; by right).
    exact (plain_notin 58 class ltac:(by_compute) (word_plain _ _ Hc) Hin'). }
  destruct (drop 7 class) eqn:He; [done|]. unfold m_bind. rewrite copy_fits; [done|].
  rewrite <-He, length_drop. destruct Hc as [_ Hl]. lia.
Qed.

(** What [list] shows of a rule. *)
Definition shown (all : bool) (r : rule) : option (nat * tool_info) :=
  if negb all && negb (bool_decide (r_class r = lit "combine")) then None
  else (λ '(l, m), (l, ToolInfo m (r_tool r) (r_help r))) <$> slot_of (r_class r).

Definition add_tool (ls : list (list tool_info)) (x : nat * tool_info) : list (list tool_info) :=
  alter (cons x.2) x.1 ls.

Lemma build_loop_spec all rs : Forall rule_ok rs → ∀ class name ret st,
  build_loop all ((λ l, l ++ [10]) <$> (rule_line <$> rs)) class name ret st
  = Done (ret + zlen (omap (shown all) rs)) (set_lists (foldl add_tool (tool_lists st) (omap (shown all) rs)) st).
Proof.
  induction 1 as [|r rs Hr _ IH]; intros class name ret st.
  { cbn. change (zlen []) with 0. rewrite Z.add_0_r. by destruct st. }
  cbn [fmap list_fmap build_loop]. rewrite scan_rule by done.
  pose proof (ok_class _ Hr) as Hc. pose proof (ok_tool _ Hr) as Ht.
  unfold m_bind at 1. unfold m_bind at 1. rewrite word_copy by done. cbn [m_ret].
  unfold m_bind at 1. unfold m_bind at 1. rewrite word_copy by done. cbn [m_ret].
  cbn [omap list_omap].
  change (shown all r) with
    (if negb all && negb (bool_decide (r_class r = lit "combine")) then None
     else (λ '(l, m), (l, ToolInfo m (r_tool r) (r_help r))) <$> slot_of (r_class r)).
  destruct (negb all && negb (bool_decide (r_class r = lit "combine"))); [apply IH|].
  unfold m_bind at 1. rewrite classify_spec by done.
  destruct (slot_of (r_class r)) as [[l m]|]; [|apply IH].
  unfold m_bind at 1. rewrite helpinfo_rule by done. unfold m_bind at 1, m_mod at 1.
  rewrite IH. cbn [fmap option_fmap option_map]. rewrite zlen_cons. f_equal. lia.
Qed.

(** The tools of list [l], the last rule first. *)
Definition tools_in (l : nat) (xs : list (nat * tool_info)) : list tool_info :=
  rev (omap (λ x : nat * tool_info, if (x.1 =? l)%nat then Some x.2 else None) xs).

Lemma foldl_add_tool xs : ∀ ls l, foldl add_tool ls xs !! l = app (tools_in l xs) <$> ls !! l.
Proof.
  unfold tools_in. induction xs as [|[k t] xs IH]; intros ls l; cbn [foldl].
  - by destruct (ls !! l).
  - rewrite IH. unfold add_tool. cbn [omap list_omap fst snd].
    destruct (Nat.eqb_spec k l) as [->|Hne]; [|by rewrite list_lookup_alter_ne].
    rewrite list_lookup_alter_eq. destruct (ls !! l); [|done]. simpl. by rewrite <-app_assoc.
Qed.

Lemma foldl_add_tool_empty xs :
  foldl add_tool (replicate 4 []) xs = (λ l, tools_in l xs) <$> seq 0 4.
Proof.
  apply list_eq. intros l. rewrite foldl_add_tool, list_lookup_fmap.
  destruct (decide (l < 4)%nat) as [Hl|Hl].
  - rewrite lookup_replicate_2, lookup_seq_lt by done. simpl. by rewrite app_nil_r.
  - rewrite !lookup_ge_None_2; [done|rewrite length_seq; lia|rewrite length_replicate; lia].
Qed.

Lemma build_subcmd_info_spec st rs all :
  files st !! sysak_rule (paths st) = Some (rules_file rs) →
  files st !! sysak_other_rule (paths st) = None → Forall rule_ok rs →
  build_subcmd_info all st
  = Done (zlen (omap (shown all) rs))
      (set_lists (foldl add_tool (tool_lists st) (omap (shown all) rs)) st).
Proof.
  intros Hr Ho Hok. unfold build_subcmd_info, m_bind, m_get, fopen. cbv beta iota. rewrite Hr.
  unfold build_subcmd_info_from_file. rewrite rules_lines, build_loop_spec by done.
  change (files (set_lists ?x st)) with (files st). rewrite Ho. unfold m_ret. f_equal. lia.
Qed.

(** [list] shows the rules: the tools of each kind under its title, the
    last rule first, with their help text and a heading for each module of the
    detect tools; without [-a] only the combined tools and a hint; nothing at
    all when no rule qualifies. *)
Theorem sysak_list shell pid st rs all :
  tool_lists st = replicate 4 [] →
  files st !! sysak_rule (paths st) = Some (rules_file rs) →
  files st !! sysak_other_rule (paths st) = None → Forall rule_ok rs →
  let xs := omap (shown all) rs in
  let text := list_lines (take (if all then 4 else 1)%nat
                (zip type_names ((λ l, tools_in l xs) <$> seq 0 4))) [] in
  ∃ st', parse_arg shell true pid (lit "list" :: if all then [lit "-a"] else []) st = Done 0 st' ∧
    actions st' = actions st ++
      if decide (xs = []) then []
      else Print text :: if all then [] else
        [Print (lit "If you want to known the detail about the system, please use 'sysak list -a'." ++ [10])].
Proof.
  intros Hl Hr Ho Hok xs text. unfold parse_arg. rewrite decide_True by done.
  replace (bool_decide ((if all then [lit "-a"] else []) = [lit "-a"])) with all by (by destruct all).
  unfold m_bind at 1, subcmd_list. unfold m_bind at 1. rewrite (build_subcmd_info_spec st rs) by done.
  fold xs. case_decide as Hxs.
  - rewrite Hxs. change (zlen [] <=? 0) with true. cbv iota. eexists. split; [done|].
    by rewrite app_nil_r.
  - rewrite (proj2 (Z.leb_gt (zlen xs) 0)); cycle 1.
    { destruct xs; [done|]. rewrite zlen_cons. pose proof (zlen_nonneg xs). lia. }
    rewrite Hl, foldl_add_tool_empty. unfold print_each_tool, m_bind, m_get, print, m_mod.
    change (tool_lists (set_lists ?x st)) with x. fold text.
    destruct all; cbn [negb m_ret]; eexists; (split; [done|]); [done|].
    unfold add_action. simpl actions. by rewrite <-app_assoc.
Qed.

(** ** Start-up *)

Lemma strrchr_last s b c : c ∉ b → strrchr (s ++ c :: b) c = Some (c :: b).
Proof.
  intros Hb. induction s as [|x s IH]; simpl; [|by rewrite IH].
  assert (strrchr b c = None) as ->; [|by rewrite Z.eqb_refl].
  induction b as [|x b IH]; [done|]. simpl. rewrite IH by set_solver.
  by rewrite (proj2 (Z.eqb_neq x c)) by set_solver.
Qed.

Lemma before_suffix_app s t : before_suffix t (s ++ t) = s.
Proof.
  induction s as [|x s IH]; cbn [app before_suffix].
  - destruct t; [done|]. cbn [before_suffix]. by rewrite decide_True.
  - rewrite decide_False; [by rewrite IH|]. intros H%(f_equal length). simpl in H. rewrite length_app in H. lia.
Qed.

Lemma dirpath_spec d b : 47 ∉ b → dirpath (d ++ 47 :: b) = Some d.
Proof. intros Hb. unfold dirpath. rewrite strrchr_last by done. by rewrite before_suffix_app. Qed.

(** [strim] leaves the first word. *)
Fixpoint first_word (s : list Z) : list Z :=
  match s with x :: s' => if isspace x then [] else x :: first_word s' | [] => [] end.

Lemma strim_spec s : 0 ∉ s → strim s = first_word (skip_space s).
Proof.
  intros H0. unfold strim.
  assert (∀ t, 0 ∉ t → c_string ((λ c, if isspace c then 0 else c) <$> t) = first_word t) as Hw.
  { intros t. unfold c_string. rewrite length_fmap. induction t as [|x t IH]; intros Ht; [done|]. simpl.
    destruct (isspace x); [done|]. rewrite (proj2 (Z.eqb_neq x 0)) by set_solver.
    f_equal. apply IH. set_solver. }
  assert (match start_of s with
          | Some n => drop n s = skip_space s ∧ drop n ((λ c, if isspace c then 0 else c) <$> s)
                        = (λ c, if isspace c then 0 else c) <$> skip_space s
          | None => skip_space s = [] ∧ first_word s = [] end) as Hs.
  { clear H0. induction s as [|x s IH]; [done|]. simpl.
    destruct (isspace x) eqn:Hx; [|simpl; by rewrite Hx].
    destruct (start_of s); simpl; [done|]. by destruct IH. }
  destruct (start_of s).
  - destruct Hs as [Hd ->]. apply Hw. rewrite <-Hd. intros Hin. apply H0.
    rewrite <-(take_drop n s). apply elem_of_app. by right.
  - destruct Hs as [-> Hf]. by rewrite Hw.
Qed.

(** The paths of an installation in [comp] under kernel [kern]. *)
Definition paths_in (comp kern mach : list Z) : path_info :=
  PathInfo kern mach (comp ++ lit "/tools/") (comp ++ lit "/lib/") (comp ++ lit "/tools/.sysak.rules")
    (comp ++ lit "/tools/" ++ kern ++ lit "/.sysak.rules") (lit "export SYSAK_WORK_PATH=" ++ comp).

(** Started from a directory that holds the components, the program works
    with those components: [main] sets every path below that directory,
    creates the log directory if it is missing, and continues with the
    arguments. *)
Theorem sysak_main_paths shell pid dir exe kern mach argv st :
  47 ∉ exe → let comp := dir ++ lit "/.sysak_components" in
  is_Some (files st !! comp) → (length comp + length kern + 24 < MAX_WORK_PATH_LEN)%nat →
  (length kern < KVERSION)%nat → (length mach < KVERSION)%nat →
  main shell true (Some (kern, mach)) (dir ++ 47 :: exe) pid argv st
  = parse_arg shell true pid argv
      (set_paths (paths_in comp kern mach)
         (if access log_path st then st
          else set_files (<[log_path := []]> (files st)) (add_action (Mkdir log_path) st))).
Proof.
  intros Hexe comp Hcomp Hlen Hk Hm. unfold main. unfold m_bind at 1, m_get at 1. unfold m_bind at 1.
  set (st1 := if access log_path st then st
    else set_files (<[log_path := []]> (files st)) (add_action (Mkdir log_path) st)).
  assert ((if negb (access log_path st)
    then m_mod (λ s, set_files (<[log_path := []]> (files s)) (add_action (Mkdir log_path) s))
    else m_ret tt) st = Done tt st1) as -> by (subst st1; by destruct (access log_path st)).
  assert (is_Some (files st1 !! comp)) as Hcomp1.
  { subst st1. destruct (access log_path st); [done|]. change (files (set_files ?f _)) with f.
    destruct (decide (log_path = comp)) as [<-|]; [|by rewrite lookup_insert_ne].
    rewrite lookup_insert_eq. by eexists. }
  unfold kern_release. unfold m_bind at 1. unfold m_bind at 1. rewrite copy_fits by done.
  unfold m_bind at 1. rewrite copy_fits by done. unfold m_mod at 1.
  unfold m_bind at 1, set_path. rewrite dirpath_spec by done. fold comp.
  rewrite (snprintf_fits _ comp) by (unfold MAX_WORK_PATH_LEN in *; lia).
  unfold m_bind at 1, m_get at 1. rewrite access_some by done. unfold m_mod at 1.
  rewrite !snprintf_fits by (rewrite ?length_app; simpl; unfold MAX_WORK_PATH_LEN in *; lia). done.
Qed.

(** ** A concrete installation *)

#[global] Instance word_dec n s : Decision (word n s).
Proof. unfold word, plain. apply _. Defined.
#[global] Instance depend_ok_dec d : Decision (depend_ok d).
Proof.
  unfold depend_ok. destruct (d_prev d) as [[a [b|]]|], (d_python d); simpl; apply _.
Defined.

Definition s_paths : path_info := paths_in (lit "/opt/c") (lit "5.10") (lit "x86_64").
Definition s_plain : rule := Rule (lit "detect/sched") (lit "nosched") (Depend None None false) (lit "delays").
Definition s_module : rule :=
  Rule (lit "detect/sched") (lit "runqlen") (Depend (Some (lit "default", None)) (Some (lit "all")) false)
    (lit "queue lengths").
Definition s_both : rule :=
  Rule (lit "combine") (lit "iosdiag") (Depend (Some (lit "default modin", Some (lit "default modun"))) None true)
    (lit "diagnosis of disks").
Definition s_rules : list rule := [s_plain; s_both; s_module].

Lemma s_rules_ok : Forall rule_ok s_rules.
Proof. repeat constructor; by_compute. Qed.

Definition s_state : sysak :=
  Sysak s_paths no_deps (replicate 4 []) false [] 0 []
    (list_to_map [(sysak_rule s_paths, rules_file s_rules); (tool_file s_paths (lit "nosched"), []);
      (tool_file s_paths (lit "runqlen"), []); (tool_file s_paths (lit "iosdiag"), []);
      (ko_file s_paths, []); (lit "/opt/c/tools//vmlinux-5.10", []); (system_modules, lit "ext4 1 0")])
    [] [].

(** A shell that records a loaded module, and otherwise does nothing. *)
Definition s_shell : shell_fn := λ cmd f,
  if is_prefix (lit "insmod") cmd then (0, <[system_modules := lit "sysak 1 0"]> f) else (0, f).

Lemma s_ready tool args r :
  is_Some (files s_state !! tool_file s_paths tool) → first_rule tool s_rules = Some r →
  Forall (λ a, a ≠ [] ∧ (length (quote a) < MAX_SUBCMD_ARGS)%nat) args →
  (length (command s_paths tool args) < 500)%nat → ready tool args r s_state.
Proof.
  intros Hf Hr Ha Hl. split; [done|done| |done| |].
  - exists None, s_rules. split_and!; [vm_compute; reflexivity|vm_compute; reflexivity|done|apply s_rules_ok|done].
  - unfold MAX_WORK_PATH_LEN. change (paths s_state) with s_paths. lia.
  - unfold full_command. rewrite !length_app. change (paths s_state) with s_paths.
    change (length (sysak_work_path s_paths)) with 29%nat. change (length [59]) with 1%nat.
    unfold MAX_NAME_LEN, MAX_SUBCMD_ARGS. lia.
Qed.

Lemma not_own tool : bool_decide (tool ∈ [lit "list"; lit "help"; lit "-h"; lit "-g"]) = false → ¬ own_command tool.
Proof. intros H%bool_decide_eq_false. unfold own_command. set_solver. Qed.

Lemma sysak_runs_tool_witness : ∃ st',
  parse_arg s_shell true 7 [lit "nosched"; lit "-t"; lit "10"] s_state = Done 0 st' ∧
  actions st' = [Run (lit "export SYSAK_WORK_PATH=/opt/c;/opt/c/tools/nosched"
                      ++ js " '-t' '10'")].
Proof.
  destruct (sysak_runs_tool s_shell 7 (lit "nosched") [lit "-t"; lit "10"] s_plain s_state)
    as (st' & H1 & H2 & _).
  - apply s_ready; [by_compute|vm_compute; reflexivity|by_compute|apply Nat.ltb_lt; vm_compute; reflexivity].
  - apply not_own. vm_compute. reflexivity.
  - reflexivity.
  - vm_compute. reflexivity.
  - exists st'. split; [exact H1|]. rewrite H2. vm_compute. reflexivity.
Defined.


Lemma sysak_bpf_no_insmod_witness : ∃ st',
  parse_arg s_shell true 7 [lit "iosdiag"; lit "latency"] s_state = Done 0 st' ∧
  actions st' = [Run (lit "export SYSAK_WORK_PATH=/opt/c;/opt/c/tools/iosdiag" ++ js " 'latency'")].
Proof.
  destruct (sysak_bpf_no_insmod s_shell 7 (lit "iosdiag") [lit "latency"] s_both s_state
    (lit "default modin") (Some (lit "default modun"))) as (st' & H1 & H2).
  - apply s_ready; [by_compute|vm_compute; reflexivity|by_compute|apply Nat.ltb_lt; vm_compute; reflexivity].
  - apply not_own. vm_compute. reflexivity.
  - reflexivity.
  - vm_compute. reflexivity.
  - vm_compute. reflexivity.
  - vm_compute. reflexivity.
  - by_compute.
  - apply Nat.ltb_lt. vm_compute. reflexivity.
  - by_compute.
  - apply Nat.ltb_lt. vm_compute. reflexivity.
  - exists st'. split; [exact H1|]. rewrite H2. vm_compute. reflexivity.
Defined.

Lemma sysak_list_witness : ∃ st',
  parse_arg s_shell true 7 [lit "list"; lit "-a"] s_state = Done 0 st' ∧
  actions st' = [Print (lit "sysak tools for user self-help analysis" ++ [10]
    ++ lit "    iosdiag             diagnosis of disks" ++ [10; 10]
    ++ lit "sysak tools for system detail info" ++ [10] ++ lit "  sched:" ++ [10]
    ++ lit "    runqlen             queue lengths" ++ [10]
    ++ lit "    nosched             delays" ++ [10; 10])].
Proof.
  destruct (sysak_list s_shell 7 s_state s_rules true) as (st' & H1 & H2);
    [reflexivity|vm_compute; reflexivity|vm_compute; reflexivity|apply s_rules_ok|].
  exists st'. split; [exact H1|]. rewrite H2. vm_compute. reflexivity.
Defined.

Lemma sysak_main_paths_witness : ∃ st',
  main s_shell true (Some (lit "5.10", lit "x86_64")) (lit "/opt/sysak") 7 []
    (set_files {[lit "/opt/.sysak_components" := []]} s_state) = Done (- ERR_MISSARG) st' ∧
  tools_path (paths st') = lit "/opt/.sysak_components/tools/".
Proof.
  eexists. split.
  - rewrite (sysak_main_paths s_shell 7 (lit "/opt") (lit "sysak") (lit "5.10") (lit "x86_64") []
      (set_files {[lit "/opt/.sysak_components" := []]} s_state));
      [reflexivity|by_compute|by_compute|apply Nat.ltb_lt; vm_compute; reflexivity..].
  - vm_compute. reflexivity.
Defined.
