(* ===== verification/Iosdiag.v ===== *)
(** * Iosdiag: the latency of block requests

    [tools/combine/iosdiag/latency]: the BPF programs that stamp a request on
    its way through the block layer ([bpf_iosdiag_common.h] and the four
    [iosdiag_*.bpf.c]). A request is known by its sector. The specification reads a request off the history of the trace:
    the inputs about its sector since it was allocated. *)

From S2P Require Import Prelude Bpf CString.

(** [enum ioroute_type] *)
Definition IO_START_POINT : nat := 0.
Definition IO_ISSUE_DRIVER_POINT : nat := 1.
Definition IO_ISSUE_DEVICE_POINT : nat := 2.
Definition IO_RESPONCE_DRIVER_POINT : nat := 3.
Definition IO_COMPLETE_TIME_POINT : nat := 4.
Definition MAX_POINT : nat := 5.

(** [struct iosdiag_req]; [ts] has [MAX_POINT] entries and [cpu] three. *)
Record iosdiag_req := IoReq {
  io_pid : Z; io_comm : list Z; diskname : list Z; ts : list Z; cpu : list Z;
  op : list Z; data_len : Z; sector : Z;
}.

(** [struct iosdiag_key]: dev, which no program sets, and sector. *)
Definition iosdiag_key : Type := Z * Z.
Definition init_iosdiag_key (sector : Z) : iosdiag_key := (0, sector).

(** What the probes read of [struct request]: the sector and the name of the
    disk; the memory at the time of the probe gives the request of an address. *)
Record request := Request { rq_sector : Z; rq_disk_name : list Z }.
Definition memory : Type := Z → request.

Record io_maps := IoMaps {
  iosdiag_maps : gmap iosdiag_key iosdiag_req;
  iosdiag_maps_targetdevt : gmap Z Z;
  iosdiag_virtblk_maps : gmap Z Z;
}.
Definition MAX_REQS : nat := Z.to_nat 2048.
Definition set_reqs m s := IoMaps m (iosdiag_maps_targetdevt s) (iosdiag_virtblk_maps s).
Definition set_virt m s := IoMaps (iosdiag_maps s) (iosdiag_maps_targetdevt s) m.

Definition get_target_devt (s : io_maps) : Z := default 0 (iosdiag_maps_targetdevt s !! 0).

Definition ts_at (r : iosdiag_req) (p : nat) : Z := nth p (ts r) 0.
Definition set_ts (p : nat) (t : Z) (r : iosdiag_req) : iosdiag_req :=
  IoReq (io_pid r) (io_comm r) (diskname r) (<[p := t]> (ts r)) (cpu r) (op r) (data_len r) (sector r).
Definition set_cpu (i : nat) (c : Z) (r : iosdiag_req) : iosdiag_req :=
  IoReq (io_pid r) (io_comm r) (diskname r) (ts r) (<[i := c]> (cpu r)) (op r) (data_len r) (sector r).
Definition set_disk (d : list Z) (r : iosdiag_req) : iosdiag_req :=
  IoReq (io_pid r) (io_comm r) d (ts r) (cpu r) (op r) (data_len r) (sector r).
Definition set_len (n : Z) (r : iosdiag_req) : iosdiag_req :=
  IoReq (io_pid r) (io_comm r) (diskname r) (ts r) (cpu r) (op r) n (sector r).

(** The writes of [trace_io_driver_route] to the entry it found. *)
Definition route_req (c : bctx) (rq : request) (type : nat) (r : iosdiag_req) : iosdiag_req :=
  let r := if ts_at r type =? 0 then set_ts type (c_now c) r else r in
  let r := if hd 0 (diskname r) =? 0 then set_disk (rq_disk_name rq) r else r in
  if (type =? IO_RESPONCE_DRIVER_POINT)%nat then set_cpu 1 (u32 (c_cpu c)) r else r.

Definition trace_io_driver_route (c : bctx) (rq : request) (type : nat) (s : io_maps) : io_maps :=
  let key := init_iosdiag_key (rq_sector rq) in
  match iosdiag_maps s !! key with
  | Some ioreq =>
      set_reqs (map_update MAX_REQS BPF_ANY key (route_req c rq type ioreq) (iosdiag_maps s)).2 s
  | None => s
  end.

Record getrq_args := GetrqArgs {
  g_dev : Z; g_sector : Z; g_nr_sector : Z; g_rwbs : list Z; g_comm : list Z }.

(** The entry a new request gets. *)
Definition new_ioreq (c : bctx) (a : getrq_args) : iosdiag_req :=
  let pid := i32 (c_pid_tgid c) in
  IoReq pid (if pid =? 0 then replicate 16 0 else g_comm a) (replicate 32 0)
    [c_now c; 0; 0; 0; 0] [u32 (c_cpu c); u32 (-1); u32 (-1)] (g_rwbs a)
    (u32 (g_nr_sector a * 512)) (g_sector a).

(** The device filter of the tracepoints: is an input of device [dev] skipped? *)
Definition other_dev (s : io_maps) (dev : Z) : bool :=
  negb (get_target_devt s =? 0) && negb (dev =? get_target_devt s).

Definition tracepoint_block_getrq (c : bctx) (a : getrq_args) (s : io_maps) : io_maps :=
  if other_dev s (g_dev a) then s
  else set_reqs (map_update MAX_REQS BPF_ANY (init_iosdiag_key (g_sector a)) (new_ioreq c a)
                   (iosdiag_maps s)).2 s.

Record issue_args := IssueArgs { i_dev : Z; i_sector : Z; i_nr_sector : Z; i_bytes : Z }.

(** The writes of [tracepoint_block_rq_issue] to the entry it found. *)
Definition issue_req (c : bctx) (a : issue_args) (r : iosdiag_req) : iosdiag_req :=
  let type := if ts_at r IO_ISSUE_DRIVER_POINT =? 0 then IO_ISSUE_DRIVER_POINT else IO_ISSUE_DEVICE_POINT in
  let r := set_ts type (c_now c) r in
  if negb (i_bytes a =? 0) then set_len (i_bytes a) r
  else if negb (i_nr_sector a =? 0) then set_len (u32 (i_nr_sector a * 512)) r
  else r.

Definition tracepoint_block_rq_issue (c : bctx) (a : issue_args) (s : io_maps) : io_maps :=
  if other_dev s (i_dev a) then s
  else
    let key := init_iosdiag_key (i_sector a) in
    match iosdiag_maps s !! key with
    | Some ioreq =>
        set_reqs (map_update MAX_REQS BPF_ANY key (issue_req c a ioreq) (iosdiag_maps s)).2 s
    | None => s
    end.

Record complete_args := CompleteArgs { k_dev : Z; k_sector : Z }.

(** The writes of [tracepoint_block_rq_complete], and its test that the request
    reached the device and came back. *)
Definition complete_req (c : bctx) (r : iosdiag_req) : iosdiag_req :=
  let r := if ts_at r IO_COMPLETE_TIME_POINT =? 0 then set_ts IO_COMPLETE_TIME_POINT (c_now c) r else r in
  set_cpu 2 (u32 (c_cpu c)) r.
Definition is_complete (r : iosdiag_req) : bool :=
  negb (ts_at r IO_ISSUE_DEVICE_POINT =? 0) && negb (ts_at r IO_RESPONCE_DRIVER_POINT =? 0).

Definition tracepoint_block_rq_complete (c : bctx) (a : complete_args) (s : io_maps)
    : io_maps * list iosdiag_req :=
  if other_dev s (k_dev a) then (s, [])
  else
    let key := init_iosdiag_key (k_sector a) in
    match iosdiag_maps s !! key with
    | Some ioreq =>
        let r := complete_req c ioreq in
        (set_reqs (delete key (iosdiag_maps s)) s, if is_complete r then [r] else [])
    | None => (s, [])
    end.

(** ** The drivers' probes

    A pointer argument is its address, 0 for NULL. *)

(** virtio: the request is kept by thread between entry and return. *)
Definition kprobe_virtio_queue_rq (c : bctx) (last : bool) (req : Z) (s : io_maps) : io_maps :=
  if negb last then s
  else if req =? 0 then s
  else set_virt (map_update MAX_REQS BPF_ANY (i32 (c_pid_tgid c)) req (iosdiag_virtblk_maps s)).2 s.

Definition kretprobe_virtio_queue_rq (c : bctx) (ret : Z) (mem : memory) (s : io_maps) : io_maps :=
  let pid := i32 (c_pid_tgid c) in
  if ret =? 0 then
    match iosdiag_virtblk_maps s !! pid with
    | Some req_addr =>
        if req_addr =? 0 then s
        else
          let s := trace_io_driver_route c (mem req_addr) IO_ISSUE_DEVICE_POINT s in
          set_virt (delete pid (iosdiag_virtblk_maps s)) s
    | None => s
    end
  else set_virt (delete pid (iosdiag_virtblk_maps s)) s.

Definition kprobe_blk_mq_complete_request (c : bctx) (req : Z) (mem : memory) (s : io_maps) : io_maps :=
  if req =? 0 then s else trace_io_driver_route c (mem req) IO_RESPONCE_DRIVER_POINT s.

Definition kprobe_nvme_queue_rq (c : bctx) (last : bool) (req : Z) (mem : memory) (s : io_maps) : io_maps :=
  if negb last then s
  else if req =? 0 then s
  else trace_io_driver_route c (mem req) IO_ISSUE_DRIVER_POINT s.

Definition kprobe_scsi_dispatch_cmd (c : bctx) (req : Z) (mem : memory) (s : io_maps) : io_maps :=
  if req =? 0 then s else trace_io_driver_route c (mem req) IO_ISSUE_DEVICE_POINT s.

Definition kprobe_scsi_done (c : bctx) (req : Z) (mem : memory) (s : io_maps) : io_maps :=
  if req =? 0 then s else trace_io_driver_route c (mem req) IO_RESPONCE_DRIVER_POINT s.

(** The multi-queue variant attaches the same bodies to other functions. *)
Definition kprobe_scsi_log_send := kprobe_scsi_dispatch_cmd.
Definition kprobe_scsi_mq_done := kprobe_scsi_done.

Inductive io_in :=
  | Getrq (c : bctx) (a : getrq_args)
  | RqIssue (c : bctx) (a : issue_args)
  | RqComplete (c : bctx) (a : complete_args)
  | VirtQueue (c : bctx) (last : bool) (req : Z)
  | VirtQueueRet (c : bctx) (ret : Z) (mem : memory)
  | MqComplete (c : bctx) (req : Z) (mem : memory)
  | NvmeQueue (c : bctx) (last : bool) (req : Z) (mem : memory)
  | ScsiDispatch (c : bctx) (req : Z) (mem : memory)
  | ScsiDone (c : bctx) (req : Z) (mem : memory).

#[global] Instance io_tracer : Tracer io_maps io_in iosdiag_req := λ i s,
  match i with
  | Getrq c a => (tracepoint_block_getrq c a s, [])
  | RqIssue c a => (tracepoint_block_rq_issue c a s, [])
  | RqComplete c a => tracepoint_block_rq_complete c a s
  | VirtQueue c last req => (kprobe_virtio_queue_rq c last req s, [])
  | VirtQueueRet c ret mem => (kretprobe_virtio_queue_rq c ret mem s, [])
  | MqComplete c req mem => (kprobe_blk_mq_complete_request c req mem s, [])
  | NvmeQueue c last req mem => (kprobe_nvme_queue_rq c last req mem s, [])
  | ScsiDispatch c req mem => (kprobe_scsi_dispatch_cmd c req mem s, [])
  | ScsiDone c req mem => (kprobe_scsi_done c req mem s, [])
  end.

#[global] Instance io_ctx : HasCtx io_in := λ i,
  match i with
  | Getrq c _ | RqIssue c _ | RqComplete c _ | VirtQueue c _ _ | VirtQueueRet c _ _
  | MqComplete c _ _ | NvmeQueue c _ _ _ | ScsiDispatch c _ _ | ScsiDone c _ _ => c
  end.

(** ** Specification

    What an input does to which request: allocate it, issue it, pass a point of
    the driver, or complete it. The virtio return probe passes the point of
    the request its thread entered with. *)

Inductive io_act :=
  | Start (a : getrq_args)
  | Issue (a : issue_args)
  | Pass (p : nat) (rq : request)
  | Complete.

(** The request thread [pid] is queueing; [hist] is the past, latest first. *)
Fixpoint queueing (pid : Z) (hist : list io_in) : option Z :=
  match hist with
  | [] => None
  | VirtQueue c last req :: hist' =>
      if last && negb (req =? 0) && (i32 (c_pid_tgid c) =? pid) then Some req else queueing pid hist'
  | VirtQueueRet c _ _ :: hist' =>
      if i32 (c_pid_tgid c) =? pid then None else queueing pid hist'
  | _ :: hist' => queueing pid hist'
  end.

(** The filter: with a target device [dev], only its requests are followed. *)
Definition followed (dev d : Z) : bool := (dev =? 0) || (d =? dev).

Definition passes (p : nat) (req : Z) (mem : memory) : option (Z * io_act) :=
  if req =? 0 then None else Some (rq_sector (mem req), Pass p (mem req)).

Definition act_of (dev : Z) (hist : list io_in) (i : io_in) : option (Z * io_act) :=
  match i with
  | Getrq _ a => if followed dev (g_dev a) then Some (g_sector a, Start a) else None
  | RqIssue _ a => if followed dev (i_dev a) then Some (i_sector a, Issue a) else None
  | RqComplete _ a => if followed dev (k_dev a) then Some (k_sector a, Complete) else None
  | VirtQueue _ _ _ => None
  | VirtQueueRet c ret mem =>
      if ret =? 0 then
        match queueing (i32 (c_pid_tgid c)) hist with Some req => passes 2 req mem | None => None end
      else None
  | NvmeQueue _ last req mem => if last then passes 1 req mem else None
  | ScsiDispatch _ req mem => passes 2 req mem
  | MqComplete _ req mem | ScsiDone _ req mem => passes 3 req mem
  end.

(** The open request of sector [sec]: its allocation and what happened to it
    since, in order. *)
Definition life : Type := bctx * getrq_args * list (bctx * io_act).

Fixpoint open_life (dev sec : Z) (hist : list io_in) : option life :=
  match hist with
  | [] => None
  | i :: hist' =>
      match act_of dev hist' i with
      | Some (s, a) =>
          if s =? sec then
            match a with
            | Start g => Some (ctx_of i, g, [])
            | Complete => None
            | _ => (λ '(c, g, l), (c, g, l ++ [(ctx_of i, a)])) <$> open_life dev sec hist'
            end
          else open_life dev sec hist'
      | None => open_life dev sec hist'
      end
  end.

(** The time of the first and of the last act of a list. *)
Definition first_time (l : list (bctx * io_act)) : Z := from_option (λ x, c_now x.1) 0 (head l).
Definition last_time (l : list (bctx * io_act)) : Z := from_option (λ x, c_now x.1) 0 (last l).

Definition is_issue (a : io_act) : bool := match a with Issue _ => true | _ => false end.
Definition is_pass (p : nat) (a : io_act) : bool := match a with Pass q _ => (q =? p)%nat | _ => false end.
Definition to_driver (a : io_act) : bool := is_issue a || is_pass 1 a.
Abbreviation acts P l := (filter (λ x : bctx * io_act, P x.2 = true) l).

(** The request is at the driver from its first issue (or entry to the
    driver's queue function), at the device from its last later issue or else
    from the point where the driver hands it over, and back from the first
    completion the driver sees. *)
Definition device_time (l : list (bctx * io_act)) : Z :=
  match acts is_issue (tail (acts to_driver l)) with
  | [] => first_time (acts (is_pass 2) l)
  | later => last_time later
  end.

Definition last_len (n : Z) (l : list (bctx * io_act)) : Z :=
  foldl (λ n x, match x.2 with
                | Issue a => if negb (i_bytes a =? 0) then i_bytes a
                             else if negb (i_nr_sector a =? 0) then u32 (i_nr_sector a * 512) else n
                | _ => n
                end) n l.
Definition first_disk (d : list Z) (l : list (bctx * io_act)) : list Z :=
  foldl (λ d x, match x.2 with Pass _ rq => if hd 0 d =? 0 then rq_disk_name rq else d | _ => d end) d l.

Definition life_record (f : life) (complete : Z) (cpu2 : Z) : iosdiag_req :=
  let '(c, g, l) := f in
  let pid := i32 (c_pid_tgid c) in
  IoReq pid (if pid =? 0 then replicate 16 0 else g_comm g) (first_disk (replicate 32 0) l)
    [c_now c; first_time (acts to_driver l); device_time l; first_time (acts (is_pass 3) l); complete]
    [u32 (c_cpu c); from_option (λ x, u32 (c_cpu x.1)) (u32 (-1)) (last (acts (is_pass 3) l)); cpu2]
    (g_rwbs g) (last_len (u32 (g_nr_sector g * 512)) l) (g_sector g).
Definition life_req (f : life) : iosdiag_req := life_record f 0 (u32 (-1)).

(** Was the request seen at the device, and back from it? *)
Definition at_device (l : list (bctx * io_act)) : bool :=
  negb (bool_decide (acts is_issue (tail (acts to_driver l)) = [] ∧ acts (is_pass 2) l = [])).
Definition came_back (l : list (bctx * io_act)) : bool := negb (bool_decide (acts (is_pass 3) l = [])).

(** The report of a request completed in context [c]. *)
Definition finished (c : bctx) (f : life) : list iosdiag_req :=
  if at_device f.2 && came_back f.2 then [life_record f (c_now c) (u32 (c_cpu c))] else [].

Fixpoint io_spec (dev : Z) (hist tr : list io_in) : list iosdiag_req :=
  match tr with
  | [] => []
  | i :: tr' =>
      match act_of dev hist i with
      | Some (sec, Complete) =>
          from_option (finished (ctx_of i)) [] (open_life dev sec hist)
      | _ => []
      end ++ io_spec dev (i :: hist) tr'
  end.

(** ** Simulation *)

Section acts.
Implicit Types (l : list (bctx * io_act)) (c : bctx) (a : io_act).

Lemma acts_snoc (P : io_act → bool) l c a :
  acts P (l ++ [(c, a)]) = acts P l ++ if P a then [(c, a)] else [].
Proof. rewrite filter_app. f_equal. rewrite filter_cons. simpl. destruct (P a); simpl; by repeat case_decide. Qed.

Lemma first_time_snoc l x : c_now x.1 ≠ 0 → Forall (λ y, c_now y.1 ≠ 0) l →
  first_time (l ++ [x]) = if first_time l =? 0 then c_now x.1 else first_time l.
Proof.
  intros Hx Hl. destruct Hl as [|y l Hy Hl]; [done|]. unfold first_time. simpl. by zif.
Qed.

Lemma last_time_snoc l x : last_time (l ++ [x]) = c_now x.1.
Proof. unfold last_time. by rewrite last_snoc. Qed.

Lemma first_time_zero l : Forall (λ y, c_now y.1 ≠ 0) l → first_time l = 0 ↔ l = [].
Proof. intros []; [done|]. unfold first_time. simpl. done. Qed.
End acts.

Definition timed (l : list (bctx * io_act)) : Prop := Forall (λ x, c_now x.1 ≠ 0) l.

Lemma timed_acts (P : io_act → bool) l : timed l → timed (acts P l).
Proof.
  intros H. apply Forall_forall. intros x [_ Hx]%list_elem_of_filter.
  by eapply Forall_forall in H.
Qed.

Lemma timed_tail l : timed l → timed (tail l).
Proof. intros []; [by constructor|done]. Qed.
#[local] Hint Resolve timed_acts timed_tail : core.

Lemma device_time_zero l : timed l →
  device_time l = 0 ↔ acts is_issue (tail (acts to_driver l)) = [] ∧ acts (is_pass 2) l = [].
Proof.
  intros Hl. unfold device_time.
  destruct (acts is_issue (tail (acts to_driver l))) as [|x k] eqn:He.
  - rewrite first_time_zero by (by apply timed_acts). tauto.
  - split; [|by intros []]. intros H. exfalso.
    assert (timed (x :: k)) as Hk by (rewrite <-He; auto).
    unfold last_time in H. destruct (last (x :: k)) as [y|] eqn:Hy; [|by apply last_None in Hy].
    eapply Forall_forall in Hk; [|by apply last_Some_elem_of]. by simpl in H.
Qed.

Lemma tail_snoc {A} (l : list A) x : tail (l ++ [x]) = if decide (l = []) then [] else tail l ++ [x].
Proof. by destruct l. Qed.

Lemma first_acts_snoc (P : io_act → bool) l c a : timed l → c_now c ≠ 0 →
  first_time (acts P (l ++ [(c, a)]))
  = if P a && (first_time (acts P l) =? 0) then c_now c else first_time (acts P l).
Proof.
  intros Hl Hc. rewrite acts_snoc. destruct (P a); [|by rewrite app_nil_r].
  by apply first_time_snoc; [|apply timed_acts].
Qed.

(** The issues after the first act that brings the request to the driver. *)
Lemma later_issues_snoc l c a :
  acts is_issue (tail (acts to_driver (l ++ [(c, a)])))
  = acts is_issue (tail (acts to_driver l))
    ++ if is_issue a && negb (bool_decide (acts to_driver l = [])) then [(c, a)] else [].
Proof.
  rewrite acts_snoc. change (to_driver a) with (is_issue a || is_pass 1 a).
  destruct (is_issue a) eqn:Ha; simpl.
  - rewrite tail_snoc. case_decide as He.
    + rewrite bool_decide_true by done. simpl. rewrite He. done.
    + rewrite bool_decide_false by done. rewrite acts_snoc, Ha. done.
  - rewrite app_nil_r. destruct (is_pass 1 a); [|by rewrite app_nil_r].
    rewrite tail_snoc. case_decide as He; [by rewrite He|]. by rewrite acts_snoc, Ha, app_nil_r.
Qed.

Lemma device_time_issue l c a : timed l →
  device_time (l ++ [(c, Issue a)])
  = if first_time (acts to_driver l) =? 0 then device_time l else c_now c.
Proof.
  intros Hl. unfold device_time. rewrite later_issues_snoc, acts_snoc, app_nil_r. simpl.
  pose proof (first_time_zero (acts to_driver l) ltac:(by apply timed_acts)) as Hz.
  case_bool_decide as He; simpl.
  - rewrite app_nil_r, (proj2 Hz He). done.
  - rewrite (proj2 (Z.eqb_neq _ _)) by tauto.
    destruct (acts is_issue (tail (acts to_driver l))) as [|x k]; [done|].
    exact (last_time_snoc (x :: k) (c, Issue a)).
Qed.

Lemma device_time_pass l c p rq : timed l → c_now c ≠ 0 →
  device_time (l ++ [(c, Pass p rq)])
  = if (p =? 2)%nat && (device_time l =? 0) then c_now c else device_time l.
Proof.
  intros Hl Hc. pose proof (device_time_zero l Hl) as Hz. revert Hz. unfold device_time.
  rewrite later_issues_snoc, first_acts_snoc by done. simpl. rewrite app_nil_r.
  destruct (acts is_issue (tail (acts to_driver l))) as [|x k]; [done|].
  intros Hz. rewrite (proj2 (Z.eqb_neq _ _)) by (intros H; by apply Hz in H as []).
  by rewrite andb_false_r.
Qed.

Ltac generalize_life :=
  match goal with |- context [foldl ?f (replicate ?k 0) ?l] => generalize (foldl f (replicate k 0) l) end;
  intros disk;
  match goal with |- context [foldl ?f (wrap ?w ?n) ?l] => generalize (foldl f (wrap w n) l) end;
  intros len;
  match goal with |- context [first_time (acts to_driver ?l)] =>
    generalize (first_time (acts to_driver l)), (device_time l), (first_time (acts (is_pass 3) l)) end;
  intros driver device back.

(** The probes' writes extend the life of the request. *)
Lemma route_req_life c g l c' p rq :
  timed l → c_now c' ≠ 0 → (p = 1 ∨ p = 2 ∨ p = 3)%nat →
  route_req c' rq p (life_req (c, g, l)) = life_req (c, g, l ++ [(c', Pass p rq)]).
Proof.
  intros Hl Hc Hp. unfold life_req, life_record. rewrite !first_acts_snoc, device_time_pass by done.
  unfold first_disk, last_len. rewrite !foldl_snoc, acts_snoc. generalize_life.
  destruct Hp as [-> | [-> | ->]]; simpl; rewrite ?app_nil_r, ?last_snoc; unfold route_req, ts_at; simpl;
    [destruct (driver =? 0)|destruct (device =? 0)|destruct (back =? 0)]; simpl;
    destruct (hd 0 disk =? 0); done.
Qed.

Lemma issue_req_life c g l c' a :
  timed l → c_now c' ≠ 0 →
  issue_req c' a (life_req (c, g, l)) = life_req (c, g, l ++ [(c', Issue a)]).
Proof.
  intros Hl Hc. unfold life_req, life_record. rewrite !first_acts_snoc, device_time_issue by done.
  unfold first_disk, last_len. rewrite !foldl_snoc, acts_snoc, app_nil_r. generalize_life.
  unfold issue_req, ts_at. simpl. destruct (driver =? 0); simpl; repeat case_match; done.
Qed.

Lemma eqb_bool_decide (x y : Z) : (x =? y) = bool_decide (x = y).
Proof. destruct (Z.eqb_spec x y); symmetry; [by apply bool_decide_true|by apply bool_decide_false]. Qed.

Lemma complete_req_life c f : timed f.2 →
  is_complete (complete_req c (life_req f)) = at_device f.2 && came_back f.2 ∧
  complete_req c (life_req f) = life_record f (c_now c) (u32 (c_cpu c)).
Proof.
  destruct f as [[c0 g] l]. intros Hl. split; [|done]. cbn [snd] in *.
  unfold at_device, came_back. rewrite <-(bool_decide_ext _ _ (device_time_zero l Hl)).
  rewrite <-(bool_decide_ext _ _ (first_time_zero (acts (is_pass 3) l) (timed_acts _ _ Hl))).
  unfold is_complete, ts_at. simpl. by rewrite !eqb_bool_decide.
Qed.

(** What an act does to the table of requests. *)
Definition upd_act (c : bctx) (sec : Z) (a : io_act) (m : gmap iosdiag_key iosdiag_req)
    : gmap iosdiag_key iosdiag_req :=
  let upd f := match m !! (0, sec) with
               | Some r => (map_update MAX_REQS BPF_ANY (0, sec) (f r) m).2 | None => m end in
  match a with
  | Start g => (map_update MAX_REQS BPF_ANY (0, sec) (new_ioreq c g) m).2
  | Issue x => upd (issue_req c x)
  | Pass p rq => upd (route_req c rq p)
  | Complete => delete (0, sec) m
  end.

Record io_ok (P : gset iosdiag_key) (Q : gset Z) (dev : Z) (hist : list io_in) (s : io_maps) : Prop := {
  ok_dev : get_target_devt s = dev;
  ok_reqs sec : iosdiag_maps s !! (0, sec) = life_req <$> open_life dev sec hist;
  ok_keys : dom (iosdiag_maps s) ⊆ P;
  ok_timed sec f : open_life dev sec hist = Some f → timed f.2;
  ok_virt pid : iosdiag_virtblk_maps s !! pid = queueing pid hist;
  ok_pids : dom (iosdiag_virtblk_maps s) ⊆ Q;
}.

(** The tables have room for what the input can add. *)
Definition in_tables (P : gset iosdiag_key) (Q : gset Z) (i : io_in) : Prop :=
  match i with
  | Getrq _ a => (0, g_sector a) ∈ P
  | VirtQueue c _ _ => i32 (c_pid_tgid c) ∈ Q
  | _ => True
  end.

Lemma other_dev_followed s dev d : get_target_devt s = dev → other_dev s d = negb (followed dev d).
Proof. intros <-. unfold other_dev, followed. by destruct (_ =? 0), (d =? _). Qed.

Lemma queueing_nonzero pid hist req : queueing pid hist = Some req → req ≠ 0.
Proof.
  induction hist as [|i hist IH]; [done|]. destruct i; simpl; auto.
  - destruct (Z.eqb_spec req0 0); rewrite ?andb_false_r; simpl; auto.
    case_match; auto. by intros [= <-].
  - case_match; auto; done.
Qed.

Lemma act_pass_point dev hist i sec p rq :
  act_of dev hist i = Some (sec, Pass p rq) → sec = rq_sector rq ∧ (p = 1 ∨ p = 2 ∨ p = 3)%nat.
Proof. destruct i; simpl; unfold passes; repeat case_match; intros; simplify_eq; auto. Qed.

Lemma act_start dev hist i sec g :
  act_of dev hist i = Some (sec, Start g) → ∃ c, i = Getrq c g ∧ sec = g_sector g.
Proof. destruct i; simpl; unfold passes; repeat case_match; intros; simplify_eq; eauto. Qed.

Lemma route_act c rq p s :
  trace_io_driver_route c rq p s = set_reqs (upd_act c (rq_sector rq) (Pass p rq) (iosdiag_maps s)) s.
Proof. unfold trace_io_driver_route, upd_act, init_iosdiag_key. by destruct (iosdiag_maps s !! _), s. Qed.

(** Every program does its act to the table, and reports at a completion. *)
Lemma handle_act P Q dev hist s i : io_ok P Q dev hist s →
  iosdiag_maps (handle i s).1
    = match act_of dev hist i with
      | Some (sec, a) => upd_act (ctx_of i) sec a (iosdiag_maps s) | None => iosdiag_maps s end ∧
  (handle i s).2
    = match act_of dev hist i with
      | Some (sec, Complete) => from_option (finished (ctx_of i)) [] (open_life dev sec hist)
      | _ => [] end ∧
  get_target_devt (handle i s).1 = dev.
Proof.
  intros [Hdev Hreq _ Htimed Hvirt _].
  destruct i as [c a|c a|c a|c last req|c ret mem|c req mem|c last req mem|c req mem|c req mem];
    cbv [handle io_tracer ctx_of io_ctx act_of passes].
  - unfold tracepoint_block_getrq. rewrite (other_dev_followed _ dev) by done.
    by destruct (followed dev (g_dev a)).
  - unfold tracepoint_block_rq_issue, upd_act, init_iosdiag_key.
    rewrite (other_dev_followed _ dev) by done.
    destruct (followed dev (i_dev a)); simpl; [|done]. by destruct (iosdiag_maps s !! _).
  - unfold tracepoint_block_rq_complete, upd_act, init_iosdiag_key.
    rewrite (other_dev_followed _ dev) by done.
    destruct (followed dev (k_dev a)); cbn [negb]; [|done].
    destruct (iosdiag_maps s !! _) as [r|] eqn:Hr; rewrite Hreq in Hr.
    + apply fmap_Some in Hr as (f & Hf & ->).
      destruct (complete_req_life c f (Htimed _ _ Hf)) as [Hc1 Hc2]. rewrite Hf. cbn [fst snd from_option].
      unfold finished. by rewrite Hc1, Hc2.
    + apply fmap_None in Hr. rewrite Hr. rewrite delete_id; [done|]. by rewrite Hreq, Hr.
  - unfold kprobe_virtio_queue_rq. by repeat case_match.
  - unfold kretprobe_virtio_queue_rq. destruct (ret =? 0); [|done]. rewrite Hvirt.
    destruct (queueing _ hist) as [req|] eqn:Hq; [|done].
    rewrite (proj2 (Z.eqb_neq req 0)) by (by eapply queueing_nonzero). by rewrite route_act.
  - unfold kprobe_blk_mq_complete_request. destruct (req =? 0); [done|]. by rewrite route_act.
  - unfold kprobe_nvme_queue_rq. destruct last; [|done]. destruct (req =? 0); [done|]. by rewrite route_act.
  - unfold kprobe_scsi_dispatch_cmd. destruct (req =? 0); [done|]. by rewrite route_act.
  - unfold kprobe_scsi_done. destruct (req =? 0); [done|]. by rewrite route_act.
Qed.

(** The threads in the virtio queue function, likewise. *)
Lemma handle_virt P Q dev hist s i : io_ok P Q dev hist s → in_tables P Q i →
  (size Q ≤ MAX_REQS)%nat →
  (∀ pid, iosdiag_virtblk_maps (handle i s).1 !! pid = queueing pid (i :: hist)) ∧
  dom (iosdiag_virtblk_maps (handle i s).1) ⊆ Q.
Proof.
  intros [_ _ _ _ Hvirt HQ] Hin HszQ.
  destruct i as [c a|c a|c a|c last req|c ret mem|c req mem|c last req mem|c req mem|c req mem];
    cbv [handle io_tracer] in *;
    try (match goal with |- context [iosdiag_virtblk_maps (?x).1] =>
      replace (iosdiag_virtblk_maps (x).1) with (iosdiag_virtblk_maps s); [done|] end;
      cbv [tracepoint_block_getrq tracepoint_block_rq_issue tracepoint_block_rq_complete
           kprobe_blk_mq_complete_request kprobe_nvme_queue_rq kprobe_scsi_dispatch_cmd
           kprobe_scsi_done]; rewrite ?route_act; by repeat case_match).
  - unfold kprobe_virtio_queue_rq. cbn [queueing].
    destruct last; [|done]. destruct (req =? 0); [done|]. cbn [negb andb].
    assert ((size (iosdiag_virtblk_maps s) < MAX_REQS)%nat ∨
            is_Some (iosdiag_virtblk_maps s !! i32 (c_pid_tgid c))) as Hroom.
    { destruct (iosdiag_virtblk_maps s !! _) eqn:Hl; [by right|left].
      by apply (map_room_set _ Q _ (i32 (c_pid_tgid c))). }
    rewrite map_update_room by done. cbn [fst snd set_virt iosdiag_virtblk_maps]. split.
    + intros pid. rewrite <-Hvirt. destruct (Z.eqb_spec (i32 (c_pid_tgid c)) pid) as [->|Hne].
      * by rewrite lookup_insert_eq.
      * by rewrite lookup_insert_ne.
    + rewrite dom_insert. simpl in Hin. set_solver.
  - assert (∀ m : gmap Z Z, (∀ pid, m !! pid = delete (i32 (c_pid_tgid c)) (iosdiag_virtblk_maps s) !! pid) →
      (∀ pid, m !! pid = queueing pid (VirtQueueRet c ret mem :: hist)) ∧ dom m ⊆ Q) as Hgo.
    { intros m ->%map_eq. split; [|rewrite dom_delete; set_solver].
      intros pid. cbn [queueing]. rewrite <-Hvirt.
      destruct (Z.eqb_spec (i32 (c_pid_tgid c)) pid) as [->|Hne];
        [by rewrite lookup_delete_eq|by rewrite lookup_delete_ne]. }
    apply Hgo. intros pid. unfold kretprobe_virtio_queue_rq.
    destruct (ret =? 0); [|done].
    destruct (iosdiag_virtblk_maps s !! _) as [req|] eqn:Hq; [|by rewrite delete_id].
    rewrite Hvirt in Hq. apply queueing_nonzero in Hq.
    rewrite (proj2 (Z.eqb_neq req 0)) by done. by rewrite route_act.
Qed.

(** What an act does to the open requests. *)
Lemma open_life_step dev sec hist i :
  open_life dev sec (i :: hist) =
  match act_of dev hist i with
  | Some (s, a) =>
      if s =? sec then
        match a with
        | Start g => Some (ctx_of i, g, [])
        | Complete => None
        | _ => (λ '(c, g, l), (c, g, l ++ [(ctx_of i, a)])) <$> open_life dev sec hist
        end
      else open_life dev sec hist
  | None => open_life dev sec hist
  end.
Proof. done. Qed.

Definition act_entry (c : bctx) (a : io_act) (r : option iosdiag_req) : option iosdiag_req :=
  match a with
  | Start g => Some (new_ioreq c g)
  | Issue x => issue_req c x <$> r
  | Pass p rq => route_req c rq p <$> r
  | Complete => None
  end.

Lemma upd_act_spec (P : gset iosdiag_key) c sec a m :
  dom m ⊆ P → (size P ≤ MAX_REQS)%nat → (∀ g, a = Start g → (0, sec) ∈ P) →
  (∀ sec', upd_act c sec a m !! (0, sec')
           = if sec =? sec' then act_entry c a (m !! (0, sec)) else m !! (0, sec')) ∧
  dom (upd_act c sec a m) ⊆ P.
Proof.
  intros Hm HP Ha.
  assert (∀ r, (0, sec) ∈ P → (∀ sec', (map_update MAX_REQS BPF_ANY (0, sec) r m).2 !! (0, sec')
    = if sec =? sec' then Some r else m !! (0, sec'))
    ∧ dom (map_update MAX_REQS BPF_ANY (0, sec) r m).2 ⊆ P) as Hins.
  { intros r Hin. rewrite map_update_room.
    - simpl. split; [|rewrite dom_insert; set_solver]. intros sec'.
      destruct (Z.eqb_spec sec sec') as [->|]; [apply lookup_insert_eq|].
      apply lookup_insert_ne. congruence.
    - destruct (m !! (0, sec)) eqn:Hk; [by right|left]. by apply (map_room_set _ P _ (0, sec)). }
  assert (∀ r, m !! (0, sec) = Some r → (0, sec) ∈ P) as Hdom.
  { intros r Hr. apply Hm, elem_of_dom. by eexists. }
  destruct a as [g|x|p rq|]; cbn [upd_act act_entry].
  - apply Hins. by eapply Ha.
  - destruct (m !! (0, sec)) as [r|] eqn:Hr; [by eapply Hins, Hdom|].
    split; [|done]. intros sec'. by destruct (Z.eqb_spec sec sec') as [<-|].
  - destruct (m !! (0, sec)) as [r|] eqn:Hr; [by eapply Hins, Hdom|].
    split; [|done]. intros sec'. by destruct (Z.eqb_spec sec sec') as [<-|].
  - split; [|rewrite dom_delete; set_solver]. intros sec'.
    destruct (Z.eqb_spec sec sec') as [->|]; [apply lookup_delete_eq|].
    apply lookup_delete_ne. congruence.
Qed.

Lemma io_step P Q dev hist s i : io_ok P Q dev hist s → in_tables P Q i →
  (size P ≤ MAX_REQS)%nat → (size Q ≤ MAX_REQS)%nat → c_now (ctx_of i) ≠ 0 →
  io_ok P Q dev (i :: hist) (handle i s).1.
Proof.
  intros Hok Hin HP HQ Hc. destruct (handle_act P Q dev hist s i Hok) as (Hm & _ & Hd).
  destruct (handle_virt P Q dev hist s i Hok Hin HQ) as [Hv Hvd].
  destruct Hok as [_ Hreq Hkeys Htimed _ _].
  destruct (act_of dev hist i) as [[sec a]|] eqn:Ha; cycle 1.
  { split; [done| |by rewrite Hm| |done|done]; intros sec'; rewrite ?Hm, open_life_step, Ha;
      [apply Hreq|apply Htimed]. }
  destruct (upd_act_spec P (ctx_of i) sec a (iosdiag_maps s)) as [Hl Hdom]; [done..| |].
  { intros g ->. by apply act_start in Ha as (c & -> & ->). }
  split; [done| |by rewrite Hm| |done|done]; intros sec'; rewrite open_life_step, Ha.
  - rewrite Hm, Hl. destruct (Z.eqb_spec sec sec') as [->|]; [|apply Hreq].
    rewrite Hreq. destruct (open_life dev sec' hist) as [[[c g] l]|] eqn:Ho; [|by destruct a].
    pose proof (Htimed _ _ Ho) as Hti. destruct a as [g'|x|p rq|]; [done| | |done].
    + exact (f_equal Some (issue_req_life c g l _ x Hti Hc)).
    + apply act_pass_point in Ha as [_ Hp]. exact (f_equal Some (route_req_life c g l _ p rq Hti Hc Hp)).
  - intros f. destruct (Z.eqb_spec sec sec') as [->|]; [|apply Htimed].
    destruct (open_life dev sec' hist) as [[[c g] l]|] eqn:Ho;
      destruct a; simpl; intros Hf; simplify_eq; try apply Forall_nil; try done.
    all: apply Forall_app; split; [by apply (Htimed _ _ Ho)|by repeat constructor].
Qed.

Lemma io_refines P Q dev tr : ∀ now hist s,
  (size P ≤ MAX_REQS)%nat → (size Q ≤ MAX_REQS)%nat → Forall (in_tables P Q) tr →
  0 < now → clock_from now tr → io_ok P Q dev hist s →
  (run tr s).2 = io_spec dev hist tr.
Proof.
  induction tr as [|i tr IH]; intros now hist s HP HQ Hin Hpos Hclk Hok; [done|].
  apply Forall_cons in Hin as [Hi Hin]. destruct Hclk as [Hnow Hclk].
  rewrite run_cons. cbn [io_spec snd].
  destruct (handle_act P Q dev hist s i Hok) as (_ & He & _). rewrite He. f_equal.
  apply (IH (c_now (ctx_of i))); try done; [lia|]. apply io_step; try done. lia.
Qed.

(** The maps when the tool follows device [dev] (0: every device). *)
Definition io_maps0 (dev : Z) : io_maps := IoMaps ∅ (if dev =? 0 then ∅ else {[0 := dev]}) ∅.



Lemma io_ok0 P Q dev : io_ok P Q dev [] (io_maps0 dev).
Proof.
  split; try done; [|by rewrite dom_empty..].
  unfold get_target_devt, io_maps0. simpl. destruct (Z.eqb_spec dev 0) as [->|]; [done|].
  by rewrite lookup_singleton_eq.
Qed.

(** C8: the latency tracer reports exactly the requests the trace shows: for
    every interleaving of requests, drivers and CPUs under a clock that does
    not go back, and tables with room for the sectors and threads in flight,
    its output is one event for each completion of a followed request that was
    seen at the device and back, in order, with the times of the first arrival
    at the driver, of the hand-over to the device and of the return, the
    issuer's identity and the disk, taken from that request's own life. *)
Theorem iosdiag_reports (P : gset iosdiag_key) (Q : gset Z) dev tr :
  (size P ≤ MAX_REQS)%nat → (size Q ≤ MAX_REQS)%nat → Forall (in_tables P Q) tr →
  clock_from 1 tr →
  (run tr (io_maps0 dev)).2 = io_spec dev [] tr.
Proof.
  intros HP HQ Hin Hclk. apply (io_refines P Q dev tr 1); try done. apply io_ok0.
Qed.

(** ** Concrete runs *)

Definition s_io (now cpu : Z) : bctx := BCtx now cpu (7 * 2 ^ 32 + 7) "dd" 0.
Definition s_rq : request := Request 64 (lit "sda" ++ replicate 29 0).
Definition s_getrq : getrq_args := GetrqArgs 8388608 64 8 (lit "W") (lit "dd").

(** A SCSI write that is retried once: the first answer asks for the retry, so
    the request is issued to the device again after it came back. *)
Definition s_retry : list io_in :=
  [Getrq (s_io 1000000 0) s_getrq; RqIssue (s_io 2000000 0) (IssueArgs 8388608 64 8 4096);
   ScsiDispatch (s_io 3000000 0) 1 (λ _, s_rq); ScsiDone (s_io 4000000 1) 1 (λ _, s_rq);
   RqIssue (s_io 5000000 0) (IssueArgs 8388608 64 8 4096);
   ScsiDispatch (s_io 5100000 0) 1 (λ _, s_rq); ScsiDone (s_io 6000000 1) 1 (λ _, s_rq);
   RqComplete (s_io 7000000 1) (CompleteArgs 8388608 64)].

Lemma s_retry_tables : Forall (in_tables {[(0, 64)]} ∅) s_retry.
Proof. repeat constructor; simpl; set_solver. Qed.

Lemma iosdiag_reports_witness :
  (run s_retry (io_maps0 8388608)).2
  = [IoReq 7 (lit "dd") (lit "sda" ++ replicate 29 0) [1000000; 2000000; 5000000; 4000000; 7000000]
       [0; 1; 1] (lit "W") 4096 64].
Proof.
  rewrite (iosdiag_reports {[(0, 64)]} ∅ 8388608 s_retry); [reflexivity| | | |].
  - rewrite size_singleton. unfold MAX_REQS. lia.
  - rewrite size_empty. lia.
  - apply s_retry_tables.
  - by repeat split.
Defined.
