(* ===== verification/IosdiagReport.v ===== *)
(** * IosdiagReport: the reports of the latency tracer

    The user side of [tools/combine/iosdiag/latency]: which requests are
    selected ([collect.c]), what is printed about them ([format_json.c]), and
    which objects are loaded ([iosdiag_init]). The theorems compose it with the
    programs of [Iosdiag]. *)

From S2P Require Import Prelude Bpf CString Iosdiag.

(** ** User space: [format_json.c] and [collect.c] *)

Definition g_points : list (list Z * nat) :=
  [(lit "start", 0%nat); (lit "issue_driver", 1%nat); (lit "issue_device", 2%nat);
   (lit "device_complete", 3%nat); (lit "complete", 4%nat)].
Definition g_delays : list (list Z * nat) :=
  [(lit "block", 1%nat); (lit "driver", 2%nat); (lit "disk", 3%nat); (lit "complete", 4%nat)].

Fixpoint idx_to_str (tbl : list (list Z * nat)) (idx : nat) : option (list Z) :=
  match tbl with
  | [] => None
  | (str, i) :: tbl' => if (i =? idx)%nat then Some str else idx_to_str tbl' idx
  end.
Definition point_idx_to_str : nat → option (list Z) := idx_to_str g_points.
Definition delay_idx_to_str : nat → option (list Z) := idx_to_str g_delays.

(** The fields of [struct tm] and [tv_usec] the date is printed from. *)
Record tm := Tm { tm_year : Z; tm_mon : Z; tm_mday : Z; tm_hour : Z; tm_min : Z; tm_sec : Z }.
Definition set_check_time_date (p : tm) (usec : Z) : list Z :=
  fmt_ld (1900 + tm_year p) ++ lit "-" ++ fmt_ld (1 + tm_mon p) ++ lit "-" ++ fmt_ld (tm_mday p)
  ++ lit " " ++ fmt_ld (tm_hour p) ++ lit ":" ++ fmt_ld (tm_min p) ++ lit ":" ++ fmt_ld (tm_sec p)
  ++ lit "." ++ fmt_ld (usec ÷ 1000).

(** The delay in microseconds between two points. *)
Definition delay_us (r : iosdiag_req) (i n : nat) : Z := u64 (ts_at r i / 1000 - ts_at r n / 1000).

Definition get_total_delay (r : iosdiag_req) : Z := delay_us r (MAX_POINT - 1) IO_START_POINT.

(** The loop of [get_max_delay] and [get_max_delay_component] over the points
    still to visit: the longest delay so far and its point. *)
Fixpoint max_delay_loop (r : iosdiag_req) (todo : list nat) (max_delay : Z) (idx : nat) : Z * nat :=
  match todo with
  | [] => (max_delay, idx)
  | i :: todo' =>
      let delay := delay_us r i (i - 1) in
      if max_delay <? delay then max_delay_loop r todo' delay i else max_delay_loop r todo' max_delay idx
  end.
Definition get_max_delay (r : iosdiag_req) : Z := (max_delay_loop r (seq 1 4) 0 0).1.
Definition get_max_delay_component (r : iosdiag_req) : list Z :=
  let idx := (max_delay_loop r (seq 1 4) 0 0).2 in
  if negb (idx =? 0)%nat then default [] (delay_idx_to_str idx) else [].

Definition is_disk_delay (r : iosdiag_req) : bool := bool_decide (get_max_delay_component r = lit "disk").

(** The loop of [delay_convert_to_json] after its first round; [n] is the point
    the next delay is counted from, and [skip] says to keep it. *)
Fixpoint delay_loop (r : iosdiag_req) (todo : list nat) (n : nat) (skip : bool) : list Z :=
  match todo with
  | [] => []
  | i :: todo' =>
      let n := if negb skip then (i - 1)%nat else n in
      if ts_at r n <? ts_at r i then
        js "{'component':'" ++ default [] (delay_idx_to_str i) ++ js "','delay':" ++
        fmt_llu (delay_us r i n) ++ lit "}" ++
        (if negb (i =? MAX_POINT - 1)%nat then lit "," else []) ++ delay_loop r todo' n false
      else delay_loop r todo' n true
  end.

Definition delay_convert_to_json (date : list Z) (r : iosdiag_req) : list Z :=
  js "{'time':'" ++ date ++ js "','diskname':'" ++ c_string (diskname r) ++ js "'," ++
  js "'totaldelay':" ++ fmt_llu (delay_us r (MAX_POINT - 1) IO_START_POINT) ++ js ",'delays':[" ++
  delay_loop r (seq 1 4) 0 false ++ lit "]}" ++ [10].

Definition fmt_d (n : Z) : list Z := fmt_ld (i32 n).

Definition summary_convert_to_json (date : list Z) (r : iosdiag_req) : list Z :=
  let component := if is_disk_delay r then get_max_delay_component r
                   else lit "os(" ++ get_max_delay_component r ++ lit ")" in
  let cpu_at i := nth i (cpu r) 0 in
  let cpus := if (cpu_at 0%nat =? cpu_at 1%nat) && (cpu_at 1%nat =? cpu_at 2%nat) then fmt_d (cpu_at 0%nat)
              else fmt_d (cpu_at 0%nat) ++ lit " -> " ++ fmt_d (cpu_at 1%nat) ++ lit " -> "
                   ++ fmt_d (cpu_at 2%nat) in
  js "{'time':'" ++ date ++ js "','abnormal':'" ++ component ++ lit " delay (" ++
  fmt_llu (get_max_delay r) ++ lit ":" ++ fmt_llu (get_total_delay r) ++ js " us)','diskname':'" ++
  c_string (diskname r) ++ js "','iotype':'" ++ c_string (op r) ++ js "','sector':" ++
  fmt_llu (sector r) ++ js ",'datalen':" ++ fmt_llu (data_len r) ++ js ",'comm':'" ++
  c_string (io_comm r) ++ js "','pid':" ++ fmt_d (io_pid r) ++ js ",'cpu':'" ++ cpus ++ js "'}" ++ [10].

(** [main] passes the threshold in microseconds. *)
Definition over_threshold (threshold_us : Z) (r : iosdiag_req) : bool :=
  let threshold_ns := u64 (threshold_us * 1000) in
  let delay_ns := u64 (ts_at r IO_COMPLETE_TIME_POINT - ts_at r IO_START_POINT) in
  threshold_ns <=? delay_ns.

(** [iosdiag_store_result]: the bytes appended to the log; [date] is the clock
    when the event is read. *)
Definition iosdiag_store_result (threshold_us : Z) (date : list Z) (r : iosdiag_req) : list Z :=
  if over_threshold threshold_us r
  then summary_convert_to_json date r ++ delay_convert_to_json date r else [].

(** The events of the perf buffer, each read at its date. *)
Definition iosdiag_collect (threshold_us : Z) (evs : list (list Z * iosdiag_req)) : list Z :=
  concat ((λ '(date, r), iosdiag_store_result threshold_us date r) <$> evs).

(** ** What the reports say *)

(** The delays [delay_loop] prints: the point and its microseconds. *)
Fixpoint counted (r : iosdiag_req) (todo : list nat) (n : nat) (skip : bool) : list (nat * Z) :=
  match todo with
  | [] => []
  | i :: todo' =>
      let n := if negb skip then (i - 1)%nat else n in
      if ts_at r n <? ts_at r i then (i, delay_us r i n) :: counted r todo' n false
      else counted r todo' n true
  end.

(** The stages of a request by the point that ends them. *)
Definition stage_name (i : nat) : list Z :=
  match i with 1 => lit "block" | 2 => lit "driver" | 3 => lit "disk" | _ => lit "complete" end%nat.

Definition fmt_delay (x : nat * Z) : list Z :=
  js "{'component':'" ++ stage_name x.1 ++ js "','delay':" ++ fmt_llu x.2 ++ lit "}" ++
  if (x.1 =? 4)%nat then [] else lit ",".

(** The delays a reader of the times expects: a stage is listed when its point
    is later than every point before it, and lasts from the latest of those. *)
Definition latest_before (r : iosdiag_req) (i : nat) : Z := foldr Z.max 0 (ts_at r <$> seq 0 i).
Definition stage_delays (r : iosdiag_req) : list (nat * Z) :=
  (λ i, (i, ts_at r i / 1000 - latest_before r i / 1000))
    <$> filter (λ i, latest_before r i < ts_at r i) (seq 1 4).

Lemma delay_loop_counted r todo : ∀ n skip,
  Forall (λ i, 1 ≤ i ≤ 4)%nat todo →
  delay_loop r todo n skip = concat (fmt_delay <$> counted r todo n skip).
Proof.
  induction todo as [|i todo IH]; intros n skip Ht; [done|].
  apply Forall_cons in Ht as [Hi Ht].
  cbn [delay_loop counted]. cbv zeta. case_match; [|by apply IH].
  rewrite IH by done. cbn [fmap list_fmap concat]. unfold fmt_delay at 2. cbn [fst snd].
  assert (default [] (delay_idx_to_str i) = stage_name i) as ->
    by (destruct i as [|[|[|[|[|i]]]]]; done || lia).
  rewrite !app_assoc. do 2 f_equal. unfold MAX_POINT. simpl. by destruct (i =? 4)%nat.
Qed.

Definition sumZ (l : list Z) : Z := foldr Z.add 0 l.

(** The points of a request lie between its start and its completion. *)
Definition within (r : iosdiag_req) : Prop :=
  (∀ i, (i < 4)%nat → ts_at r i ≤ ts_at r 4) ∧ 0 ≤ ts_at r 0 ∧ 0 ≤ ts_at r 1 ∧
  0 ≤ ts_at r 2 ∧ 0 ≤ ts_at r 3 ∧ ts_at r 4 < 2 ^ 64.

Lemma delay_us_small r i n :
  0 ≤ ts_at r n ≤ ts_at r i → ts_at r i < 2 ^ 64 → delay_us r i n = ts_at r i / 1000 - ts_at r n / 1000.
Proof.
  intros H Hi. unfold delay_us. apply wrap_small.
  pose proof (Z.div_le_mono (ts_at r n) (ts_at r i) 1000). pose proof (Z.div_pos (ts_at r n) 1000).
  pose proof (Z.div_le_upper_bound (ts_at r i) 1000 (ts_at r i)). lia.
Qed.

(** The point the loop counts from is the latest one so far. *)
Lemma counted_stages r : within r → counted r (seq 1 4) 0 false = stage_delays r.
Proof.
  intros (Hle & H0 & H1 & H2 & H3 & H4).
  pose proof (Hle 0%nat ltac:(lia)). pose proof (Hle 1%nat ltac:(lia)).
  pose proof (Hle 2%nat ltac:(lia)). pose proof (Hle 3%nat ltac:(lia)).
  unfold stage_delays, latest_before. cbn [counted seq negb Nat.sub].
  repeat (match goal with |- context [?a <? ?b] => destruct (Z.ltb_spec a b) end; cbn [negb counted]);
    rewrite ?delay_us_small by lia; rewrite ?filter_cons; cbn [seq fmap list_fmap foldr];
    repeat (case_decide; [try (exfalso; lia)|try (exfalso; lia)]); cbn [fmap list_fmap foldr];
    repeat f_equal; cbn [seq fmap list_fmap foldr]; lia.
Qed.

Lemma delays_sum r : within r →
  sumZ (snd <$> counted r (seq 1 4) 0 false) = ts_at r 4 / 1000 - ts_at r 0 / 1000.
Proof.
  intros (Hle & H0 & H1 & H2 & H3 & H4).
  pose proof (Hle 0%nat ltac:(lia)). pose proof (Hle 1%nat ltac:(lia)).
  pose proof (Hle 2%nat ltac:(lia)). pose proof (Hle 3%nat ltac:(lia)).
  cbn [counted seq negb Nat.sub].
  repeat (match goal with |- context [?a <? ?b] => destruct (Z.ltb_spec a b) end; cbn [negb counted];
          try (exfalso; lia));
  cbn [fmap list_fmap sumZ foldr snd]; rewrite ?delay_us_small by lia;
  repeat match goal with H : ?a ≤ ts_at r 4, H' : ts_at r 4 ≤ ?a |- _ =>
    assert (ts_at r 4 = a) as -> by lia; clear H H' end; lia.
Qed.

(** The breakdown of a request whose points are in order, and of one that did
    not pass the driver's point. *)
Lemma stages_in_order r :
  0 ≤ ts_at r 0 → ts_at r 0 < ts_at r 1 < ts_at r 2 → ts_at r 2 < ts_at r 3 < ts_at r 4 →
  stage_delays r = (λ i, (i, ts_at r i / 1000 - ts_at r (i - 1) / 1000)) <$> [1; 2; 3; 4]%nat.
Proof.
  intros. unfold stage_delays, latest_before. cbn [seq fmap list_fmap foldr Nat.sub].
  rewrite !filter_cons. cbn [seq fmap list_fmap foldr]. repeat (case_decide; [|lia]).
  cbn [fmap list_fmap foldr]. repeat f_equal; cbn [seq fmap list_fmap foldr]; lia.
Qed.

Lemma stages_no_driver r :
  0 ≤ ts_at r 0 → ts_at r 1 = 0 → ts_at r 0 < ts_at r 2 < ts_at r 3 → ts_at r 3 < ts_at r 4 →
  stage_delays r = [(2%nat, ts_at r 2 / 1000 - ts_at r 0 / 1000);
                    (3%nat, ts_at r 3 / 1000 - ts_at r 2 / 1000);
                    (4%nat, ts_at r 4 / 1000 - ts_at r 3 / 1000)].
Proof.
  intros. unfold stage_delays, latest_before. cbn [seq fmap list_fmap foldr Nat.sub].
  rewrite !filter_cons. cbn [seq fmap list_fmap foldr].
  case_decide; [lia|]. repeat (case_decide; [|lia]).
  cbn [fmap list_fmap foldr]. repeat f_equal; cbn [seq fmap list_fmap foldr]; lia.
Qed.

(** The clock along a history, latest input first. *)
Fixpoint clock_back (now : Z) (hist : list io_in) : Prop :=
  match hist with
  | [] => True
  | i :: hist' => 0 < c_now (ctx_of i) ≤ now ∧ clock_back (c_now (ctx_of i)) hist'
  end.

Lemma life_times dev sec hist : ∀ now c g l,
  clock_back now hist → open_life dev sec hist = Some (c, g, l) →
  0 < c_now c ≤ now ∧ Forall (λ x, c_now c ≤ c_now x.1 ≤ now) l.
Proof.
  induction hist as [|i hist IH]; intros now c g l; [done|].
  intros [Hi Hclk]. rewrite open_life_step.
  assert (open_life dev sec hist = Some (c, g, l) →
    0 < c_now c ≤ now ∧ Forall (λ x, c_now c ≤ c_now x.1 ≤ now) l) as Hold.
  { intros Ho. destruct (IH _ _ _ _ Hclk Ho) as [? HF]. split; [lia|].
    eapply Forall_impl; [exact HF|]. simpl. lia. }
  destruct (act_of dev hist i) as [[s a]|]; [|done]. destruct (s =? sec); [|done].
  destruct (open_life dev sec hist) as [[[c' g'] l']|]; destruct a; simpl; intros Ho; simplify_eq;
    try (split; [lia|by constructor]).
  all: destruct (IH _ _ _ _ Hclk eq_refl) as [? HF]; split; [lia|]; apply Forall_app; split;
    [eapply Forall_impl; [exact HF|]; simpl; lia|repeat constructor; simpl; lia].
Qed.

Lemma first_time_bound (P : io_act → bool) l a b :
  0 ≤ a ≤ b → Forall (λ x, a ≤ c_now x.1 ≤ b) l → 0 ≤ first_time (acts P l) ≤ b.
Proof.
  intros Hab Hl. unfold first_time. destruct (acts P l) as [|x k] eqn:He; simpl; [lia|].
  assert (x ∈ acts P l) as Hx by (rewrite He; set_solver).
  apply list_elem_of_filter in Hx as [_ Hx]. eapply Forall_forall in Hl; [|done]. lia.
Qed.

Lemma device_time_bound l a b :
  0 ≤ a ≤ b → Forall (λ x, a ≤ c_now x.1 ≤ b) l → 0 ≤ device_time l ≤ b.
Proof.
  intros Hab Hl. unfold device_time.
  destruct (acts is_issue (tail (acts to_driver l))) as [|x k] eqn:He;
    [by eapply first_time_bound|].
  unfold last_time. destruct (last (x :: k)) as [y|] eqn:Hy; simpl; [|lia].
  apply last_Some_elem_of in Hy. rewrite <-He in Hy. apply list_elem_of_filter in Hy as [_ Hy].
  assert (y ∈ acts to_driver l) as Hin by (destruct (acts to_driver l); set_solver).
  apply list_elem_of_filter in Hin as [_ Hin]. eapply Forall_forall in Hl; [|done]. lia.
Qed.

Lemma finished_within c f r now :
  r ∈ finished c f → 0 < c_now f.1.1 ≤ now → now ≤ c_now c < 2 ^ 64 →
  Forall (λ x, c_now f.1.1 ≤ c_now x.1 ≤ now) f.2 →
  within r ∧ ts_at r 4 = c_now c ∧ ts_at r 0 = c_now f.1.1 ∧
  ts_at r 2 ≠ 0 ∧ ts_at r 3 ≠ 0.
Proof.
  destruct f as [[c0 g] l]. unfold finished. cbn [fst snd].
  destruct (at_device l && came_back l) eqn:Hseen; [|by intros ?%not_elem_of_nil].
  intros ->%list_elem_of_singleton Hs Hc Hl.
  assert (timed l) as Ht by (eapply Forall_impl; [exact Hl|]; simpl; intros; lia).
  apply andb_true_iff in Hseen as [H2 H3]. unfold at_device, came_back in H2, H3.
  apply negb_true_iff, bool_decide_eq_false in H2, H3.
  rewrite <-(device_time_zero l Ht) in H2.
  rewrite <-(first_time_zero (acts (is_pass 3) l) (timed_acts _ _ Ht)) in H3.
  pose proof (first_time_bound to_driver l (c_now c0) now ltac:(lia) Hl).
  pose proof (first_time_bound (is_pass 3) l (c_now c0) now ltac:(lia) Hl).
  pose proof (device_time_bound l (c_now c0) now ltac:(lia) Hl).
  split; [|done]. unfold within, ts_at. cbn.
  split; [|lia]. intros i Hi. destruct i as [|[|[|[|i]]]]; cbn; lia.
Qed.

(** Every report of the specification comes from a completed life. *)
Lemma io_spec_event dev tr : ∀ now hist r,
  clock_back now hist → 0 < now → clock_from now tr → r ∈ io_spec dev hist tr →
  ∃ c f now', r ∈ finished c f ∧ 0 < c_now f.1.1 ≤ now' ∧ now' ≤ c_now c < 2 ^ 64 ∧
    Forall (λ x, c_now f.1.1 ≤ c_now x.1 ≤ now') f.2.
Proof.
  induction tr as [|i tr IH]; intros now hist r Hb Hpos Hclk; [by intros ?%not_elem_of_nil|].
  destruct Hclk as [Hi Hclk]. cbn [io_spec]. intros [Hr|Hr]%elem_of_app; cycle 1.
  { eapply (IH (c_now (ctx_of i))); [|lia|done|exact Hr]. split; [lia|].
    destruct hist as [|j hist]; [done|]. simpl in *. split; [lia|]. apply Hb. }
  destruct (act_of dev hist i) as [[sec [| | |]]|]; try by apply not_elem_of_nil in Hr.
  destruct (open_life dev sec hist) as [[[c g] l]|] eqn:Ho; [|by apply not_elem_of_nil in Hr].
  destruct (life_times _ _ _ _ _ _ _ Hb Ho) as [Hc Hl].
  by exists (ctx_of i), (c, g, l), now.
Qed.

(** The longest delay and its component, on times in order. *)
Lemma max_delay_loop_spec r todo : ∀ m idx,
  m ≤ (max_delay_loop r todo m idx).1 ∧
  Forall (λ i, delay_us r i (i - 1) ≤ (max_delay_loop r todo m idx).1) todo ∧
  (max_delay_loop r todo m idx = (m, idx) ∨
   (max_delay_loop r todo m idx).2 ∈ todo ∧
   (max_delay_loop r todo m idx).1
     = delay_us r (max_delay_loop r todo m idx).2 ((max_delay_loop r todo m idx).2 - 1)).
Proof.
  induction todo as [|i todo IH]; intros m idx; [split_and!; [done|done|by left]|].
  cbn [max_delay_loop]. destruct (Z.ltb_spec m (delay_us r i (i - 1))) as [Hlt|Hge].
  - destruct (IH (delay_us r i (i - 1)) i) as (H1 & H2 & H3).
    split_and!; [lia|by constructor|]. right. destruct H3 as [H3|[H3 H3']].
    + rewrite H3. simpl. split; [set_solver|done].
    + split; [set_solver|done].
  - destruct (IH m idx) as (H1 & H2 & H3). split_and!; [lia|constructor; [lia|done]|].
    destruct H3 as [H3|[H3 H3']]; [by left|right]. split; [set_solver|done].
Qed.

(** C15: every reported request is accounted for without loss: its times lie
    between allocation and completion, it is selected exactly when the time
    between the two reaches the threshold, and the printed breakdown is exactly
    this: a component is listed when its point is later than every point before
    it, with the time since the latest of those. So when the points are in
    order, block, driver, disk and complete are listed, each with the time
    since the point before it; when the driver's point was not seen, the
    driver's delay is counted from the start. The listed delays always add up to
    the total printed beside them. *)
Theorem iosdiag_breakdown (P : gset iosdiag_key) (Q : gset Z) dev tr r threshold_us :
  (size P ≤ MAX_REQS)%nat → (size Q ≤ MAX_REQS)%nat → Forall (in_tables P Q) tr →
  clock_from 1 tr → 0 ≤ threshold_us * 1000 < 2 ^ 64 →
  r ∈ (run tr (io_maps0 dev)).2 →
  within r ∧
  over_threshold threshold_us r = bool_decide (threshold_us * 1000 ≤ ts_at r 4 - ts_at r 0) ∧
  delay_loop r (seq 1 4) 0 false = concat (fmt_delay <$> stage_delays r) ∧
  (ts_at r 0 < ts_at r 1 < ts_at r 2 → ts_at r 2 < ts_at r 3 < ts_at r 4 →
   stage_delays r = (λ i, (i, ts_at r i / 1000 - ts_at r (i - 1) / 1000)) <$> [1; 2; 3; 4]%nat) ∧
  (ts_at r 1 = 0 → ts_at r 0 < ts_at r 2 < ts_at r 3 → ts_at r 3 < ts_at r 4 →
   stage_delays r = [(2%nat, ts_at r 2 / 1000 - ts_at r 0 / 1000);
                     (3%nat, ts_at r 3 / 1000 - ts_at r 2 / 1000);
                     (4%nat, ts_at r 4 / 1000 - ts_at r 3 / 1000)]) ∧
  sumZ (snd <$> stage_delays r) = get_total_delay r ∧
  get_total_delay r = ts_at r 4 / 1000 - ts_at r 0 / 1000.
Proof.
  intros HP HQ Hin Hclk Hth Hr.
  rewrite (io_refines P Q dev tr 1 []) in Hr; try done; [|apply io_ok0].
  destruct (io_spec_event dev tr 1 [] r) as (c & f & now & Hf & Hs & Hc & Hl); [done..|].
  destruct (finished_within c f r now Hf Hs Hc Hl) as (Hw & H4 & H0 & _).
  split; [done|]. split.
  - unfold over_threshold, IO_COMPLETE_TIME_POINT, IO_START_POINT.
    rewrite !wrap_small by lia. case_bool_decide; [by apply Z.leb_le|apply Z.leb_gt; lia].
  - assert (get_total_delay r = ts_at r 4 / 1000 - ts_at r 0 / 1000) as Ht.
    { apply delay_us_small; simpl; lia. }
    rewrite <-(counted_stages r Hw) at 1 4.
    split_and!; [apply delay_loop_counted; repeat constructor; lia|..|by rewrite delays_sum|done];
      pose proof Hw as (_ & ? & ? & ? & ? & ?).
    + by apply stages_in_order.
    + by apply stages_no_driver.
Qed.

(** On a request whose points are in order, the summary names the stage that
    took longest: the delay it prints is the largest of the four, it is the
    delay of the component it names, and it does not exceed the total. *)
Theorem iosdiag_longest r :
  0 ≤ ts_at r 0 ≤ ts_at r 1 → ts_at r 1 ≤ ts_at r 2 → ts_at r 2 ≤ ts_at r 3 → ts_at r 3 ≤ ts_at r 4 →
  ts_at r 4 < 2 ^ 64 → ts_at r 0 / 1000 < ts_at r 4 / 1000 →
  ∃ i name, (1 ≤ i ≤ 4)%nat ∧ delay_idx_to_str i = Some name ∧ get_max_delay_component r = name ∧
    get_max_delay r = ts_at r i / 1000 - ts_at r (i - 1) / 1000 ∧
    (∀ j, (1 ≤ j ≤ 4)%nat → ts_at r j / 1000 - ts_at r (j - 1) / 1000 ≤ get_max_delay r) ∧
    get_max_delay r ≤ get_total_delay r.
Proof.
  intros H0 H1 H2 H3 H4 Hlt.
  assert (∀ j, (1 ≤ j ≤ 4)%nat → delay_us r j (j - 1) = ts_at r j / 1000 - ts_at r (j - 1) / 1000) as Hd.
  { intros j Hj. apply delay_us_small; destruct j as [|[|[|[|[|j]]]]]; simpl; lia. }
  assert (get_total_delay r = ts_at r 4 / 1000 - ts_at r 0 / 1000) as Ht
    by (apply delay_us_small; simpl; lia).
  unfold get_max_delay, get_max_delay_component.
  destruct (max_delay_loop_spec r (seq 1 4) 0 0) as (_ & Hall & Hc).
  destruct (max_delay_loop r (seq 1 4) 0 0) as [m idx]. simpl in Hc. cbn [fst snd] in *.
  assert (∀ j, (1 ≤ j ≤ 4)%nat → ts_at r j / 1000 - ts_at r (j - 1) / 1000 ≤ m) as Hmax.
  { intros j Hj. rewrite <-Hd by done. rewrite Forall_forall in Hall. apply Hall, elem_of_seq. lia. }
  pose proof (Hmax 1%nat ltac:(lia)). pose proof (Hmax 2%nat ltac:(lia)).
  pose proof (Hmax 3%nat ltac:(lia)). pose proof (Hmax 4%nat ltac:(lia)). simpl Nat.sub in *.
  destruct Hc as [[= -> ->]|[Hin Hm]]; [exfalso; lia|].
  apply (elem_of_seq 1 4) in Hin. rewrite Hd in Hm by lia.
  exists idx, (default [] (delay_idx_to_str idx)).
  pose proof (Z.div_le_mono (ts_at r 0) (ts_at r 1) 1000). pose proof (Z.div_le_mono (ts_at r 1) (ts_at r 2) 1000).
  pose proof (Z.div_le_mono (ts_at r 2) (ts_at r 3) 1000). pose proof (Z.div_le_mono (ts_at r 3) (ts_at r 4) 1000).
  rewrite Ht. destruct idx as [|[|[|[|[|idx]]]]]; try lia; simpl Nat.sub in *; split_and!;
    try done; lia.
Qed.


(** The same write without the retry. *)
Definition s_plain : list io_in :=
  [Getrq (s_io 1000000 0) s_getrq; RqIssue (s_io 2000000 0) (IssueArgs 8388608 64 8 4096);
   ScsiDispatch (s_io 3000000 0) 1 (λ _, s_rq); ScsiDone (s_io 6500000 1) 1 (λ _, s_rq);
   RqComplete (s_io 7000000 1) (CompleteArgs 8388608 64)].
Definition s_plain_req : iosdiag_req :=
  IoReq 7 (lit "dd") (lit "sda" ++ replicate 29 0) [1000000; 2000000; 3000000; 6500000; 7000000]
    [0; 1; 1] (lit "W") 4096 64.

Lemma iosdiag_breakdown_witness :
  over_threshold 6000 s_plain_req = true ∧
  delay_loop s_plain_req (seq 1 4) 0 false
  = concat (fmt_delay <$> [(1%nat, 1000); (2%nat, 1000); (3%nat, 3500); (4%nat, 500)]).
Proof.
  destruct (iosdiag_breakdown {[(0, 64)]} ∅ 0 s_plain s_plain_req 6000) as (_ & Ho & Hd & Hi & _).
  - rewrite size_singleton. unfold MAX_REQS. lia.
  - rewrite size_empty. lia.
  - repeat constructor; simpl; set_solver.
  - by repeat split.
  - done.
  - replace (run s_plain (io_maps0 0)).2 with [s_plain_req] by (vm_compute; reflexivity). set_solver.
  - split; [by rewrite Ho|]. rewrite Hd, Hi; [reflexivity|by vm_compute..].
Defined.

Lemma iosdiag_longest_witness : ∃ i name,
  delay_idx_to_str i = Some name ∧ get_max_delay_component s_plain_req = name ∧
  get_max_delay s_plain_req ≤ get_total_delay s_plain_req.
Proof.
  destruct (iosdiag_longest s_plain_req) as (i & name & _ & Hn & Hc & _ & _ & Hm); try done.
  by exists i, name.
Defined.

(** The summary of a request that the device answered and the driver then
    issued again is wrong: the second issue overwrites the time of the first,
    the first answer keeps its own, so the disk's delay is negative and wraps;
    the summary blames the disk for 2^64 - 1000 microseconds of a request that
    took 6000. *)
Theorem iosdiag_retry_wraps :
  (λ r, (get_max_delay_component r, get_max_delay r, get_total_delay r))
    <$> (run s_retry (io_maps0 8388608)).2
  = [(lit "disk", 2 ^ 64 - 1000, 6000)].
Proof. vm_compute. reflexivity. Qed.

(** ** Loading: [iosdiag_init]

    Each object has its own maps. [loads] says which objects the kernel
    accepts; the state is the objects loaded (attached), in order, the one
    whose maps are read, and the filter stored in those maps. *)

Inductive obj := iosdiag_virtblk | iosdiag_nvme | iosdiag_scsi | iosdiag_scsi_mq.
#[global] Instance obj_eq_dec : EqDecision obj.
Proof. solve_decision. Defined.

Record loader := Loader { loaded : list obj; maps_of : option obj; filter_of : option Z }.

Section init.
Context (loads : obj → bool).

(** [LOAD_IOSDIAG_BPF(name, load_map)]: 0 on success and -1 on failure. *)
Definition LOAD_IOSDIAG_BPF (name : obj) (load_map : bool) (s : loader) : Z * loader :=
  if loads name
  then (0, Loader (loaded s ++ [name]) (if load_map then Some name else maps_of s) (filter_of s))
  else (-1, s).

(** The name of the driver, from the link in [/sys/class/block]. *)
Definition get_module_name_by_devname (link : option (list Z)) : list Z :=
  match link with
  | None => lit "none"
  | Some path =>
      if contains path (lit "virtio") then lit "virtblk"
      else if contains path (lit "nvme") then lit "nvme"
      else if contains path (lit "target") then lit "scsi"
      else lit "none"
  end.

(** Tries one object, then another only if the first fails. *)
Definition load_scsi (load_map : bool) (s : loader) : Z * loader :=
  let '(r, s) := LOAD_IOSDIAG_BPF iosdiag_scsi load_map s in
  if negb (r =? 0) then LOAD_IOSDIAG_BPF iosdiag_scsi_mq load_map s else (0, s).

Definition iosdiag_init (target_devt : Z) (link : option (list Z)) (s : loader) : Z * loader :=
  let module_name := get_module_name_by_devname link in
  let '(r, s) :=
    if decide (module_name = lit "virtblk") then LOAD_IOSDIAG_BPF iosdiag_virtblk true s
    else if decide (module_name = lit "nvme") then LOAD_IOSDIAG_BPF iosdiag_nvme true s
    else if decide (module_name = lit "scsi") then load_scsi true s
    else
      let '(r, s) := LOAD_IOSDIAG_BPF iosdiag_virtblk true s in
      if negb (r =? 0) then
        let '(r, s) := LOAD_IOSDIAG_BPF iosdiag_nvme true s in
        if negb (r =? 0) then load_scsi true s
        else (0, (load_scsi false s).2)
      else
        let s := (LOAD_IOSDIAG_BPF iosdiag_nvme false s).2 in
        (0, (load_scsi false s).2) in
  if negb (r =? 0) then (-1, s)
  else (0, if negb (target_devt =? 0) then Loader (loaded s) (maps_of s) (Some target_devt) else s).

(** Whatever the disk and whatever the kernel accepts, the tool starts
    exactly when some object was loaded, and then it reads the maps of the
    first object loaded and of no other: the requests that a second or third
    object traces (a disk whose driver is not recognised) go to maps nobody
    reads and that have no device filter. *)
Theorem iosdiag_init_reads_one target_devt link :
  let '(r, s) := iosdiag_init target_devt link (Loader [] None None) in
  (r = 0 ↔ loaded s ≠ []) ∧ (r = 0 ∨ r = -1) ∧
  maps_of s = head (loaded s) ∧
  filter_of s = (if (r =? 0) && negb (target_devt =? 0) then Some target_devt else None).
Proof.
  unfold iosdiag_init, load_scsi, LOAD_IOSDIAG_BPF.
  destruct (loads iosdiag_virtblk), (loads iosdiag_nvme), (loads iosdiag_scsi), (loads iosdiag_scsi_mq);
    repeat case_decide; simpl; destruct (target_devt =? 0); simpl; repeat split; try done; auto.
Qed.
End init.
