(* ===== verification/TsarRecord.v ===== *)
(** * TsarRecord: the records of the monitor service

    The text format in which [mservice] (tsar) keeps its samples:
    [master/src/common.c], and of [framework.c] and [output_file.c] the
    functions that write a line of the data file and read it back.

    A line is the time followed by a section [|opt:record] per module; a record
    is a list of numbers [n,n,...], or items [name=n,n,...;]. *)

From S2P Require Import Prelude CString CFloat.

Definition COMMA : Z := 44.
Definition COLON : Z := 58.
Definition SEMICOLON : Z := 59.
Definition EQUALS : Z := 61.
Definition BAR : Z := 124.
Definition NEWLINE : Z := 10.

Definition MAX_COL_NUM : Z := 64.
Definition LEN_1M : Z := 1048576.
Definition LEN_10M : Z := 10485760.

Inductive merge_mode := MERGE_NULL | MERGE_SUM | MERGE_AVG.
Inductive stats_opt := STATS_NULL | STATS_SUB | STATS_SUB_INTER.
Inductive bit := HIDE_BIT | DETAIL_BIT | SUMMARY_BIT | SPEC_BIT.

Record mod_info := ModInfo { i_hdr : list Z; i_summary_bit : bit; i_merge : merge_mode; i_stats : stats_opt }.

(** [struct module], without the handles of the shared object. The arrays are
    [None] before they are allocated. *)
Record module := Module {
  m_name : list Z; m_opt_line : list Z; m_record : list Z;
  m_info : list mod_info; m_n_col : Z;
  m_enable : bool; m_spec : bool;
  m_n_item : Z; m_n_record : Z; m_pre_flag : bool; m_st_flag : bool;
  m_pre_array : option (list Z); m_cur_array : option (list Z); m_st_array : list double;
  m_max_array : list double; m_mean_array : list double; m_min_array : list double;
  m_warn_triger : Z;
}.

Definition set_record (r : list Z) (m : module) : module :=
  Module (m_name m) (m_opt_line m) r (m_info m) (m_n_col m) (m_enable m) (m_spec m)
    (m_n_item m) (m_n_record m) (m_pre_flag m) (m_st_flag m) (m_pre_array m) (m_cur_array m)
    (m_st_array m) (m_max_array m) (m_mean_array m) (m_min_array m) (m_warn_triger m).

(** ** common.c *)

Fixpoint all_digits (s : list Z) : bool :=
  match s with [] => true | x :: s' => isdigit x && all_digits s' end.

Definition is_digit (str : list Z) : bool :=
  match str with x :: s' => if x =? 45 then all_digits s' else all_digits str | [] => true end.

(** The loop of [convert_record_to_array]: the values it stores, at most [n]. *)
Fixpoint convert_loop (n : nat) (record : list Z) : list Z :=
  match n with
  | O => []
  | S n' =>
      let '(num, ptr) := strtoull record in
      num :: match strpbrk COMMA ptr with
             | None => []
             | Some _ => convert_loop n' (tail ptr)
             end
  end.

Definition convert_record_to_array (l_array : Z) (record : list Z) : list Z :=
  if (l_array <=? 0) || (zlen record =? 0) then [] else convert_loop (Z.to_nat l_array) record.

(** One column of [merge_one_string]. *)
Definition merge_col (n_item : Z) (info : mod_info) (a b : Z) : Z :=
  match i_merge info with
  | MERGE_SUM => u64 (a + b)
  | MERGE_AVG => u64 (u64 (a * u64 (n_item - 1)) + b) / u64 n_item
  | MERGE_NULL => a
  end.

(** The columns that have a value are merged; [None]: there is a value and no
    column of [info] or of the array for it. *)
Fixpoint merge_cols (n_item : Z) (info : list mod_info) (array vals : list Z) : option (list Z) :=
  match vals, info, array with
  | [], _, _ => Some array
  | b :: vals', i :: info', a :: array' =>
      rest ← merge_cols n_item info' array' vals'; Some (merge_col n_item i a b :: rest)
  | _, _, _ => None
  end.

(** [None]: an access out of bounds; [array_2] has [MAX_COL_NUM] cells. *)
Definition merge_one_string (array : list Z) (l_array : Z) (str : list Z) (mod_ : module) (n_item : Z)
    : option (bool * list Z) :=
  let array_2 := convert_record_to_array l_array str in
  if MAX_COL_NUM <? zlen array_2 then None
  else if zlen array_2 <=? 0 then Some (false, array)
  else array ← merge_cols n_item (m_info mod_) array array_2; Some (true, array).

(** The next item from [start] on, and the new [start]. *)
Definition strtok_next_item (record : list Z) (start : Z) : option (list Z * Z) :=
  if (zlen record =? 0) || (zlen record <=? start) then None
  else
    let n_record := drop (Z.to_nat start) record in
    match strpbrk SEMICOLON n_record, strpbrk EQUALS n_record with
    | Some e_token, Some s_token =>
        if zlen s_token <? zlen e_token then None
        else Some (tail s_token, zlen record - zlen e_token + 2)
    | _, _ => None
    end.

(** The loop of [merge_mult_item_to_array]; each round moves [pos] forward, so
    the length of the record bounds the rounds. *)
Fixpoint merge_items (fuel : nat) (mod_ : module) (array : list Z) (pos n_item : Z)
    : option (bool * list Z) :=
  match fuel with
  | O => None
  | S f =>
      match strtok_next_item (m_record mod_) pos with
      | None => Some (true, array)
      | Some (item, pos') =>
          match merge_one_string array (m_n_col mod_) item mod_ n_item with
          | None => None
          | Some (false, array') => Some (false, array')
          | Some (true, array') => merge_items f mod_ array' pos' (n_item + 1)
          end
      end
  end.

Definition merge_mult_item_to_array (array : list Z) (mod_ : module) : option (bool * list Z) :=
  let n := Z.to_nat (m_n_col mod_) in
  if (length array <? n)%nat then None
  else merge_items (S (length (m_record mod_))) mod_ (replicate n 0 ++ drop n array) 0 1.

Definition get_strtok_num (str : list Z) (split : Z) : Z := strtok_count split false str.

(** ** Writing and reading a line *)

(** [|opt:record] *)
Definition section_of (m : module) : list Z := BAR :: m_opt_line m ++ COLON :: m_record m.

Inductive written := Exits | NoData | Line (l : list Z).

(** The loop of [output_file]: the line so far and whether it holds data. *)
Fixpoint output_loop (mods : list module) (line : list Z) (ret : bool) : written :=
  match mods with
  | [] => if ret then Line (line ++ [NEWLINE]) else NoData
  | m :: mods' =>
      if m_enable m && negb (zlen (m_record m) =? 0) then
        let detail := section_of m in
        if LEN_1M - 1 <=? zlen detail then Exits
        else if LEN_10M - 2 <=? zlen line + zlen detail then Exits
        else output_loop mods' (line ++ detail) true
      else output_loop mods' line ret
  end.

Definition output_file (cur_time : Z) (mods : list module) : written :=
  output_loop mods (fmt_ld cur_time) false.

(** What [read_line_to_module_record] does to one module, with the line cut. *)
Definition read_module (line : list Z) (m : module) : module :=
  if m_enable m then
    match strstr line (BAR :: m_opt_line m ++ [COLON]) with
    | None => set_record [] m
    | Some s_token =>
        let s := drop (length (m_opt_line m) + 2) s_token in
        match strpbrk BAR s with
        | Some e_token => set_record (take (length s - length e_token) s) m
        | None => set_record s m
        end
    end
  else m.

Definition read_line_to_module_record (line : list Z) (mods : list module) : list module * Z :=
  let line := removelast line in
  (read_module line <$> mods, atol line).

(** ** Numbers round trip *)

(** The values as a module prints them. *)
Fixpoint fmt_more (vals : list Z) : list Z :=
  match vals with [] => [] | v :: vals' => COMMA :: fmt_llu v ++ fmt_more vals' end.
Definition fmt_vals (vals : list Z) : list Z :=
  match vals with [] => [] | v :: vals' => fmt_llu v ++ fmt_more vals' end.

Definition is_u64 (v : Z) : Prop := 0 ≤ v < 2 ^ 64.

Lemma no_digit_more vals rest : no_digit rest → no_digit (fmt_more vals ++ rest).
Proof. by destruct vals. Qed.

Lemma convert_loop_vals v vals n rest :
  Forall is_u64 (v :: vals) → no_digit rest → (n ≤ S (length vals))%nat ∨ COMMA ∉ rest →
  convert_loop n (fmt_vals (v :: vals) ++ rest) = take n (v :: vals).
Proof.
  revert v n; induction vals as [|w vals IH]; intros v [|n] Hu Hr Hn; try done;
    apply Forall_cons in Hu as [Hv Hu]; simpl; rewrite <-app_assoc.
  - rewrite strtoull_fmt by done. simpl. rewrite take_nil. f_equal.
    destruct Hn as [Hn|Hn]; [|by rewrite strpbrk_none].
    destruct n; [|simpl in Hn; lia]. by case_match.
  - rewrite strtoull_fmt by (done || by simpl). simpl.
    f_equal. change (fmt_llu w ++ fmt_more vals) with (fmt_vals (w :: vals)).
    apply IH; [done..|]. simpl in Hn. destruct Hn; [left; lia|by right].
Qed.

Lemma fmt_vals_nonempty v vals s : is_u64 v → 0 < zlen (fmt_vals (v :: vals) ++ s).
Proof.
  intros [Hv _]. unfold fmt_vals, fmt_llu. rewrite <-app_assoc.
  destruct (dec_digits_head 19 v (fmt_more vals ++ s) Hv) as (c & l & -> & _).
  rewrite zlen_cons. pose proof (zlen_nonneg l). lia.
Qed.

(** A record round trips: the numbers a module prints, separated by commas,
    are the numbers [convert_record_to_array] reads, up to the length of the
    array, for all 64-bit values. *)
Theorem tsar_record_roundtrip l_array v vals :
  0 ≤ l_array → Forall is_u64 (v :: vals) →
  convert_record_to_array l_array (fmt_vals (v :: vals)) = take (Z.to_nat l_array) (v :: vals).
Proof.
  intros Hl Hu. unfold convert_record_to_array. rewrite <-(app_nil_r (fmt_vals (v :: vals))).
  pose proof (fmt_vals_nonempty v vals [] ltac:(by inversion Hu)).
  rewrite (proj2 (Z.eqb_neq (zlen _) 0)), orb_false_r by lia.
  destruct (Z.leb_spec l_array 0); [by replace l_array with 0 by lia|].
  apply convert_loop_vals; [done..|right; set_solver].
Qed.

Lemma tsar_record_roundtrip_witness :
  convert_record_to_array 3 (fmt_vals [17; 0; 18446744073709551615]) = [17; 0; 18446744073709551615].
Proof. apply (tsar_record_roundtrip 3 17 [0; 18446744073709551615]); [lia|repeat constructor; lia]. Defined.

(** ** Items *)

(** [name=n,n,...;] *)
Definition fmt_item (x : list Z * list Z) : list Z := x.1 ++ EQUALS :: fmt_vals x.2 ++ [SEMICOLON].

Definition item_ok (n_col : Z) (x : list Z * list Z) : Prop :=
  x.1 ≠ [] ∧ (EQUALS ∉ x.1) ∧ (SEMICOLON ∉ x.1) ∧ Forall is_u64 x.2 ∧ zlen x.2 = n_col.

Lemma fmt_vals_notin c vals :
  Forall is_u64 vals → c ≠ COMMA → ¬ (48 ≤ c ≤ 57) → c ∉ fmt_vals vals.
Proof.
  intros Hu Hc Hd. assert (∀ v, is_u64 v → c ∉ fmt_llu v) as Hf.
  { intros v [Hv _]. by apply fmt_llu_notin. }
  assert (c ∉ fmt_more (tail vals)) as Hm.
  { destruct Hu as [|v vals Hv Hu]; [simpl; set_solver|]. simpl. clear Hv.
    induction Hu as [|w vals Hw _ IH]; simpl; [set_solver|].
    apply not_elem_of_cons. split; [done|]. apply not_elem_of_app. auto. }
  destruct Hu as [|v vals Hv _]; simpl; [set_solver|]. apply not_elem_of_app. auto.
Qed.

(** The item at [pos], which is at its first character or one behind it. *)
Lemma next_item_spec n_col past x rest pos :
  item_ok n_col x → pos = zlen past ∨ pos = zlen past + 1 →
  strtok_next_item (past ++ fmt_item x ++ rest) pos
  = Some (fmt_vals x.2 ++ SEMICOLON :: rest, zlen (past ++ fmt_item x) + 1).
Proof.
  destruct x as [[|c name] vals]; intros (Hne & Heq & Hsc & Hu & _) Hpos; [done|].
  cbn [fst snd] in *.
  assert (SEMICOLON ∉ fmt_vals vals) as Hv by (apply fmt_vals_notin; [done..|unfold SEMICOLON; lia]).
  set (record := past ++ fmt_item (c :: name, vals) ++ rest).
  set (body := fmt_vals vals ++ SEMICOLON :: rest).
  assert (∃ n', (n' = c :: name ∨ n' = name) ∧ drop (Z.to_nat pos) record = n' ++ EQUALS :: body) as (n' & Hn' & Hdrop).
  { assert (record = past ++ c :: name ++ EQUALS :: body) as ->.
    { subst record body. unfold fmt_item. simpl. by rewrite <-!app_assoc, <-!app_comm_cons, <-!app_assoc. }
    destruct Hpos as [-> | ->]; unfold zlen.
    - exists (c :: name). split; [by left|]. by rewrite Nat2Z.id, drop_app_length.
    - exists name. split; [by right|].
      replace (Z.to_nat (Z.of_nat (length past) + 1)) with (length (past ++ [c]))
        by (rewrite length_app; simpl; lia).
      by rewrite (snoc_middle past c (name ++ _)), drop_app_length. }
  assert ((EQUALS ∉ n') ∧ (SEMICOLON ∉ n')) as [He Hs]
    by (destruct Hn' as [-> | ->]; set_solver).
  assert (zlen record = zlen (past ++ fmt_item (c :: name, vals)) + zlen rest) as Hlen.
  { subst record. by rewrite app_assoc, zlen_app. }
  assert (zlen (past ++ fmt_item (c :: name, vals)) = zlen past + 3 + zlen name + zlen (fmt_vals vals)) as Hl2.
  { unfold fmt_item. simpl. rewrite !zlen_app, zlen_cons, !zlen_app, zlen_cons, zlen_app.
    change (zlen [SEMICOLON]) with 1. lia. }
  pose proof (zlen_nonneg rest). pose proof (zlen_nonneg name). pose proof (zlen_nonneg past).
  pose proof (zlen_nonneg (fmt_vals vals)).
  unfold strtok_next_item. cbv zeta. rewrite Hdrop, (strpbrk_app EQUALS) by done.
  rewrite strpbrk_app_r by done. simpl strpbrk at 1. unfold body at 1. rewrite strpbrk_app by done.
  rewrite (proj2 (Z.eqb_neq _ _)), (proj2 (Z.leb_gt _ _)) by lia. simpl orb. cbv iota.
  assert (zlen (EQUALS :: body) = zlen (fmt_vals vals) + 2 + zlen rest) as ->.
  { subst body. rewrite zlen_cons, zlen_app, zlen_cons. lia. }
  rewrite zlen_cons, (proj2 (Z.ltb_ge _ _)) by lia. simpl tail. do 2 f_equal. lia.
Qed.

(** The array with values merged into its first columns. *)
Fixpoint merged (n_item : Z) (info : list mod_info) (array vals : list Z) : list Z :=
  match info, array, vals with
  | i :: info', a :: array', b :: vals' => merge_col n_item i a b :: merged n_item info' array' vals'
  | _, _, _ => array
  end.

Lemma merge_cols_merged n info array vals :
  (length vals ≤ length info)%nat → (length vals ≤ length array)%nat →
  merge_cols n info array vals = Some (merged n info array vals).
Proof.
  revert array vals; induction info as [|i info IH]; intros [|a array] [|b vals] H1 H2; simpl in *; try lia; try done.
  by rewrite IH by lia.
Qed.

Lemma length_merged n info array vals : length (merged n info array vals) = length array.
Proof. revert array vals; induction info; intros [|a0 array] [|b vals]; simpl; auto. Qed.

(** The rounds of the merge are those of the items. *)
Definition merge_all (mod_ : module) (array : list Z) (n0 : Z) (items : list (list Z * list Z)) : list Z :=
  (foldl (λ '(a, n) x, (merged n (m_info mod_) a x.2, n + 1)) (array, n0) items).1.

Lemma merge_one_item mod_ array x rest n_item :
  0 < m_n_col mod_ ≤ MAX_COL_NUM → zlen (m_info mod_) = m_n_col mod_ → zlen array = m_n_col mod_ →
  item_ok (m_n_col mod_) x →
  merge_one_string array (m_n_col mod_) (fmt_vals x.2 ++ SEMICOLON :: rest) mod_ n_item
  = Some (true, merged n_item (m_info mod_) array x.2).
Proof.
  destruct x as [name vals]. intros Hc Hinfo Harr (_ & _ & _ & Hu & Hl). cbn [fst snd] in *.
  destruct vals as [|v vals]; [unfold zlen in Hl; simpl in Hl; lia|].
  pose proof (fmt_vals_nonempty v vals (SEMICOLON :: rest) ltac:(by inversion Hu)) as Hz.
  unfold merge_one_string, convert_record_to_array.
  rewrite (proj2 (Z.leb_gt (m_n_col mod_) 0)), (proj2 (Z.eqb_neq (zlen _) 0)) by lia. cbn [orb].
  rewrite convert_loop_vals, (take_ge (v :: vals))
    by (done || rewrite <-Hl; unfold zlen; simpl; lia).
  rewrite Hl, (proj2 (Z.leb_gt _ 0)), (proj2 (Z.ltb_ge _ _)) by lia.
  unfold zlen in *. by rewrite merge_cols_merged by lia.
Qed.

Lemma merge_items_spec mod_ past items array pos n_item fuel :
  m_record mod_ = past ++ concat (map fmt_item items) →
  0 < m_n_col mod_ ≤ MAX_COL_NUM → zlen (m_info mod_) = m_n_col mod_ → zlen array = m_n_col mod_ →
  Forall (item_ok (m_n_col mod_)) items →
  pos = zlen past + (if zlen past =? 0 then 0 else 1) → (length items < fuel)%nat →
  merge_items fuel mod_ array pos n_item = Some (true, merge_all mod_ array n_item items).
Proof.
  revert past items array pos n_item.
  induction fuel as [|f IH]; intros past items array pos n_item Hr Hc Hinfo Harr Hi Hpos Hf; [lia|]. simpl.
  destruct Hi as [|x items Hx Hi]; simpl in Hr; rewrite Hr.
  - rewrite app_nil_r. unfold strtok_next_item. rewrite Hpos.
    destruct (Z.eqb_spec (zlen past) 0) as [->|]; [done|]. simpl. by zif.
  - assert (pos = zlen past ∨ pos = zlen past + 1) as Hp by (case_match; lia).
    rewrite (next_item_spec (m_n_col mod_)), merge_one_item by done.
    destruct Hx as (Hne & _).
    rewrite (IH (past ++ fmt_item x) items).
    + done.
    + by rewrite <-app_assoc.
    + done.
    + done.
    + unfold zlen in *. by rewrite length_merged.
    + done.
    + rewrite (proj2 (Z.eqb_neq _ _)); [done|]. rewrite zlen_app. unfold fmt_item. rewrite zlen_app, zlen_cons.
      pose proof (zlen_nonneg past). pose proof (zlen_nonneg x.1).
      pose proof (zlen_nonneg (fmt_vals x.2 ++ [SEMICOLON])). lia.
    + simpl in Hf. lia.
Qed.

(** Sums, column by column. *)
Definition col_sum (j : nat) (items : list (list Z * list Z)) : Z :=
  foldr (λ x t, nth j x.2 0 + t) 0 items.

Lemma merged_lookup n info array vals j :
  Forall (λ i, i_merge i = MERGE_SUM) info → length info = length array → length vals = length array →
  merged n info array vals !! j = (λ a, u64 (a + nth j vals 0)) <$> array !! j.
Proof.
  intros Hi. revert array vals j.
  induction Hi as [|i info Hi _ IH]; intros [|a array] [|b vals] j H1 H2; simpl in *; try lia; [done|].
  destruct j as [|j]; simpl.
  - unfold merge_col. by rewrite Hi.
  - apply IH; lia.
Qed.

Lemma length_merge_all mod_ array n items : length (merge_all mod_ array n items) = length array.
Proof.
  revert array n. unfold merge_all. induction items as [|x items IH]; intros array n; [done|]. simpl.
  by rewrite IH, length_merged.
Qed.

Lemma merge_all_sum mod_ n items array j :
  Forall (λ i, i_merge i = MERGE_SUM) (m_info mod_) → length (m_info mod_) = length array →
  Forall (λ x, length x.2 = length array) items → (∀ a, array !! j = Some a → u64 a = a) →
  merge_all mod_ array n items !! j = (λ a, u64 (a + col_sum j items)) <$> array !! j.
Proof.
  intros Hi Hl Hx. revert array n Hl Hx. unfold merge_all.
  induction items as [|x items IH]; intros array n Hl Hx Ha; simpl.
  - destruct (array !! j) as [a|] eqn:Hj; simpl; [|done]. by rewrite Z.add_0_r, Ha.
  - apply Forall_cons in Hx as [Hx0 Hx].
    rewrite IH; [|by rewrite length_merged|by rewrite length_merged|].
    + rewrite merged_lookup by done. destruct (array !! j); simpl; [|done].
      by rewrite wrap_add, Z.add_assoc.
    + intros a. rewrite merged_lookup by done. destruct (array !! j); simpl; [|done].
      intros [= <-]. apply wrap_wrap.
Qed.

Lemma length_items items : Forall (λ x : list Z * list Z, x.1 ≠ []) items →
  (length items ≤ length (concat (map fmt_item items)))%nat.
Proof.
  induction 1 as [|x items Hx _ IH]; simpl; [lia|]. rewrite length_app. unfold fmt_item at 1.
  rewrite length_app. destruct x as [[|c name] vals]; [done|]. simpl. lia.
Qed.

(** The merged array. *)
Lemma merge_sums mod_ items array :
  0 < m_n_col mod_ ≤ MAX_COL_NUM → zlen (m_info mod_) = m_n_col mod_ → zlen array = m_n_col mod_ →
  Forall (λ i, i_merge i = MERGE_SUM) (m_info mod_) → Forall (item_ok (m_n_col mod_)) items →
  m_record mod_ = concat (map fmt_item items) →
  ∃ r, merge_mult_item_to_array array mod_ = Some (true, r) ∧ zlen r = m_n_col mod_ ∧
    ∀ j, (j < length r)%nat → r !! j = Some (u64 (col_sum j items)).
Proof.
  intros Hc Hinfo Harr Hm Hi Hr. unfold merge_mult_item_to_array, zlen in *.
  rewrite (proj2 (Nat.ltb_ge _ _)), drop_ge, app_nil_r by lia.
  assert (length items ≤ length (m_record mod_))%nat as Hit.
  { rewrite Hr. apply length_items. rewrite Forall_forall in Hi |- *. intros x Hx. by destruct (Hi x Hx). }
  rewrite (merge_items_spec mod_ [] items) by (done || lia || (unfold zlen; rewrite length_replicate; lia)).
  eexists. split; [done|]. set (z := replicate (Z.to_nat (m_n_col mod_)) 0).
  assert (length z = Z.to_nat (m_n_col mod_)) as Hz by apply length_replicate.
  assert (∀ j, merge_all mod_ z 1 items !! j = (λ a, u64 (a + col_sum j items)) <$> z !! j) as Hall.
  { intros j. apply merge_all_sum; [done|lia| |].
    - rewrite Forall_forall in Hi |- *. intros x Hx. destruct (Hi x Hx) as (_ & _ & _ & _ & Hl).
      unfold zlen in Hl. lia.
    - intros a [-> _]%lookup_replicate. done. }
  assert (length (merge_all mod_ z 1 items) = length z) as Hlen.
  { apply length_merge_all. }
  split; [lia|]. intros j Hj. rewrite Hall. unfold z. rewrite lookup_replicate_2 by lia. done.
Qed.

(** Merging the items of a record. On a record of well-formed items with as
    many numbers as the module has columns, all of them summed up,
    [merge_mult_item_to_array] succeeds, and each column of the array is the
    sum of the items' numbers in that column, modulo 2^64. *)
Theorem tsar_merge_sums mod_ items array :
  0 < m_n_col mod_ ≤ MAX_COL_NUM → zlen (m_info mod_) = m_n_col mod_ → zlen array = m_n_col mod_ →
  Forall (λ i, i_merge i = MERGE_SUM) (m_info mod_) → Forall (item_ok (m_n_col mod_)) items →
  m_record mod_ = concat (map fmt_item items) →
  ∃ r, merge_mult_item_to_array array mod_ = Some (true, r) ∧ zlen r = m_n_col mod_ ∧
    ∀ j, (j < length r)%nat → r !! j = Some (u64 (col_sum j items)).
Proof. apply merge_sums. Qed.

(** A module of two summed columns. *)
Definition t_info : mod_info := ModInfo [] SUMMARY_BIT MERGE_SUM STATS_SUB.
Definition t_module (opt record : list Z) : module :=
  Module [] opt record [t_info; t_info] 2 true false 0 0 false false None None [] [] [] [] 0.

(** The record [a=1,2;b=30,40;]. *)
Definition t_items : list (list Z * list Z) := [([97], [1; 2]); ([98], [30; 40])].

Lemma tsar_merge_sums_witness :
  ∃ r, merge_mult_item_to_array [7; 7] (t_module [] (concat (map fmt_item t_items))) = Some (true, r) ∧
    zlen r = 2 ∧ ∀ j, (j < length r)%nat → r !! j = Some (u64 (col_sum j t_items)).
Proof.
  apply (tsar_merge_sums (t_module [] (concat (map fmt_item t_items))) t_items [7; 7]);
    [done|reflexivity..|repeat constructor| |reflexivity].
  repeat constructor; simpl; try (unfold is_u64; lia); unfold EQUALS, SEMICOLON; set_solver.
Defined.

(** ** The data file *)

Definition writes (m : module) : bool := m_enable m && negb (zlen (m_record m) =? 0).

Definition mod_ok (m : module) : Prop :=
  (BAR ∉ m_opt_line m) ∧ (COLON ∉ m_opt_line m) ∧ (BAR ∉ m_record m).

Definition sections (mods : list module) : list Z :=
  concat (map section_of (filter (λ m, writes m = true) mods)).

Lemma output_loop_line mods line ret l :
  output_loop mods line ret = Line l → l = line ++ sections mods ++ [NEWLINE].
Proof.
  revert line ret; induction mods as [|m mods IH]; intros line ret; unfold sections; simpl.
  - destruct ret; [|done]. by intros [= <-].
  - change (m_enable m && negb (zlen (m_record m) =? 0)) with (writes m).
    destruct (writes m) eqn:Hw.
    + rewrite filter_cons_True by done. do 2 (case_match; [done|]). intros Hl%IH.
      rewrite Hl. unfold sections. cbn [map concat]. by rewrite <-!app_assoc.
    + rewrite filter_cons_False by (by rewrite Hw). apply IH.
Qed.

Lemma prefix_opt o1 o2 s :
  COLON ∉ o1 → COLON ∉ o2 → o1 ++ [COLON] `prefix_of` o2 ++ COLON :: s → o1 = o2.
Proof.
  revert o2; induction o1 as [|x o1 IH]; intros [|y o2] H1 H2 Hpre; simpl in *; [done|..].
  - apply prefix_cons_inv_1 in Hpre. set_solver.
  - apply prefix_cons_inv_1 in Hpre. set_solver.
  - pose proof (prefix_cons_inv_1 _ _ _ _ Hpre) as ->. apply prefix_cons_inv_2 in Hpre.
    f_equal. apply IH; set_solver.
Qed.

Lemma section_pat m s :
  section_of m ++ s = (BAR :: m_opt_line m ++ [COLON]) ++ m_record m ++ s.
Proof. unfold section_of. simpl. by rewrite <-!app_assoc. Qed.

(** A section of another module is skipped. *)
Lemma strstr_section_skip m opt s :
  mod_ok m → COLON ∉ opt → m_opt_line m ≠ opt →
  strstr (section_of m ++ s) (BAR :: opt ++ [COLON]) = strstr s (BAR :: opt ++ [COLON]).
Proof.
  intros (Ho & Ho' & Hr) Hc Hne. unfold section_of. rewrite <-app_comm_cons. simpl strstr at 1.
  destruct (is_prefix (opt ++ [COLON]) _) eqn:Hp.
  - apply is_prefix_spec in Hp. rewrite <-app_assoc in Hp. by apply prefix_opt in Hp.
  - rewrite strstr_skip; [done|]. unfold BAR, COLON in *. set_solver.
Qed.

(** The sections are searched one by one. *)
Lemma strstr_sections ms opt :
  COLON ∉ opt → Forall mod_ok ms →
  match strstr (concat (map section_of ms)) (BAR :: opt ++ [COLON]) with
  | Some tl => ∃ m ms', m ∈ ms ∧ m_opt_line m = opt ∧ tl = section_of m ++ concat (map section_of ms')
  | None => Forall (λ m, m_opt_line m ≠ opt) ms
  end.
Proof.
  intros Hc Hms. induction Hms as [|m ms Hm _ IH]; [by constructor|]. cbn [map concat].
  destruct (decide (m_opt_line m = opt)) as [<-|Hne].
  - rewrite section_pat, strstr_here. exists m, ms. split; [set_solver|]. by rewrite section_pat.
  - rewrite strstr_section_skip by done. destruct (strstr _ _); [|by constructor].
    destruct IH as (m' & ms' & ? & ? & ?). exists m', ms'. set_solver.
Qed.

(** What is read from the section of a module. *)
Lemma read_section m ms :
  mod_ok m →
  let s := drop (length (m_opt_line m) + 2) (section_of m ++ concat (map section_of ms)) in
  match strpbrk BAR s with
  | Some e_token => take (length s - length e_token) s
  | None => s
  end = m_record m.
Proof.
  intros (_ & _ & Hr). cbv zeta.
  replace (drop (length (m_opt_line m) + 2) (section_of m ++ concat (map section_of ms)))
    with (m_record m ++ concat (map section_of ms)).
  - destruct ms as [|m' ms]; cbn [map concat].
    + by rewrite app_nil_r, strpbrk_none.
    + unfold section_of at 1. rewrite <-app_comm_cons, strpbrk_app by done.
      rewrite length_app, Nat.add_sub. apply take_app_length.
  - rewrite section_pat. symmetry. apply drop_app_exact. simpl. rewrite length_app. simpl. lia.
Qed.

(** A module whose record holds something else. *)
Definition stale (junk : list Z) (m : module) : module := if m_enable m then set_record junk m else m.

Lemma set_record_id m r : set_record (m_record m) (set_record r m) = m.
Proof. by destruct m. Qed.

Lemma fmt_ld_bar t : 0 ≤ t → BAR ∉ fmt_ld t.
Proof.
  intros Ht. unfold fmt_ld. rewrite (proj2 (Z.ltb_ge t 0)) by lia.
  apply (fmt_llu_notin BAR t); [done|unfold BAR; lia].
Qed.

Lemma read_module_back t mods m junk :
  0 ≤ t → Forall mod_ok mods → NoDup (m_opt_line <$> mods) → m ∈ mods →
  read_module (fmt_ld t ++ sections mods) (stale junk m) = m.
Proof.
  intros Ht Hok Hnd Hm. unfold read_module, stale. destruct (m_enable m) eqn:He; [|by rewrite He].
  change (m_enable (set_record junk m)) with (m_enable m). rewrite He.
  change (m_opt_line (set_record junk m)) with (m_opt_line m).
  assert (mod_ok m) as Hmok by (rewrite Forall_forall in Hok; auto). pose proof Hmok as (_ & Hc & _).
  rewrite strstr_skip by (by apply fmt_ld_bar). unfold sections.
  set (ms := filter (λ m, writes m = true) mods).
  assert (Forall mod_ok ms) as Hms 
    by (rewrite Forall_forall in Hok |- *; intros x [_ Hx]%list_elem_of_filter; auto).
  pose proof (strstr_sections ms (m_opt_line m) Hc Hms) as Hs. destruct (strstr _ _) as [tl|].
  - destruct Hs as (m' & ms' & Hm' & Ho & ->).
    assert (m' = m) as ->.
    { apply list_elem_of_filter in Hm' as [_ Hm']. apply list_elem_of_lookup in Hm as [i Hi], Hm' as [j Hj].
      assert (j = i) as ->; [|congruence].
      apply (NoDup_lookup (m_opt_line <$> mods) _ _ (m_opt_line m) Hnd); rewrite list_lookup_fmap.
      - rewrite Hj. simpl. by rewrite Ho.
      - by rewrite Hi. }
    pose proof (read_section m ms' Hmok) as Hr. cbv zeta in Hr.
    destruct (strpbrk BAR _); rewrite Hr; apply set_record_id.
  - assert (m_record m = []) as Hnil.
    { destruct (m_record m) as [|x r] eqn:Hr; [done|]. exfalso.
      rewrite Forall_forall in Hs. apply (Hs m); [|done]. subst ms. apply list_elem_of_filter.
      split; [|done]. unfold writes. by rewrite He, Hr. }
    rewrite <-Hnil. apply set_record_id.
Qed.

(** A line written and read back. *)
Lemma line_roundtrip t mods junk l :
  0 ≤ t < 2 ^ 63 → Forall mod_ok mods → NoDup (m_opt_line <$> mods) →
  output_file t mods = Line l →
  read_line_to_module_record l (stale junk <$> mods) = (mods, t).
Proof.
  intros Ht Hok Hnd Hl. apply output_loop_line in Hl as ->. unfold read_line_to_module_record.
  rewrite app_assoc, removelast_last. f_equal.
  - rewrite <-list_fmap_compose. rewrite <-(list_fmap_id mods) at 3.
    apply list_fmap_ext. intros i m Hm. simpl. apply read_module_back; [lia|done..|].
    by eapply list_elem_of_lookup_2.
  - apply atol_fmt; [done|]. unfold sections. by destruct (filter _ mods).
Qed.

(** C6: The data file round trips. A line written by [output_file], read back by
    [read_line_to_module_record], restores the record of every enabled module,
    whatever it held before, leaves the disabled ones alone and returns the
    time of the sample; the option names have to be distinct and free of the
    separators, and the records free of [|]. *)
Theorem tsar_line_roundtrip t mods junk l :
  0 ≤ t < 2 ^ 63 → Forall mod_ok mods → NoDup (m_opt_line <$> mods) →
  output_file t mods = Line l →
  read_line_to_module_record l (stale junk <$> mods) = (mods, t).
Proof. apply line_roundtrip. Qed.

Lemma tsar_line_roundtrip_witness :
  let mods := [t_module [45; 99] [49; 44; 50]; t_module [45; 109] [55]] in
  ∃ l, output_file 1700000000 mods = Line l ∧
    read_line_to_module_record l (stale [0] <$> mods) = (mods, 1700000000).
Proof.
  intros mods. eexists. split; [vm_compute; reflexivity|].
  apply (tsar_line_roundtrip 1700000000 mods [0]); [lia| | |vm_compute; reflexivity].
  - repeat constructor; unfold BAR, COLON; simpl; set_solver.
  - simpl. apply NoDup_cons. split; [set_solver|apply NoDup_singleton].
Defined.
