(* ===== verification/TsarStat.v ===== *)
(** * TsarStat: statistics over the records of the monitor service

    The part of [mservice/master/src/framework.c] that turns two successive
    records of a module into statistics: [init_module_fields],
    [realloc_module_array], [set_st_record], [collect_record_stat] and
    [disable_col_zero]. A module's own callback is a parameter. *)

From Stdlib Require Import SpecFloat.
From S2P Require Import Prelude CString CFloat TsarRecord.

Inductive data_mode := DATA_NULL | DATA_SUMMARY | DATA_DETAIL | DATA_ALL.

(** The fields of [conf] the functions read, and what [realloc] leaves in the
    grown part of an array. *)
Record configure := Conf {
  print_merge : bool; print_tail : bool; print_interval : Z; print_mode : data_mode;
  junk_u64 : Z; junk_dbl : double;
}.

Abbreviation dsub := (SFsub 53 1024).
Abbreviation dadd := (SFadd 53 1024).
Abbreviation dmul := (SFmul 53 1024).
Abbreviation ddiv := (SFdiv 53 1024).
Abbreviation dlt := SFltb.

Definition d_one : double := of_int 1.
Definition d_zero : double := of_int 0.
(** The double [0.1]. *)
Definition d_tenth : double := S754_finite false 7205759403792794 (-56).

(** Updates of the fields the framework owns. *)
Definition with_arrays (pre cur : option (list Z)) (st : list double) (m : module) : module :=
  Module (m_name m) (m_opt_line m) (m_record m) (m_info m) (m_n_col m) (m_enable m) (m_spec m)
    (m_n_item m) (m_n_record m) (m_pre_flag m) (m_st_flag m) pre cur st
    (m_max_array m) (m_mean_array m) (m_min_array m) (m_warn_triger m).
Definition with_tail (mx mean mn : list double) (m : module) : module :=
  Module (m_name m) (m_opt_line m) (m_record m) (m_info m) (m_n_col m) (m_enable m) (m_spec m)
    (m_n_item m) (m_n_record m) (m_pre_flag m) (m_st_flag m) (m_pre_array m) (m_cur_array m)
    (m_st_array m) mx mean mn (m_warn_triger m).
Definition with_flags (pre_flag st_flag : bool) (m : module) : module :=
  Module (m_name m) (m_opt_line m) (m_record m) (m_info m) (m_n_col m) (m_enable m) (m_spec m)
    (m_n_item m) (m_n_record m) pre_flag st_flag (m_pre_array m) (m_cur_array m) (m_st_array m)
    (m_max_array m) (m_mean_array m) (m_min_array m) (m_warn_triger m).
Definition with_items (n_item n_record : Z) (m : module) : module :=
  Module (m_name m) (m_opt_line m) (m_record m) (m_info m) (m_n_col m) (m_enable m) (m_spec m)
    n_item n_record (m_pre_flag m) (m_st_flag m) (m_pre_array m) (m_cur_array m) (m_st_array m)
    (m_max_array m) (m_mean_array m) (m_min_array m) (m_warn_triger m).
Definition with_enable (b : bool) (m : module) : module :=
  Module (m_name m) (m_opt_line m) (m_record m) (m_info m) (m_n_col m) b (m_spec m)
    (m_n_item m) (m_n_record m) (m_pre_flag m) (m_st_flag m) (m_pre_array m) (m_cur_array m)
    (m_st_array m) (m_max_array m) (m_mean_array m) (m_min_array m) (m_warn_triger m).

Section framework.
Context (conf : configure).

Definition cells (n_item : Z) (m : module) : nat := Z.to_nat (n_item * m_n_col m).

(** [calloc] of all arrays for [n_item] items. *)
Definition alloc_arrays (n_item : Z) (m : module) : module :=
  let n := cells n_item m in
  let m := with_arrays (Some (replicate n 0)) (Some (replicate n 0)) (replicate n d_zero) m in
  if print_tail conf then with_tail (replicate n d_zero) (replicate n d_zero) (replicate n d_zero) m else m.

Definition init_module (m : module) : module :=
  if m_enable m then
    let n_item := if print_merge conf then 1 else get_strtok_num (m_record m) SEMICOLON in
    let m := with_items n_item (m_n_record m) m in
    if n_item =? 0 then m else alloc_arrays n_item m
  else m.
Definition init_module_fields (mods : list module) : list module := init_module <$> mods.

Definition realloc {A} (n : nat) (junk : A) (l : list A) : list A := resize n junk l.

Definition realloc_module_array (n_n_item : Z) (m : module) : module :=
  if m_n_item m <? n_n_item then
    match m_pre_array m, m_cur_array m with
    | Some pre, Some cur =>
        let n := cells n_n_item m in
        let m := with_arrays (Some (realloc n (junk_u64 conf) pre)) (Some (realloc n (junk_u64 conf) cur))
                   (realloc n (junk_dbl conf) (m_st_array m)) m in
        if print_tail conf
        then with_tail (realloc n (junk_dbl conf) (m_max_array m)) (realloc n (junk_dbl conf) (m_mean_array m))
               (realloc n (junk_dbl conf) (m_min_array m)) m
        else m
    | _, _ => alloc_arrays n_n_item m
    end
  else m.

(** ** One column of [set_st_record] *)

(** The [switch] on [stats_opt]: the new [pre], the new [st], and false when
    the counter went back. *)
Definition st_col (opt : stats_opt) (pre cur : Z) (st : double) : Z * double * bool :=
  let '(pre', st', ok) :=
    match opt with
    | STATS_SUB => if cur <? pre then (cur, st, false) else (pre, of_int (u64 (cur - pre)), true)
    | STATS_SUB_INTER =>
        if cur <? pre then (cur, st, false)
        else (pre, of_int (u64 (cur - pre) / u64 (print_interval conf)), true)
    | STATS_NULL => (pre, of_int cur, true)
    end in
  (pre', dmul st' d_one, ok).

(** The maximum, mean and minimum of a column. *)
Record tail := Tail { t_max : double; t_mean : double; t_min : double }.

Definition tail_col (n_record : Z) (st : double) (t : tail) : tail :=
  if n_record =? 0 then let v := dmul st d_one in Tail v v v
  else
    let nonneg := SFleb d_zero st in
    Tail (if dlt d_tenth (dsub st (t_max t)) then st else t_max t)
         (if nonneg
          then ddiv (dadd (dmul (of_int (n_record - 1)) (t_mean t)) st) (of_int n_record)
          else t_mean t)
         (if dlt d_tenth (dsub (t_min t) st) && nonneg then st else t_min t).

(** The columns of an item; [None] when an array is too short. *)
Fixpoint st_cols (custom : bool) (infos : list mod_info) (pre cur : list Z) (st : list double)
    : option (list Z * list double * bool) :=
  match infos, pre, cur, st with
  | [], _, _, _ => Some ([], [], true)
  | i :: infos', p :: pre', c :: cur', s :: st' =>
      '(ps, ss, ok) ← st_cols custom infos' pre' cur' st';
      if custom then Some (p :: ps, s :: ss, ok)
      else let '(p', s', ok') := st_col (i_stats i) p c s in Some (p' :: ps, s' :: ss, ok' && ok)
  | _, _, _, _ => None
  end.

Fixpoint tail_cols (n_record : Z) (st mx mean mn : list double)
    : option (list double * list double * list double) :=
  match st, mx, mean, mn with
  | [], _, _, _ => Some ([], [], [])
  | s :: st', a :: mx', b :: mean', c :: mn' =>
      '(xs, ys, zs) ← tail_cols n_record st' mx' mean' mn';
      let t := tail_col n_record s (Tail a b c) in
      Some (t_max t :: xs, t_mean t :: ys, t_min t :: zs)
  | _, _, _, _ => None
  end.

(** ** [set_st_record] *)

(** The first [n] cells of an array, all of which are to be there. *)
Definition slice {A} (n : nat) (l : list A) : option (list A) :=
  if (n <=? length l)%nat then Some (take n l) else None.

(** The module's own callback, on the slices of one item; [None]: it accesses a
    cell outside of them. *)
Definition st_callback : Type := list double → list Z → list Z → Z → option (list double).
Context (callback : module → option st_callback).

(** The items, one slice of [n_col] columns after the other. *)
Fixpoint st_items (n_item n_col : nat) (m : module) (pre cur : list Z) (st : list double)
    : option (list Z * list double * bool) :=
  match n_item with
  | O => Some (pre, st, true)
  | S k =>
      st0 ← slice n_col st;
      pre0 ← slice n_col pre;
      cur0 ← slice n_col cur;
      info ← slice n_col (m_info m);
      own ← match callback m with
            | Some f => f st0 pre0 cur0 (print_interval conf)
            | None => Some st0
            end;
      let custom := match callback m with Some _ => true | None => false end in
      '(ps, ss, ok) ← st_cols custom info pre0 cur0 own;
      '(ps', ss', ok') ← st_items k n_col m (drop n_col pre) (drop n_col cur) (drop n_col st);
      Some (ps ++ ps', ss ++ ss', ok && ok')
  end.

Definition set_st_record (m : module) : option module :=
  pre ← m_pre_array m;
  cur ← m_cur_array m;
  '(pre', st', ok) ← st_items (Z.to_nat (m_n_item m)) (Z.to_nat (m_n_col m)) m pre cur (m_st_array m);
  let n := cells (m_n_item m) m in
  let m1 := with_flags (m_pre_flag m) ok (with_arrays (Some pre') (Some cur) st' m) in
  if print_tail conf then
    st0 ← slice n st';
    '(xs, ys, zs) ← tail_cols (m_n_record m) st0 (m_max_array m) (m_mean_array m) (m_min_array m);
    Some (with_items (m_n_item m) (m_n_record m + 1)
            (with_tail (xs ++ drop n (m_max_array m)) (ys ++ drop n (m_mean_array m))
               (zs ++ drop n (m_min_array m)) m1))
  else Some (with_items (m_n_item m) (m_n_record m + 1) m1).

(** ** [collect_record_stat] *)

(** [convert_record_to_array] into a part of an array. *)
Definition store_vals (off : nat) (vals arr : list Z) : option (list Z) :=
  if (off + length vals <=? length arr)%nat
  then Some (take off arr ++ vals ++ drop (off + length vals) arr) else None.

(** The items of a record, not merged. *)
Fixpoint store_items (fuel : nat) (m : module) (arr : list Z) (num pos ret : Z)
    : option (list Z * Z) :=
  match fuel with
  | O => None
  | S f =>
      match strtok_next_item (m_record m) pos with
      | None => Some (arr, ret)
      | Some (item, pos') =>
          let vals := convert_record_to_array (m_n_col m) item in
          if zlen vals <=? 0 then Some (arr, zlen vals)
          else
            arr' ← store_vals (Z.to_nat (num * m_n_col m)) vals arr;
            store_items f m arr' (num + 1) pos' (zlen vals)
      end
  end.

(** The current values of a module: [n_item], the array and [ret]. *)
Definition parse_record (n_item : Z) (m : module) (cur : list Z) : option (Z * list Z * bool) :=
  match strpbrk SEMICOLON (m_record m) with
  | Some _ =>
      if print_merge conf then
        '(ret, cur') ← merge_mult_item_to_array cur m; Some (1, cur', ret)
      else
        '(cur', ret) ← store_items (S (length (m_record m))) m cur 0 0 0; Some (n_item, cur', negb (ret =? 0))
  | None =>
      let vals := convert_record_to_array (m_n_col m) (m_record m) in
      cur' ← store_vals 0 vals cur; Some (n_item, cur', negb (zlen vals =? 0))
  end.

Definition swap_arrays (m : module) : module := with_arrays (m_cur_array m) (m_pre_array m) (m_st_array m) m.

(** One module: the module, [no_p_hdr] and the warnings so far. *)
Definition collect_module (no_p_hdr : bool) (warn : Z) (m : module) : option (module * bool * Z) :=
  if negb (m_enable m) then Some (m, no_p_hdr, warn)
  else
    let m := with_flags (m_pre_flag m) false m in
    let n_item := get_strtok_num (m_record m) SEMICOLON in
    if n_item =? 0 then Some (swap_arrays (with_flags false (m_st_flag m) m), no_p_hdr, warn)
    else
      let changed := negb (print_merge conf) && negb (n_item =? m_n_item m) in
      let no_p_hdr := no_p_hdr && negb changed in
      let m := if changed then realloc_module_array n_item m else m in
      cur ← m_cur_array m;
      '(n_item', cur', ret) ← parse_record n_item m cur;
      let m := with_items n_item' (m_n_record m) (with_arrays (m_pre_array m) (Some cur') (m_st_array m) m) in
      let stat := no_p_hdr && m_pre_flag m && ret in
      m' ← (if stat then set_st_record m else Some m);
      Some (swap_arrays (with_flags ret (m_st_flag m') m'), no_p_hdr,
            if stat then Z.lor warn (m_warn_triger m) else warn).

Fixpoint collect_loop (no_p_hdr : bool) (warn : Z) (mods : list module) : option (list module * bool * Z) :=
  match mods with
  | [] => Some ([], no_p_hdr, warn)
  | m :: mods' =>
      '(m', hdr, w) ← collect_module no_p_hdr warn m;
      '(ms, hdr', w') ← collect_loop hdr w mods';
      Some (m' :: ms, hdr', w')
  end.

(** The modules, the return value and the warnings passed to
    [fire_warn_func]; [None] when an array is accessed out of its bounds. *)
Definition collect_record_stat (mods : list module) : option (list module * bool * Z) :=
  collect_loop true 0 mods.

(** A column is printed in the current mode. *)
Definition col_shown (i : mod_info) : bool :=
  match print_mode conf, i_summary_bit i with
  | DATA_SUMMARY, SUMMARY_BIT => true
  | DATA_DETAIL, HIDE_BIT => false
  | DATA_DETAIL, _ => true
  | _, _ => false
  end.

Definition disable_module (m : module) : module :=
  if m_enable m then
    if m_n_col m =? 0 then with_enable false m
    else if existsb col_shown (take (Z.to_nat (m_n_col m)) (m_info m)) then m else with_enable false m
  else m.
Definition disable_col_zero (mods : list module) : list module := disable_module <$> mods.
End framework.

Lemma slice_some {A} n (l : list A) : (n ≤ length l)%nat → slice n l = Some (take n l).
Proof. intros H. unfold slice. by rewrite (proj2 (Nat.leb_le _ _)). Qed.

(** ** Multiplying by 1.0 *)

Lemma shr_exact p m :
  0 < m →
  SpecFloat.iter_pos shr_1 p (Build_shr_record (m * 2 ^ Z.pos p) false false)
  = Build_shr_record m false false.
Proof.
  assert (∀ k, 0 < k → shr_1 (Build_shr_record (k * 2) false false) = Build_shr_record k false false) as H1.
  { intros [|k|k] Hk; try lia. by rewrite Z.mul_comm. }
  revert m; induction p as [p IH|p IH|]; intros m Hm; cbn [SpecFloat.iter_pos].
  - assert (0 < 2 ^ Z.pos p) by (apply Z.pow_pos_nonneg; lia).
    replace (m * 2 ^ Z.pos p~1) with (m * 2 ^ Z.pos p * 2 ^ Z.pos p * 2).
    + rewrite H1, !IH by nia. done.
    + rewrite (Pos2Z.inj_xI p), Z.pow_add_r, <-Z.add_diag, Z.pow_add_r by lia. lia.
  - assert (0 < 2 ^ Z.pos p) by (apply Z.pow_pos_nonneg; lia).
    replace (m * 2 ^ Z.pos p~0) with (m * 2 ^ Z.pos p * 2 ^ Z.pos p).
    + by rewrite !IH by nia.
    + rewrite (Pos2Z.inj_xO p), <-Z.add_diag, Z.pow_add_r by lia. lia.
  - by apply H1.
Qed.

Lemma dmul_one x : valid_binary 53 1024 x = true → dmul x d_one = x.
Proof.
  destruct x as [s|s| |s m e]; intros Hv; try (by destruct s || done).
  simpl in Hv. pose proof Hv as [Hc%Z.eqb_eq He]%andb_true_iff.
  change d_one with (S754_finite false 4503599627370496 (-52)). unfold SFmul, binary_round_aux, shr_fexp.
  rewrite xorb_false_r. simpl Zdigits2.
  replace (Z.pos (digits2_pos (m * 4503599627370496))) with (Z.pos (digits2_pos m) + 52).
  - replace (Z.pos (digits2_pos m) + 52 + (e + -52)) with (Z.pos (digits2_pos m) + e) by lia.
    rewrite Hc. replace (e - (e + -52)) with 52 by lia. unfold shr, shr_record_of_loc.
    rewrite Pos2Z.inj_mul. change 4503599627370496 with (2 ^ 52).
    rewrite (shr_exact 52 (Z.pos m)) by lia. simpl.
    replace (e + -52 + 52) with e by lia. simpl. rewrite Hc, Z.sub_diag. simpl. by rewrite He.
  - rewrite !digits2_pos_log2, Pos2Z.inj_mul. change 4503599627370496 with (2 ^ 52).
    rewrite Z.log2_mul_pow2 by lia. lia.
Qed.

(** ** Two successive records *)

Lemma strtok_count_in c s : c ∉ s → strtok_count c true s = 0.
Proof.
  induction s as [|x s IH]; intros Hc; [done|]. simpl.
  rewrite (proj2 (Z.eqb_neq x c)), IH by set_solver. done.
Qed.

Lemma strtok_count_one c s : s ≠ [] → c ∉ s → strtok_count c false s = 1.
Proof.
  destruct s as [|x s]; [done|]. intros _ Hc. simpl.
  rewrite (proj2 (Z.eqb_neq x c)), strtok_count_in by set_solver. done.
Qed.

Section delta.
Context (conf : configure) (Htail : print_tail conf = false).

(** Every counter has grown, by less than 2^53. *)
Definition grown (pre cur : list Z) : Prop := Forall2 (λ p c, p ≤ c < p + 2 ^ 53) pre cur.

Lemma st_cols_sub infos pre cur st :
  Forall (λ i, i_stats i = STATS_SUB) infos → length pre = length infos → length cur = length infos →
  length st = length infos → Forall is_u64 pre → Forall is_u64 cur →
  ∃ ps ss ok, st_cols conf false infos pre cur st = Some (ps, ss, ok) ∧ length ps = length infos ∧
    (grown pre cur → ok = true ∧ ss = zip_with (λ p c, of_int (c - p)) pre cur) ∧
    (Exists (λ '(p, c), c < p) (zip pre cur) → ok = false).
Proof.
  clear Htail. intros Hi. revert pre cur st.
  induction Hi as [|i infos Hi _ IH]; intros [|p pre] [|c cur] [|s st] Hp Hc Hs Hup Huc; simpl in *; try lia.
  { exists [], [], true. repeat split; try done. by intros ?%Exists_nil. }
  apply Forall_cons in Hup as [Hp0 Hup], Huc as [Hc0 Huc].
  destruct (IH pre cur st) as (ps & ss & ok & -> & Hl & Hg & He); [lia..|done|done|]. simpl.
  unfold st_col. rewrite Hi. unfold is_u64 in *.
  destruct (Z.ltb_spec c p) as [Hlt|Hge]; (eexists _, _, _; split; [done|]); (split; [simpl; lia|]); split.
  - intros Hgr. inversion Hgr; lia.
  - done.
  - intros Hgr. apply Forall2_cons in Hgr as [Hpc Hgr]. destruct (Hg Hgr) as [-> ->]. split; [done|].
    rewrite wrap_small by lia. by rewrite dmul_one by (apply of_int_valid; lia).
  - intros [?|Hex]%Exists_cons; [lia|]. simpl. by apply He.
Qed.

(** The module as a run of the monitor leaves it between two samples: one item,
    its arrays allocated. *)
Record ready (m : module) (pre old : list Z) : Prop := {
  rd_enable : m_enable m = true;
  rd_item : m_n_item m = 1;
  rd_info : zlen (m_info m) = m_n_col m ∧ Forall (λ i, i_stats i = STATS_SUB) (m_info m);
  rd_pre : m_pre_array m = Some pre ∧ zlen pre = m_n_col m ∧ Forall is_u64 pre;
  rd_cur : m_cur_array m = Some old ∧ zlen old = m_n_col m;
  rd_st : zlen (m_st_array m) = m_n_col m;
}.

Lemma parse_one m v vals old :
  m_record m = fmt_vals (v :: vals) → m_n_col m = zlen (v :: vals) → zlen old = m_n_col m →
  Forall is_u64 (v :: vals) →
  parse_record conf 1 m old = Some (1, v :: vals, true) ∧ get_strtok_num (m_record m) SEMICOLON = 1.
Proof.
  clear Htail. intros Hr Hn Hold Hu.
  assert (SEMICOLON ∉ m_record m) as Hsc.
  { rewrite Hr. apply fmt_vals_notin; [done|done|unfold SEMICOLON; lia]. }
  split.
  - unfold parse_record. rewrite strpbrk_none by done. unfold convert_record_to_array. rewrite Hr, Hn.
    pose proof (fmt_vals_nonempty v vals [] ltac:(by inversion Hu)) as Hz. rewrite app_nil_r in Hz.
    rewrite zlen_cons in *. pose proof (zlen_nonneg vals). do 2 zif. simpl orb. cbv iota.
    rewrite <-(app_nil_r (fmt_vals (v :: vals))).
    rewrite convert_loop_vals by (done || by right; set_solver).
    unfold zlen in *. rewrite take_ge by (simpl; lia). unfold store_vals. simpl length.
    rewrite (proj2 (Nat.leb_le _ _)) by lia. simpl. rewrite drop_ge, app_nil_r by lia. done.
  - unfold get_strtok_num. apply strtok_count_one; [|done]. rewrite Hr.
    pose proof (fmt_vals_nonempty v vals [] ltac:(by inversion Hu)) as Hz. rewrite app_nil_r in Hz.
    intros Hnil. rewrite Hnil in Hz. done.
Qed.
End delta.

Lemma collect_one conf cb m :
  collect_record_stat conf cb [m]
  = '(m', hdr, w) ← collect_module conf cb true 0 m; Some ([m'], hdr, w).
Proof. unfold collect_record_stat. simpl. by destruct (collect_module conf cb true 0 m) as [[[??]?]|]. Qed.

(** A module of one item and no change in their number. *)
Lemma collect_module_one conf cb m v vals old :
  m_enable m = true → m_n_item m = 1 → m_cur_array m = Some old →
  m_record m = fmt_vals (v :: vals) → m_n_col m = zlen (v :: vals) → zlen old = m_n_col m →
  Forall is_u64 (v :: vals) →
  let m1 := with_items 1 (m_n_record m) (with_arrays (m_pre_array m) (Some (v :: vals)) (m_st_array m)
              (with_flags (m_pre_flag m) false m)) in
  collect_module conf cb true 0 m
  = (m' ← (if m_pre_flag m then set_st_record conf cb m1 else Some m1);
     Some (swap_arrays (with_flags true (m_st_flag m') m'), true,
           if m_pre_flag m then Z.lor 0 (m_warn_triger m) else 0)).
Proof.
  intros He Hit Hcur Hr Hn Hold Hu m1. set (m0 := with_flags (m_pre_flag m) false m).
  destruct (parse_one conf m0 v vals old) as [Hparse Hcount]; [done..|].
  unfold collect_module. rewrite He. fold m0. cbv zeta. cbn [negb]. rewrite Hcount. simpl Z.eqb at 1. cbv iota.
  change (m_n_item m0) with (m_n_item m). rewrite Hit, Z.eqb_refl, andb_false_r.
  change (m_cur_array m0) with (m_cur_array m). rewrite Hcur. cbn [mbind option_bind].
  rewrite Hparse. cbn [mbind option_bind andb negb].
  change (with_items 1 (m_n_record m0) (with_arrays (m_pre_array m0) (Some (v :: vals)) (m_st_array m0) m0)) with m1.
  change (m_pre_flag m1) with (m_pre_flag m). by rewrite andb_true_r.
Qed.

(** C37: Statistics over two samples. A module of one item whose columns are
    counters reads a record of as many 64-bit numbers: the record becomes the
    base of the next sample; with an earlier sample, and no counter gone back,
    the statistics are the differences, as doubles (exact below 2^53), and are
    marked valid; when a counter has gone back, or there is no earlier sample,
    they are marked invalid. The header need not be printed again. *)
Theorem tsar_stat_delta conf m v vals pre old :
  print_tail conf = false → ready m pre old →
  m_record m = fmt_vals (v :: vals) → m_n_col m = zlen (v :: vals) → Forall is_u64 (v :: vals) →
  ∃ m' w, collect_record_stat conf (λ _, None) [m] = Some ([m'], true, w) ∧
    m_pre_array m' = Some (v :: vals) ∧ m_pre_flag m' = true ∧
    (m_pre_flag m = false → m_st_flag m' = false ∧ m_st_array m' = m_st_array m) ∧
    (m_pre_flag m = true → grown pre (v :: vals) →
       m_st_flag m' = true ∧ m_st_array m' = zip_with (λ p c, of_int (c - p)) pre (v :: vals)) ∧
    (m_pre_flag m = true → Exists (λ '(p, c), c < p) (zip pre (v :: vals)) → m_st_flag m' = false).
Proof.
  intros Ht [He Hit [Hil Hi] (Hpre & Hpl & Hpu) (Hcur & Hcl) Hst] Hr Hn Hu.
  rewrite collect_one, (collect_module_one _ _ _ v vals old) by done. destruct (m_pre_flag m) eqn:Hpf.
  - unfold set_st_record. rewrite Ht. cbn [m_pre_array m_cur_array m_n_item m_n_col m_st_array with_items with_arrays with_flags].
    rewrite Hpre. cbn [mbind option_bind]. simpl st_items. unfold zlen in *. simpl length in *.
    destruct (st_cols_sub conf (m_info m) pre (v :: vals) (m_st_array m))
      as (ps & ss & ok & Hcols & Hlps & Hg & Hx); [done|simpl; lia..|done|done|].
    rewrite Hn, Nat2Z.id, !slice_some, !take_ge, !drop_ge by (simpl; lia).
    cbn [mbind option_bind]. rewrite Hcols. simpl.
    rewrite !app_nil_r, andb_true_r. eexists _, _. split; [done|]. simpl. by split_and!.
  - eexists _, _. split; [done|]. simpl. by split_and!.
Qed.

(** A module of two counters at 100 and 200 that reads 103 and 250. *)
Definition st_module : module :=
  Module [] [] (fmt_vals [103; 250]) [t_info; t_info] 2 true false 1 0 true false
    (Some [100; 200]) (Some [0; 0]) [d_zero; d_zero] [] [] [] 0.
Definition st_conf : configure := Conf true false 5 DATA_SUMMARY 0 d_zero.

Lemma tsar_stat_delta_witness :
  ∃ m', collect_record_stat st_conf (λ _, None) [st_module] = Some ([m'], true, 0) ∧
    m_pre_array m' = Some [103; 250] ∧ m_st_array m' = [of_int 3; of_int 50].
Proof.
  destruct (tsar_stat_delta st_conf st_module 103 [250] [100; 200] [0; 0])
    as (m' & w & Hc & Hpre & _ & _ & Hgrown & _);
    [reflexivity|split; try reflexivity; split_and!; try reflexivity; repeat constructor; lia
    |reflexivity|reflexivity|repeat constructor; lia|].
  exists m'. destruct Hgrown as [_ Hst]; [reflexivity|repeat constructor; lia|].
  split; [|split; [exact Hpre|exact Hst]]. rewrite Hc. do 2 f_equal.
  vm_compute in Hc. injection Hc as _ <-. reflexivity.
Defined.

(** The mean leaves the first sample out: after 10, 20 and 30 it is 25. *)
Lemma tsar_mean_drops_first :
  let t0 := tail_col 0 (of_int 10) (Tail d_zero d_zero d_zero) in
  let t1 := tail_col 1 (of_int 20) t0 in
  let t2 := tail_col 2 (of_int 30) t1 in
  t_mean t1 = of_int 20 ∧ t_mean t2 = of_int 25 ∧ t_max t2 = of_int 30 ∧ t_min t2 = of_int 10.
Proof. vm_compute. done. Qed.

(** A minimum or maximum moves only when it changes by more than 0.1. *)
Lemma tsar_max_ignores_small :
  let v := S754_finite false 5764607523034235 (-59) in    (* 0.01 *)
  t_max (tail_col 1 v (Tail d_zero d_zero d_zero)) = d_zero.
Proof. by vm_compute. Qed.
