(* ===== verification/TsarModules.v ===== *)
(** * TsarModules: the collectors of the monitor service

    [mservice/master/modules]: the modules that read a file of [/proc] and
    leave a record of numbers separated by commas ([mod_pcsw.c], [mod_mem.c],
    [mod_swap.c], [mod_vmevent.c], [mod_numabalance.c], [mod_cpu.c],
    [mod_traffic.c], [mod_tcp.c], [mod_udp.c], [mod_tcpx.c], [mod_load.c]), the
    functions they turn two samples into statistics with, and of
    [src/framework.c] the functions that run them. *)

From Stdlib Require Import SpecFloat.
From S2P Require Import Prelude CString CFloat TsarRecord TsarStat.

(** What the collectors read: files by their path, and the variable
    [SIGMA_MAX_CPU_QUOTA]. *)
Record env := Env { files : string → option (list Z); sigma_quota : option (list Z) }.

(** The end of a collector: [set_mod_record] was called or not, or a null
    pointer was followed. *)
Inductive collected := Unset | Record_ (r : list Z) | Fault.

Definition STAT : string := "/proc/stat".
Definition MEMINFO : string := "/proc/meminfo".
Definition VMSTAT : string := "/proc/vmstat".
Definition LOADAVG : string := "/proc/loadavg".
Definition NET_DEV : string := "/proc/net/dev".
Definition NET_SNMP : string := "/proc/net/snmp".
Definition NETSTAT : string := "/proc/net/netstat".
Definition TCP : string := "/proc/net/tcp".
Definition SCHED_DEBUG : string := "/proc/sched_debug".
Definition CPUINFO : string := "/proc/cpuinfo".

(** [fopen], and the lines [fgets] returns with a buffer of [n] bytes. *)
Definition with_file (e : env) (path : string) (n : nat) (k : list (list Z) → collected) : collected :=
  match files e path with Some text => k (fgets_all (n - 1) text) | None => Unset end.

(** [%lld] of an unsigned value. *)
Definition fmt_lld (v : Z) : list Z := fmt_ld (i64 v).

Fixpoint commas (l : list (list Z)) : list Z :=
  match l with [] => [] | [x] => x | x :: l' => x ++ COMMA :: commas l' end.

(** ** Files of one number per line

    An [if]-[else] chain of [strncmp] and [sscanf] is a table: the word the line
    starts with, where the number starts, the field it is stored in. *)

Abbreviation key := (list Z * nat * nat)%type.

Fixpoint keys_line (tbl : list key) (line : list Z) (st : list Z) : list Z :=
  match tbl with
  | [] => st
  | (word, off, f) :: tbl' =>
      if is_prefix word line
      then match scan_ull (drop off line) with Some (v, _) => <[f := v]> st | None => st end
      else keys_line tbl' line st
  end.
Definition keys_lines (tbl : list key) (lines : list (list Z)) (st : list Z) : list Z :=
  foldl (λ st l, keys_line tbl l st) st lines.

Abbreviation fld st i := (nth i st 0).

(** [mod_pcsw.c] *)
Definition pcsw_keys : list key := [(lit "ctxt ", 5, 0); (lit "processes ", 10, 1)]%nat.
Definition pcsw_values (lines : list (list Z)) : list Z := keys_lines pcsw_keys lines (replicate 2 0).
Definition read_stat_pcsw (e : env) : collected :=
  with_file e STAT 4096 (λ lines, Record_ (commas (fmt_lld <$> pcsw_values lines))).

(** [mod_mem.c]; the fields are those of [struct stats_mem]. *)
Definition mem_keys : list key :=
  [(lit "MemTotal:", 9, 3); (lit "MemFree:", 8, 0); (lit "Buffers:", 8, 1); (lit "Cached:", 7, 2);
   (lit "Active:", 7, 4); (lit "Inactive:", 9, 5); (lit "Slab:", 5, 6); (lit "SwapCached:", 11, 9);
   (lit "SwapTotal:", 10, 8); (lit "SwapFree:", 9, 7); (lit "Committed_AS:", 13, 10)]%nat.
Definition mem_values (lines : list (list Z)) : list Z :=
  let st := keys_lines mem_keys lines (replicate 11 0) in
  [fld st 0; 0; fld st 1; fld st 2; fld st 3; 0].
Definition read_mem_stats (e : env) : collected :=
  with_file e MEMINFO 128 (λ lines, Record_ (commas (fmt_llu <$> mem_values lines))).

(** [mod_swap.c] *)
Definition swap_vmstat_keys : list key := [(lit "pswpin ", 7, 0); (lit "pswpout ", 8, 1)]%nat.
Definition swap_meminfo_keys : list key := [(lit "SwapTotal:", 10, 2); (lit "SwapFree:", 9, 3)]%nat.
Definition swap_values (vmstat meminfo : list (list Z)) : list Z :=
  let st := keys_lines swap_vmstat_keys vmstat (replicate 4 0) in
  let st := keys_lines swap_meminfo_keys meminfo st in
  [fld st 0; fld st 1; u64 (fld st 2 * 1024); u64 (fld st 3 * 1024)].
Definition read_vmstat_swap (e : env) : collected :=
  with_file e VMSTAT 4096 (λ vmstat,
    with_file e MEMINFO 4096 (λ meminfo, Record_ (commas (fmt_lld <$> swap_values vmstat meminfo)))).

(** [mod_vmevent.c] *)
Definition vmevent_keys : list key :=
  [(lit "pageoutrun ", 11, 0); (lit "pgsteal_kswapd ", 14, 1); (lit "pgsteal_direct ", 14, 2);
   (lit "compact_daemon_wake ", 20, 3); (lit "compact_stall ", 14, 4); (lit "compact_success ", 16, 5);
   (lit "oom_kill ", 9, 6)]%nat.
Definition vmevent_values (lines : list (list Z)) : list Z := keys_lines vmevent_keys lines (replicate 7 0).
Definition read_vmstat_vmevent (e : env) : collected :=
  with_file e VMSTAT 4096 (λ lines, Record_ (commas (fmt_lld <$> vmevent_values lines))).

(** [mod_numabalance.c]: the third key stores into the second field. *)
Definition numabalance_keys : list key :=
  [(lit "numa_hint_faults ", 17, 0); (lit "numa_hint_faults_local ", 23, 1);
   (lit "numa_pages_migrated ", 20, 1)]%nat.
Definition numabalance_values (lines : list (list Z)) : list Z :=
  let st := keys_lines numabalance_keys lines (replicate 3 0) in [fld st 0; fld st 1; fld st 1].
Definition read_vmstat_numabalance (e : env) : collected :=
  with_file e VMSTAT 4096 (λ lines, Record_ (commas (fmt_lld <$> numabalance_values lines))).

(** ** [mod_cpu.c] *)

(** [sscanf] of several numbers: those converted replace the first fields. *)
Definition store_prefix (vals st : list Z) : list Z := vals ++ drop (length vals) st.

Definition cpu_line (line : list Z) (st : list Z) : list Z :=
  if is_prefix (lit "cpu ") line then store_prefix (scan_ulls 9 (drop 5 line)) st else st.
Definition count_cpus (lines : list (list Z)) : Z :=
  foldl (λ n l, if is_prefix (lit "processor" ++ [9; 58]) l then u64 (n + 1) else n) 0 lines.

(** The order of the record is not that of the file. *)
Definition cpu_order : list nat := [0; 2; 4; 5; 6; 3; 1; 7; 8]%nat.
Definition cpu_values (lines info : list (list Z)) : list Z :=
  let st := foldl (λ st l, cpu_line l st) (replicate 9 0) lines in
  ((λ i, fld st i) <$> cpu_order) ++ [count_cpus info].
Definition read_cpu_stats (e : env) : collected :=
  with_file e STAT 4096 (λ lines,
    with_file e CPUINFO 4096 (λ info, Record_ (commas (fmt_llu <$> cpu_values lines info)))).

(** ** [mod_traffic.c] *)

Fixpoint strtok_words (inside : bool) (s : list Z) : list (list Z) :=
  match s with
  | [] => if inside then [[]] else []
  | x :: s' =>
      if (x =? 32) || (x =? 9) || (x =? 13) || (x =? 10) then
        if inside then [] :: strtok_words false s' else strtok_words false s'
      else
        match strtok_words true s' with
        | w :: ws => (x :: w) :: ws
        | [] => [[x]]
        end
  end.

Definition traffic_prefixes (parameter : list Z) : list (list Z) :=
  take 10 ([lit "eth"; lit "em"; lit "en"] ++ strtok_words false (take 256 parameter)).

(** One line of [/proc/net/dev] added to the totals: bytes, packets, errors and
    drops in, then out. *)
Definition traffic_line (prefixes : list (list Z)) (line : list Z) (st : list Z * Z) : option (list Z * Z) :=
  let '(total, num) := st in
  if existsb (contains line) prefixes then
    match strpbrk 58 line with
    | None => None
    | Some p =>
        let v := scan_ulls 16 (drop 1 p) in
        let cur i := nth i v 0 in
        Some (zip_with (λ t c, u64 (t + c)) total
                [cur 0%nat; cur 1%nat; cur 2%nat; cur 3%nat; cur 8%nat; cur 9%nat; cur 10%nat; cur 11%nat],
              num + 1)
    end
  else Some st.

Fixpoint traffic_lines (prefixes : list (list Z)) (lines : list (list Z)) (st : list Z * Z) : option (list Z * Z) :=
  match lines with
  | [] => Some st
  | l :: lines' =>
      match traffic_line prefixes l st with Some st' => traffic_lines prefixes lines' st' | None => None end
  end.

Definition traffic_values (t : list Z) : list Z :=
  [fld t 0; fld t 4; fld t 1; fld t 5; u64 (fld t 2 + fld t 6); u64 (fld t 3 + fld t 7)].

Definition read_traffic_stats (e : env) (parameter : list Z) : collected :=
  with_file e NET_DEV 4096 (λ lines,
    match traffic_lines (traffic_prefixes parameter) lines (replicate 8 0, 0) with
    | None => Fault
    | Some (t, num) =>
        if 0 <? num then Record_ (commas (fmt_lld <$> traffic_values t)) else Unset
    end).

(** ** [mod_tcp.c], [mod_udp.c], [mod_tcpx.c]: the second line with a prefix *)

Fixpoint second_line (word : list Z) (sw : bool) (lines : list (list Z)) : option (list Z) :=
  match lines with
  | [] => None
  | l :: lines' =>
      if is_prefix word l then if sw then Some l else second_line word true lines'
      else second_line word sw lines'
  end.
(** The numbers behind the prefix, at most [n]. *)
Definition second_values (word : list Z) (n : nat) (lines : list (list Z)) : list Z :=
  match second_line word false lines with Some l => scan_ulls n (drop (length word) l) | None => [] end.

Definition tcp_values (lines : list (list Z)) : list Z :=
  let v := drop 4 (second_values (lit "Tcp:") 14 lines) in (λ i, fld v i) <$> [0; 1; 5; 6; 3; 2; 4; 7]%nat.
Definition read_tcp_stats (e : env) : collected :=
  with_file e NET_SNMP 1024 (λ lines, Record_ (commas (fmt_lld <$> tcp_values lines))).

Definition udp_values (lines : list (list Z)) : list Z :=
  let v := second_values (lit "Udp:") 4 lines in (λ i, fld v i) <$> [0; 3; 1; 2]%nat.
Definition read_udp_stats (e : env) : collected :=
  with_file e NET_SNMP 1024 (λ lines, Record_ (commas (fmt_lld <$> udp_values lines))).

Definition tcpx_values (netstat snmp : list (list Z)) : list Z :=
  let ext := second_values (lit "TcpExt:") 62 netstat in
  let opens := drop 4 (second_values (lit "Tcp:") 6 snmp) in
  replicate 8 0 ++ [fld ext 19; u64 (fld opens 0 + fld opens 1); 0; fld ext 57; fld ext 61; 0; 0].
Definition read_stat_tcpx (e : env) : collected :=
  with_file e TCP 4096 (λ _,
    with_file e NET_SNMP 4096 (λ snmp,
      with_file e NETSTAT 4096 (λ netstat,
        Record_ (commas (fmt_llu <$> tcpx_values netstat snmp))))).

(** ** [mod_load.c] *)

Definition load_keys : list key := [(lit "processes ", 10, 0); (lit "procs_blocked ", 14, 1)]%nat.
Definition load_proc_stats (e : env) : Z * Z :=
  match files e STAT with
  | Some text => let st := keys_lines load_keys (fgets_all 4095 text) (replicate 2 0) in (fld st 0, fld st 1)
  | None => (0, 0)
  end.

(** The sum over the run queues; [junk] is what the variable holds before the
    first conversion. The kernel pads the name to column 34. *)
Fixpoint unint_lines (lines : list (list Z)) (nr total : Z) : Z :=
  match lines with
  | [] => total
  | l :: lines' =>
      if is_prefix (lit "  .nr_uninterruptible") l then
        let nr := default nr (scan_ld (drop 34 l)) in unint_lines lines' nr (i64 (total + nr))
      else unint_lines lines' nr total
  end.
Definition read_sched_debug (junk : Z) (e : env) : Z :=
  match files e SCHED_DEBUG with
  | Some text => let t := unint_lines (fgets_all 1023 text) junk 0 in if t <? 0 then 0 else t
  | None => 0
  end.

(** ["%d.%d %d.%d %d.%d %ld/%d"]: the numbers, each followed by the next byte of
    [seps] (a blank: any number of blanks). *)
Fixpoint scan_load (seps : list Z) (s : list Z) : list Z :=
  match seps with
  | [] => match scan_int s with Some (v, _) => [v] | None => [] end
  | c :: seps' =>
      match scan_int s with
      | None => []
      | Some (v, s') =>
          v :: (if c =? 32 then scan_load seps' s'
                else match s' with x :: s'' => if x =? c then scan_load seps' s'' else [] | [] => [] end)
      end
  end.

Definition read_stat_load (junk : Z) (e : env) : collected :=
  let '(nr_forked, nr_io) := load_proc_stats e in
  let nr_unint := read_sched_debug junk e in
  match files e LOADAVG with
  | None => Unset
  | Some text =>
      let v := scan_load [46; 32; 46; 32; 46; 32; 47] (c_string text) in
      if (length v =? 8)%nat then
        let avg i := u32 (i32 (fld v (2 * i + 1)%nat) + i32 (fld v (2 * i)%nat) * 100) in
        let running := u64 (fld v 6) in
        let running := if running =? 0 then 0 else running - 1 in
        Record_ (commas [fmt_llu (avg 0%nat); fmt_llu (avg 1%nat); fmt_llu (avg 2%nat); fmt_llu running;
                         fmt_llu (u32 (fld v 7)); fmt_llu nr_forked; fmt_llu nr_io; fmt_ld nr_unint])
      else Unset
  end.

(** ** The statistics of two samples

    The modules' [set_st_record] functions, on the columns of one item:
    [st_array], [pre_array], [cur_array] and the interval (which is not 0). *)

Definition d100 : double := of_int 100.
Definition d_minus1 : double := of_int (-1).

(** The loops over the first [n] columns, from the first on; [None]: a column
    is not there. *)
Fixpoint sum_u64 (n : nat) (acc : Z) (l : list Z) : option Z :=
  match n, l with
  | O, _ => Some acc
  | S n', x :: l' => sum_u64 n' (u64 (acc + x)) l'
  | S _, [] => None
  end.
Fixpoint went_back (n : nat) (pre cur : list Z) : option bool :=
  match n, pre, cur with
  | O, _, _ => Some false
  | S n', p :: pre', c :: cur' => if c <? p then Some true else went_back n' pre' cur'
  | _, _, _ => None
  end.
(** [(cur - pre) * 100.0 / total] *)
Definition percent (pre cur total : Z) : double := ddiv (dmul (of_int (u64 (cur - pre))) d100) (of_int total).
(** The first columns are stored. *)
Definition put (l st : list double) : option (list double) :=
  if (length l <=? length st)%nat then Some (l ++ drop (length l) st) else None.

(** [mod_cpu.c] *)
Definition cpu_quota (e : env) : Z :=
  match sigma_quota e with Some s => i32 (atol s) ÷ 100 | None => 1 end.

(** The parts of the nine columns, and of the sixth what the others leave. *)
Definition col_shares (pre cur : list Z) (total : Z) : option (list double) :=
  mapM (λ i, p ← pre !! i; c ← cur !! i; Some (percent p c total)) (seq 0 9).
Definition cpu_shares (pre cur : list Z) (total : Z) : option (list double) :=
  s ← col_shares pre cur total;
  s2 ← s !! 2%nat; s5 ← s !! 5%nat; s7 ← s !! 7%nat;
  Some (<[5%nat := dsub (dsub (dsub d100 s5) s2) s7]> s).

Definition set_cpu_record (e : env) : st_callback := λ st pre cur inter,
  back ← went_back 9 pre cur;
  if back : bool then put (replicate 9 d_minus1) st
  else
    pre_total ← sum_u64 9 0 pre;
    cur_total ← sum_u64 9 0 cur;
    if cur_total <=? pre_total then put (replicate 9 d_minus1) st
    else
      shares ← cpu_shares pre cur (u64 (cur_total - pre_total));
      c9 ← cur !! 9%nat;
      let shares :=
        if 1 <? cpu_quota e
        then (λ x, ddiv (dmul x (of_int c9)) (of_int (cpu_quota e))) <$> shares else shares in
      put (shares ++ [of_int c9]) st.

(** [mod_mem.c]; the differences are unsigned. *)
Definition set_mem_record : st_callback := λ st pre cur inter,
  c0 ← cur !! 0%nat; c2 ← cur !! 2%nat; c3 ← cur !! 3%nat; c4 ← cur !! 4%nat;
  let used := u64 (c4 - c0 - c2 - c3) in
  if used <? 0 then put (replicate 6 d_minus1) st
  else
    let kb v := of_int (u64 (Z.shiftl v 10)) in
    put [kb c0; kb used; kb c2; kb c3; kb c4; ddiv (dmul (kb used) d100) (kb c4)] st.

(** [mod_swap.c] *)
Definition set_swap_record : st_callback := λ st pre cur inter,
  let rate i := c ← cur !! i; p ← pre !! i;
    Some (if p <=? c then of_int (u64 (c - p) / u64 inter) else d_zero) in
  r0 ← rate 0%nat; r1 ← rate 1%nat; c2 ← cur !! 2%nat; c3 ← cur !! 3%nat;
  put [r0; r1; of_int c2; dsub d100 (ddiv (dmul (of_int c3) d100) (of_int c2))] st.

(** [mod_vmevent.c] and [mod_numabalance.c] *)
Definition set_vmevent_record : st_callback := λ st pre cur inter, c ← slice 7 cur; put (of_int <$> c) st.
Definition set_numabalance_record : st_callback := λ st pre cur inter, c ← slice 3 cur; put (of_int <$> c) st.

(** [mod_load.c] *)
Definition set_load_record : st_callback := λ st pre cur inter,
  avg ← mapM (λ i, c ← cur !! i; Some (ddiv (of_int c) d100)) (seq 0 3);
  c3 ← cur !! 3%nat; c4 ← cur !! 4%nat;
  c5 ← cur !! 5%nat; p5 ← pre !! 5%nat; c6 ← cur !! 6%nat; p6 ← pre !! 6%nat; c7 ← cur !! 7%nat;
  put (avg ++ [of_int c3; of_int c4; of_int (u64 (c5 - p5)); of_int (u64 (c6 - p6)); of_int c7]) st.

(** [mod_tcp.c]; a column that went back keeps its old value. *)
Definition set_tcp_record : st_callback := λ st pre cur inter,
  rates ← mapM (λ i, c ← cur !! i; p ← pre !! i; s ← st !! i;
                  Some (if p <=? c then ddiv (dmul (of_int (u64 (c - p))) d_one) (of_int inter) else s)) (seq 0 6);
  c6 ← cur !! 6%nat; c7 ← cur !! 7%nat; p7 ← pre !! 7%nat; c3 ← cur !! 3%nat; p3 ← pre !! 3%nat; s7 ← st !! 7%nat;
  let retran := if (p7 <=? c7) && (p3 <? c3) then percent p7 c7 (u64 (c3 - p3)) else s7 in
  put (rates ++ [of_int c6; if dlt d100 retran then d100 else retran]) st.

(** ** Running the collectors *)

Definition set_mod_record (record : list Z) (m : module) : module := set_record record m.

(** [collect_record]: each enabled module's record is cleared and its collector
    called ([None]: it has none); a fault ends the process. *)
Fixpoint collect_record (collect : module → option collected) (mods : list module) : option (list module) :=
  match mods with
  | [] => Some []
  | m :: mods' =>
      m' ← (if m_enable m then
              let m := set_record [] m in
              match collect m with
              | Some (Record_ r) => Some (set_mod_record r m)
              | Some Unset | None => Some m
              | Some Fault => None
              end
            else Some m);
      ms ← collect_record collect mods';
      Some (m' :: ms)
  end.
