(* ===== verification/TsarCollect.v ===== *)
(** * TsarCollect: from the files of the kernel to the data file and back

    The class [Flat] says what a collector of [TsarModules] promises to the
    framework: a record of as many 64-bit numbers as the module has columns.
    The framework's theorems are proved against it and the collectors are its
    instances. *)

From Stdlib Require Import SpecFloat.
From S2P Require Import Prelude CString CFloat TsarRecord TsarStat TsarModules.

(** ** Numbers that are scanned and printed *)

Lemma scan_digits_nonneg s : ∀ acc, 0 ≤ acc → 0 ≤ (scan_digits acc s).1.
Proof.
  induction s as [|x s IH]; intros acc Hacc; simpl; [done|].
  destruct (isdigit x) eqn:Hx; [|done]. apply IH.
  unfold isdigit in Hx. apply andb_true_iff in Hx as [Hx%Z.leb_le _]. lia.
Qed.

Lemma strtoull_u64 s : is_u64 (strtoull s).1.
Proof.
  unfold strtoull, is_u64. destruct (scan_sign _) as [neg [|x r]]; [simpl; lia|].
  destruct (isdigit x); [|simpl; lia].
  pose proof (scan_digits_nonneg (x :: r) 0 ltac:(lia)) as Hd. destruct (scan_digits 0 (x :: r)) as [v rest].
  simpl in *. unfold ULLONG_MAX. destruct (Z.ltb_spec (2 ^ 64 - 1) v); [lia|].
  destruct neg; [apply wrap_range|]; lia.
Qed.

Lemma scan_ull_u64 s v r : scan_ull s = Some (v, r) → is_u64 v.
Proof. unfold scan_ull. destruct (at_number s); [|done]. intros [= H]. pose proof (strtoull_u64 s). by rewrite H in *. Qed.

Lemma scan_ulls_u64 n : ∀ s, Forall is_u64 (scan_ulls n s).
Proof.
  induction n as [|n IH]; intros s; simpl; [constructor|].
  destruct (scan_ull s) as [[v r]|] eqn:Hs; constructor; [by eapply scan_ull_u64|apply IH].
Qed.

Lemma fld_u64 l i : Forall is_u64 l → is_u64 (nth i l 0).
Proof.
  intros Hl. rewrite nth_lookup. destruct (l !! i) as [v|] eqn:Hv; simpl; [|unfold is_u64; lia].
  exact (Forall_lookup_1 _ _ _ _ Hl Hv).
Qed.

Lemma u64_u64 v : is_u64 (u64 v).
Proof. apply wrap_range. lia. Qed.

Lemma zero_u64 : is_u64 0.
Proof. unfold is_u64. lia. Qed.

Lemma zeros_u64 n : Forall is_u64 (replicate n 0).
Proof. apply Forall_replicate, zero_u64. Qed.

Create HintDb u64.
#[local] Hint Resolve scan_ulls_u64 fld_u64 u64_u64 zero_u64 zeros_u64 Forall_drop : u64.

Lemma keys_line_u64 tbl line : ∀ st, Forall is_u64 st → Forall is_u64 (keys_line tbl line st).
Proof.
  induction tbl as [|[[w off] f] tbl IH]; intros st Hst; simpl; [done|].
  destruct (is_prefix w line); [|auto]. destruct (scan_ull _) as [[v r]|] eqn:Hs; [|done].
  apply Forall_insert; [done|]. by eapply scan_ull_u64.
Qed.

Lemma keys_lines_u64 tbl lines : ∀ st, Forall is_u64 st → Forall is_u64 (keys_lines tbl lines st).
Proof.
  unfold keys_lines. induction lines as [|l lines IH]; intros st Hst; simpl; [done|].
  apply IH, keys_line_u64, Hst.
Qed.

Lemma keys_line_length tbl line : ∀ st, length (keys_line tbl line st) = length st.
Proof.
  induction tbl as [|[[w off] f] tbl IH]; intros st; simpl; [done|].
  destruct (is_prefix w line); [|auto]. destruct (scan_ull _) as [[v r]|]; [apply length_insert|done].
Qed.

Lemma keys_lines_length tbl lines : ∀ st, length (keys_lines tbl lines st) = length st.
Proof.
  unfold keys_lines. induction lines as [|l lines IH]; intros st; simpl; [done|].
  by rewrite IH, keys_line_length.
Qed.
#[local] Hint Resolve keys_lines_u64 : u64.

(** ** The interface *)

Definition lines_of (e : env) (path : string) (n : nat) : list (list Z) :=
  match files e path with Some text => fgets_all (n - 1) text | None => [] end.

(** The formats print signed numbers, so the text is that of the values when
    they are below 2^63. *)
Class Flat (read : env → collected) (n_col : nat) := {
  flat_values : env → list Z;
  flat_length e : length (flat_values e) = n_col;
  flat_u64 e : Forall is_u64 (flat_values e);
  flat_record e r : read e = Record_ r → Forall (λ v, v < 2 ^ 63) (flat_values e) → r = fmt_vals (flat_values e);
}.
Arguments flat_values read n_col {_} e.

Lemma commas_fmt vals : commas (fmt_llu <$> vals) = fmt_vals vals.
Proof.
  destruct vals as [|v vals]; [done|]. revert v.
  induction vals as [|w vals IH]; intros v; [simpl; by rewrite app_nil_r|].
  change (fmt_llu v ++ COMMA :: commas (fmt_llu <$> w :: vals) = fmt_llu v ++ COMMA :: fmt_vals (w :: vals)).
  by rewrite IH.
Qed.

Lemma fmt_lld_small v : 0 ≤ v < 2 ^ 63 → fmt_lld v = fmt_llu v.
Proof.
  intros Hv. unfold fmt_lld. rewrite swrap_small by (simpl; lia).
  unfold fmt_ld. by rewrite (proj2 (Z.ltb_ge v 0)) by lia.
Qed.

Lemma commas_fmt_lld vals : Forall is_u64 vals → Forall (λ v, v < 2 ^ 63) vals →
  commas (fmt_lld <$> vals) = fmt_vals vals.
Proof.
  intros Hu Hs. rewrite <-commas_fmt. f_equal. apply list_fmap_ext. intros i v Hv.
  apply fmt_lld_small. pose proof (Forall_lookup_1 _ _ _ _ Hu Hv) as [? _].
  pose proof (Forall_lookup_1 _ _ _ _ Hs Hv). simpl in *. lia.
Qed.

Lemma with_file_record e path n k r : with_file e path n k = Record_ r → k (lines_of e path n) = Record_ r.
Proof. unfold with_file, lines_of. by destruct (files e path). Qed.

Lemma record_inj a b : Record_ a = Record_ b → a = b.
Proof. congruence. Qed.

Lemma one_file_flat read (fmt : Z → list Z) path n values n_col :
  (∀ e, read e = with_file e path n (λ lines, Record_ (commas (fmt <$> values lines)))) →
  (∀ vals, Forall is_u64 vals → Forall (λ v, v < 2 ^ 63) vals → commas (fmt <$> vals) = fmt_vals vals) →
  (∀ lines, length (values lines) = n_col) → (∀ lines, Forall is_u64 (values lines)) → Flat read n_col.
Proof.
  intros Hread Hfmt Hlen Hu.
  refine {| flat_values e := values (lines_of e path n) |}; intros e; [apply Hlen|apply Hu|].
  intros r. rewrite Hread. intros Hr%with_file_record Hs. injection Hr as <-. auto.
Defined.

Lemma two_files_flat read (fmt : Z → list Z) path1 n1 path2 n2 values n_col :
  (∀ e, read e = with_file e path1 n1 (λ l1, with_file e path2 n2 (λ l2,
                   Record_ (commas (fmt <$> values l1 l2))))) →
  (∀ vals, Forall is_u64 vals → Forall (λ v, v < 2 ^ 63) vals → commas (fmt <$> vals) = fmt_vals vals) →
  (∀ l1 l2, length (values l1 l2) = n_col) → (∀ l1 l2, Forall is_u64 (values l1 l2)) → Flat read n_col.
Proof.
  intros Hread Hfmt Hlen Hu.
  refine {| flat_values e := values (lines_of e path1 n1) (lines_of e path2 n2) |}; intros e; [apply Hlen|apply Hu|].
  intros r. rewrite Hread. intros Hr%with_file_record%with_file_record Hs. injection Hr as <-. auto.
Defined.

Lemma commas_fmt' vals : Forall is_u64 vals → Forall (λ v, v < 2 ^ 63) vals →
  commas (fmt_llu <$> vals) = fmt_vals vals.
Proof. intros _ _. apply commas_fmt. Qed.

Lemma reorder_u64 l order : Forall is_u64 l → Forall is_u64 ((λ i, nth i l 0) <$> order).
Proof. intros Hl. apply Forall_fmap, Forall_forall. intros i _. by apply fld_u64. Qed.

Lemma second_values_u64 word n lines : Forall is_u64 (second_values word n lines).
Proof. unfold second_values. destruct (second_line _ _ _); auto with u64. Qed.
#[local] Hint Resolve second_values_u64 : u64.

Ltac columns := repeat first [apply Forall_nil | apply Forall_cons; split]; auto 8 with u64.

#[export] Instance pcsw_flat : Flat read_stat_pcsw 2.
Proof.
  apply (one_file_flat _ fmt_lld STAT 4096 pcsw_values); [done|apply commas_fmt_lld|intros lines..].
  - apply keys_lines_length.
  - apply keys_lines_u64, zeros_u64.
Defined.

#[export] Instance mem_flat : Flat read_mem_stats 6.
Proof.
  apply (one_file_flat _ fmt_llu MEMINFO 128 mem_values); [done|apply commas_fmt'|done|].
  intros lines. unfold mem_values. columns.
Defined.

#[export] Instance swap_flat : Flat read_vmstat_swap 4.
Proof.
  apply (two_files_flat _ fmt_lld VMSTAT 4096 MEMINFO 4096 swap_values); [done|apply commas_fmt_lld|done|].
  intros l1 l2. unfold swap_values. columns.
Defined.

#[export] Instance vmevent_flat : Flat read_vmstat_vmevent 7.
Proof.
  apply (one_file_flat _ fmt_lld VMSTAT 4096 vmevent_values); [done|apply commas_fmt_lld|intros lines..].
  - apply keys_lines_length.
  - apply keys_lines_u64, zeros_u64.
Defined.

#[export] Instance numabalance_flat : Flat read_vmstat_numabalance 3.
Proof.
  apply (one_file_flat _ fmt_lld VMSTAT 4096 numabalance_values); [done|apply commas_fmt_lld|done|].
  intros lines. unfold numabalance_values. columns.
Defined.

Lemma cpu_lines_u64 lines : ∀ st, Forall is_u64 st → Forall is_u64 (foldl (λ st l, cpu_line l st) st lines).
Proof.
  induction lines as [|l lines IH]; intros st Hst; simpl; [done|]. apply IH. unfold cpu_line, store_prefix.
  destruct (is_prefix _ l); [|done]. apply Forall_app. auto with u64.
Qed.

Lemma count_cpus_u64 lines : is_u64 (count_cpus lines).
Proof.
  unfold count_cpus. assert (∀ n, is_u64 n → is_u64 (foldl (λ n l,
    if is_prefix (lit "processor" ++ [9; 58]) l then u64 (n + 1) else n) n lines)) as H; [|auto with u64].
  induction lines as [|l lines IH]; intros n Hn; simpl; [done|]. apply IH. case_match; auto with u64.
Qed.

#[export] Instance cpu_flat : Flat read_cpu_stats 10.
Proof.
  apply (two_files_flat _ fmt_llu STAT 4096 CPUINFO 4096 cpu_values); [done|apply commas_fmt'|done|].
  intros l1 l2. apply Forall_app. split; [apply reorder_u64, cpu_lines_u64, zeros_u64|].
  columns. apply count_cpus_u64.
Defined.

#[export] Instance tcp_flat : Flat read_tcp_stats 8.
Proof.
  apply (one_file_flat _ fmt_lld NET_SNMP 1024 tcp_values); [done|apply commas_fmt_lld|done|].
  intros lines. apply reorder_u64. auto with u64.
Defined.

#[export] Instance udp_flat : Flat read_udp_stats 4.
Proof.
  apply (one_file_flat _ fmt_lld NET_SNMP 1024 udp_values); [done|apply commas_fmt_lld|done|].
  intros lines. apply reorder_u64. auto with u64.
Defined.

#[export] Instance tcpx_flat : Flat read_stat_tcpx 15.
Proof.
  refine {| flat_values e := tcpx_values (lines_of e NETSTAT 4096) (lines_of e NET_SNMP 4096) |}; intros e; [done| |].
  - apply Forall_app. split; [apply zeros_u64|]. columns.
  - intros r Hr%with_file_record%with_file_record%with_file_record%record_inj _. subst r. apply commas_fmt.
Defined.

(** ** Through the data file *)

Record flat_module := FlatModule { fm_read : env → collected; fm_cols : nat; fm_flat : Flat fm_read fm_cols }.
Definition fm_values (fm : flat_module) (e : env) : list Z := @flat_values _ _ (fm_flat fm) e.

(** The modules by the option they register. *)
Definition flat_modules : list (list Z * flat_module) :=
  [(lit "--pcsw", FlatModule _ _ pcsw_flat); (lit "--mem", FlatModule _ _ mem_flat);
   (lit "--swap", FlatModule _ _ swap_flat); (lit "--vmevent", FlatModule _ _ vmevent_flat);
   (lit "--numabalance", FlatModule _ _ numabalance_flat); (lit "--cpu", FlatModule _ _ cpu_flat);
   (lit "--tcp", FlatModule _ _ tcp_flat); (lit "--udp", FlatModule _ _ udp_flat);
   (lit "--tcpx", FlatModule _ _ tcpx_flat)].

Definition data_collect (e : env) (m : module) : option collected :=
  (λ fm : flat_module, fm_read fm e) <$> (list_to_map flat_modules : gmap (list Z) flat_module) !! m_opt_line m.

(** Module [m] is [fm], enabled. *)
Definition registered (m : module) (fm : flat_module) : Prop :=
  m_enable m = true ∧ (m_opt_line m, fm) ∈ flat_modules ∧ m_n_col m = Z.of_nat (fm_cols fm).

Definition record_of (e : env) (fm : flat_module) : list Z :=
  match fm_read fm e with Record_ r => r | _ => [] end.

Lemma flat_modules_names : NoDup (flat_modules.*1) ∧ Forall (λ o, (BAR ∉ o) ∧ (COLON ∉ o)) (flat_modules.*1).
Proof. split; apply (bool_decide_unpack _); by vm_compute. Qed.

Lemma registered_collect e m fm : registered m fm → data_collect e (set_record [] m) = Some (fm_read fm e).
Proof.
  intros (_ & Hin & _). unfold data_collect. change (m_opt_line (set_record [] m)) with (m_opt_line m).
  rewrite (proj1 (elem_of_list_to_map flat_modules _ _ (proj1 flat_modules_names)) Hin). done.
Qed.

Lemma no_fault_record e fm r : fm ∈ flat_modules.*2 → fm_read fm e = r → r ≠ Fault.
Proof.
  intros Hin <-. revert fm Hin. apply Forall_forall. simpl.
  repeat constructor; simpl; intros H; unfold read_stat_pcsw, read_mem_stats, read_vmstat_swap, read_vmstat_vmevent,
    read_vmstat_numabalance, read_cpu_stats, read_tcp_stats, read_udp_stats, read_stat_tcpx, with_file in H;
    repeat case_match; done.
Qed.

Lemma collect_record_registered e mods fms : Forall2 registered mods fms →
  collect_record (data_collect e) mods = Some (zip_with (λ m fm, set_record (record_of e fm) m) mods fms).
Proof.
  induction 1 as [|m fm mods fms Hm _ IH]; [done|]. cbn [collect_record zip_with].
  rewrite (registered_collect e m fm Hm). pose proof Hm as (-> & Hin & _).
  assert (fm ∈ flat_modules.*2) as Hfm by (by apply (list_elem_of_fmap_2 snd) in Hin).
  unfold record_of. destruct (fm_read fm e) eqn:Hr; simpl; rewrite ?IH; [done|done|].
  by apply (no_fault_record e fm Fault) in Hfm.
Qed.

(** The values are small enough for the formats. *)
Definition printable (e : env) (fm : flat_module) : Prop := Forall (λ v, v < 2 ^ 63) (fm_values fm e).

Lemma record_of_text e fm : printable e fm →
  record_of e fm = [] ∨ record_of e fm = fmt_vals (fm_values fm e).
Proof.
  intros Hp. unfold record_of. destruct (fm_read fm e) as [|r|] eqn:Hr; [by left| |by left].
  right. by apply (@flat_record _ _ (fm_flat fm)).
Qed.

Lemma record_of_bar e fm : printable e fm → BAR ∉ record_of e fm.
Proof.
  intros Hp. destruct (record_of_text e fm Hp) as [->| ->]; [apply not_elem_of_nil|].
  apply fmt_vals_notin; [apply (@flat_u64 _ _ (fm_flat fm))|done|unfold BAR; lia].
Qed.

Lemma convert_flat e fm r : (0 < fm_cols fm)%nat → printable e fm → fm_read fm e = Record_ r →
  convert_record_to_array (Z.of_nat (fm_cols fm)) (record_of e fm) = fm_values fm e.
Proof.
  intros Hc Hp Hr. unfold record_of. rewrite Hr, (@flat_record _ _ (fm_flat fm) e r Hr Hp).
  change (@flat_values _ _ (fm_flat fm) e) with (fm_values fm e).
  pose proof (@flat_length _ _ (fm_flat fm) e) as Hl. change (length (fm_values fm e) = fm_cols fm) in Hl.
  pose proof (@flat_u64 _ _ (fm_flat fm) e) as Hu. change (Forall is_u64 (fm_values fm e)) in Hu.
  destruct (fm_values fm e) as [|v vals]; [simpl in Hl; lia|].
  rewrite tsar_record_roundtrip by (done || lia). rewrite Nat2Z.id. apply take_ge. lia.
Qed.

Lemma collected_mods e mods fms : Forall2 registered mods fms → Forall (printable e) fms →
  let ms := zip_with (λ m fm, set_record (record_of e fm) m) mods fms in
  Forall mod_ok ms ∧ m_opt_line <$> ms = m_opt_line <$> mods ∧
  ∀ junk, stale junk <$> ms = stale junk <$> mods.
Proof.
  induction 1 as [|m fm mods fms Hm _ IH]; intros Hp; [done|]. apply Forall_cons in Hp as [Hp0 Hp].
  destruct (IH Hp) as (IH1 & IH2 & IH3). cbv zeta. cbn [zip_with]. rewrite !fmap_cons. split; [|split].
  - constructor; [|done]. destruct Hm as (_ & Hin & _).
    apply (list_elem_of_fmap_2 fst) in Hin. simpl in Hin.
    pose proof (proj2 flat_modules_names) as Hf. rewrite Forall_forall in Hf.
    destruct (Hf _ Hin) as [Hb Hc]. split; [done|]. split; [done|]. by apply record_of_bar.
  - rewrite IH2. by destruct m.
  - intros junk. rewrite fmap_cons, IH3. f_equal. destruct Hm as (He & _). unfold stale. destruct m. simpl in *.
    by rewrite He.
Qed.

(** C34: what the collectors read is what the statistics are computed from, for
    the nine modules [--pcsw], [--mem], [--swap], [--vmevent], [--numabalance],
    [--cpu], [--tcp], [--udp] and [--tcpx] (see [flat_modules]): when any of
    them are enabled and run, the values found are below 2^63, the records are
    written as a line of the data file, and the line is read back by a process
    whose modules held anything else, then every module whose collector
    succeeded has, converted to its array, exactly the values its collector
    found, and the others have an empty record. Proved against the interface of
    the collectors. *)
Theorem tsar_collect_line e t mods fms junk l :
  0 ≤ t < 2 ^ 63 → Forall2 registered mods fms → Forall (printable e) fms →
  Forall (λ fm, 0 < fm_cols fm)%nat fms → NoDup (m_opt_line <$> mods) →
  (∃ ms, collect_record (data_collect e) mods = Some ms ∧ output_file t ms = Line l) →
  ∃ back, read_line_to_module_record l (stale junk <$> mods) = (back, t) ∧
    Forall2 (λ b fm, match fm_read fm e with
                     | Record_ _ => convert_record_to_array (m_n_col b) (m_record b) = fm_values fm e
                     | _ => m_record b = []
                     end) back fms.
Proof.
  intros Ht Hreg Hp Hcols Hnd (ms & Hms & Hl). rewrite (collect_record_registered e mods fms Hreg) in Hms.
  destruct (collected_mods e mods fms Hreg Hp) as (Hok & Hopt & Hst). cbv zeta in *. injection Hms as Hms.
  rewrite Hms in *. exists ms. rewrite <-Hst. split; [apply line_roundtrip; [done..|by rewrite Hopt|done]|].
  subst ms. clear Hl Hnd Hok Hopt Hst.
  induction Hreg as [|m fm mods fms (He & _ & Hn) _ IH]; cbn [zip_with]; [constructor|].
  apply Forall_cons in Hp as [Hp0 Hp], Hcols as [Hc0 Hcols].
  constructor; [|by apply IH]. change (m_n_col (set_record (record_of e fm) m)) with (m_n_col m).
  change (m_record (set_record (record_of e fm) m)) with (record_of e fm). rewrite Hn.
  destruct (fm_read fm e) as [|r|] eqn:Hr; [by unfold record_of; rewrite Hr| |by unfold record_of; rewrite Hr].
  by eapply convert_flat.
Qed.

(** ** What the kernel prints

    A file of named numbers: a name, the separator [sep], blanks, the number
    and a unit. *)

Record entry := Entry { e_name : list Z; e_blanks : nat; e_val : Z; e_unit : list Z }.
Definition entry_line (sep : Z) (x : entry) : list Z :=
  e_name x ++ sep :: replicate (e_blanks x) 32 ++ fmt_llu (e_val x) ++ e_unit x.
Definition entry_ok (sep : Z) (n : nat) (x : entry) : Prop :=
  (sep ∉ e_name x) ∧ is_u64 (e_val x) ∧ no_digit (e_unit x) ∧
  (10 ∉ entry_line sep x) ∧ (0 ∉ entry_line sep x) ∧ (length (entry_line sep x) < n)%nat.
Definition entries_text (sep : Z) (xs : list entry) : list Z :=
  concat ((λ l, l ++ [10]) <$> (entry_line sep <$> xs)).

(** The number of a name: that of the last line with the name, and [old] if the
    file does not have it. *)
Fixpoint entry_val (name : list Z) (xs : list entry) (old : Z) : Z :=
  match xs with
  | [] => old
  | x :: xs' => entry_val name xs' (if decide (e_name x = name) then e_val x else old)
  end.

(** A key of the table is a name with its separator, and the scan starts behind
    it, or at it if it is a blank. *)
Definition key_ok (sep : Z) (k : key) : Prop :=
  last k.1.1 = Some sep ∧ (sep ∉ removelast k.1.1) ∧
  (k.1.2 = length k.1.1 ∨ sep = 32 ∧ k.1.2 = (length k.1.1 - 1)%nat).
Definition key_name (k : key) : list Z := removelast k.1.1.

Lemma scan_ull_blanks k v s : is_u64 v → no_digit s →
  scan_ull (replicate k 32 ++ fmt_llu v ++ s) = Some (v, s).
Proof.
  intros Hv Hs. assert (at_number (fmt_llu v ++ s) = true) as Hn by (apply at_number_digits; apply Hv).
  assert (at_number (replicate k 32 ++ fmt_llu v ++ s) = true ∧
    strtoull (replicate k 32 ++ fmt_llu v ++ s) = (v, s)) as [H1 H2].
  { induction k as [|k [IH1 IH2]]; [split; [done|by apply strtoull_fmt]|].
    split; [exact IH1|]. change (replicate (S k) 32 ++ fmt_llu v ++ s)
      with (32 :: replicate k 32 ++ fmt_llu v ++ s). by rewrite strtoull_blank. }
  unfold scan_ull. by rewrite H1, H2.
Qed.

Section keyed.
Context (sep : Z).

Lemma key_word k : key_ok sep k → k.1.1 = key_name k ++ [sep].
Proof.
  intros (Hl & _). unfold key_name. apply last_Some in Hl as [l Hl]. rewrite Hl. by rewrite removelast_last.
Qed.

(** A line of the file stores its number in the field of its name. *)
Lemma keys_line_entry tbl n x : ∀ st,
  Forall (key_ok sep) tbl → NoDup (key_name <$> tbl) → entry_ok sep n x →
  (∀ k, k ∈ tbl → key_name k = e_name x → keys_line tbl (entry_line sep x ++ [10]) st = <[k.2 := e_val x]> st) ∧
  (e_name x ∉ key_name <$> tbl → keys_line tbl (entry_line sep x ++ [10]) st = st).
Proof.
  intros st Hk Hnd Hx. pose proof Hx as (Hsep & Hv & Hu & _).
  set (line := entry_line sep x ++ [10]).
  assert (line = e_name x ++ sep :: replicate (e_blanks x) 32 ++ fmt_llu (e_val x) ++ e_unit x ++ [10]) as Hline.
  { subst line. unfold entry_line. by rewrite <-!app_assoc, <-app_comm_cons, <-!app_assoc. }
  assert (no_digit (e_unit x ++ [10])) as Hu' by (by destruct (e_unit x)).
  induction Hk as [|k tbl Hk0 Hk IH]; [split; [by intros k ?%not_elem_of_nil|done]|].
  rewrite fmap_cons in Hnd. apply NoDup_cons in Hnd as [Hni Hnd]. destruct (IH Hnd) as [IH1 IH2].
  pose proof (key_word k Hk0) as Hw. destruct k as [[w off] f]. cbn [fst snd] in Hw.
  destruct Hk0 as (_ & Hs & Hoff). cbn [fst snd] in Hs, Hoff. fold (key_name (w, off, f)) in Hs.
  cbn [keys_line]. destruct (decide (key_name (w, off, f) = e_name x)) as [Hname|Hname].
  - split; [|intros Hn; exfalso; apply Hn; rewrite <-Hname; apply list_elem_of_here].
    intros k Hin Hkn. apply elem_of_cons in Hin as [->|Hin].
    + rewrite Hw, Hname, Hline, (snoc_middle (e_name x) sep (_ ++ _)), is_prefix_app.
      assert (∃ j, drop off ((e_name x ++ [sep]) ++ replicate (e_blanks x) 32 ++ fmt_llu (e_val x) ++ e_unit x ++ [10])
        = replicate j 32 ++ fmt_llu (e_val x) ++ e_unit x ++ [10]) as [j ->].
      { rewrite Hname in Hw. destruct Hoff as [->|[-> ->]]; rewrite Hw.
        - exists (e_blanks x). apply drop_app_length.
        - exists (S (e_blanks x)). rewrite <-app_assoc. replace (length (e_name x ++ [32%Z]) - 1)%nat with (length (e_name x))
            by (rewrite length_app; simpl; lia). apply drop_app_length. }
      by rewrite scan_ull_blanks.
    + exfalso. apply Hni. rewrite Hname, <-Hkn. by apply list_elem_of_fmap_2.
  - assert (is_prefix w line = false) as Hp.
    { rewrite Hw, Hline. by apply is_prefix_word. }
    rewrite Hp. split; [|intros Hn; apply IH2; intros Hin; apply Hn; by apply list_elem_of_further].
    intros k Hin Hkn. apply elem_of_cons in Hin as [->|Hin]; [done|]. by apply IH1.
Qed.

(** The file as a whole: the field of a key is the number of its name. *)
Lemma keys_lines_entries tbl n xs k : ∀ st,
  Forall (key_ok sep) tbl → NoDup (key_name <$> tbl) → NoDup (tbl.*2) → Forall (entry_ok sep n) xs →
  k ∈ tbl → (k.2 < length st)%nat →
  nth k.2 (keys_lines tbl ((λ l, l ++ [10]) <$> (entry_line sep <$> xs)) st) 0
  = entry_val (key_name k) xs (nth k.2 st 0).
Proof.
  intros st Hk Hnd Hf Hxs Hin. revert st.
  induction Hxs as [|x xs Hx Hxs IH]; intros st Hst; [done|]. rewrite !fmap_cons.
  unfold keys_lines. cbn [foldl].
  fold (keys_lines tbl ((λ l, l ++ [10]) <$> (entry_line sep <$> xs)) (keys_line tbl (entry_line sep x ++ [10]) st)).
  rewrite IH by (done || by rewrite keys_line_length). cbn [entry_val].
  destruct (keys_line_entry tbl n x st Hk Hnd Hx) as [H1 H2]. f_equal. case_decide as Hname.
  - rewrite (H1 k Hin (eq_sym Hname)). by apply nth_lookup_Some, list_lookup_insert_eq.
  - destruct (decide (e_name x ∈ key_name <$> tbl)) as [Ht|Ht]; [|by rewrite H2].
    apply list_elem_of_fmap in Ht as (k' & Hk' & Hin'). rewrite (H1 k' Hin' (eq_sym Hk')), !nth_lookup.
    rewrite list_lookup_insert_ne; [done|]. intros Heq. apply Hname. rewrite Hk'. f_equal.
    apply list_elem_of_lookup in Hin as [i Hi], Hin' as [j Hj].
    assert (i = j) as ->; [|congruence].
    apply (NoDup_lookup (tbl.*2) _ _ k.2 Hf); rewrite list_lookup_fmap; [by rewrite Hi|by rewrite Hj, <-Heq].
Qed.

Lemma entries_lines n xs : Forall (entry_ok sep n) xs →
  fgets_all n (entries_text sep xs) = (λ l, l ++ [10]) <$> (entry_line sep <$> xs).
Proof.
  intros H. apply fgets_all_lines, Forall_fmap. eapply Forall_impl; [exact H|].
  intros x (_ & _ & _ & ? & ? & ?). done.
Qed.
End keyed.

#[global] Instance key_ok_dec sep k : Decision (key_ok sep k).
Proof. unfold key_ok. apply _. Defined.

Definition table_ok (sep : Z) (tbl : list key) : bool :=
  bool_decide (Forall (key_ok sep) tbl ∧ NoDup (key_name <$> tbl) ∧ NoDup (tbl.*2)).

(** A file of named numbers that the collector's buffer holds line by line. *)
Definition file_ok (sep : Z) (n : nat) (xs : list entry) : Prop :=
  Forall (entry_ok sep n) xs.

Lemma file_ok_mono sep n n' xs : (n ≤ n')%nat → file_ok sep n xs → file_ok sep n' xs.
Proof.
  intros Hn Hx. eapply Forall_impl; [exact Hx|].
  intros x (? & ? & ? & ? & ? & ?). unfold entry_ok. split_and!; try done; lia.
Qed.

(** The fields a table fills from a file. *)
Lemma table_field sep tbl n xs w off f st :
  table_ok sep tbl = true → file_ok sep n xs → (w, off, f) ∈ tbl → (f < length st)%nat →
  nth f (keys_lines tbl (fgets_all n (entries_text sep xs)) st) 0 = entry_val (removelast w) xs (nth f st 0).
Proof.
  intros Ht Hx Hin Hf. apply bool_decide_eq_true in Ht as (Hk & Hn & Hfs).
  rewrite (entries_lines sep n xs Hx). exact (keys_lines_entries sep tbl n xs (w, off, f) st Hk Hn Hfs Hx Hin Hf).
Qed.

Lemma keys_line_other tbl line f : ∀ st, f ∉ tbl.*2 → nth f (keys_line tbl line st) 0 = nth f st 0.
Proof.
  induction tbl as [|[[w off] g] tbl IH]; intros st Hf; [done|]. cbn [keys_line].
  rewrite fmap_cons in Hf. apply not_elem_of_cons in Hf as [Hg Hf]. simpl in Hg.
  destruct (is_prefix w line); [|by apply IH]. destruct (scan_ull _) as [[v r]|]; [|done].
  by rewrite !nth_lookup, list_lookup_insert_ne.
Qed.

Lemma table_other tbl lines f : ∀ st, f ∉ tbl.*2 → nth f (keys_lines tbl lines st) 0 = nth f st 0.
Proof.
  unfold keys_lines. induction lines as [|l lines IH]; intros st Hf; [done|]. simpl.
  by rewrite IH, keys_line_other.
Qed.

Lemma list_nths (l : list Z) : l = (λ i, nth i l 0) <$> seq 0 (length l).
Proof.
  apply list_eq. intros i. rewrite list_lookup_fmap. destruct (decide (i < length l)%nat) as [Hi|Hi].
  - rewrite lookup_seq_lt by done. destruct (lookup_lt_is_Some_2 l i Hi) as [v Hv].
    simpl. by rewrite (nth_lookup_Some _ _ _ _ Hv).
  - rewrite lookup_seq_ge by lia. by apply lookup_ge_None_2; lia.
Qed.

Lemma with_file_lines e path n text k : files e path = Some text → with_file e path (S n) k = k (fgets_all n text).
Proof. intros H. unfold with_file. rewrite H. by replace (S n - 1)%nat with n by lia. Qed.

Definition value (xs : list entry) (name : string) : Z := entry_val (lit name) xs 0.

Ltac in_table := apply (bool_decide_unpack _); by vm_compute.
Ltac named_field :=
  match goal with |- nth ?f (keys_lines ?tbl (fgets_all _ (entries_text ?sep ?xs)) ?st) 0 = _ =>
    let k := eval vm_compute in (list_find (λ k : key, k.2 = f) tbl) in
    match k with Some (_, (?w, ?off, _)) => rewrite (table_field sep tbl _ xs w off f st) end end;
  [|done|done|in_table|rewrite ?keys_lines_length; simpl; lia].

(** C35: on the files the kernel prints, the collectors of context switches,
    memory, swap and memory events record the numbers of the names they are
    about, wherever in the file they are: of a name that occurs more than once
    the last line counts, a name that is missing counts as 0, and the shorter
    names are not confused with the longer ones that contain them. *)
Theorem tsar_kernel_values e stat vmstat meminfo :
  files e STAT = Some (entries_text 32 stat) → files e VMSTAT = Some (entries_text 32 vmstat) →
  files e MEMINFO = Some (entries_text 58 meminfo) →
  file_ok 32 4095 stat → file_ok 32 4095 vmstat → file_ok 58 127 meminfo →
  read_stat_pcsw e = Record_ (commas (fmt_lld <$> [value stat "ctxt"; value stat "processes"])) ∧
  read_mem_stats e = Record_ (commas (fmt_llu <$>
    [value meminfo "MemFree"; 0; value meminfo "Buffers"; value meminfo "Cached"; value meminfo "MemTotal"; 0])) ∧
  read_vmstat_swap e = Record_ (commas (fmt_lld <$>
    [value vmstat "pswpin"; value vmstat "pswpout"; u64 (value meminfo "SwapTotal" * 1024);
     u64 (value meminfo "SwapFree" * 1024)])) ∧
  read_vmstat_vmevent e = Record_ (commas (fmt_lld <$>
    (value vmstat <$> ["pageoutrun"; "pgsteal_kswapd"; "pgsteal_direct"; "compact_daemon_wake"; "compact_stall";
                       "compact_success"; "oom_kill"]))).
Proof.
  intros Hs Hv Hm Hos Hov Hom.
  assert (file_ok 58 4095 meminfo) as Hom' by (eapply file_ok_mono; [|done]; lia).
  split; [|split; [|split]].
  - unfold read_stat_pcsw. rewrite (with_file_lines _ _ 4095 _ _ Hs). do 3 f_equal.
    rewrite (list_nths (pcsw_values _)). unfold pcsw_values. rewrite keys_lines_length. cbn [length replicate seq fmap list_fmap].
    f_equal; [named_field; done|]. f_equal. named_field. done.
  - unfold read_mem_stats. rewrite (with_file_lines _ _ 127 _ _ Hm). do 3 f_equal. unfold mem_values.
    f_equal; [named_field; done|]. f_equal. f_equal; [named_field; done|]. f_equal; [named_field; done|].
    f_equal. named_field. done.
  - unfold read_vmstat_swap. rewrite (with_file_lines _ _ 4095 _ _ Hv), (with_file_lines _ _ 4095 _ _ Hm). do 3 f_equal.
    unfold swap_values.
    rewrite !(table_other swap_meminfo_keys) by in_table.
    f_equal; [named_field; done|]. f_equal; [named_field; done|]. f_equal; [|f_equal].
    + f_equal. f_equal. named_field. rewrite table_other by in_table. done.
    + f_equal. f_equal. named_field. rewrite table_other by in_table. done.
  - unfold read_vmstat_vmevent. rewrite (with_file_lines _ _ 4095 _ _ Hv). do 3 f_equal.
    rewrite (list_nths (vmevent_values _)). unfold vmevent_values. rewrite keys_lines_length. cbn [length replicate seq fmap list_fmap].
    repeat (f_equal; [named_field; done|]). f_equal. named_field. done.
Qed.

(** ** A run *)

Definition s_entry (name : string) (v : Z) (unit : string) : entry := Entry (lit name) 1 v (lit unit).
Definition s_stat : list entry := [s_entry "cpu" 9 " 0 0 1"; s_entry "ctxt" 42 ""; s_entry "processes" 7 ""].
Definition s_vmstat : list entry := [s_entry "pswpin" 9 ""; s_entry "pswpin" 3 ""; s_entry "pgsteal_direct" 5 ""; s_entry "oom_kill" 1 ""].
Definition s_meminfo : list entry :=
  [s_entry "MemTotal" 100 " kB"; s_entry "MemFree" 10 " kB"; s_entry "Buffers" 20 " kB"; s_entry "Cached" 30 " kB";
   s_entry "SwapCached" 5 " kB"; s_entry "SwapTotal" 8 " kB"; s_entry "SwapFree" 2 " kB"].
Definition s_env : env :=
  Env (λ p, if decide (p = STAT) then Some (entries_text 32 s_stat)
            else if decide (p = VMSTAT) then Some (entries_text 32 s_vmstat)
            else if decide (p = MEMINFO) then Some (entries_text 58 s_meminfo) else None) None.

Lemma tsar_kernel_values_witness :
  read_stat_pcsw s_env = Record_ (lit "42,7") ∧ read_mem_stats s_env = Record_ (lit "10,0,20,30,100,0") ∧
  read_vmstat_swap s_env = Record_ (lit "3,0,8192,2048") ∧ read_vmstat_vmevent s_env = Record_ (lit "0,0,5,0,0,0,1").
Proof.
  destruct (tsar_kernel_values s_env s_stat s_vmstat s_meminfo) as (H1 & H2 & H3 & H4);
    [reflexivity..| | | |]; [each_element ltac:(split_and!; by_compute)..|].
  rewrite H1, H2, H3, H4. split_and!; f_equal; by_compute.
Defined.

Definition s_flat (opt : string) (n : Z) : module :=
  Module [] (lit opt) [] [] n true false 0 0 false false None None [] [] [] [] 0.

Lemma tsar_collect_line_witness : ∃ l back,
  read_line_to_module_record l (stale [55] <$> [s_flat "--pcsw" 2; s_flat "--mem" 6]) = (back, 1700000000) ∧
  (λ b, convert_record_to_array (m_n_col b) (m_record b)) <$> back = [[42; 7]; [10; 0; 20; 30; 100; 0]].
Proof.
  set (mods := [s_flat "--pcsw" 2; s_flat "--mem" 6]).
  set (fms := [FlatModule _ _ pcsw_flat; FlatModule _ _ mem_flat]).
  set (l := lit "1700000000|--pcsw:42,7|--mem:10,0,20,30,100,0" ++ [10]).
  destruct (tsar_collect_line s_env 1700000000 mods fms [55] l) as (back & Hb & Hv).
  - lia.
  - constructor; [|constructor; [|constructor]]; (split; [done|]; split; [|done]).
    + apply list_elem_of_here.
    + apply list_elem_of_further, list_elem_of_here.
  - constructor; [|constructor; [|constructor]]; apply (bool_decide_unpack _); by vm_compute.
  - repeat constructor.
  - apply (bool_decide_unpack _); by vm_compute.
  - eexists. split; [reflexivity|]. by vm_compute.
  - exists l, back. split; [exact Hb|]. destruct Hv as [|b1 fm1 back1 fms1 H1 Hv]; [done|].
    by vm_compute in Hb; simplify_eq.
Defined.
