(* ===== verification/TsarCpu.v ===== *)
(** * TsarCpu: CPU usage, from the kernel's file to the statistics

    The collector and the callback of [mod_cpu.c] run by the framework: two
    successive states of [/proc/stat] give the shares of the CPU time. *)

From Stdlib Require Import SpecFloat.
From S2P Require Import Prelude CString CFloat TsarRecord TsarStat TsarModules TsarCollect.

(** ** The file *)

(** The line of all CPUs: user, nice, system, idle, iowait, irq, softirq, steal,
    guest, and more on newer kernels. *)
Definition cpu_stat_line (vals : list Z) : list Z := lit "cpu " ++ concat ((λ v, 32 :: fmt_llu v) <$> vals).
Definition line_ok (l : list Z) : Prop := (10 ∉ l) ∧ (0 ∉ l) ∧ (length l < 4095)%nat.
Definition stat_text (vals : list Z) (others : list (list Z)) : list Z :=
  concat ((λ l, l ++ [10]) <$> cpu_stat_line vals :: others).
(** The columns of the record. *)
Definition cpu_columns (vals : list Z) (n_cpus : Z) : list Z :=
  let v i := nth i vals 0 in
  [v 0; v 2; v 4; v 5; v 6; v 3; v 1; v 7; v 8]%nat ++ [n_cpus].

Lemma columns_take vals r : cpu_columns (take 9 vals) r = cpu_columns vals r.
Proof. unfold cpu_columns. by rewrite !nth_firstn. Qed.

Lemma scan_ulls_S n s :
  scan_ulls (S n) s = match scan_ull s with Some (v, s') => v :: scan_ulls n s' | None => [] end.
Proof. done. Qed.

Lemma scan_ulls_length n : ∀ s, (length (scan_ulls n s) ≤ n)%nat.
Proof.
  induction n as [|n IH]; intros s; simpl; [done|]. destruct (scan_ull s) as [[v s']|]; simpl; [|lia].
  specialize (IH s'). lia.
Qed.

Lemma scan_ulls_take vals : Forall is_u64 vals → ∀ n,
  scan_ulls n (concat ((λ v, 32 :: fmt_llu v) <$> vals) ++ [10]) = take n vals.
Proof.
  induction 1 as [|v vals Hv _ IH]; intros n; [by destruct n as [|[|n]]|].
  destruct n as [|n]; [done|]. rewrite fmap_cons. cbn [concat scan_ulls take].
  rewrite <-app_assoc, <-app_comm_cons, scan_ull_fmt; [|done|by destruct vals]. by rewrite IH.
Qed.

Lemma cpu_line_stat vals st : (9 ≤ length vals)%nat → Forall is_u64 vals → length st = 9%nat →
  cpu_line (cpu_stat_line vals ++ [10]) st = take 9 vals.
Proof.
  intros Hl Hu Hst. destruct vals as [|v vals]; [simpl in Hl; lia|].
  apply Forall_cons in Hu as [Hv Hu]. unfold cpu_line, cpu_stat_line. rewrite <-app_assoc, is_prefix_app.
  change (drop 5 (lit "cpu " ++ concat ((λ v, 32 :: fmt_llu v) <$> v :: vals) ++ [10]))
    with ((fmt_llu v ++ concat ((λ v, 32 :: fmt_llu v) <$> vals)) ++ [10]).
  rewrite <-app_assoc, (scan_ulls_S 8).
  pose proof (scan_ull_blanks 0 v (concat ((λ v, 32 :: fmt_llu v) <$> vals) ++ [10]) Hv ltac:(by destruct vals)) as Hs.
  rewrite app_nil_l in Hs. rewrite Hs, scan_ulls_take by done. unfold store_prefix.
  rewrite drop_ge, app_nil_r; [done|]. simpl. rewrite length_take. simpl in Hl. lia.
Qed.

Lemma cpu_values_stat vals others info : (9 ≤ length vals)%nat → Forall is_u64 vals →
  Forall line_ok (cpu_stat_line vals :: others) → Forall (λ l, is_prefix (lit "cpu ") (l ++ [10]) = false) others →
  cpu_values (fgets_all 4095 (stat_text vals others)) info = cpu_columns vals (count_cpus info).
Proof.
  intros Hl Hu Hok Hoth. unfold stat_text. rewrite fgets_all_lines by done. unfold cpu_values, cpu_columns. f_equal.
  rewrite fmap_cons. cbn [foldl]. rewrite cpu_line_stat by done.
  assert (foldl (λ st l, cpu_line l st) (take 9 vals) ((λ l, l ++ [10]) <$> others) = take 9 vals) as ->.
  { clear Hok. induction Hoth as [|l others Hl' _ IH]; [done|]. rewrite fmap_cons. cbn [foldl].
    unfold cpu_line at 2. by rewrite Hl'. }
  pose proof (columns_take vals 0) as Hc. by apply app_inj_2 in Hc as [Hc _].
Qed.

(** ** The callback *)

Definition sumZ (l : list Z) : Z := foldr Z.add 0 l.

Lemma sumZ_nonneg l : Forall is_u64 l → 0 ≤ sumZ l.
Proof. unfold is_u64. induction 1; simpl; lia. Qed.

Lemma sum_u64_from l : ∀ n a, (n ≤ length l)%nat → 0 ≤ a → Forall is_u64 l → a + sumZ (take n l) < 2 ^ 64 →
  sum_u64 n a l = Some (a + sumZ (take n l)).
Proof.
  induction l as [|x l IH]; intros [|n] a Hn Ha Hl Hs; simpl in *; try lia; [by rewrite Z.add_0_r..|].
  apply Forall_cons in Hl as [[Hx ?] Hl]. pose proof (sumZ_nonneg (take n l) ltac:(by apply Forall_take)).
  rewrite wrap_small by lia. rewrite IH by (done || lia). f_equal. lia.
Qed.

Lemma sum_u64_sumZ n l : (n ≤ length l)%nat → Forall is_u64 l → sumZ (take n l) < 2 ^ 64 →
  sum_u64 n 0 l = Some (sumZ (take n l)).
Proof. intros. by apply sum_u64_from. Qed.

Lemma sum_u64_some n : ∀ a l, (n ≤ length l)%nat → ∃ t, sum_u64 n a l = Some t.
Proof. induction n as [|n IH]; intros a [|x l] H; simpl in *; try lia; [by eexists..|]. apply IH. lia. Qed.

Lemma went_back_spec n : ∀ pre cur, (n ≤ length pre)%nat → (n ≤ length cur)%nat →
  ∃ b, went_back n pre cur = Some b ∧ (b = true ↔ Exists (λ '(p, c), c < p) (take n (zip pre cur))).
Proof.
  induction n as [|n IH]; intros [|p pre] [|c cur] Hp Hc; simpl in *; try lia;
    try (exists false; split; [done|]; split; [done|by intros ?%Exists_nil]).
  destruct (Z.ltb_spec c p) as [Hlt|Hge].
  - exists true. split; [done|]. split; [intros _; by constructor|done].
  - destruct (IH pre cur) as (b & -> & Hb); [lia..|]. exists b. split; [done|]. rewrite Exists_cons, Hb.
    split; [by right|]. by intros [?|]; [lia|].
Qed.

Lemma mapM_some {A B} (f : A → option B) (g : A → B) l : (∀ x, x ∈ l → f x = Some (g x)) → mapM f l = Some (g <$> l).
Proof.
  induction l as [|x l IH]; intros H; [done|]. cbn [mapM]. rewrite (H x) by apply list_elem_of_here.
  cbn [mbind option_bind]. rewrite IH; [done|]. intros y Hy. apply H. by apply list_elem_of_further.
Qed.

Lemma lookup_fld (l : list Z) i : (i < length l)%nat → l !! i = Some (nth i l 0).
Proof. intros H. destruct (lookup_lt_is_Some_2 l i H) as [v Hv]. by rewrite (nth_lookup_Some _ _ _ _ Hv). Qed.

Lemma put_some l st : (length l ≤ length st)%nat → put l st = Some (l ++ drop (length l) st).
Proof. intros H. unfold put. by rewrite (proj2 (Nat.leb_le _ _)). Qed.

Lemma st_cols_custom conf infos : ∀ pre cur st, length pre = length infos → length cur = length infos →
  length st = length infos → st_cols conf true infos pre cur st = Some (pre, st, true).
Proof.
  induction infos as [|i infos IH]; intros [|p pre] [|c cur] [|s st] H1 H2 H3; simpl in *; try lia; [done|].
  by rewrite IH by lia.
Qed.

(** A module with a callback reads a record of one item. *)
Lemma collect_callback conf f m v vals pre old st' :
  print_tail conf = false → m_enable m = true → m_n_item m = 1 → zlen (m_info m) = m_n_col m →
  m_pre_array m = Some pre → m_cur_array m = Some old → m_pre_flag m = true →
  m_record m = fmt_vals (v :: vals) → m_n_col m = zlen (v :: vals) → zlen old = m_n_col m →
  zlen pre = m_n_col m → zlen (m_st_array m) = m_n_col m → Forall is_u64 (v :: vals) →
  f (m_st_array m) pre (v :: vals) (print_interval conf) = Some st' → length st' = length (m_st_array m) →
  ∃ m' w, collect_record_stat conf (λ _, Some f) [m] = Some ([m'], true, w) ∧
    m_pre_array m' = Some (v :: vals) ∧ m_st_flag m' = true ∧
    m_st_array m' = st'.
Proof.
  intros Ht He Hit Hinfo Hpre Hcur Hpf Hr Hn Hold Hpl Hst Hu Hown Hf.
  rewrite collect_one, (collect_module_one _ _ _ v vals old) by done. rewrite Hpf.
  unfold set_st_record. rewrite Ht. cbn [m_pre_array m_cur_array m_n_item m_n_col m_st_array m_info with_items with_arrays with_flags].
  rewrite Hpre. cbn [mbind option_bind]. unfold zlen in *. simpl st_items.
  rewrite Hn, Nat2Z.id, !slice_some, !take_ge, !drop_ge by (simpl in *; lia).
  cbn [mbind option_bind]. rewrite Hown. cbn [mbind option_bind].
  rewrite st_cols_custom by (rewrite ?Hf; simpl in *; lia). simpl. rewrite app_nil_r, ?app_nil_r.
  eexists _, _. split; [done|]. done.
Qed.

(** The module [--cpu] between two samples; [pre] are its columns then. *)
Record cpu_ready (m : module) (pre old : list Z) : Prop := {
  cr_enable : m_enable m = true; cr_opt : m_opt_line m = lit "--cpu"; cr_item : m_n_item m = 1;
  cr_col : m_n_col m = 10; cr_info : zlen (m_info m) = 10; cr_flag : m_pre_flag m = true;
  cr_pre : m_pre_array m = Some pre ∧ zlen pre = 10 ∧ Forall is_u64 pre;
  cr_cur : m_cur_array m = Some old ∧ zlen old = 10;
  cr_st : zlen (m_st_array m) = 10;
}.

Lemma not_back n pre cur : Forall2 Z.le (take n pre) (take n cur) → ¬ Exists (λ '(p, c), c < p) (take n (zip pre cur)).
Proof.
  intros H. rewrite Exists_exists. intros ([p c] & Hin & Hlt).
  revert Hin. revert cur H. induction n as [|n IH] in pre |- *; intros cur H Hin; [by apply not_elem_of_nil in Hin|].
  destruct pre as [|p' pre], cur as [|c' cur]; try by apply not_elem_of_nil in Hin.
  simpl in *. apply Forall2_cons in H as [H0 H]. apply elem_of_cons in Hin as [[= <- <-]|Hin]; [lia|]. by eapply IH.
Qed.

(** The part of [total] that column [i] has grown by, in percent. *)
Definition grown_part (pre cur : list Z) (total : Z) (i : nat) : double :=
  ddiv (dmul (of_int (nth i cur 0 - nth i pre 0)) (of_int 100)) (of_int total).
(** The shares of a sample: user, system, waiting, both interrupts, in use
    (neither idle, waiting nor stolen), nice, stolen and guest time. *)
Definition mode_shares (pre cur : list Z) (total : Z) : list double :=
  let part := grown_part pre cur total in
  [part 0%nat; part 1%nat; part 2%nat; part 3%nat; part 4%nat;
   dsub (dsub (dsub (of_int 100) (part 5%nat)) (part 2%nat)) (part 7%nat);
   part 6%nat; part 7%nat; part 8%nat].
(** With a quota of more than one CPU, the shares of the quota. *)
Definition of_quota (quota n_cpus : Z) (x : double) : double :=
  if decide (1 < quota) then ddiv (dmul x (of_int n_cpus)) (of_int quota) else x.

Lemma percent_grown pre cur total i :
  Forall is_u64 cur → Forall is_u64 pre → Forall2 Z.le (take 9 pre) (take 9 cur) → (i < 9)%nat →
  percent (nth i pre 0) (nth i cur 0) total = grown_part pre cur total i.
Proof.
  intros Hcu Hpu Hge Hi. unfold percent, grown_part. do 3 f_equal. apply wrap_small.
  assert (∀ l, Forall is_u64 l → 0 ≤ nth i l 0 < 2 ^ 64) as Hr.
  { intros l Hl. rewrite nth_lookup. destruct (l !! i) as [v|] eqn:Hv; simpl; [|lia].
    by apply (Forall_lookup_1 _ _ _ _ Hl Hv). }
  pose proof (Hr cur Hcu). pose proof (Hr pre Hpu). split; [|lia].
  assert (nth i pre 0 ≤ nth i cur 0) as Hle; [|lia].
  pose proof (Forall2_length _ _ _ Hge) as Hlen. rewrite !length_take in Hlen. rewrite !nth_lookup.
  rewrite <-(lookup_take_lt pre 9), <-(lookup_take_lt cur 9) by done.
  destruct (take 9 pre !! i) as [x|] eqn:Hx, (take 9 cur !! i) as [y|] eqn:Hy; simpl; try lia.
  - by apply (Forall2_lookup_lr _ _ _ _ _ _ Hge Hx Hy).
  - apply lookup_lt_Some in Hx. apply lookup_ge_None in Hy. rewrite length_take in *. lia.
  - rewrite lookup_take_lt in Hy by done. apply (Forall_lookup_1 _ _ _ _ Hcu Hy).
Qed.

Lemma cpu_shares_grown pre cur total :
  length pre = 10%nat → length cur = 10%nat → Forall is_u64 cur → Forall is_u64 pre →
  Forall2 Z.le (take 9 pre) (take 9 cur) → cpu_shares pre cur total = Some (mode_shares pre cur total).
Proof.
  intros Hp Hc Hcu Hpu Hge. unfold cpu_shares, col_shares.
  rewrite (mapM_some _ (grown_part pre cur total)); [done|]. intros i [_ Hi]%elem_of_seq. simpl in Hi.
  rewrite !lookup_fld by lia. cbn [mbind option_bind]. by rewrite percent_grown by (done || lia).
Qed.

(** The callback on every branch. *)
Lemma set_cpu_spec e st pre cur inter :
  let total := sumZ (take 9 cur) - sumZ (take 9 pre) in
  length st = 10%nat → length pre = 10%nat → length cur = 10%nat → Forall is_u64 pre → Forall is_u64 cur →
  sumZ (take 9 cur) < 2 ^ 64 → sumZ (take 9 pre) < 2 ^ 64 →
  ∃ st', set_cpu_record e st pre cur inter = Some st' ∧ length st' = 10%nat ∧
    (Forall2 Z.le (take 9 pre) (take 9 cur) → 0 < total →
     st' = (of_quota (cpu_quota e) (nth 9 cur 0) <$> mode_shares pre cur total) ++ [of_int (nth 9 cur 0)]) ∧
    (Exists (λ '(p, c), c < p) (take 9 (zip pre cur)) ∨ total ≤ 0 → take 9 st' = replicate 9 (of_int (-1))).
Proof.
  intros total Hst Hp Hc Hpu Hcu Hsc Hsp.
  assert (∃ st', put (replicate 9 d_minus1) st = Some st' ∧ length st' = 10%nat ∧ take 9 st' = replicate 9 (of_int (-1)))
    as (bad & Hbad & Hbl & Hb9).
  { eexists. rewrite put_some by (rewrite Hst, length_replicate; lia). split; [done|].
    split; [by rewrite length_app, length_drop, Hst|done]. }
  destruct (went_back_spec 9 pre cur) as (b & Hwb & Hb); [lia..|]. unfold set_cpu_record. rewrite Hwb. cbn [mbind option_bind].
  destruct b.
  { exists bad. split_and!; [done..| |done]. intros Hge _. exfalso. apply (not_back _ _ _ Hge). by apply Hb. }
  rewrite !sum_u64_sumZ by (done || lia). cbn [mbind option_bind].
  destruct (Z.leb_spec (sumZ (take 9 cur)) (sumZ (take 9 pre))) as [Hle|Hgt].
  { exists bad. split_and!; [done..| |done]. intros _ ?. lia. }
  assert (Forall2 Z.le (take 9 pre) (take 9 cur)) as Hge.
  { apply Forall2_same_length_lookup_2; [rewrite !length_take; lia|]. intros i x y Hx Hy. destruct (decide (x ≤ y)); [done|].
    enough (false = true) by done. apply Hb, Exists_exists. exists (x, y). split; [|lia].
    apply (list_elem_of_lookup_2 _ i). pose proof (lookup_lt_Some _ _ _ Hx) as Hi. rewrite length_take in Hi.
    rewrite lookup_take_lt in Hx, Hy by lia. rewrite lookup_take_lt by lia. by rewrite lookup_zip_with, Hx, Hy. }
  pose proof (sumZ_nonneg (take 9 pre) ltac:(by apply Forall_take)).
  rewrite wrap_small by lia. fold total. rewrite cpu_shares_grown, lookup_fld by (done || lia). cbn [mbind option_bind].
  eexists. split; [by rewrite put_some by (destruct (1 <? cpu_quota e); rewrite Hst; simpl; lia)|].
  rewrite drop_ge, app_nil_r by (destruct (1 <? cpu_quota e); rewrite Hst; simpl; lia).
  split; [by destruct (1 <? cpu_quota e)|]. split.
  - intros _ _. f_equal. unfold of_quota. destruct (Z.ltb_spec 1 (cpu_quota e)) as [Hq|Hq].
    + apply list_fmap_ext. intros _ x _. by rewrite decide_True.
    + rewrite <-(list_fmap_id (mode_shares pre cur total)) at 1. apply list_fmap_ext. intros _ x _.
      by rewrite decide_False by lia.
  - intros [Hex|Hle]; [|subst total; lia]. apply Hb in Hex. done.
Qed.

(** C33: CPU usage end to end. When the kernel's file gives the times [vals] and
    the module has an earlier sample [pre], then running the collector and the
    statistics keeps the new sample for the next time; if no time has gone back
    and some time has passed, the statistics are for each mode its part of the
    time that passed in all, in percent (the sixth column: what is left of 100
    without idle, waiting and stolen time), of the quota where one of more than
    one CPU is set, and the number of CPUs; if a time
    has gone back, or none has passed, all the shares are -1. *)
Theorem tsar_cpu_pipeline conf e m vals others info pre old :
  let cur := cpu_columns vals (count_cpus (fgets_all 4095 info)) in
  let total := sumZ (take 9 cur) - sumZ (take 9 pre) in
  print_tail conf = false → cpu_ready m pre old →
  files e STAT = Some (stat_text vals others) → files e CPUINFO = Some info →
  (9 ≤ length vals)%nat → Forall is_u64 vals → Forall line_ok (cpu_stat_line vals :: others) →
  Forall (λ l, is_prefix (lit "cpu ") (l ++ [10]) = false) others →
  sumZ (take 9 cur) < 2 ^ 64 → sumZ (take 9 pre) < 2 ^ 64 →
  ∃ m1 m2 w, collect_record (data_collect e) [m] = Some [m1] ∧
    collect_record_stat conf (λ _, Some (set_cpu_record e)) [m1] = Some ([m2], true, w) ∧
    m_pre_array m2 = Some cur ∧
    (Forall2 Z.le (take 9 pre) (take 9 cur) → 0 < total →
       m_st_array m2 = (of_quota (cpu_quota e) (nth 9 cur 0) <$> mode_shares pre cur total) ++ [of_int (nth 9 cur 0)]) ∧
    (Exists (λ '(p, c), c < p) (take 9 (zip pre cur)) ∨ total ≤ 0 →
       take 9 (m_st_array m2) = replicate 9 (of_int (-1))).
Proof.
  intros cur total Ht [He Ho Hit Hc Hi Hf (Hpre & Hpl & Hpu) (Hcur & Hcl) Hst] Hs Hci Hl Hu Hok Hoth Hsc Hsp.
  set (m1 := set_record (fmt_vals cur) m). exists m1.
  assert (Forall is_u64 cur) as Huc.
  { apply Forall_app. split; [by apply (reorder_u64 vals cpu_order)|]. repeat constructor; apply count_cpus_u64. }
  assert (collect_record (data_collect e) [m] = Some [m1]) as Hcol.
  { cbn [collect_record]. rewrite He. unfold data_collect.
    change (m_opt_line (set_record [] m)) with (m_opt_line m). rewrite Ho.
    rewrite (proj1 (elem_of_list_to_map flat_modules _ (FlatModule _ _ cpu_flat) (proj1 flat_modules_names)))
      by (repeat (apply list_elem_of_here || apply list_elem_of_further)).
    cbn [fmap option_fmap option_map fm_read]. unfold read_cpu_stats.
    rewrite (with_file_lines _ _ 4095 _ _ Hs), (with_file_lines _ _ 4095 _ _ Hci).
    rewrite cpu_values_stat by done. fold cur. rewrite commas_fmt. done. }
  assert (∃ v0 vs, cur = v0 :: vs) as (v0 & vs & Hcv) by (by eexists _, _).
  destruct (set_cpu_spec e (m_st_array m1) pre cur (print_interval conf)) as (st' & Hown & Hol & Hgood & Hbad);
    try done; try (unfold zlen in *; simpl; lia).
  destruct (collect_callback conf (set_cpu_record e) m1 v0 vs pre old st')
    as (m2 & w & H1 & H2 & _ & H3); try done; try (unfold zlen in *; simpl; lia).
  { by rewrite <-Hcv. }
  { by rewrite <-Hcv. }
  { by rewrite <-Hcv. }
  { by rewrite <-Hcv. }
  exists m2, w. rewrite <-Hcv in H2. split_and!; [done..| |]; rewrite H3; [exact Hgood|exact Hbad].
Qed.

(** ** A run *)

(** Sixty ticks in user mode and forty idle since the sample before. *)
Definition s_cpu_vals : list Z := [160; 0; 0; 140; 0; 0; 0; 0; 0; 0].
Definition s_cpu_env : env :=
  Env (λ p, if decide (p = STAT) then Some (stat_text s_cpu_vals [lit "cpu0 160 0 0 140 0 0 0 0 0 0"; lit "ctxt 7"])
            else if decide (p = CPUINFO) then Some (lit "processor" ++ [9; 58; 32; 48; 10]) else None) None.
Definition s_cpu_pre : list Z := [100; 0; 0; 0; 0; 100; 0; 0; 0; 1].
Definition s_cpu_module : module :=
  Module [] (lit "--cpu") [] (replicate 10 t_info) 10 true false 1 0 true false (Some s_cpu_pre)
    (Some (replicate 10 0)) (replicate 10 d_zero) [] [] [] 0.

Lemma tsar_cpu_pipeline_witness :
  ∃ m1 m2 w, collect_record (data_collect s_cpu_env) [s_cpu_module] = Some [m1] ∧
    collect_record_stat st_conf (λ _, Some (set_cpu_record s_cpu_env)) [m1] = Some ([m2], true, w) ∧
    m_st_array m2 = [of_int 60; d_zero; d_zero; d_zero; d_zero; of_int 60; d_zero; d_zero; d_zero; of_int 1].
Proof.
  destruct (tsar_cpu_pipeline st_conf s_cpu_env s_cpu_module s_cpu_vals
    [lit "cpu0 160 0 0 140 0 0 0 0 0 0"; lit "ctxt 7"] (lit "processor" ++ [9; 58; 32; 48; 10])
    s_cpu_pre (replicate 10 0)) as (m1 & m2 & w & H1 & H2 & _ & H3 & _); try done.
  - split; try done; split_and!; try done. repeat constructor; unfold is_u64; lia.
  - simpl. lia.
  - repeat constructor; unfold is_u64; lia.
  - each_element ltac:(split_and!; by_compute).
  - each_element ltac:(by_compute).
  - exists m1, m2, w. split; [done|]. split; [done|]. rewrite H3; [by vm_compute|..].
    + vm_compute. repeat constructor; done.
    + by vm_compute.
Defined.
