(* ===== verification/TsarItems.v ===== *)
(** * TsarItems: the collectors of several items

    [mservice/master/modules]: the modules whose record is a list of items
    [name=n,n,...;], one per CPU, network interface or mounted disk:
    [mod_ncpu.c], [mod_percpu.c], [mod_scheddelay.c], [mod_pernic.c] and
    [mod_partition.c]. *)

From Stdlib Require Import SpecFloat.
From S2P Require Import Prelude CString CFloat TsarRecord TsarStat TsarModules.

(** [pos += snprintf(buf + pos, LEN_1M - pos, ...)] and the test of [strlen(buf)]
    behind it: [None] when the buffer is full. *)
Definition append_item (item buf : list Z) : option (list Z) :=
  if LEN_1M - 1 <=? zlen buf + zlen item then None else Some (buf ++ item).

(** [name=v,v,...;] *)
Definition item_text (fmt : Z → list Z) (name vals : list Z) : list Z :=
  name ++ EQUALS :: commas (fmt <$> vals) ++ [SEMICOLON].

(** The result of a loop over the lines: the buffer, full, or a fault. *)
Inductive items_res := Items (buf : list Z) | Full | ItemFault.
Definition finish_items (r : items_res) : collected :=
  match r with Items buf => Record_ buf | Full => Unset | ItemFault => Fault end.

(** ** [mod_ncpu.c] *)

(** The nine fields keep their values from line to line. *)
Fixpoint ncpu_lines (lines : list (list Z)) (st buf : list Z) : items_res :=
  match lines with
  | [] => Items buf
  | line :: lines' =>
      if is_prefix (lit "cpu") line then
        let cpuname := token line in
        if (16 <=? length cpuname)%nat then ItemFault
        else if decide (cpuname = lit "cpu") then ncpu_lines lines' st buf
        else
          let st := store_prefix (scan_ulls 9 (drop (length cpuname) line)) st in
          match append_item (item_text fmt_llu cpuname ((λ i, fld st i) <$> cpu_order)) buf with
          | Some buf => ncpu_lines lines' st buf
          | None => Full
          end
      else ncpu_lines lines' st buf
  end.
Definition LEN_1M_nat : nat := Z.to_nat LEN_1M.
Definition read_ncpu_stats (e : env) : collected :=
  match files e STAT with
  | Some text => finish_items (ncpu_lines (fgets_all (LEN_1M_nat - 1) text) (replicate 9 0) [])
  | None => Unset
  end.

Definition set_ncpu_record (n_col : nat) : st_callback := λ st pre cur inter,
  pre_total ← sum_u64 n_col 0 pre;
  cur_total ← sum_u64 n_col 0 cur;
  let total := u64 (cur_total - pre_total) in
  shares ← mapM (λ i, c ← cur !! i; p ← pre !! i; s ← st !! i;
                   Some (if p <=? c then percent p c total else s)) (seq 0 5);
  c5 ← cur !! 5%nat; p5 ← pre !! 5%nat; s5 ← st !! 5%nat;
  put (shares ++ [if p5 <=? c5 then dsub d100 (percent p5 c5 total) else s5]) st.

(** ** [mod_percpu.c] *)

(** [begine_read_nrrun] fills [nr_run]; [None]: it writes outside the array. *)
Fixpoint nrrun_lines (fuel : nat) (nr_cpu idx : Z) (lines : list (list Z)) (nr_run : list Z) : option (list Z) :=
  match fuel with
  | O => Some nr_run
  | S fuel' =>
      match lines with
      | [] => Some nr_run
      | line :: lines' =>
          if is_prefix (lit "cpu#") line then
            let idx := match scan_ld (drop 4 line) with Some v => i32 v | None => idx end in
            if nr_cpu <? idx then nrrun_lines fuel' nr_cpu idx lines' nr_run
            else
              match lines' with
              | [] => Some nr_run
              | next :: lines'' =>
                  if is_prefix (lit "  .nr_runnin") next then
                    match scan_ull (drop 34 next) with
                    | Some (v, _) =>
                        if (0 <=? idx) && (idx <? zlen nr_run)
                        then nrrun_lines fuel' nr_cpu idx lines'' (<[Z.to_nat idx := v]> nr_run) else None
                    | None => nrrun_lines fuel' nr_cpu idx lines'' nr_run
                    end
                  else nrrun_lines fuel' nr_cpu idx lines'' nr_run
              end
          else nrrun_lines fuel' nr_cpu idx lines' nr_run
      end
  end.
Definition begine_read_nrrun (e : env) (nr_cpu : Z) (nr_run : list Z) : option (list Z) :=
  match files e SCHED_DEBUG with
  | Some text => let lines := fgets_all 1023 text in nrrun_lines (length lines) nr_cpu 0 lines nr_run
  | None => Some nr_run
  end.

Fixpoint percpu_lines (lines : list (list Z)) (st nr_run : list Z) (nr : nat) (buf : list Z) : items_res :=
  match lines with
  | [] => Items buf
  | line :: lines' =>
      if is_prefix (lit "cpu") line then
        let cpu_name := token line in
        if (10 <=? length cpu_name)%nat then ItemFault
        else
          let st := store_prefix (scan_ulls 9 (drop (length cpu_name) line)) st in
          if (length cpu_name <=? 3)%nat then percpu_lines lines' st nr_run nr buf
          else
            match nr_run !! nr with
            | None => ItemFault
            | Some nr_running =>
                match append_item (item_text fmt_llu cpu_name (((λ i, fld st i) <$> cpu_order) ++ [nr_running])) buf with
                | Some buf => percpu_lines lines' st nr_run (S nr) buf
                | None => Full
                end
            end
      else percpu_lines lines' st nr_run nr buf
  end.
Definition read_percpu_stats (nr_cpus : Z) (e : env) : collected :=
  match files e STAT with
  | Some text =>
      match begine_read_nrrun e nr_cpus (replicate (Z.to_nat nr_cpus) 0) with
      | Some nr_run => finish_items (percpu_lines (fgets_all (LEN_1M_nat - 1) text) (replicate 9 0) nr_run 0 [])
      | None => Fault
      end
  | None => Unset
  end.

(** The loops of [set_percpu_record] go over all [n_col] columns. *)
Definition set_percpu_record (n_col : nat) : st_callback := λ st pre cur inter,
  back ← went_back n_col pre cur;
  if back : bool then put (replicate 9 d_minus1) st
  else
    pre_total ← sum_u64 n_col 0 pre;
    cur_total ← sum_u64 n_col 0 cur;
    if cur_total <=? pre_total then Some st
    else
      s ← col_shares pre cur (u64 (cur_total - pre_total));
      s0 ← s !! 0%nat; s1 ← s !! 1%nat; s3 ← s !! 3%nat; s4 ← s !! 4%nat; s6 ← s !! 6%nat;
      c9 ← cur !! 9%nat;
      put (<[5%nat := dadd (dadd (dadd (dadd s0 s1) s3) s4) s6]> s ++ [of_int c9]) st.

(** ** [mod_scheddelay.c] *)

(** The eight fields after a line of [n] numbers. *)
Definition scheddelay_store (vals st : list Z) : list Z :=
  match vals with
  | [] => st
  | y :: rest =>
      if (length vals =? 8)%nat then y :: rest
      else if (length vals =? 9)%nat then y :: drop 1 rest
      else <[0%nat := y]> st
  end.

Fixpoint scheddelay_lines (lines : list (list Z)) (st buf : list Z) : items_res :=
  match lines with
  | [] => Items buf
  | line :: lines' =>
      if is_prefix (lit "cpu") line then
        let cpu_name := token line in
        if (8 <=? length cpu_name)%nat then ItemFault
        else
          let st := scheddelay_store (scan_ulls 9 (drop (length cpu_name) line)) st in
          match append_item (item_text fmt_llu cpu_name st) buf with
          | Some buf => scheddelay_lines lines' st buf
          | None => Full
          end
      else scheddelay_lines lines' st buf
  end.
Definition SCHEDSTAT : string := "/proc/schedstat".
Definition read_scheddelay_stats (e : env) : collected :=
  match files e SCHEDSTAT with
  | Some text => finish_items (scheddelay_lines (fgets_all (LEN_1M_nat - 1) text) (replicate 8 0) [])
  | None => Unset
  end.
Definition set_scheddelay_record : st_callback := λ st pre cur inter,
  d ← mapM (λ i, c ← cur !! i; p ← pre !! i; Some (of_int (u64 (c - p)))) (seq 0 8);
  put d st.

(** ** [mod_pernic.c] *)

Definition is_lower (c : Z) : bool := (97 <=? c) && (c <=? 122).
Fixpoint skip_not_lower (s : list Z) : list Z :=
  match s with x :: s' => if is_lower x then s else skip_not_lower s' | [] => [] end.

(** ["%*[^a-z]%[^:]:%llu %llu %*u ... %llu %llu ..."]: the name and the numbers
    converted; a conversion of a set needs at least one byte. *)
Definition pernic_scan (line : list Z) : list Z * list Z :=
  let s := skip_not_lower line in
  if (length s =? length line)%nat then ([], [])
  else
    let '(name, s) := span_not 58 s in
    match name, s with
    | [], _ => ([], [])
    | _, [] => (name, [])
    | _, _ :: s => (name, scan_ulls 16 s)
    end.

Fixpoint pernic_lines (lines : list (list Z)) (nics : nat) (buf : list Z) : items_res :=
  match lines with
  | [] => Items buf
  | line :: lines' =>
      if contains line [58] then
        let '(name, v) := pernic_scan line in
        if (16 <=? length name)%nat then ItemFault
        else if fld v 0 =? 0 then pernic_lines lines' nics buf
        else
          match append_item (item_text fmt_lld name [fld v 0; fld v 8; fld v 1; fld v 9]) buf with
          | Some buf => if (8 <? S nics)%nat then Items buf else pernic_lines lines' (S nics) buf
          | None => Full
          end
      else pernic_lines lines' nics buf
  end.
Definition read_pernic_stats (e : env) : collected :=
  match files e NET_DEV with
  | Some text => finish_items (pernic_lines (fgets_all (LEN_1M_nat - 1) text) 0 [])
  | None => Unset
  end.

(** ** [mod_partition.c] *)

Record stats_partition := Part { bsize : Z; blocks : Z; bfree : Z; bavail : Z; itotal : Z; ifree : Z }.
(** An entry of the mount table, with what [statfs] says of its directory. *)
Record mount := Mount { mnt_fsname : list Z; mnt_dir : list Z; mnt_statfs : option stats_partition }.

Definition read_one_partition (m : mount) (temp : stats_partition) : stats_partition := default temp (mnt_statfs m).

(** The item of a partition, in blocks of 1024 bytes; [bsize] is an [int]. *)
Definition store_single_partition (mntpath : list Z) (sp : stats_partition) : option (list Z) :=
  if negb (Z.rem (bsize sp) 1024 =? 0) then Some []
  else
    let k := bsize sp ÷ 1024 in
    if k =? 0 then None
    else Some (mntpath ++ EQUALS :: fmt_ld (bsize sp ÷ k) ++ COMMA ::
                 commas (fmt_lld <$> [u64 (bfree sp * k); u64 (blocks sp * k); u64 (bavail sp * k); ifree sp; itotal sp])
               ++ [SEMICOLON]).

Definition MAXPART : nat := 32.
(** The loop over the mount table. [temp] keeps its values when [statfs] fails. *)
Fixpoint partition_loop (mnts : list mount) (part_nr : nat) (temp : stats_partition) (buf : list Z) : items_res :=
  match mnts with
  | [] => Items buf
  | m :: mnts' =>
      if is_prefix [47] (mnt_fsname m) then
        if (MAXPART <=? part_nr)%nat then Items buf
        else
          let temp := read_one_partition m temp in
          match store_single_partition (mnt_dir m) temp with
          | None => ItemFault
          | Some item =>
              match append_item item buf with
              | Some buf => partition_loop mnts' (S part_nr) temp buf
              | None => Full
              end
          end
      else partition_loop mnts' part_nr temp buf
  end.
Definition read_partition_stat (mnts : list mount) : collected :=
  finish_items (partition_loop mnts 0 (Part 0 0 0 0 0 0) []).

Definition set_part_record : st_callback := λ st pre cur inter,
  c0 ← cur !! 0%nat; c1 ← cur !! 1%nat; c2 ← cur !! 2%nat; c3 ← cur !! 3%nat; c4 ← cur !! 4%nat; c5 ← cur !! 5%nat;
  s3 ← st !! 3%nat; s6 ← st !! 6%nat;
  let used := u64 (c2 - c1) in
  let nonroot_total := u64 (used + c3) in
  let util := if nonroot_total =? 0 then s3
              else dadd (ddiv (dmul (of_int used) d100) (of_int nonroot_total))
                        (of_int (if u64 (used * 100) mod nonroot_total =? 0 then 0 else 1)) in
  let iutil := if (c4 <=? c5) && negb (c5 =? 0) then percent c4 c5 c5 else s6 in
  put [of_int (u64 (c3 * c0)); of_int (u64 (used * c0)); of_int (u64 (c2 * c0));
       if dlt d100 util then d100 else util; of_int c4; of_int c5; iutil] st.
