(* ===== verification/TsarItemFacts.v ===== *)
(** * TsarItemFacts: what the collectors of several items record

    Theorems about [TsarItems]: the items of the CPUs and of the network
    interfaces, from the kernel's files to the merged array. *)

From Stdlib Require Import SpecFloat.
From S2P Require Import Prelude CString CFloat TsarRecord TsarStat TsarModules TsarCollect TsarCpu TsarItems.

(** ** The CPUs *)

(** The line of one CPU, and the file: the line of all CPUs, one line per CPU
    and lines about other things. *)
Definition one_cpu_line (x : nat * list Z) : list Z := cpu_word x.1 ++ concat ((λ v, 32 :: fmt_llu v) <$> x.2).
Definition cpus_text (all : list Z) (cpus : list (nat * list Z)) (others : list (list Z)) : list Z :=
  concat ((λ l, l ++ [10]) <$> (cpu_stat_line all :: (one_cpu_line <$> cpus) ++ others)).

Definition cpu_ok (x : nat * list Z) : Prop :=
  Z.of_nat x.1 < 10000 ∧ (9 ≤ length x.2)%nat ∧ Forall is_u64 x.2.

(** The item of a CPU: the modes in the order of the columns, and the
    run-queue length printed with it. The code pairs the two by position: the
    [i]-th line gets [nr_run[i]], while [begine_read_nrrun] fills the array by the
    number of the CPU, so when a CPU is offline the CPUs behind it get the lengths
    of other CPUs. *)
Definition cpu_item (x : nat * list Z) (nr_running : Z) : list Z * list Z :=
  (cpu_word x.1, cpu_columns x.2 nr_running).
Definition cpu_items (cpus : list (nat * list Z)) (nr_run : list Z) : list (list Z * list Z) :=
  zip_with cpu_item cpus nr_run.

Lemma item_text_fmt name vals : item_text fmt_llu name vals = fmt_item (name, vals).
Proof. unfold item_text, fmt_item. simpl. by rewrite commas_fmt. Qed.

Lemma store_nine_values vals st : (9 ≤ length vals)%nat → length st = 9%nat →
  store_prefix (take 9 vals) st = take 9 vals.
Proof. intros Hl Hst. unfold store_prefix. rewrite drop_ge, app_nil_r; [done|]. rewrite length_take. lia. Qed.

Lemma cpu_word_cpu i s : is_prefix (lit "cpu") (cpu_word i ++ s) = true ∧ (3 < length (cpu_word i))%nat.
Proof.
  split; [done|]. unfold cpu_word. rewrite length_app. unfold fmt_ld. rewrite (proj2 (Z.ltb_ge _ 0)) by lia.
  destruct (dec_digits_head 19 (Z.of_nat i) [] ltac:(lia)) as (c & l & Hd & _). rewrite app_nil_r in Hd.
  rewrite Hd. simpl. lia.
Qed.

Lemma one_cpu_scan x : cpu_ok x →
  token (one_cpu_line x ++ [10]) = cpu_word x.1 ∧
  scan_ulls 9 (drop (length (cpu_word x.1)) (one_cpu_line x ++ [10])) = take 9 x.2.
Proof.
  intros (_ & Hl & Hu). unfold one_cpu_line. rewrite <-app_assoc. split.
  - destruct x as [i [|v vals]]; [simpl in Hl; lia|]. cbn [fst snd]. rewrite fmap_cons. cbn [concat].
    rewrite <-app_assoc, <-app_comm_cons. apply token_app, cpu_word_plain.
  - rewrite drop_app_length. by apply scan_ulls_take.
Qed.

(** The lines of the CPUs are appended in order. *)
Lemma percpu_lines_items cpus nr_run rest : ∀ st nr buf,
  Forall cpu_ok cpus → length st = 9%nat → (nr + length cpus ≤ length nr_run)%nat →
  zlen buf + zlen (concat (map fmt_item (cpu_items cpus (drop nr nr_run)))) < LEN_1M - 1 →
  ∃ st', length st' = 9%nat ∧
  percpu_lines (((λ l, l ++ [10]) <$> (one_cpu_line <$> cpus)) ++ rest) st nr_run nr buf
  = percpu_lines rest st' nr_run (nr + length cpus)
      (buf ++ concat (map fmt_item (cpu_items cpus (drop nr nr_run)))).
Proof.
  induction cpus as [|x cpus IH]; intros st nr buf Hok Hst Hnr Hlen.
  { exists st. split; [done|]. simpl. by rewrite app_nil_r, Nat.add_0_r. }
  apply Forall_cons in Hok as [Hx Hok]. simpl in Hnr.
  destruct (lookup_lt_is_Some_2 nr_run nr) as [r Hr]; [lia|].
  assert (drop nr nr_run = r :: drop (S nr) nr_run) as Hdrop by (by apply drop_S).
  rewrite Hdrop in Hlen |- *. cbn [cpu_items zip_with map concat] in Hlen |- *.
  fold (cpu_items cpus (drop (S nr) nr_run)) in Hlen |- *. rewrite zlen_app in Hlen.
  rewrite !fmap_cons, <-app_comm_cons. cbn [percpu_lines].
  destruct (one_cpu_scan x Hx) as [Ht Hs]. rewrite Ht, Hs.
  destruct (cpu_word_cpu x.1 (concat ((λ v, 32 :: fmt_llu v) <$> x.2) ++ [10])) as [Hp Hw].
  unfold one_cpu_line at 1. rewrite <-app_assoc, Hp.
  destruct Hx as (Hi & Hl & Hu). pose proof (cpu_word_short x.1 Hi).
  rewrite (proj2 (Nat.leb_gt 10 _)), (proj2 (Nat.leb_gt _ 3)) by lia. rewrite Hr, store_nine_values by done.
  change (((λ i, nth i (take 9 x.2) 0) <$> cpu_order) ++ [r]) with (cpu_columns (take 9 x.2) r).
  rewrite columns_take, item_text_fmt by done. fold (cpu_item x r).
  unfold append_item. pose proof (zlen_nonneg (concat (map fmt_item (cpu_items cpus (drop (S nr) nr_run))))).
  rewrite (proj2 (Z.leb_gt _ _)) by lia.
  destruct (IH (take 9 x.2) (S nr) (buf ++ fmt_item (cpu_item x r)) Hok) as (st' & Hst' & ->);
    [rewrite length_take; lia|lia|rewrite zlen_app; lia|].
  exists st'. split; [done|]. rewrite <-app_assoc. f_equal. simpl. lia.
Qed.

Lemma percpu_lines_others others : ∀ st nr_run nr buf, Forall (λ l, is_prefix (lit "cpu") (l ++ [10]) = false) others →
  percpu_lines ((λ l, l ++ [10]) <$> others) st nr_run nr buf = Items buf.
Proof.
  induction others as [|l others IH]; intros st nr_run nr buf Ho; [done|].
  apply Forall_cons in Ho as [Hl Ho]. rewrite fmap_cons. cbn [percpu_lines]. rewrite Hl. by apply IH.
Qed.

Lemma cpu_item_ok x r : cpu_ok x → is_u64 r → item_ok 10 (cpu_item x r).
Proof.
  intros (_ & Hl & Hu) Hr. unfold item_ok, cpu_item. cbn [fst snd].
  assert (∀ c, ¬ (48 ≤ c ≤ 57) → c ∉ lit "cpu" → c ∉ cpu_word x.1) as Hn.
  { intros c Hc Hcpu. unfold cpu_word. apply not_elem_of_app. split; [done|]. unfold fmt_ld.
    rewrite (proj2 (Z.ltb_ge _ 0)) by lia. apply (fmt_llu_notin c (Z.of_nat x.1)); [lia|done]. }
  split; [done|]. split; [apply Hn; [unfold EQUALS; lia|apply (bool_decide_unpack _); by vm_compute]|].
  split; [apply Hn; [unfold SEMICOLON; lia|apply (bool_decide_unpack _); by vm_compute]|].
  split; [|done]. apply Forall_app. split; [by apply (reorder_u64 x.2 cpu_order)|]. by constructor.
Qed.

Lemma Forall_zip_with {A B C} (f : A → B → C) (P : A → Prop) (Q : B → Prop) (R : C → Prop) l k :
  (∀ a b, P a → Q b → R (f a b)) → Forall P l → Forall Q k → Forall R (zip_with f l k).
Proof.
  intros HR Hl. revert k. induction Hl as [|a l Ha _ IH]; intros [|b k] Hk; cbn [zip_with]; try constructor;
    apply Forall_cons in Hk as [Hb Hk]; auto.
Qed.

(** C36: the CPUs one by one. On the kernel's file, with one line per CPU and the
    run-queue lengths [nr_run] read beforehand, the record is one item per CPU,
    in the order of the file, with its name, the times of the modes and the
    length that stands at its place in [nr_run] (that of another CPU when one
    before it is offline); and merging the record gives in each column the sum over
    all the CPUs, modulo 2^64. *)
Theorem tsar_percpu_items nr_cpus e all cpus others nr_run mod_ array :
  let items := cpu_items cpus nr_run in
  files e STAT = Some (cpus_text all cpus others) →
  begine_read_nrrun e nr_cpus (replicate (Z.to_nat nr_cpus) 0) = Some nr_run →
  Forall cpu_ok cpus → (length cpus ≤ length nr_run)%nat → Forall is_u64 nr_run →
  Forall (λ l, (10 ∉ l) ∧ (0 ∉ l) ∧ zlen l < LEN_1M - 1) (cpu_stat_line all :: (one_cpu_line <$> cpus) ++ others) →
  Forall (λ l, is_prefix (lit "cpu") (l ++ [10]) = false) others →
  zlen (concat (map fmt_item items)) < LEN_1M - 1 →
  m_n_col mod_ = 10 → zlen (m_info mod_) = 10 → zlen array = 10 →
  Forall (λ i, i_merge i = MERGE_SUM) (m_info mod_) →
  read_percpu_stats nr_cpus e = Record_ (concat (map fmt_item items)) ∧
  ∃ r, merge_mult_item_to_array array (set_mod_record (concat (map fmt_item items)) mod_) = Some (true, r) ∧
    ∀ j, (j < 10)%nat → r !! j = Some (u64 (col_sum j items)).
Proof.
  intros items Hs Hrun Hok Hlen Hru Hlines Hoth Hfit Hc Hi Ha Hm. split.
  - unfold read_percpu_stats. rewrite Hs, Hrun. unfold cpus_text.
    rewrite fgets_all_lines; cycle 1.
    { eapply Forall_impl; [exact Hlines|]. intros l (? & ? & Hl). split_and!; [done..|].
      unfold LEN_1M_nat, zlen in *. lia. }
    rewrite fmap_cons, fmap_app. cbn [percpu_lines].
    change (is_prefix (lit "cpu") (cpu_stat_line all ++ [10])) with true. cbv iota.
    change (token (cpu_stat_line all ++ [10])) with (lit "cpu").
    change (length (lit "cpu")) with 3%nat. simpl Nat.leb. cbv iota.
    set (st := store_prefix _ _).
    assert (length st = 9%nat) as Hst.
    { subst st. unfold store_prefix. rewrite length_app, length_drop, length_replicate.
      pose proof (scan_ulls_length 9 (drop 3 (cpu_stat_line all ++ [10]))). lia. }
    destruct (percpu_lines_items cpus nr_run ((λ l, l ++ [10]) <$> others) st 0 []) as (st' & _ & ->);
      [done|done|lia|rewrite drop_0; exact Hfit|].
    rewrite percpu_lines_others by done. simpl app. by rewrite drop_0.
  - destruct (merge_sums (set_mod_record (concat (map fmt_item items)) mod_) items array) as (r & Hr & Hl & Hj);
      unfold set_mod_record; simpl; try (rewrite Hc; done || lia); try done.
    + rewrite Hc. apply (Forall_zip_with _ cpu_ok is_u64); [|done..]. intros x v. apply cpu_item_ok.
    + exists r. split; [done|]. intros j Hj'. apply Hj. simpl in Hl. rewrite Hc in Hl. unfold zlen in Hl. lia.
Qed.

(** A shorter run queue spoils the whole line: the column of the run queue is
    tested like a counter, so when it is smaller than before all the shares
    become -1, whatever the times say. *)
Lemma percpu_shorter_queue st pre cur inter :
  length st = 10%nat → length pre = 10%nat → length cur = 10%nat → nth 9 cur 0 < nth 9 pre 0 →
  take 9 <$> set_percpu_record 10 st pre cur inter = Some (replicate 9 d_minus1).
Proof.
  intros Hst Hp Hc Hlt. unfold set_percpu_record.
  destruct (went_back_spec 10 pre cur) as (b & -> & Hb); [lia..|].
  assert (b = true) as ->; [|by rewrite put_some by (rewrite Hst, length_replicate; lia)].
  apply Hb, Exists_exists.
  destruct (lookup_lt_is_Some_2 pre 9) as [p Hpl]; [lia|]. destruct (lookup_lt_is_Some_2 cur 9) as [c Hcl]; [lia|].
  rewrite (nth_lookup_Some _ _ _ _ Hpl), (nth_lookup_Some _ _ _ _ Hcl) in Hlt.
  exists (p, c). split; [|done]. apply (list_elem_of_lookup_2 _ 9). rewrite lookup_take_lt by lia.
  by rewrite lookup_zip_with, Hpl, Hcl.
Qed.

(** ** The network interfaces *)

(** A line of [/proc/net/dev]: the name padded to six bytes, and sixteen
    numbers, each behind blanks. *)
Record nic := Nic { n_name : list Z; n_nums : list (nat * Z) }.
Definition nic_line (x : nic) : list Z :=
  replicate (6 - length (n_name x)) 32 ++ n_name x ++ 58 ::
  concat ((λ '(k, v), replicate k 32 ++ fmt_llu v) <$> n_nums x).
Definition nic_val (x : nic) (i : nat) : Z := nth i (n_nums x).*2 0.
Definition nic_ok (x : nic) : Prop :=
  (∃ c s, n_name x = c :: s ∧ is_lower c = true) ∧ (58 ∉ n_name x) ∧ (length (n_name x) < 16)%nat ∧
  length (n_nums x) = 16%nat ∧ Forall (λ kv, (0 < kv.1)%nat ∧ 0 ≤ kv.2 < 2 ^ 63) (n_nums x).
Definition dev_text (headers : list (list Z)) (nics : list nic) : list Z :=
  concat ((λ l, l ++ [10]) <$> headers ++ (nic_line <$> nics)).

(** The interfaces that are recorded. *)
Definition nic_shown (x : nic) : Prop := (length (n_name x) < 6)%nat ∧ nic_val x 0 ≠ 0.
Definition nic_item (x : nic) : list Z * list Z :=
  (n_name x, [nic_val x 0; nic_val x 8; nic_val x 1; nic_val x 9]).

Lemma scan_ulls_padded nums : Forall (λ kv, (0 < kv.1)%nat ∧ 0 ≤ kv.2 < 2 ^ 63) nums → ∀ n, (length nums ≤ n)%nat →
  scan_ulls n (concat ((λ '(k, v), replicate k 32 ++ fmt_llu v) <$> nums) ++ [10]) = nums.*2.
Proof.
  induction 1 as [|[k v] nums [Hk Hv] Hn IH]; intros n Hl; [by destruct n as [|[|n]]|].
  destruct n as [|n]; [simpl in Hl; lia|]. rewrite !fmap_cons. cbn [concat].
  rewrite scan_ulls_S, <-!app_assoc. rewrite scan_ull_blanks.
  - rewrite IH by (simpl in Hl; lia). done.
  - unfold is_u64. simpl in Hv. lia.
  - destruct Hn as [|[k' v'] nums [Hk' _] _]; [done|]. destruct k'; [simpl in Hk'; lia|done].
Qed.

Lemma skip_not_lower_app pad c s : is_lower c = true → skip_not_lower (replicate pad 32 ++ c :: s) = c :: s.
Proof. intros Hc. induction pad as [|pad IH]; simpl; [by rewrite Hc|done]. Qed.

(** The scan of a line skips at least one byte before the name. *)
Lemma pernic_scan_line x : nic_ok x →
  pernic_scan (nic_line x ++ [10])
  = if decide (length (n_name x) < 6)%nat then (n_name x, (n_nums x).*2) else ([], []).
Proof.
  intros ((c & s & Hn & Hc) & H58 & _ & Hl & Hnums). unfold pernic_scan, nic_line. rewrite <-!app_assoc.
  rewrite <-app_comm_cons. set (T := 58 :: concat _ ++ [10]).
  assert (∀ pad, skip_not_lower (replicate pad 32 ++ n_name x ++ T) = n_name x ++ T) as Hskip.
  { intros pad. rewrite Hn. by apply skip_not_lower_app. }
  rewrite Hskip. case_decide as Hlen.
  - rewrite (proj2 (Nat.eqb_neq _ _)) by (rewrite (length_app (replicate _ _)), length_replicate; lia).
    unfold T. rewrite span_not_app, scan_ulls_padded by (done || lia). by rewrite Hn.
  - replace (6 - length (n_name x))%nat with 0%nat by lia. cbn [replicate app]. by rewrite Nat.eqb_refl.
Qed.

Lemma contains_char c l : contains l [c] = bool_decide (c ∈ l).
Proof.
  unfold contains. case_bool_decide as H; [|by rewrite strstr_absent].
  apply list_elem_of_split in H as (l1 & l2 & -> ). 
  induction l1 as [|x l1 IH]; simpl; [by rewrite Z.eqb_refl|]. by destruct (c =? x).
Qed.

Lemma nic_item_text x : nic_ok x → item_text fmt_lld (n_name x) [nic_val x 0; nic_val x 8; nic_val x 1; nic_val x 9]
  = fmt_item (nic_item x).
Proof.
  intros (_ & _ & _ & _ & Hn). unfold item_text, fmt_item. cbn [fst snd nic_item].
  assert (∀ i, 0 ≤ nic_val x i < 2 ^ 63) as Hv.
  { intros i. unfold nic_val. rewrite nth_lookup, list_lookup_fmap. destruct (n_nums x !! i) as [kv|] eqn:Hk; simpl; [|lia].
    by apply (Forall_lookup_1 _ _ _ _ Hn Hk). }
  rewrite commas_fmt_lld; [done| |]; repeat constructor; unfold is_u64; pose proof (Hv 0%nat);
    pose proof (Hv 1%nat); pose proof (Hv 8%nat); pose proof (Hv 9%nat); lia.
Qed.

#[global] Instance nic_shown_dec x : Decision (nic_shown x).
Proof. unfold nic_shown. apply _. Defined.

Lemma pernic_lines_nics nics : ∀ n buf, (n ≤ 8)%nat → Forall nic_ok nics →
  zlen buf + zlen (concat (map fmt_item (nic_item <$> filter nic_shown nics))) < LEN_1M - 1 →
  pernic_lines ((λ l, l ++ [10]) <$> (nic_line <$> nics)) n buf
  = Items (buf ++ concat (map fmt_item (nic_item <$> take (9 - n) (filter nic_shown nics)))).
Proof.
  induction nics as [|x nics IH]; intros n buf Hn Hok Hfit.
  { rewrite filter_nil, take_nil. simpl. by rewrite app_nil_r. }
  apply Forall_cons in Hok as [Hx Hok]. rewrite !fmap_cons. cbn [pernic_lines].
  rewrite contains_char, bool_decide_true by (unfold nic_line; set_solver).
  rewrite pernic_scan_line by done. pose proof Hx as (_ & _ & H16 & _).
  rewrite filter_cons in Hfit |- *.
  destruct (decide (length (n_name x) < 6)%nat) as [H6|H6].
  - rewrite (proj2 (Nat.leb_gt 16 _)) by lia. change (nth 0 (n_nums x).*2 0) with (nic_val x 0).
    destruct (Z.eqb_spec (nic_val x 0) 0) as [Hz|Hz].
    + rewrite decide_False in Hfit |- * by (by intros []). by apply IH.
    + rewrite decide_True in Hfit |- * by done. rewrite fmap_cons in Hfit. cbn [map concat] in Hfit. rewrite zlen_app in Hfit.
      change (nth 8 (n_nums x).*2 0) with (nic_val x 8). change (nth 1 (n_nums x).*2 0) with (nic_val x 1).
      change (nth 9 (n_nums x).*2 0) with (nic_val x 9). rewrite nic_item_text by done.
      pose proof (zlen_nonneg (concat (map fmt_item (nic_item <$> filter nic_shown nics)))).
      unfold append_item. rewrite (proj2 (Z.leb_gt _ _)) by lia.
      replace (9 - n)%nat with (S (8 - n)) by lia. cbn [take]. rewrite fmap_cons. cbn [map concat]. rewrite app_assoc.
      destruct (Nat.ltb_spec 8 (S n)) as [H8|H8].
      * replace (8 - n)%nat with 0%nat by lia. simpl. by rewrite app_nil_r.
      * rewrite IH; [done|lia|done|rewrite zlen_app; lia].
  - rewrite decide_False in Hfit |- * by (by intros []). simpl length. simpl Nat.leb. cbv iota.
    change (nth 0 [] 0 =? 0) with true. by apply IH.
Qed.

(** The interfaces one by one. On the kernel's file, whose lines start with
    the name padded to six bytes, the record is the list of the interfaces that
    have received bytes and whose name is shorter than six bytes, at most nine,
    in the order of the file, with bytes and packets in and out: the format
    needs a byte to skip before the name, so longer names, which the kernel
    does not pad, are left out. *)
Theorem tsar_pernic_items e headers nics :
  files e NET_DEV = Some (dev_text headers nics) → Forall nic_ok nics →
  Forall (λ l, 58 ∉ l) headers →
  Forall (λ l, (10 ∉ l) ∧ (0 ∉ l) ∧ zlen l < LEN_1M - 1) (headers ++ (nic_line <$> nics)) →
  zlen (concat (map fmt_item (nic_item <$> filter nic_shown nics))) < LEN_1M - 1 →
  read_pernic_stats e = Record_ (concat (map fmt_item (nic_item <$> take 9 (filter nic_shown nics)))).
Proof.
  intros Hf Hok Hh Hlines Hfit. unfold read_pernic_stats, dev_text in *. rewrite Hf, fgets_all_lines; cycle 1.
  { eapply Forall_impl; [exact Hlines|]. intros l (? & ? & Hl). split_and!; [done..|].
    unfold LEN_1M_nat, zlen in *. lia. }
  rewrite fmap_app.
  assert (pernic_lines (((λ l, l ++ [10]) <$> headers) ++ ((λ l, l ++ [10]) <$> (nic_line <$> nics))) 0 []
    = pernic_lines ((λ l, l ++ [10]) <$> (nic_line <$> nics)) 0 []) as ->.
  { clear Hf Hlines. induction Hh as [|l headers Hl _ IH]; [done|]. rewrite fmap_cons, <-app_comm_cons. cbn [pernic_lines].
    rewrite contains_char, bool_decide_false by set_solver. apply IH. }
  by rewrite pernic_lines_nics by (done || lia).
Qed.

(** ** Runs *)

Definition s_nic (name : string) (v : Z) : nic := Nic (lit name) (replicate 16 (2%nat, v)).
Definition s_nics : list nic := [s_nic "lo" 7; s_nic "enp0s3" 9; s_nic "eth0" 8].
Definition s_headers : list (list Z) := [lit "Inter-|   Receive"].
Definition s_dev_env : env := Env (λ p, if decide (p = NET_DEV) then Some (dev_text s_headers s_nics) else None) None.

Lemma s_nic_ok name v : 0 ≤ v < 2 ^ 63 → (∃ c s, lit name = c :: s ∧ is_lower c = true) → 58 ∉ lit name →
  (length (lit name) < 16)%nat → nic_ok (s_nic name v).
Proof.
  intros Hv Hc H58 Hl. split; [done|]. split; [done|]. split; [done|]. split; [done|].
  apply Forall_replicate. simpl. lia.
Qed.

Lemma tsar_pernic_items_witness :
  read_pernic_stats s_dev_env = Record_ (lit "lo=7,7,7,7;eth0=8,8,8,8;").
Proof.
  rewrite (tsar_pernic_items s_dev_env s_headers s_nics); [reflexivity|reflexivity| | | |reflexivity].
  - each_element ltac:(apply s_nic_ok; [lia|by eexists _, _|by_compute|by_compute]).
  - each_element ltac:(by_compute).
  - each_element ltac:(split_and!; by_compute).
Defined.

(** Two CPUs. *)
Definition s_cpus : list (nat * list Z) := [(0%nat, [1; 2; 3; 4; 5; 6; 7; 8; 9]); (1%nat, [10; 20; 30; 40; 50; 60; 70; 80; 90])].
Definition s_total : list Z := [11; 22; 33; 44; 55; 66; 77; 88; 99].
Definition s_percpu_env : env :=
  Env (λ p, if decide (p = STAT) then Some (cpus_text s_total s_cpus [lit "ctxt 5"]) else None) None.
Definition s_percpu_module : module :=
  Module [] [] [] (replicate 10 t_info) 10 true false 1 0 false false None None [] [] [] [] 0.

Lemma tsar_percpu_items_witness :
  read_percpu_stats 2 s_percpu_env = Record_ (lit "cpu0=1,3,5,6,7,4,2,8,9,0;cpu1=10,30,50,60,70,40,20,80,90,0;") ∧
  ∃ r, merge_mult_item_to_array (replicate 10 0)
         (set_mod_record (concat (map fmt_item (cpu_items s_cpus [0; 0]))) s_percpu_module) = Some (true, r) ∧
    r !! 5%nat = Some 44.
Proof.
  destruct (tsar_percpu_items 2 s_percpu_env s_total s_cpus [lit "ctxt 5"] [0; 0] s_percpu_module (replicate 10 0))
    as (H1 & r & H2 & H3); [reflexivity|reflexivity| |simpl; lia| | | |reflexivity..| |].
  - repeat constructor; unfold is_u64; simpl; lia.
  - repeat constructor; unfold is_u64; lia.
  - repeat constructor; by_compute.
  - repeat constructor.
  - repeat constructor.
  - split; [rewrite H1; reflexivity|]. exists r. split; [exact H2|]. rewrite (H3 5%nat); [reflexivity|lia].
Defined.
