(* ===== verification/TsarIo.v ===== *)
(** * TsarIo: the collector of the disks

    [mservice/master/modules/mod_io.c]. The table of the partitions and their
    last counters are static: they live from one sample to the next, so the
    collector is a function on a state. [/proc/diskstats] is read twice, first
    for the names and then for the counters, and may have changed in between. *)

From Stdlib Require Import SpecFloat.
From S2P Require Import Prelude CString CFloat TsarRecord TsarStat TsarModules TsarCollect TsarItems.

Definition MAX_PARTITIONS : nat := 64.

Record part_info := PartInfo { major : Z; minor : Z; p_name : list Z }.
(** [struct blkio_info]: reads, merged reads, sectors read, time reading, the
    same of writes, the time with requests and the time weighted by them. *)
Record blkio_info := Blkio {
  rd_ios : Z; rd_merges : Z; rd_sectors : Z; rd_ticks : Z;
  wr_ios : Z; wr_merges : Z; wr_sectors : Z; wr_ticks : Z; ticks : Z; aveq : Z;
}.
Definition no_blkio : blkio_info := Blkio 0 0 0 0 0 0 0 0 0 0.

(** The static variables; [partition] is cut at [n_partitions]. *)
Record io_state := IoState { partition : list part_info; new_blkio : list blkio_info; max_partitions : Z }.
Definition io_start : io_state := IoState [] (replicate MAX_PARTITIONS no_blkio) 64.

(** ** Conversions of the formats *)

(** [%4d]: at most four bytes, the sign among them. *)
Definition scan_d4 (s : list Z) : option (Z * list Z) :=
  let s := skip_space s in
  '(v, rest) ← scan_int (take 4 s); Some (u32 v, rest ++ drop 4 s).
(** [%31s] *)
Definition scan_s31 (s : list Z) : option (list Z * list Z) :=
  let s := skip_space s in
  let w := take 31 (token s) in
  if (length w =? 0)%nat then None else Some (w, drop (length w) s).
(** [%*s] *)
Definition skip_word (s : list Z) : option (list Z) :=
  let s := skip_space s in
  if (length (token s) =? 0)%nat then None else Some (drop (length (token s)) s).

(** [%u], [%llu] and [%*u]; a [%u] stores the low half of the field. *)
Inductive conv := U | LLU | SKIP_U.
Fixpoint scan_fields (fmt : list conv) (s : list Z) : list Z :=
  match fmt with
  | [] => []
  | c :: fmt' =>
      match scan_ull s with
      | None => []
      | Some (v, s') =>
          match c with
          | U => u32 v :: scan_fields fmt' s'
          | LLU => v :: scan_fields fmt' s'
          | SKIP_U => scan_fields fmt' s'
          end
      end
  end.

(** ** The table *)

Definition in_range (a b m : Z) : bool := (a <=? m) && (m <=? b).
Definition IDE_DISK_MAJOR (m : Z) : bool := existsb (Z.eqb m) [3; 22; 33; 34; 56; 57; 88; 89; 90; 91].
Definition SCSI_DISK_MAJOR (m : Z) : bool := (m =? 8) || in_range 65 71 m || in_range 128 135 m.
Definition COMPAQ_MAJOR (m : Z) : bool := in_range 104 111 m || in_range 72 79 m.

Definition print_device : bool := true.
Definition print_partition : bool := false.
Definition printable (maj min : Z) : bool :=
  let test mask := let part := negb (Z.land min mask =? 0) in
                   (negb part && print_device) || (part && print_partition) in
  if IDE_DISK_MAJOR maj then test 63
  else if SCSI_DISK_MAJOR maj then test 15
  else if COMPAQ_MAJOR maj then test 15
  else true.

(** ["%4d %4d %31s %u"], all four or nothing. *)
Definition scan_part (line : list Z) : option (part_info * Z) :=
  '(maj, s) ← scan_d4 line;
  '(min, s) ← scan_d4 s;
  '(name, s) ← scan_s31 s;
  '(reads, _) ← scan_ull s;
  Some (PartInfo maj min name, u32 reads).

Definition same_part (a b : part_info) : bool := (major a =? major b) && (minor a =? minor b).

Fixpoint initialize (max : Z) (lines : list (list Z)) (tbl : list part_info) : list part_info :=
  match lines with
  | [] => tbl
  | line :: lines' =>
      match scan_part line with
      | None => initialize max lines' tbl
      | Some (curr, reads) =>
          if max <=? zlen tbl then tbl
          else if existsb (same_part curr) tbl then initialize max lines' tbl
          else if (length tbl <? MAX_PARTITIONS)%nat && negb (reads =? 0) && printable (major curr) (minor curr)
          then initialize max lines' (tbl ++ [curr])
          else initialize max lines' tbl
      end
  end.

(** ** The counters *)

Definition stat_fmt : list conv := [U; U; LLU; U; U; U; LLU; U; SKIP_U; U; U].

(** The counters of a line, when it has all ten fields or, as a partition of an
    old kernel has, four. *)
Definition blkio_of (v : list Z) : option blkio_info :=
  match v with
  | [_; a; _; b] => Some (Blkio 0 0 a 0 0 0 b 0 0 0)
  | [a; b; c; d; e; f; g; h; i; j] => Some (Blkio a b c d e f g h i j)
  | _ => None
  end.
Definition scan_stat (line : list Z) : option (Z * Z * blkio_info) :=
  '(maj, s) ← scan_d4 line;
  '(min, s) ← scan_d4 s;
  s ← skip_word s;
  b ← blkio_of (scan_fields stat_fmt s);
  Some (maj, min, b).

(** The first entry of the table with these numbers gets the counters. *)
Fixpoint store_blkio (maj min : Z) (b : blkio_info) (tbl : list part_info) (blk : list blkio_info) : list blkio_info :=
  match tbl, blk with
  | p :: tbl', x :: blk' =>
      if (major p =? maj) && (minor p =? min) then b :: blk' else x :: store_blkio maj min b tbl' blk'
  | _, _ => blk
  end.
Fixpoint get_kernel_stats (lines : list (list Z)) (tbl : list part_info) (blk : list blkio_info) : list blkio_info :=
  match lines with
  | [] => blk
  | line :: lines' =>
      get_kernel_stats lines' tbl
        match scan_stat line with Some (maj, min, b) => store_blkio maj min b tbl blk | None => blk end
  end.

(** ** The record *)

Definition blkio_cols (b : blkio_info) : list Z :=
  [rd_ios b; rd_merges b; rd_sectors b; rd_ticks b; wr_ios b; wr_merges b; wr_sectors b; wr_ticks b; ticks b; aveq b].

(** The last column of an item is its place in the record. *)
Fixpoint print_partition_stats (tbl : list part_info) (blk : list blkio_info) (buf : list Z) : items_res :=
  match tbl, blk with
  | p :: tbl', b :: blk' =>
      match append_item (item_text fmt_llu (p_name p) (blkio_cols b ++ [zlen buf])) buf with
      | Some buf => print_partition_stats tbl' blk' buf
      | None => Full
      end
  | [], _ => Items buf
  | _ :: _, [] => ItemFault
  end.

(** [diskstats]: the file at the first and at the second pass, [None] when it
    does not open, which ends the process (the result [None]). *)
Definition read_io_stat (parameter : list Z) (diskstats : option (list Z * list Z)) (st : io_state)
    : option (io_state * collected) :=
  let max := if i32 (atol parameter) =? 0 then max_partitions st else u32 (atol parameter) in
  '(text1, text2) ← diskstats;
  let tbl := initialize max (fgets_all 255 text1) (partition st) in
  let blk := get_kernel_stats (fgets_all 255 text2) tbl (new_blkio st) in
  Some (IoState tbl blk max, finish_items (print_partition_stats tbl blk [])).

(** ** The statistics *)

Definition set_io_record : st_callback := λ st pre cur inter,
  back ← went_back 11 pre cur;
  if back : bool then put (replicate 11 d_minus1) st
  else
    let d i := c ← cur !! i; p ← pre !! i; Some (u64 (c - p)) in
    rd_ios ← d 0%nat; rd_merges ← d 1%nat; rd_sectors ← d 2%nat; rd_ticks ← d 3%nat;
    wr_ios ← d 4%nat; wr_merges ← d 5%nat; wr_sectors ← d 6%nat; wr_ticks ← d 7%nat;
    ticks ← d 8%nat; aveq ← d 9%nat;
    let per_s v := ddiv (of_int v) (dmul (of_int inter) d_one) in
    let merged m n := if u64 (m + n) =? 0 then d_zero
                      else dmul (ddiv (of_int m) (of_int (u64 (m + n)))) d100 in
    let per_io v n := if n =? 0 then d_zero else ddiv (of_int v) (of_int n) in
    let size_io v n := if n =? 0 then d_zero else ddiv (of_int v) (dmul (of_int n) (of_int 2)) in
    let all := u64 (rd_ios + wr_ios) in
    let util := ddiv (of_int ticks) (dmul (of_int inter) (of_int 10)) in
    put [per_s rd_merges; per_s wr_merges; merged rd_merges rd_ios; merged wr_merges wr_ios;
         per_s rd_ios; per_s wr_ios; per_s rd_sectors; per_s wr_sectors;
         size_io (u64 (rd_sectors + wr_sectors)) all; size_io rd_sectors rd_ios; size_io wr_sectors wr_ios;
         of_int (aveq / u64 (i32 (inter * 1000)));
         per_io (u64 (rd_ticks + wr_ticks)) all; per_io rd_ticks rd_ios; per_io wr_ticks wr_ios; per_io ticks all;
         if dlt d100 util then d100 else util] st.
