(* ===== verification/TsarIoFacts.v ===== *)
(** * TsarIoFacts: what the collector of the disks records

    The table of [mod_io.c] on the files the kernel prints: which disks enter
    it, in which order, and that each sample gives every disk of the table the
    counters of its own line. *)

From Stdlib Require Import SpecFloat.
From S2P Require Import Prelude CString CFloat TsarRecord TsarStat TsarModules TsarCollect TsarItems TsarItemFacts TsarIo.

(** ** The kernel's file *)

(** A line of [/proc/diskstats]: the numbers of the device, right-justified, its
    name and its counters. *)
Record disk := Disk { dk_major : Z; dk_minor : Z; dk_name : list Z; dk_nums : list Z }.
Definition rjust (n : nat) (s : list Z) : list Z := replicate (n - length s) 32 ++ s.
Definition disk_line (d : disk) : list Z :=
  rjust 4 (fmt_llu (dk_major d)) ++ 32 :: rjust 7 (fmt_llu (dk_minor d)) ++ 32 :: dk_name d ++
  concat ((λ v, 32 :: fmt_llu v) <$> dk_nums d).
Definition disks_text (disks : list disk) : list Z := concat ((λ l, l ++ [10]) <$> (disk_line <$> disks)).

(** Numbers of at most four digits, a name of at most 31 bytes. *)
Definition disk_ok (d : disk) : Prop :=
  0 ≤ dk_major d < 10000 ∧ 0 ≤ dk_minor d < 10000 ∧
  dk_name d ≠ [] ∧ (length (dk_name d) ≤ 31)%nat ∧ Forall (λ c, isspace c = false) (dk_name d) ∧
  (11 ≤ length (dk_nums d))%nat ∧ Forall is_u64 (dk_nums d).

Definition disk_id (d : disk) : Z * Z := (dk_major d, dk_minor d).
Definition part_id (p : part_info) : Z * Z := (major p, minor p).
Definition part_of (d : disk) : part_info := PartInfo (dk_major d) (dk_minor d) (dk_name d).
(** The counters of a line; those that are not sectors are kept modulo 2^32. *)
Definition disk_blkio (d : disk) : blkio_info :=
  let n i := nth i (dk_nums d) 0 in let h i := n i mod 2 ^ 32 in
  (Blkio (h 0) (h 1) (n 2) (h 3) (h 4) (h 5) (n 6) (h 7) (h 9) (h 10))%nat.

(** Whole disks: of the majors whose minors number partitions, the minors that
    do not. *)
Definition whole_disk (maj min : Z) : Prop :=
  (maj ∈ [3; 22; 33; 34; 56; 57; 88; 89; 90; 91] → min mod 64 = 0) ∧
  (maj = 8 ∨ 65 ≤ maj ≤ 71 ∨ 128 ≤ maj ≤ 135 ∨ 104 ≤ maj ≤ 111 ∨ 72 ≤ maj ≤ 79 → min mod 16 = 0).
#[global] Instance whole_disk_dec maj min : Decision (whole_disk maj min).
Proof. unfold whole_disk. apply _. Defined.

(** A disk that enters the table: it has been read from, and is whole. *)
Definition disk_counts (d : disk) : Prop :=
  nth 0 (dk_nums d) 0 mod 2 ^ 32 ≠ 0 ∧ whole_disk (dk_major d) (dk_minor d).
#[global] Instance disk_counts_dec d : Decision (disk_counts d).
Proof. unfold disk_counts. apply _. Defined.

(** ** Reading a line *)

Lemma skip_blanks k c s : isspace c = false → skip_space (replicate k 32 ++ c :: s) = c :: s.
Proof. intros Hc. induction k as [|k IH]; simpl; [by rewrite Hc|done]. Qed.

Lemma fmt_llu_head v s : 0 ≤ v → ∃ c l, fmt_llu v ++ s = c :: l ∧ 48 ≤ c ≤ 57.
Proof. intros Hv. destruct (dec_digits_head 19 v s Hv) as (c & l & H & Hc). by exists c, l. Qed.

Lemma scan_int_fmt v s : 0 ≤ v < 10000 → no_digit s → scan_int (fmt_llu v ++ s) = Some (v, s).
Proof.
  intros Hv Hs. unfold scan_int. assert (at_number (fmt_llu v ++ s) = true) as -> by (apply at_number_digits; lia).
  assert (fmt_llu v = fmt_ld v) as Hld by (unfold fmt_ld; by rewrite (proj2 (Z.ltb_ge v 0)) by lia).
  assert (scan_sign (skip_space (fmt_llu v ++ s)) = (false, fmt_llu v ++ s)) as ->.
  { destruct (fmt_llu_head v s ltac:(lia)) as (c & l & -> & Hc). simpl. rewrite digit_not_space by done. simpl.
    by rewrite (proj2 (Z.eqb_neq c 45)), (proj2 (Z.eqb_neq c 43)) by lia. }
  assert (scan_digits 0 (fmt_llu v ++ s) = (v, s)) as -> by (apply scan_digits_dec; (done || lia)).
  rewrite Hld, atol_fmt by (done || lia). done.
Qed.

Lemma scan_d4_fmt k v s : 0 ≤ v < 10000 → no_digit s → scan_d4 (replicate k 32 ++ fmt_llu v ++ s) = Some (v, s).
Proof.
  intros Hv Hs. unfold scan_d4. destruct (fmt_llu_head v s ltac:(lia)) as (c & l & Hcl & Hc).
  rewrite Hcl, skip_blanks, <-Hcl by (by apply digit_not_space). cbv zeta.
  assert (length (fmt_llu v) ≤ 4)%nat as Hlen by (apply (dec_digits_length 20 v 3); change (10 ^ Z.of_nat 4) with 10000; lia).
  rewrite take_app_ge, drop_app_ge by done. rewrite scan_int_fmt; [|done|].
  - cbn [mbind option_bind]. rewrite take_drop. by rewrite wrap_small by lia.
  - destruct (4 - length (fmt_llu v))%nat, s; done.
Qed.

Lemma token_space l c s : Forall (λ c, isspace c = false) l → isspace c = true → token (l ++ c :: s) = l.
Proof. intros Hl Hc. induction Hl as [|x l Hx _ IH]; simpl; [by rewrite Hc|]. rewrite Hx. by f_equal. Qed.

Lemma word_skipped l s : l ≠ [] → Forall (λ c, isspace c = false) l → skip_space (32 :: l ++ s) = l ++ s.
Proof. destruct l as [|x l]; [done|]. intros _ [Hx _]%Forall_cons. simpl. by rewrite Hx. Qed.

(** The numbers a format stores. *)
Definition stored (fmt : list conv) (nums : list Z) : list Z :=
  concat (zip_with (λ c v, match c with U => [u32 v] | LLU => [v] | SKIP_U => [] end) fmt nums).

Lemma scan_fields_stored fmt : ∀ nums, (length fmt ≤ length nums)%nat → Forall is_u64 nums →
  scan_fields fmt (concat ((λ v, 32 :: fmt_llu v) <$> nums) ++ [10]) = stored fmt nums.
Proof.
  induction fmt as [|c fmt IH]; intros [|v nums] Hl Hu; simpl in Hl; try lia; [done|done|].
  apply Forall_cons in Hu as [Hv Hu]. rewrite fmap_cons. cbn [concat scan_fields].
  rewrite <-app_assoc, <-app_comm_cons, scan_ull_fmt by (done || by destruct nums).
  rewrite IH by (done || lia). unfold stored. cbn [zip_with concat]. by destruct c.
Qed.

Section line.
Context (d : disk) (Hd : disk_ok d).

(** What both passes see behind the numbers of the device. *)
Lemma device_numbers : ∃ rest, rest = 32 :: dk_name d ++ concat ((λ v, 32 :: fmt_llu v) <$> dk_nums d) ++ [10] ∧
  scan_d4 (disk_line d ++ [10]) = Some (dk_major d, 32 :: rjust 7 (fmt_llu (dk_minor d)) ++ rest) ∧
  scan_d4 (32 :: rjust 7 (fmt_llu (dk_minor d)) ++ rest) = Some (dk_minor d, rest).
Proof.
  destruct Hd as (Hmaj & Hmin & _). eexists. split; [done|]. split.
  - unfold disk_line, rjust. rewrite <-!app_assoc, <-!app_comm_cons, <-!app_assoc, <-!app_comm_cons, <-!app_assoc.
    by rewrite scan_d4_fmt by done.
  - unfold rjust. rewrite <-!app_assoc. apply (scan_d4_fmt (S _)); done.
Qed.

Lemma behind_name : ∃ tail, concat ((λ v, 32 :: fmt_llu v) <$> dk_nums d) ++ [10] = 32 :: tail.
Proof. destruct Hd as (_ & _ & _ & _ & _ & Hl & _). destruct (dk_nums d); [simpl in Hl; lia|]. by eexists. Qed.

Lemma scan_part_line : scan_part (disk_line d ++ [10]) = Some (part_of d, nth 0 (dk_nums d) 0 mod 2 ^ 32).
Proof.
  destruct device_numbers as (rest & Hr & H1 & H2). unfold scan_part. rewrite H1. cbn [mbind option_bind]. rewrite H2.
  cbn [mbind option_bind]. subst rest. destruct behind_name as [t Ht]. rewrite Ht.
  destruct Hd as (_ & _ & Hne & H31 & Hsp & Hl & Hu). unfold scan_s31.
  rewrite word_skipped, token_space by done. cbv zeta. rewrite take_ge by done.
  destruct (dk_name d) as [|c nm] eqn:Hname; [done|]. rewrite <-Hname. rewrite Hname at 1. cbn [length Nat.eqb].
  cbn [mbind option_bind]. rewrite drop_app_length, <-Ht.
  destruct (dk_nums d) as [|v nums]; [simpl in Hl; lia|]. apply Forall_cons in Hu as [Hv Hu].
  rewrite fmap_cons. cbn [concat]. rewrite <-app_assoc, <-app_comm_cons, scan_ull_fmt by (done || by destruct nums).
  cbn [mbind option_bind]. unfold part_of. by rewrite Hname.
Qed.

Lemma scan_stat_line : scan_stat (disk_line d ++ [10]) = Some (dk_major d, dk_minor d, disk_blkio d).
Proof.
  destruct device_numbers as (rest & Hr & H1 & H2). unfold scan_stat. rewrite H1. cbn [mbind option_bind]. rewrite H2.
  cbn [mbind option_bind]. subst rest. destruct behind_name as [t Ht]. rewrite Ht.
  destruct Hd as (_ & _ & Hne & _ & Hsp & Hl & Hu). unfold skip_word. rewrite word_skipped, token_space by done.
  cbv zeta. rewrite (proj2 (Nat.eqb_neq _ _)) by (by destruct (dk_name d)). cbn [mbind option_bind].
  rewrite drop_app_length, <-Ht, scan_fields_stored by done. unfold disk_blkio.
  destruct (dk_nums d) as [|n0 [|n1 [|n2 [|n3 [|n4 [|n5 [|n6 [|n7 [|n8 [|n9 [|n10 nums]]]]]]]]]]]; simpl in Hl; try lia.
  done.
Qed.
End line.

(** ** The table *)

Lemma printable_whole maj min : printable maj min = bool_decide (whole_disk maj min).
Proof.
  assert (∀ k, 0 ≤ k → Z.land min (2 ^ k - 1) = min mod 2 ^ k) as Hland.
  { intros k Hk. by rewrite <-Z.land_ones, Z.ones_equiv, Z.sub_1_r by done. }
  unfold printable, print_device, print_partition. cbv zeta.
  change 63 with (2 ^ 6 - 1). change 15 with (2 ^ 4 - 1). rewrite !Hland by lia.
  change (2 ^ 6) with 64. change (2 ^ 4) with 16. unfold whole_disk.
  assert (IDE_DISK_MAJOR maj = bool_decide (maj ∈ [3; 22; 33; 34; 56; 57; 88; 89; 90; 91])) as ->.
  { unfold IDE_DISK_MAJOR. generalize [3; 22; 33; 34; 56; 57; 88; 89; 90; 91]. intros l. apply eq_true_iff_eq.
    rewrite existsb_exists, bool_decide_eq_true, list_elem_of_In. split; [by intros (x & Hx & ->%Z.eqb_eq)|].
    intros H. exists maj. by rewrite Z.eqb_refl. }
  set (S := maj = 8 ∨ 65 ≤ maj ≤ 71 ∨ 128 ≤ maj ≤ 135 ∨ 104 ≤ maj ≤ 111 ∨ 72 ≤ maj ≤ 79).
  assert (SCSI_DISK_MAJOR maj || COMPAQ_MAJOR maj = bool_decide S) as HS.
  { unfold SCSI_DISK_MAJOR, COMPAQ_MAJOR, in_range, S. apply eq_true_iff_eq. rewrite bool_decide_eq_true. lia. }
  destruct (decide (maj ∈ [3; 22; 33; 34; 56; 57; 88; 89; 90; 91])) as [Hide|Hide];
    [rewrite (bool_decide_true (maj ∈ _)) by done|rewrite (bool_decide_false (maj ∈ _)) by done].
  - assert (¬ S).
    { unfold S. intros HSS. repeat (apply (proj1 (elem_of_cons _ _ _)) in Hide as [Hide|Hide]; [lia|]). by apply not_elem_of_nil in Hide. }
    apply eq_true_iff_eq. rewrite bool_decide_eq_true.
    destruct (Z.eqb_spec (min mod 64) 0); simpl; naive_solver.
  - destruct (SCSI_DISK_MAJOR maj), (COMPAQ_MAJOR maj); simpl in HS; symmetry in HS;
      first [apply bool_decide_eq_true in HS|apply bool_decide_eq_false in HS];
      apply eq_true_iff_eq; rewrite bool_decide_eq_true;
      destruct (Z.eqb_spec (min mod 16) 0); simpl; naive_solver.
Qed.

Lemma filter_agree {A} (P Q : A → Prop) `{!∀ x, Decision (P x), !∀ x, Decision (Q x)} (l : list A) :
  (∀ x, x ∈ l → P x ↔ Q x) → filter P l = filter Q l.
Proof.
  induction l as [|x l IH]; intros HPQ; [done|]. rewrite !filter_cons, IH by (intros y Hy; apply HPQ; set_solver).
  destruct (HPQ x ltac:(set_solver)). repeat case_decide; naive_solver.
Qed.

Definition new_disks (tbl : list part_info) (disks : list disk) : list disk :=
  filter (λ d, disk_counts d ∧ disk_id d ∉ part_id <$> tbl) disks.

Lemma known_part d tbl : existsb (same_part (part_of d)) tbl = bool_decide (disk_id d ∈ part_id <$> tbl).
Proof.
  apply eq_true_iff_eq. rewrite existsb_exists, bool_decide_eq_true, list_elem_of_fmap. unfold same_part, part_id, disk_id. split.
  - intros (p & Hp%list_elem_of_In & [H1%Z.eqb_eq H2%Z.eqb_eq]%andb_true_iff). simpl in *. exists p. split; [congruence|done].
  - intros (p & [= H1 H2] & Hp). exists p. split; [by apply list_elem_of_In|]. simpl. by rewrite H1, H2, !Z.eqb_refl.
Qed.

(** The known disks stay, the new ones follow in the order of the file, as long
    as there is room. *)
Lemma initialize_disks max disks : Forall disk_ok disks → NoDup (disk_id <$> disks) → ∀ tbl,
  initialize max ((λ l, l ++ [10]) <$> (disk_line <$> disks)) tbl
  = tbl ++ take (Z.to_nat (Z.min max 64 - zlen tbl)) (part_of <$> new_disks tbl disks).
Proof.
  intros Hok. induction Hok as [|d disks Hd _ IH]; intros Hnd tbl.
  { change (new_disks tbl []) with (@nil disk). simpl. by rewrite take_nil, app_nil_r. }
  rewrite fmap_cons in Hnd. apply NoDup_cons in Hnd as [Hni Hnd]. rewrite !fmap_cons. cbn [initialize].
  rewrite scan_part_line by done. destruct (Z.leb_spec max (zlen tbl)) as [Hmax|Hmax].
  { replace (Z.to_nat (Z.min max 64 - zlen tbl)) with 0%nat by lia. by rewrite take_0, app_nil_r. }
  rewrite known_part. unfold new_disks. rewrite filter_cons. cbn [major minor part_of]. rewrite printable_whole.
  case_bool_decide as Hkn.
  { rewrite decide_False by naive_solver. by apply IH. }
  destruct (Nat.ltb_spec (length tbl) MAX_PARTITIONS) as [Hlt|Hge]; cbn [andb].
  - unfold MAX_PARTITIONS in Hlt. destruct (decide (disk_counts d)) as [[Hu Hw]|Hc].
    + rewrite decide_True by done. rewrite (proj2 (Z.eqb_neq _ _)), bool_decide_true by done. cbn [negb andb].
      rewrite IH by done. fold (new_disks tbl disks).
      assert (new_disks (tbl ++ [part_of d]) disks = new_disks tbl disks) as ->.
      { apply filter_agree. intros d' Hd'.
        assert (disk_id d' ≠ disk_id d) as Hdd by (intros Heq; apply Hni; rewrite <-Heq; by apply list_elem_of_fmap_2).
        rewrite fmap_app, not_elem_of_app. change (part_id <$> [part_of d]) with [disk_id d]. set_solver. }
      rewrite fmap_cons, zlen_app. change (zlen [part_of d]) with 1. unfold zlen in *.
      replace (Z.to_nat (Z.min max 64 - Z.of_nat (length tbl)))
        with (S (Z.to_nat (Z.min max 64 - (Z.of_nat (length tbl) + 1)))) by lia.
      cbn [take]. by rewrite <-app_assoc.
    + rewrite decide_False by (by intros []). rewrite <-IH by done.
      destruct (Z.eqb_spec (nth 0 (dk_nums d) 0 mod 2 ^ 32) 0) as [|Hu]; [done|]. cbn [negb andb].
      by rewrite bool_decide_false by (intros Hw; by apply Hc).
  - unfold MAX_PARTITIONS in Hge. rewrite IH by done. unfold zlen.
    by replace (Z.to_nat (Z.min max 64 - Z.of_nat (length tbl))) with 0%nat by lia.
Qed.

(** ** The counters *)

(** The counters of the entry [p] after a pass over the disks. *)
Definition counters_now (disks : list disk) (p : part_info) (old : blkio_info) : blkio_info :=
  match filter (λ d, disk_id d = part_id p) disks with d :: _ => disk_blkio d | [] => old end.

Lemma store_blkio_spec maj min b : ∀ tbl blk, NoDup (part_id <$> tbl) → (length tbl ≤ length blk)%nat →
  store_blkio maj min b tbl blk
  = zip_with (λ p x, if decide (part_id p = (maj, min)) then b else x) tbl blk ++ drop (length tbl) blk.
Proof.
  induction tbl as [|p tbl IH]; intros [|x blk] Hnd Hl; simpl in Hl; try lia; [done|done|].
  rewrite fmap_cons in Hnd. apply NoDup_cons in Hnd as [Hni Hnd]. cbn [store_blkio zip_with drop length].
  assert ((major p =? maj) && (minor p =? min) = bool_decide (part_id p = (maj, min))) as ->.
  { apply eq_true_iff_eq. rewrite bool_decide_eq_true, andb_true_iff, !Z.eqb_eq. unfold part_id. naive_solver. }
  case_bool_decide as Hp; case_decide; try done; rewrite <-app_comm_cons; f_equal; [|apply IH; [done|lia]].
  clear IH. assert (∀ q, q ∈ tbl → part_id q ≠ (maj, min)) as Hq.
  { intros q Hq Heq. apply Hni. rewrite Hp, <-Heq. by apply list_elem_of_fmap_2. }
  clear Hni Hnd. revert tbl Hl Hq. induction blk as [|y blk IHb]; intros [|q tbl] Hl Hq; simpl in *; try lia; try done.
  rewrite decide_False by (apply Hq; set_solver). f_equal. apply IHb; [lia|]. intros q' Hq'. apply Hq. set_solver.
Qed.

(** Storing one disk and then the others is storing them all. *)
Lemma counters_cons d disks p x : disk_id d ∉ disk_id <$> disks →
  counters_now disks p (if decide (part_id p = disk_id d) then disk_blkio d else x) = counters_now (d :: disks) p x.
Proof.
  intros Hni. unfold counters_now. rewrite (filter_cons _ d). case_decide as Hp; case_decide as Hq; try congruence.
  assert (filter (λ d', disk_id d' = part_id p) disks = []) as ->; [|done].
  apply filter_none, Forall_forall. intros d' Hd' Heq. apply Hni. rewrite <-Hp, <-Heq. by apply list_elem_of_fmap_2.
Qed.

Lemma zip_with_twice {A B} (f g h : A → B → B) l : (∀ x y, f x (g x y) = h x y) → ∀ k r, (length l ≤ length k)%nat →
  zip_with f l (zip_with g l k ++ r) = zip_with h l k.
Proof.
  intros Hfg. induction l as [|x l IH]; intros [|y k] r Hl; simpl in *; try lia; try done. rewrite Hfg, IH by lia. done.
Qed.

Lemma get_kernel_stats_disks tbl disks : NoDup (part_id <$> tbl) → Forall disk_ok disks → NoDup (disk_id <$> disks) →
  ∀ blk, (length tbl ≤ length blk)%nat →
  get_kernel_stats ((λ l, l ++ [10]) <$> (disk_line <$> disks)) tbl blk
  = zip_with (counters_now disks) tbl blk ++ drop (length tbl) blk.
Proof.
  intros Htbl Hok. induction Hok as [|d disks Hd _ IH]; intros Hnd blk Hl.
  { cbn [fmap list_fmap get_kernel_stats]. clear -Hl. revert blk Hl.
    induction tbl as [|p tbl IHt]; intros [|x blk] Hl; simpl in *; try lia; try done. f_equal. apply IHt. lia. }
  rewrite fmap_cons in Hnd. apply NoDup_cons in Hnd as [Hni Hnd]. rewrite !fmap_cons. cbn [get_kernel_stats].
  rewrite scan_stat_line by done. rewrite store_blkio_spec by done.
  rewrite IH by (done || rewrite length_app, length_drop, length_zip_with; lia).
  rewrite (zip_with_twice _ _ (counters_now (d :: disks))) by (done || intros p x; by apply counters_cons).
  by rewrite drop_app_length' by (rewrite length_zip_with; lia).
Qed.

(** ** The record *)

(** The items from place [off] of the record on. *)
Fixpoint io_text (off : Z) (rows : list (part_info * blkio_info)) : list Z :=
  match rows with
  | [] => []
  | (p, b) :: rows' =>
      let item := fmt_item (p_name p, blkio_cols b ++ [off]) in item ++ io_text (off + zlen item) rows'
  end.

Lemma print_rows tbl : ∀ blk buf, (length tbl ≤ length blk)%nat →
  zlen buf + zlen (io_text (zlen buf) (zip tbl blk)) < LEN_1M - 1 →
  print_partition_stats tbl blk buf = Items (buf ++ io_text (zlen buf) (zip tbl blk)).
Proof.
  induction tbl as [|p tbl IH]; intros [|b blk] buf Hl Hfit; simpl in Hl; try lia;
    try (cbn [print_partition_stats zip zip_with io_text]; by rewrite app_nil_r).
  cbn [zip zip_with io_text print_partition_stats] in *. rewrite item_text_fmt. set (item := fmt_item _) in *. cbv zeta in Hfit |- *.
  rewrite zlen_app in Hfit. pose proof (zlen_nonneg (io_text (zlen buf + zlen item) (zip tbl blk))) as Hnn.
  unfold append_item. rewrite (proj2 (Z.leb_gt _ _)) by (unfold zip in *; lia).
  rewrite IH by (rewrite ?zlen_app; (lia || unfold zip in *; lia)). by rewrite zlen_app, <-app_assoc.
Qed.

(** The state between two samples. *)
Definition io_ok (st : io_state) : Prop :=
  NoDup (part_id <$> partition st) ∧ (length (partition st) ≤ 64)%nat ∧ length (new_blkio st) = 64%nat.

Lemma io_start_ok : io_ok io_start.
Proof. split; [constructor|]. split; [simpl; lia|done]. Qed.

Definition lines_fit (disks : list disk) : Prop :=
  Forall (λ l, (10 ∉ l) ∧ (0 ∉ l) ∧ (length l < 255)%nat) (disk_line <$> disks).

Lemma NoDup_fmap_filter {A B} (f : A → B) (P : A → Prop) `{!∀ x, Decision (P x)} (l : list A) :
  NoDup (f <$> l) → NoDup (f <$> filter P l).
Proof.
  induction l as [|x l IH]; [done|]. rewrite fmap_cons, filter_cons. intros [Hx Hl]%NoDup_cons.
  case_decide; [|by apply IH]. rewrite fmap_cons. apply NoDup_cons. split; [|by apply IH].
  intros (y & Hy & Hin)%list_elem_of_fmap. apply list_elem_of_filter in Hin as [_ Hin]. apply Hx. rewrite Hy. by apply list_elem_of_fmap_2.
Qed.

Lemma new_disks_table tbl disks n : NoDup (part_id <$> tbl) → NoDup (disk_id <$> disks) →
  NoDup (part_id <$> tbl ++ take n (part_of <$> new_disks tbl disks)).
Proof.
  intros Ht Hd. rewrite fmap_app, fmap_take, <-list_fmap_compose. change (part_id ∘ part_of) with disk_id.
  apply NoDup_app. split; [done|]. split.
  - intros i Hi Hin. apply elem_of_take in Hin as (k & Hk & _). apply list_elem_of_lookup_2, list_elem_of_fmap in Hk as (d & -> & Hf).
    apply list_elem_of_filter in Hf as [[_ Hn] _]. done.
  - eapply sublist_NoDup; [|apply sublist_take]. by apply NoDup_fmap_filter.
Qed.

(** C31: the disks, sample after sample. From any state of the table (from the
    start on, [io_start_ok], and again after every call), when both passes see
    files as the kernel prints them, the table keeps its disks and gets, in the
    order of the file, the disks that are whole, have been read from and are not
    yet in it, up to the configured number and never more than 64; each disk of
    the table has the counters of its own line of the second pass, or keeps the
    old ones when it has none; and the record is one item per disk, with its
    name, its counters and the place of the item. *)
Theorem tsar_io_items parameter st disks1 disks2 :
  let max := if decide (i32 (atol parameter) = 0) then max_partitions st else u32 (atol parameter) in
  let tbl := partition st ++
    take (Z.to_nat (Z.min max 64 - zlen (partition st))) (part_of <$> new_disks (partition st) disks1) in
  let blk := zip_with (counters_now disks2) tbl (new_blkio st) in
  io_ok st → Forall disk_ok disks1 → Forall disk_ok disks2 → NoDup (disk_id <$> disks1) → NoDup (disk_id <$> disks2) →
  lines_fit disks1 → lines_fit disks2 → zlen (io_text 0 (zip tbl blk)) < LEN_1M - 1 →
  ∃ st', read_io_stat parameter (Some (disks_text disks1, disks_text disks2)) st
         = Some (st', Record_ (io_text 0 (zip tbl blk))) ∧
    partition st' = tbl ∧ take (length tbl) (new_blkio st') = blk ∧ max_partitions st' = max ∧ io_ok st'.
Proof.
  intros max tbl blk (Hnd & H64 & Hblk) Hok1 Hok2 Hnd1 Hnd2 Hl1 Hl2 Hfit. unfold read_io_stat.
  assert ((if i32 (atol parameter) =? 0 then max_partitions st else u32 (atol parameter)) = max) as ->.
  { unfold max. by destruct (Z.eqb_spec (i32 (atol parameter)) 0); case_decide. }
  cbn [mbind option_bind]. cbv zeta. unfold disks_text. rewrite !fgets_all_lines by done.
  rewrite initialize_disks by done. fold tbl.
  assert (length tbl ≤ 64)%nat as Htbl by (unfold tbl, zlen; rewrite length_app, length_take; lia).
  assert (NoDup (part_id <$> tbl)) as Hnt by (by apply new_disks_table).
  rewrite get_kernel_stats_disks by (done || lia). fold blk.
  assert (length blk = length tbl) as Hlb by (unfold blk; rewrite length_zip_with; lia).
  assert (zip tbl (blk ++ drop (length tbl) (new_blkio st)) = zip tbl blk) as Hzip.
  { clear -Hlb. revert Hlb. generalize blk, (drop (length tbl) (new_blkio st)). clear. induction tbl as [|p tbl IH];
      intros [|b blk] r Hl; simpl in *; try lia; try done. f_equal. apply IH. lia. }
  rewrite print_rows; cycle 1.
  { rewrite length_app. lia. } { by rewrite Hzip. }
  rewrite Hzip. eexists. split; [done|]. simpl. split; [done|]. split; [by rewrite take_app_length' by lia|]. split; [done|].
  split; [done|]. split; [done|]. simpl. rewrite length_app, length_drop. lia.
Qed.

(** ** A run *)

(** A disk, its partition, and a device mapper; the second sample sees a new
    disk and no longer the device mapper. *)
Definition s_disk (maj min : Z) (name : string) (k : Z) : disk :=
  Disk maj min (lit name) ((λ i, k + Z.of_nat i) <$> seq 0 14).
Definition s_disks1 : list disk := [s_disk 8 0 "sda" 10; s_disk 8 1 "sda1" 20; s_disk 253 0 "dm-0" 30].
Definition s_disks2 : list disk := [s_disk 8 0 "sda" 40; s_disk 8 16 "sdb" 50].
Definition s_after1 : io_state :=
  IoState [PartInfo 8 0 (lit "sda"); PartInfo 253 0 (lit "dm-0")]
    (disk_blkio (s_disk 8 0 "sda" 10) :: disk_blkio (s_disk 253 0 "dm-0" 30) :: replicate 62 no_blkio) 64.

Lemma s_disk_ok maj min name k : 0 ≤ maj < 10000 → 0 ≤ min < 10000 → 0 ≤ k < 1000 → lit name ≠ [] →
  (length (lit name) ≤ 31)%nat → Forall (λ c, isspace c = false) (lit name) → disk_ok (s_disk maj min name k).
Proof.
  intros Hmaj Hmin Hk H1 H2 H3. do 5 (split; [done|]). split; [simpl; lia|]. apply Forall_fmap, Forall_seq.
  intros i Hi. unfold is_u64. simpl. lia.
Qed.

Lemma tsar_io_items_witness : ∃ st',
  read_io_stat [] (Some (disks_text s_disks2, disks_text s_disks2)) s_after1
  = Some (st', Record_ (lit "sda=40,41,42,43,44,45,46,47,49,50,0;dm-0=30,31,32,33,34,35,36,37,39,40,36;sdb=50,51,52,53,54,55,56,57,59,60,74;")) ∧
  io_ok st'.
Proof.
  destruct (tsar_io_items [] s_after1 s_disks2 s_disks2) as (st' & Hr & _ & _ & _ & Hok).
  - split; [by_compute|]. split; [by_compute|reflexivity].
  - each_element ltac:(apply s_disk_ok; [lia|lia|lia|done|by_compute|by_compute]).
  - each_element ltac:(apply s_disk_ok; [lia|lia|lia|done|by_compute|by_compute]).
  - by_compute.
  - by_compute.
  - each_element ltac:(split_and!; by_compute).
  - each_element ltac:(split_and!; by_compute).
  - by vm_compute.
  - exists st'. split; [|exact Hok]. rewrite Hr. by vm_compute.
Defined.
