(* ===== verification/TsarSearch.v ===== *)
(** * TsarSearch: finding a time in the data file

    Of [mservice/master/src/output_print.c]: [find_offset_from_start], the
    search by halves of the byte offsets of a data file for the first record to
    print, and the functions that pick the records to print by their times
    ([set_record_time], [check_time]). *)

From S2P Require Import Prelude CString TsarRecord.

(** ** The times to print *)

(** The fields of [conf] about times; intervals are in minutes. *)
Record print_conf := PrintConf {
  print_day : Z; print_ndays : Z; print_max_day : Z; print_nminute : Z; print_nline_interval : Z;
  run_watch : bool; print_start_time : Z; print_end_time : Z;
}.

Definition DAY : Z := 24 * 60 * 60.

(** The time to look for, [t_token], and the first and last time to print.
    [mktime] gives the start of the day [print_day] stands for. *)
Definition print_window (mktime : Z → Z) (now : Z) (c : print_conf) : Z * print_conf :=
  let day := if print_max_day c <? print_day c then i32 ((now - mktime (print_day c)) ÷ DAY) else print_day c in
  let line := 60 * print_nline_interval c in
  if 0 <=? day then
    let day := if print_max_day c <? day then print_max_day c else day in
    let now := now - Z.rem now DAY - 8 * 60 * 60 in
    let t := now - day * DAY - line in
    (t, PrintConf day (print_ndays c) (print_max_day c) (print_nminute c) (print_nline_interval c) (run_watch c)
          (i32 t) (i32 (t + DAY + line)))
  else
    let ndays := if print_max_day c <? print_ndays c then print_max_day c else print_ndays c in
    let now := now - Z.rem now line in
    let minutes := if print_max_day c * 24 * 60 <? print_nminute c then print_max_day c * 24 * 60 else print_nminute c in
    let t := if run_watch c then now - 60 * minutes - line else now - ndays * DAY - line in
    (t, PrintConf day ndays (print_max_day c) (if run_watch c then minutes else print_nminute c)
          (print_nline_interval c) (run_watch c) (i32 t) (i32 (now + line))).

(** ** The search *)

(** [fgets(line, room + 1, fp)]: the line and what is left of the file. *)
Fixpoint fgets_one (room : Z) (s : list Z) : list Z * list Z :=
  match s with
  | [] => ([], [])
  | x :: s' =>
      if x =? 10 then ([x], s')
      else if room <=? 1 then ([x], s')
      else let '(l, r) := fgets_one (room - 1) s' in (x :: l, r)
  end.

(** Two [fgets] from an offset: the second line, and where the file is then.
    [None]: the end of the file was met, and [errno] was set, which counts as an
    error of [fgets] and ends the process. *)
Definition probe (errno : Z) (file : list Z) (offset : Z) : option (list Z * Z) :=
  let s := drop (Z.to_nat offset) file in
  let '(l1, s1) := fgets_one (LEN_10M - 1) s in
  let '(l2, s2) := fgets_one (LEN_10M - 1) s1 in
  if (zlen l1 =? 0) && negb (errno =? 0) then None
  else if (zlen l2 =? 0) && negb (errno =? 0) then None
  else Some (c_string l2, zlen file - zlen s2).

(** The end of the search: the code, [print_file_number] where it is set, and
    the place of the file. *)
Record found := Found { f_code : Z; f_number : option Z; f_pos : Z }.

(** A turn of the loop; [inr]: the new [off_start] and [off_end]. *)
Definition search_turn (file : list Z) (line_len t_token number off_start off_end offset : Z)
    (line : list Z) (pos : Z) : found + Z * Z :=
  let file_len := zlen file in
  match line with
  | _ :: _ =>
      if line_len <? offset then
        match strpbrk BAR line with
        | None => inl (Found 5 None pos)
        | Some _ =>
            let t_get := atol (span_not BAR line).1 in
            if Z.abs (t_get - t_token) <=? 60 then inl (Found 0 (Some number) pos)
            else
              let '(off_start, off_end) :=
                if t_token <? t_get then (off_start, offset) else (offset, off_end) in
              if offset =? (off_start + off_end) / 2 then
                if negb (off_start =? 0) then inl (Found 4 (Some number) pos) else inl (Found 6 None pos)
              else inr (off_start, off_end)
        end
      else if off_end =? file_len then
        if 0 <? number then inl (Found 2 (Some (number - 1)) pos) else inl (Found 3 None pos)
      else if off_start =? 0 then inl (Found 1 (Some number) pos) else inl (Found 6 None pos)
  | [] =>
      if off_end =? file_len then
        if 0 <? number then inl (Found 2 (Some (number - 1)) pos) else inl (Found 3 None pos)
      else if off_start =? 0 then inl (Found 1 (Some number) pos) else inl (Found 6 None pos)
  end.

(** [None]: the process ended; [Some None]: the fuel ran out. *)
Fixpoint search (fuel : nat) (errno : Z) (file : list Z) (line_len t_token number off_start off_end : Z)
    : option (option found) :=
  match fuel with
  | O => Some None
  | S fuel' =>
      let offset := (off_start + off_end) / 2 in
      match probe errno file offset with
      | None => None
      | Some (line, pos) =>
          match search_turn file line_len t_token number off_start off_end offset line pos with
          | inl r => Some (Some r)
          | inr (off_start, off_end) => search fuel' errno file line_len t_token number off_start off_end
          end
      end
  end.

(** [find_offset_from_start]; an empty file ends the process. *)
Definition find_offset_from_start (fuel : nat) (errno : Z) (file : list Z) (t_token number : Z) : option (option found) :=
  let '(line, _) := fgets_one (LEN_10M - 1) file in
  if zlen line =? 0 then None
  else search fuel errno file (zlen (c_string line)) t_token number 0 (zlen file).

(** ** Which records are printed *)

(** The time in front of a record. *)
Definition record_time (line : list Z) : Z := atol (span_not BAR line).1.
(** [set_record_time]: the time of the record before and of this one, by the
    minute, the interval between them ([print_interval]) and the result;
    [None] without a section mark or with a time that does not fit. *)
Definition set_record_time (line : list Z) (c_time : Z) : option (Z * Z * Z) :=
  match strpbrk BAR line with
  | None => None
  | Some _ =>
      if (32 <=? length (span_not BAR line).1)%nat then None
      else
        let pre_time := c_time - Z.rem c_time 60 in
        let c_time := record_time line - Z.rem (record_time line) 60 in
        let print_interval := i32 (c_time - pre_time) in
        Some (c_time, print_interval, if print_interval =? 0 then 0 else c_time)
  end.

(** [check_time]: 0 print it, 1 skip it, 3 stop; and the new [pre_time]. *)
Definition check_time (c : print_conf) (line : list Z) (pre_time : Z) : Z * Z :=
  match strpbrk BAR line with
  | None => (1, pre_time)
  | Some _ =>
      let s := (span_not BAR line).1 in
      let now_time := if (length s <? 32)%nat then atol s else 0 in
      if print_end_time c <=? now_time then (3, pre_time)
      else
        let now_time := now_time - Z.rem now_time 60 in
        let line := 60 * print_nline_interval c in
        if (Z.rem (now_time - print_start_time c) line =? 0) && (pre_time <? now_time) then
          if negb (pre_time =? 0) && (now_time - pre_time =? line) then (0, now_time) else (1, now_time)
        else (1, pre_time)
  end.
