(* ===== verification/TsarSearchFacts.v ===== *)
(** * TsarSearchFacts: the search by halves of the data file

    On every file the search ends; on a file of lines with increasing times what
    it says is true: the place it stops at is behind a line of the time asked
    for, or between the two lines the time falls between. *)

From S2P Require Import Prelude CString TsarRecord TsarSearch.

(** ** The search ends *)

Lemma half_bounds s e : s ≤ e → s ≤ (s + e) / 2 ≤ e.
Proof. intros H. split; [apply Z.div_le_lower_bound; lia|apply Z.div_le_upper_bound; lia]. Qed.

(** A turn that goes on makes the interval smaller. *)
Lemma search_turn_smaller file ll t number s e line pos s' e' : s ≤ e →
  search_turn file ll t number s e ((s + e) / 2) line pos = inr (s', e') → s ≤ s' ∧ s' ≤ e' ∧ e' ≤ e ∧ e' - s' < e - s.
Proof.
  intros Hse. pose proof (half_bounds s e Hse) as Ho. unfold search_turn. set (o := (s + e) / 2) in *.
  destruct line as [|x line]; [repeat case_match; done|]. destruct (ll <? o); [|repeat case_match; done].
  destruct (strpbrk BAR (x :: line)); [|done]. cbv zeta. case_match; [done|].
  destruct (t <? _);
  (match goal with |- context [o =? ?m] => destruct (Z.eqb_spec o m) as [Heq|Hne] end;
   [by destruct (negb _)|]); intros [= <- <-].
  - split; [lia|]. split; [lia|]. split; [lia|]. destruct (decide (o = e)) as [He|]; [|lia].
    exfalso. apply Hne. rewrite He in *. unfold o in *. Z.div_mod_to_equations. lia.
  - split; [lia|]. split; [lia|]. split; [lia|]. destruct (decide (o = s)) as [Hs|]; [|lia].
    exfalso. apply Hne. rewrite Hs. done.
Qed.

(** For every content of the file, the fuel of its length is enough. *)
Lemma search_ends errno file ll t number : ∀ fuel s e, s ≤ e → e - s < Z.of_nat fuel →
  search fuel errno file ll t number s e ≠ Some None.
Proof.
  induction fuel as [|fuel IH]; intros s e Hse Hf; [lia|]. cbn [search]. cbv zeta.
  destruct (probe errno file ((s + e) / 2)) as [[line pos]|]; [|done].
  destruct (search_turn _ _ _ _ _ _ _ line pos) as [r|[s' e']] eqn:Ht; [done|].
  apply search_turn_smaller in Ht as (? & ? & ? & ?); [|done]. apply IH; lia.
Qed.

(** ** A file of lines *)

(** A line as the daemon writes it: one line feed, at its end, no zero byte, a
    section mark, and room for it in the reader's buffer. *)
Definition data_line (l : list Z) : Prop :=
  ∃ b, l = b ++ [10] ∧ (10 ∉ b) ∧ (0 ∉ b) ∧ BAR ∈ b ∧ zlen l < LEN_10M.

(** Where the [k]-th line starts. *)
Definition line_start (L : list (list Z)) (k : nat) : Z := zlen (concat (take k L)).
(** The offset [o] is inside the [k]-th line. *)
Definition in_line (L : list (list Z)) (o : Z) (k : nat) : Prop :=
  ∃ l, L !! k = Some l ∧ line_start L k ≤ o < line_start L k + zlen l.

Lemma zlen_concat_cons (l : list Z) L : zlen (concat (l :: L)) = zlen l + zlen (concat L).
Proof. unfold zlen. cbn [concat]. rewrite length_app. lia. Qed.

Lemma line_start_S L k l : L !! k = Some l → line_start L (S k) = line_start L k + zlen l.
Proof.
  intros Hl. unfold line_start. rewrite (take_S_r _ _ _ Hl), concat_app. unfold zlen. rewrite length_app. cbn.
  rewrite app_nil_r. lia.
Qed.

Lemma line_start_all L k : (length L ≤ k)%nat → line_start L k = zlen (concat L).
Proof. intros H. unfold line_start. by rewrite take_ge. Qed.

Lemma line_start_mono L j k : (j ≤ k)%nat → line_start L j ≤ line_start L k.
Proof.
  intros Hjk. unfold line_start. replace k with (j + (k - j))%nat by lia.
  rewrite <- take_take_drop, concat_app, zlen_app. pose proof (zlen_nonneg (concat (take (k - j) (drop j L)))). lia.
Qed.

(** Every offset of the file is inside a line. *)
Lemma in_line_exists L : ∀ o, 0 ≤ o < zlen (concat L) → ∃ k, in_line L o k.
Proof.
  induction L as [|l L IH]; intros o Ho; [unfold zlen in Ho; cbn in Ho; lia|]. rewrite zlen_concat_cons in Ho.
  destruct (decide (o < zlen l)) as [Hl|Hl].
  - exists 0%nat, l. cbn. split; [done|]. change (line_start (l :: L) 0) with 0. lia.
  - destruct (IH (o - zlen l)) as (k & l' & Hk & Hb); [lia|]. exists (S k), l'. split; [done|].
    unfold line_start in *. cbn [take]. rewrite zlen_concat_cons. lia.
Qed.

Lemma in_line_le L o o' k k' : in_line L o k → in_line L o' k' → o ≤ o' → (k ≤ k')%nat.
Proof.
  intros (l & Hl & Hb) (l' & Hl' & Hb') Ho. destruct (decide (k ≤ k')%nat) as [|Hn]; [done|].
  pose proof (line_start_mono L (S k') k ltac:(lia)). rewrite (line_start_S _ _ _ Hl') in *. lia.
Qed.

(** *** Reading from the middle of a line *)

Lemma fgets_one_line b : ∀ room rest, 10 ∉ b → zlen b < room → fgets_one room (b ++ 10 :: rest) = (b ++ [10], rest).
Proof.
  induction b as [|x b IH]; intros room rest Hb Hr; [done|]. unfold zlen in *. cbn [length] in Hr.
  apply not_elem_of_cons in Hb as [Hx Hb]. cbn [app fgets_one].
  rewrite (proj2 (Z.eqb_neq x 10)) by done. rewrite (proj2 (Z.leb_gt _ _)) by lia.
  by rewrite IH by (done || lia).
Qed.

Lemma fgets_one_data l rest : data_line l → fgets_one (LEN_10M - 1) (l ++ rest) = (l, rest).
Proof.
  intros (b & -> & H10 & _ & _ & Hl). rewrite <- app_assoc. cbn [app]. apply fgets_one_line; [done|].
  unfold zlen in *. rewrite length_app in Hl. cbn in Hl. lia.
Qed.

Lemma fgets_one_tail l m rest : data_line l → (m < length l)%nat →
  fgets_one (LEN_10M - 1) (drop m l ++ rest) = (drop m l, rest) ∧ drop m l ≠ [].
Proof.
  intros (b & -> & H10 & _ & _ & Hl) Hm. rewrite length_app in Hm. cbn in Hm.
  rewrite drop_app_le by lia. rewrite <- app_assoc. cbn [app]. split; [|by destruct (drop m b)].
  apply fgets_one_line.
  - intros Hin. apply H10. apply list_elem_of_In. apply list_elem_of_In in Hin.
    rewrite <- (take_drop m b). apply in_or_app. by right.
  - unfold zlen in *. rewrite length_app in Hl. cbn in Hl. rewrite length_drop. lia.
Qed.

(** Two reads from inside the [k]-th line give the line behind it. *)
Lemma probe_line L o k : Forall data_line L → in_line L o k →
  probe 0 (concat L) o = Some (default [] (L !! S k), line_start L (S (S k))).
Proof.
  intros HL (l & Hl & Ho). pose proof (Forall_lookup_1 _ _ _ _ HL Hl) as Hd.
  assert (drop (Z.to_nat o) (concat L) = drop (Z.to_nat (o - line_start L k)) l ++ concat (drop (S k) L)) as Hdrop.
  { rewrite <- (take_drop_middle L k l Hl) at 1. rewrite concat_app. cbn [concat]. unfold line_start, zlen in *.
    rewrite drop_app_ge by lia. rewrite drop_app_le by lia. do 2 f_equal. lia. }
  unfold probe. rewrite Hdrop. change (negb (0 =? 0)) with false.
  destruct (fgets_one_tail l (Z.to_nat (o - line_start L k)) (concat (drop (S k) L)) Hd) as [-> Hne];
    [unfold zlen in *; lia|].
  destruct (L !! S k) as [l'|] eqn:Hl'.
  - rewrite (drop_S _ _ _ Hl'). cbn [concat default]. pose proof (Forall_lookup_1 _ _ _ _ HL Hl') as Hd'.
    rewrite (fgets_one_data l' _ Hd'), !andb_false_r. change (id l') with l'. do 2 f_equal.
    + destruct Hd' as (b & -> & _ & H0 & _). apply c_string_id. rewrite elem_of_app, list_elem_of_singleton. naive_solver.
    + rewrite <- (take_drop (S (S k)) L) at 1. rewrite concat_app, zlen_app. unfold line_start. lia.
  - apply lookup_ge_None in Hl'. rewrite drop_ge by lia. cbn [concat fgets_one].
    rewrite !andb_false_r, line_start_all by lia. do 2 f_equal.
    unfold zlen. cbn. lia.
Qed.

(** ** What the search says *)

Section FindOffset.
Context (L : list (list Z)) (first : list Z) (token number : Z).
Hypothesis (Hlines : Forall data_line L).
Hypothesis (Hfirst : L !! 0%nat = Some first).
Hypothesis (Hsorted : ∀ i j li lj, (i ≤ j)%nat → L !! i = Some li → L !! j = Some lj → record_time li ≤ record_time lj).

(** The line read from the offset [o] satisfies [P]. *)
Definition behind (P : Z → Prop) (o : Z) : Prop :=
  ∃ k l, in_line L o k ∧ L !! S k = Some l ∧ P (record_time l).

(** What the loop knows of its interval. *)
Definition search_known (s e : Z) : Prop :=
  0 ≤ s ∧ s ≤ e ∧ e ≤ zlen (concat L) ∧ s < zlen (concat L) ∧
  (s = 0 ∨ (zlen first < s ∧ behind (λ t, t < token - 60) s)) ∧
  (e = zlen (concat L) ∨ (zlen first < e ∧ behind (λ t, token + 60 < t) e)).

(** What a result says about the file. *)
Definition search_result (r : found) : Prop :=
  (f_code r = 0 ∧ f_number r = Some number ∧
     ∃ i l, L !! i = Some l ∧ Z.abs (record_time l - token) ≤ 60 ∧ f_pos r = line_start L (S i)) ∨
  (f_code r = 1 ∧ f_number r = Some number ∧
     ∀ i l, L !! i = Some l → 2 * zlen first + 1 < line_start L i → token + 60 < record_time l) ∨
  ((if 0 <? number then f_code r = 2 ∧ f_number r = Some (number - 1) else f_code r = 3 ∧ f_number r = None) ∧
     (zlen (concat L) ≤ 2 * zlen first + 1 ∨
      ∀ i l z, last L = Some z → L !! i = Some l → line_start L (S i) + 2 * zlen z ≤ zlen (concat L) →
        record_time l < token - 60)) ∨
  (f_code r = 4 ∧ f_number r = Some number ∧
     ∃ i l l', L !! i = Some l ∧ L !! S i = Some l' ∧ record_time l < token - 60 ∧ token + 60 < record_time l' ∧
       f_pos r = line_start L (S i)).

Lemma behind_parts P o k : in_line L o k → behind P o → ∃ l, L !! S k = Some l ∧ P (record_time l).
Proof.
  intros Hk (k' & l & Hk' & Hl & HP). exists l. split; [|done].
  pose proof (in_line_le _ _ _ _ _ Hk Hk' ltac:(lia)). pose proof (in_line_le _ _ _ _ _ Hk' Hk ltac:(lia)).
  by replace k with k' by lia.
Qed.

(** Nothing between the two ends when the interval is one byte. *)
Lemma behind_adjacent s e k : in_line L s k → s ≤ e ≤ s + 1 →
  (∃ l, L !! S k = Some l ∧ record_time l < token - 60) → behind (λ t, token + 60 < t) e →
  in_line L e (S k) ∧ ∃ l, L !! S (S k) = Some l ∧ token + 60 < record_time l.
Proof.
  intros Hs He (l & Hl & Ht) (k' & l' & Hk' & Hl' & Ht').
  assert (k < k')%nat.
  { destruct (decide (k < k')%nat) as [|Hn]; [done|]. pose proof (Hsorted (S k') (S k) _ _ ltac:(lia) Hl' Hl). lia. }
  assert (k' = S k) as ->; [|eauto].
  destruct Hs as (ls & Hls & Hb). destruct Hk' as (lk & Hlk & Hb').
  destruct (decide (k' = S k)) as [|Hn]; [done|]. exfalso.
  pose proof (line_start_mono L (S (S k)) k' ltac:(lia)). rewrite (line_start_S _ _ _ Hl), (line_start_S _ _ _ Hls) in *.
  pose proof (Forall_lookup_1 _ _ _ _ Hlines Hl) as (b & -> & _). rewrite zlen_app in *.
  pose proof (zlen_nonneg b). change (zlen [10]) with 1 in *. lia.
Qed.

Lemma data_line_marked l : data_line l → is_Some (strpbrk BAR l) ∧ 0 < zlen l.
Proof.
  intros (b & -> & _ & _ & Hb & _). split.
  - induction b as [|x b IH]; [by apply not_elem_of_nil in Hb|]. cbn [app strpbrk].
    destruct (Z.eqb_spec x BAR) as [|Hx]; [eauto|]. apply IH. apply elem_of_cons in Hb as [?|]; congruence.
  - rewrite zlen_app. pose proof (zlen_nonneg b). change (zlen [10]) with 1. lia.
Qed.

(** The search ran into the end of the file. *)
Lemma search_end_known s k : search_known s (zlen (concat L)) → in_line L ((s + zlen (concat L)) / 2) k → L !! S k = None →
  ∀ i l z, last L = Some z → L !! i = Some l → line_start L (S i) + 2 * zlen z ≤ zlen (concat L) →
  record_time l < token - 60.
Proof.
  intros (Hs0 & Hse & _ & Hs & Hl & _) (lk & Hlk & Ho) Hnone i l z Hz Hi Hend.
  assert (S k = length L) as Hk by (apply lookup_ge_None in Hnone; apply lookup_lt_Some in Hlk; lia).
  rewrite last_lookup in Hz. replace (pred (length L)) with k in Hz by lia.
  assert (z = lk) as -> by congruence. pose proof (line_start_S _ _ _ Hlk) as HS. rewrite line_start_all in HS by lia.
  assert (line_start L (S i) ≤ s) as Hle by (Z.div_mod_to_equations; lia).
  rewrite (line_start_S _ _ _ Hi) in Hle. pose proof (line_start_mono L 0 i ltac:(lia)) as H0. change (line_start L 0) with 0 in H0.
  pose proof (proj2 (data_line_marked l (Forall_lookup_1 _ _ _ _ Hlines Hi))).
  destruct Hl as [->|[_ (k' & l' & Hk' & Hl' & Ht)]]; [lia|].
  assert (in_line L (line_start L i) i) as Hin by (exists l; split; [done|lia]).
  pose proof (in_line_le _ _ _ _ _ Hin Hk' ltac:(lia)). pose proof (Hsorted i (S k') _ _ ltac:(lia) Hi Hl'). lia.
Qed.

(** The search ran into the first line. *)
Lemma search_start_known e : search_known 0 e → e ≠ zlen (concat L) → e / 2 ≤ zlen first →
  ∀ i l, L !! i = Some l → 2 * zlen first + 1 < line_start L i → token + 60 < record_time l.
Proof.
  intros (_ & _ & _ & _ & _ & [?|[_ (k & l' & Hk & Hl' & Ht)]]) He Ho i l Hi Hs; [done|].
  assert (in_line L (line_start L i) i) as Hin.
  { exists l. split; [done|]. pose proof (proj2 (data_line_marked l (Forall_lookup_1 _ _ _ _ Hlines Hi))). lia. }
  assert (S k ≤ i)%nat as Hki.
  { destruct (decide (S k ≤ i)%nat) as [|Hn]; [done|]. exfalso. destruct Hk as (lk & Hlk & Hb).
    pose proof (line_start_mono L i k ltac:(lia)). Z.div_mod_to_equations. lia. }
  pose proof (Hsorted (S k) i _ _ Hki Hl' Hi). lia.
Qed.

(** A read inside an interval that ends before the end of the file finds a line. *)
Lemma behind_line P o e k : in_line L o k → o ≤ e → behind P e → is_Some (L !! S k).
Proof.
  intros Hk Hoe (k' & l & Hk' & Hl & _). pose proof (in_line_le _ _ _ _ _ Hk Hk' Hoe).
  apply lookup_lt_is_Some_2. apply lookup_lt_Some in Hl. lia.
Qed.

Lemma half_above_s s e : search_known s e → s ≠ 0 → zlen first < (s + e) / 2.
Proof. intros (? & ? & ? & ? & [->|[? _]] & _) ?; [done|]. pose proof (half_bounds s e ltac:(lia)). lia. Qed.

(** The turn when the read gave nothing, or the offset is inside the first line. *)
Lemma search_turn_border s e k line pos : search_known s e → in_line L ((s + e) / 2) k → line = default [] (L !! S k) →
  (L !! S k = None ∨ (s + e) / 2 ≤ zlen first) →
  ∃ r, search_turn (concat L) (zlen first) token number s e ((s + e) / 2) line pos = inl r ∧ search_result r.
Proof.
  intros Hkn Hk -> Hborder.
  assert (search_turn (concat L) (zlen first) token number s e ((s + e) / 2) (default [] (L !! S k)) pos
    = if e =? zlen (concat L) then
        if 0 <? number then inl (Found 2 (Some (number - 1)) pos) else inl (Found 3 None pos)
      else if s =? 0 then inl (Found 1 (Some number) pos) else inl (Found 6 None pos)) as Hturn.
  { unfold search_turn. destruct Hborder as [->|Hle]; [done|].
    rewrite (proj2 (Z.ltb_ge _ _) Hle). by destruct (default _ _). }
  rewrite Hturn. clear Hturn. destruct (Z.eqb_spec e (zlen (concat L))) as [->|He].
  - exists (if 0 <? number then Found 2 (Some (number - 1)) pos else Found 3 None pos).
    split; [by destruct (0 <? number)|].
    assert (zlen (concat L) ≤ 2 * zlen first + 1 ∨ L !! S k = None) as Hend.
    { destruct Hborder as [|Hle]; [by right|]. left. destruct (decide (s = 0)) as [->|Hs].
      - Z.div_mod_to_equations. lia.
      - pose proof (half_above_s _ _ Hkn Hs). lia. }
    right. right. left. split; [by destruct (0 <? number)|]. destruct Hend as [|Hnone]; [by left|].
    right. by apply (search_end_known s k).
  - pose proof Hkn as (_ & Hse & _ & _ & _ & [?|[_ Hb]]); [done|].
    destruct (behind_line _ _ e k Hk ltac:(pose proof (half_bounds s e ltac:(lia)); lia) Hb) as [l' Hl'].
    destruct Hborder as [?|Hle]; [congruence|].
    destruct (Z.eqb_spec s 0) as [->|Hs]; [|pose proof (half_above_s _ _ Hkn Hs); lia].
    eexists. split; [done|]. right. left. split; [done|]. split; [done|].
    apply (search_start_known e); [done..|]. by rewrite Z.add_0_l in Hle.
Qed.

(** The turn that compares a line's time with the time asked for. *)
Lemma search_turn_line s e k l : search_known s e → in_line L ((s + e) / 2) k → L !! S k = Some l →
  zlen first < (s + e) / 2 →
  match search_turn (concat L) (zlen first) token number s e ((s + e) / 2) l (line_start L (S (S k))) with
  | inl r => search_result r
  | inr (s', e') => search_known s' e'
  end.
Proof.
  intros Hkn Hk Hl Ho. pose proof Hkn as (Hs0 & Hse & He & Hs & HLo & HHi).
  pose proof (half_bounds s e Hse) as Hb. set (o := (s + e) / 2) in *.
  destruct (data_line_marked l (Forall_lookup_1 _ _ _ _ Hlines Hl)) as [[m Hm] Hpos].
  assert (o < zlen (concat L)) as HoL by (unfold o; Z.div_mod_to_equations; lia).
  unfold search_turn. destruct l as [|x l0] eqn:El; [by cbn in Hpos|]. rewrite <- El in *. clear El.
  rewrite (proj2 (Z.ltb_lt _ _) Ho), Hm. cbv zeta. fold (record_time l).
  destruct (Z.leb_spec (Z.abs (record_time l - token)) 60) as [Hnear|Hfar].
  { left. do 2 (split; [done|]). by exists (S k), l. }
  destruct (Z.ltb_spec token (record_time l)) as [Hgt|Hle].
  - assert (behind (λ t, token + 60 < t) o) as Hbo by (exists k, l; split; [done|]; split; [done|]; cbv beta; lia).
    destruct (Z.eqb_spec o ((s + o) / 2)) as [Heq|Hne]; [|by repeat split; try done; try lia; right].
    exfalso. assert (s = o) as Hso by (Z.div_mod_to_equations; lia).
    destruct HLo as [?|[_ Hbs]]; [pose proof (zlen_nonneg first); lia|]. rewrite Hso in Hbs.
    destruct (behind_parts _ _ _ Hk Hbs) as (l1 & Hl1 & Ht1). assert (l1 = l) as -> by congruence. cbv beta in Ht1. lia.
  - assert (behind (λ t, t < token - 60) o) as Hbo by (exists k, l; split; [done|]; split; [done|]; cbv beta; lia).
    destruct (Z.eqb_spec o ((o + e) / 2)) as [Heq|Hne]; [|by repeat split; try done; try lia; right].
    rewrite (proj2 (Z.eqb_neq o 0)) by (pose proof (zlen_nonneg first); lia). cbn [negb].
    assert (e ≤ o + 1) as Heo by (Z.div_mod_to_equations; lia).
    destruct HHi as [He'|[_ Hbe]].
    + exfalso. destruct Hk as (lk & Hlk & Hbk). pose proof (line_start_mono L (S (S k)) (length L)).
      apply lookup_lt_Some in Hl as Hlt. rewrite (line_start_S _ _ _ Hl), (line_start_S _ _ _ Hlk) in *.
      rewrite (line_start_all L (length L)) in * by lia. lia.
    + destruct (behind_adjacent o e k Hk ltac:(lia) ltac:(exists l; split; [done|lia]) Hbe) as [_ (l' & Hl' & Ht')].
      right. right. right. do 2 (split; [done|]). exists (S k), l, l'. repeat split; try done; lia.
Qed.

(** On a file of lines in order of time, with fuel for its bytes, the search
    returns and its result is right. *)
Lemma search_right : ∀ fuel s e, search_known s e → e - s < Z.of_nat fuel →
  ∃ r, search fuel 0 (concat L) (zlen first) token number s e = Some (Some r) ∧ search_result r.
Proof.
  induction fuel as [|fuel IH]; intros s e Hkn Hf; pose proof Hkn as (Hs0 & Hse & He & Hs & _); [lia|].
  cbn [search]. cbv zeta. pose proof (half_bounds s e Hse).
  destruct (in_line_exists L ((s + e) / 2)) as [k Hk]; [Z.div_mod_to_equations; lia|].
  rewrite (probe_line L _ k Hlines Hk). destruct (L !! S k) as [l|] eqn:Hl.
  - destruct (decide (zlen first < (s + e) / 2)) as [Ho|Ho].
    + cbn [default]. pose proof (search_turn_line s e k l Hkn Hk Hl Ho) as Ht.
      destruct (search_turn _ _ _ _ _ _ _ _ _) as [r|[s' e']] eqn:Hst in Ht; change (id l) with l; rewrite Hst; [eauto|].
      apply search_turn_smaller in Hst as (? & ? & ? & ?); [|done]. apply IH; [done|lia].
    + destruct (search_turn_border s e k l (line_start L (S (S k))) Hkn Hk) as (r & Hr & HR);
        [by rewrite Hl|right; lia|]. cbn [default]. change (id l) with l. rewrite Hr. eauto.
  - destruct (search_turn_border s e k [] (line_start L (S (S k))) Hkn Hk) as (r & Hr & HR);
      [by rewrite Hl|by left|]. cbn [default]. rewrite Hr. eauto.
Qed.
End FindOffset.

(** Lines in order of time, by their places. *)
Lemma sorted_lookup (f : list Z → Z) L i j li lj : StronglySorted Z.le (f <$> L) → (i ≤ j)%nat →
  L !! i = Some li → L !! j = Some lj → f li ≤ f lj.
Proof.
  revert i j. induction L as [|l L IH]; intros [|i] [|j] Hs Hij Hi Hj; try done; try lia;
    apply StronglySorted_inv in Hs as [Hs Hall].
  - simplify_eq/=. lia.
  - cbn in Hi, Hj. injection Hi as ->. apply (Forall_lookup_1 _ _ _ _ (proj1 (Forall_fmap f _ _) Hall) Hj).
  - exact (IH i j Hs ltac:(lia) Hi Hj).
Qed.

(** C26: on a data file of whole lines in order of time, with [errno] 0 before
    it, [find_offset_from_start] always returns (fuel above the size of the file
    is enough) with one of the results 0 to 4, never the format error 5 nor the
    6 the source calls unreachable, and the result is right. 0: the file is
    placed behind a line whose time is within a minute of the time asked for.
    4: it is placed between two neighbouring lines, one more than a minute too
    early and one more than a minute too late. 1: every line that starts more
    than twice the first line's length into the file is too late. 2 or 3, by
    whether there is a newer file: the whole file is no longer than twice its
    first line, or every line that ends at least twice the last line's length
    before the end of the file is too early. *)
Theorem tsar_find_offset L first token number fuel : L !! 0%nat = Some first → Forall data_line L →
  StronglySorted Z.le (record_time <$> L) → zlen (concat L) < Z.of_nat fuel →
  ∃ r, find_offset_from_start fuel 0 (concat L) token number = Some (Some r) ∧ search_result L first token number r.
Proof.
  intros Hfirst HL Hs Hf. destruct L as [|l L]; [done|]. injection Hfirst as ->.
  pose proof HL as [Hd _]%Forall_cons. pose proof (data_line_marked _ Hd) as [_ Hpos].
  unfold find_offset_from_start. cbn [concat]. rewrite (fgets_one_data first _ Hd).
  rewrite (proj2 (Z.eqb_neq _ _)) by lia.
  replace (c_string first) with first
    by (destruct Hd as (b & -> & _ & H0 & _); rewrite c_string_id by (rewrite elem_of_app, list_elem_of_singleton; naive_solver); done).
  change (first ++ concat L) with (concat (first :: L)). eapply search_right; [done| |..|lia].
  - intros i j li lj Hij Hi Hj. exact (sorted_lookup record_time _ i j li lj Hs Hij Hi Hj).
  - rewrite zlen_concat_cons in *. pose proof (zlen_nonneg (concat L)). unfold search_known. rewrite zlen_concat_cons.
    repeat split; try lia; by left.
Qed.

Definition s_line (t : string) : list Z := lit t ++ [10].
Definition s_data : list (list Z) :=
  s_line <$> ["600|cpu:1"; "660|cpu:2"; "720|cpu:3"; "900|cpu:4"; "960|cpu:5"]%string.

Lemma tsar_find_offset_witness :
  ∃ r, find_offset_from_start 51 0 (concat s_data) 950 0 = Some (Some r) ∧ search_result s_data (s_line "600|cpu:1") 950 0 r.
Proof.
  apply tsar_find_offset; [reflexivity| | |vm_compute; reflexivity].
  - unfold s_data, data_line. cbn [fmap list_fmap].
    each_element ltac:(unfold s_line; eexists; split; [reflexivity|]; split_and!; by_compute).
  - vm_compute. repeat first [apply SSorted_cons | apply SSorted_nil]; each_element ltac:(by_compute).
Defined.

(** A time of the last line is not found when that line is longer than the
    lines before it: the result is 3, "researching tsar.data to end and not find
    log data you need". *)
Example search_misses_long_last_line :
  let file := concat (s_line <$> ["600|cpu:1"; "960|cpu:22222222222222222"]%string) in
  find_offset_from_start 100 0 file 960 0 = Some (Some (Found 3 None (zlen file))).
Proof. by vm_compute. Qed.

(** ** The records that are printed *)

(** A record is printed only if it is before the end, on the grid of the interval
    from the start, and one interval behind the record of the grid before it; the
    time of its minute is remembered. *)
Lemma check_time_prints c line pre t : check_time c line pre = (0, t) → (length (span_not BAR line).1 < 32)%nat →
  record_time line < print_end_time c ∧ t = record_time line - Z.rem (record_time line) 60 ∧
  t = pre + 60 * print_nline_interval c ∧ Z.rem (t - print_start_time c) (60 * print_nline_interval c) = 0.
Proof.
  unfold check_time, record_time. destruct (strpbrk BAR line); [|done]. cbv zeta. intros H Hl.
  rewrite (proj2 (Nat.ltb_lt _ _) Hl) in H. set (now := atol _) in *.
  destruct (Z.leb_spec (print_end_time c) now); [done|]. destruct (_ && _) eqn:Hg in H; [|done].
  apply andb_true_iff in Hg as [Hg%Z.eqb_eq _]. destruct (_ && _) eqn:Hs in H; [|done]. injection H as <-.
  apply andb_true_iff in Hs as [_ Hs%Z.eqb_eq]. split_and!; [done|done|lia|done].
Qed.

(** The second record of the same minute is skipped, and so is one that comes
    after a gap, but it is the start for the next. *)
Example check_time_minutes :
  let c := PrintConf (-1) 1 183 0 1 false 600 1000 in
  let step st l := (st.1 ++ [(check_time c l st.2).1], (check_time c l st.2).2) in
  (foldl step ([], 0) (s_line <$> ["600|"; "660|"; "665|"; "725|"; "905|"; "960|"; "1000|"]%string)).1 = [1; 0; 1; 0; 1; 0; 3].
Proof. by vm_compute. Qed.

(** Without a day, in the interval of 5 minutes, the last day up to now. *)
Example print_window_days : print_window id 1000000 (PrintConf (-1) 1 183 0 5 false 0 0)
  = (1000000 - 100 - 86400 - 300, PrintConf (-1) 1 183 0 5 false (1000000 - 100 - 86400 - 300) (1000000 - 100 + 300)).
Proof. by vm_compute. Qed.
