(* ===== verification/TsarConfig.v ===== *)
(** * TsarConfig: the configuration of the monitor service

    [mservice/master/src/config.c], the parser of the configuration file, and of
    [src/framework.c] the functions that load and select modules. A statement is
    one line, a key word and its arguments, which [strtok] takes one by one. The
    shared objects of the modules and what [ls] prints for an [include] are
    arguments. *)

From S2P Require Import Prelude CString TsarRecord TsarModules.

(** ** The configuration *)

(** The strings of [struct configure] the file sets. *)
Inductive text_field :=
  | output_interface | output_file_path | output_directory | output_db_addr | output_db_mod | output_tcp_mod
  | output_tcp_addr (i : nat) | output_tcp_merge | output_nagios_mod | output_stdio_mod | server_addr
  | send_nsca_cmd | send_nsca_conf | server_mode | agent_cmd.
#[global] Instance text_field_eq : EqDecision text_field.
Proof. solve_decision. Defined.
(** Their sizes in bytes. *)
Definition field_size (f : text_field) : nat :=
  match f with
  | output_interface | output_file_path | output_directory | server_mode => 128
  | output_tcp_addr _ | output_tcp_merge => 256
  | _ => 512
  end.

Inductive int_field := output_tcp_addr_num | debug_level | server_port | cycle_time | print_max_day | cron_period.
#[global] Instance int_field_eq : EqDecision int_field.
Proof. solve_decision. Defined.

(** The limits of a check; a limit is the text whose value [atof] gives, [None]
    for 0. *)
Record threshold := Threshold { check_name : list Z; limits : list (option (list Z)) }.

(** What the configuration knows of a module: the columns are there once the
    shared object is loaded, each with whether it is selected. *)
Record cfg_mod := CfgMod {
  c_name : list Z; c_opt : list Z; c_parameter : list Z; c_print_item : list Z;
  c_cols : option (list (list Z * bool)); c_enable : bool; c_spec : bool;
}.

Record config := Config {
  texts : text_field → list Z; ints : int_field → Z;
  thresholds : list threshold; mods : list cfg_mod; mod_subs : list (list Z);
}.

(** The end of a function: a result, [exit(1)] after a fatal message, or an
    access outside of an object. [Deep]: files that include each other deeper
    than the fuel. *)
Inductive outcome (A : Type) := Done (a : A) | Exits | Crash | Deep.
Arguments Done {A} a. Arguments Exits {A}. Arguments Crash {A}. Arguments Deep {A}.
Definition obind {A B} (m : outcome A) (f : A → outcome B) : outcome B :=
  match m with Done a => f a | Exits => Exits | Crash => Crash | Deep => Deep end.
Fixpoint ofold {A B} (f : A → B → outcome A) (a : A) (l : list B) : outcome A :=
  match l with [] => Done a | x :: l' => obind (f a x) (λ a, ofold f a l') end.

Definition set_text (f : text_field) (v : list Z) (c : config) : config :=
  Config (λ g, if decide (g = f) then v else texts c g) (ints c) (thresholds c) (mods c) (mod_subs c).
Definition set_int (f : int_field) (v : Z) (c : config) : config :=
  Config (texts c) (λ g, if decide (g = f) then v else ints c g) (thresholds c) (mods c) (mod_subs c).
Definition set_mods (ms : list cfg_mod) (c : config) : config := Config (texts c) (ints c) (thresholds c) ms (mod_subs c).
Definition set_subs (l : list (list Z)) (c : config) : config := Config (texts c) (ints c) (thresholds c) (mods c) l.
Definition set_thresholds (l : list threshold) (c : config) : config := Config (texts c) (ints c) l (mods c) (mod_subs c).

(** ** The C library *)

(** [W_SPACE] *)
Definition is_blank (x : Z) : bool := (x =? 32) || (x =? 9) || (x =? 13) || (x =? 10).

(** [strtok(s, W_SPACE)]: the token and where the next call goes on. *)
Fixpoint word_of (s : list Z) : list Z * list Z :=
  match s with
  | [] => ([], [])
  | x :: s' => if is_blank x then ([], s') else let '(w, r) := word_of s' in (x :: w, r)
  end.
Fixpoint strtok_next (s : list Z) : option (list Z * list Z) :=
  match s with
  | [] => None
  | x :: s' => if is_blank x then strtok_next s' else Some (word_of s)
  end.

Definition lower (x : Z) : Z := if (65 <=? x) && (x <=? 90) then x + 32 else x.
Definition strcasecmp_eq (a b : list Z) : bool := bool_decide (lower <$> a = lower <$> b).

(** [strtol(s, NULL, 0)]: decimal, octal after [0], hexadecimal after [0x]. *)
Definition digit_in (base x : Z) : option Z :=
  let v := if isdigit x then x - 48
           else if (97 <=? lower x) && (lower x <=? 102) then lower x - 87 else 99 in
  if v <? base then Some v else None.
Fixpoint digits_in (base acc : Z) (s : list Z) : Z :=
  match s with
  | x :: s' => match digit_in base x with Some v => digits_in base (acc * base + v) s' | None => acc end
  | [] => acc
  end.
Definition strtol0 (s : list Z) : Z :=
  let '(neg, s) := scan_sign (skip_space s) in
  let v := match s with
           | z :: s1 =>
               if z =? 48 then
                 match s1 with
                 | x :: h :: s2 => if (lower x =? 120) && bool_decide (is_Some (digit_in 16 h))
                                   then digits_in 16 0 (h :: s2) else digits_in 8 0 s
                 | _ => digits_in 8 0 s
                 end
               else digits_in 10 0 s
           | [] => 0
           end in
  if (neg : bool) then Z.max LONG_MIN (- v) else Z.min LONG_MAX v.

(** ** The statements *)

Section parser.
(** The shared object of a module: the option it registers and the names of its
    columns; [ls]; the files; what the local buffers hold before they are
    written. *)
Context (shared : list Z → option (list Z * list (list Z))) (ls : list Z → option (list Z))
        (files : list Z → option (list Z)) (junk : list (list Z)).

Definition MAX_MOD_NUM : nat := 32.
Definition MAX_MODSUB_NUM : nat := 320.
Definition MAX_TCP_ADDR_NUM : nat := 4.

(** A second word other than [on] or [enable] turns the statement off. *)
Definition switched_off (token : option (list Z * list Z)) : bool :=
  match token with
  | Some (t, _) => negb (strcasecmp_eq t (lit "on")) && negb (strcasecmp_eq t (lit "enable"))
  | None => false
  end.

(** The remaining words, with one blank between them, as long as they fit. *)
Fixpoint more_parameters (fuel : nat) (s par : list Z) : list Z :=
  match fuel with
  | O => par
  | S fuel' =>
      match strtok_next s with
      | None => par
      | Some (t, s') =>
          if (256 <=? length par + length t + 1)%nat then par else more_parameters fuel' s' (par ++ 32 :: t)
      end
  end.
Definition parse_mod (mod_name rest : list Z) (c : config) : config :=
  let token := strtok_next rest in
  if switched_off token then c
  else if existsb (λ m, bool_decide (c_name m = mod_name)) (mods c) then c
  else if (MAX_MOD_NUM <=? length (mods c))%nat then c
  else
    let rest := match token with Some (_, r) => r | None => [] end in
    let par := match strtok_next rest with
               | Some (t, r) => more_parameters (length r) r (if (length t <? 256)%nat then t else [])
               | None => []
               end in
    set_mods (mods c ++ [CfgMod (take 32 mod_name) [] par [] None false false]) c.

Definition parse_mod_sub (sub_name rest : list Z) (c : config) : config :=
  if switched_off (strtok_next rest) then c
  else if existsb (λ n, bool_decide (n = sub_name)) (mod_subs c) then c
  else if (MAX_MODSUB_NUM <=? length (mod_subs c))%nat then c
  else set_subs (mod_subs c ++ [take 32 sub_name]) c.

(** [load_modules]: the modules not yet loaded, when their shared object opens. *)
Definition load_module (m : cfg_mod) : cfg_mod :=
  match c_cols m, c_name m with
  | None, _ :: _ =>
      match shared (c_name m) with
      | Some (opt, hdrs) =>
          CfgMod (c_name m) opt (c_parameter m) (c_print_item m) (Some ((λ h, (h, false)) <$> hdrs)) true false
      | None => m
      end
  | _, _ => m
  end.
Definition load_modules (ms : list cfg_mod) : list cfg_mod := load_module <$> ms.

Fixpoint skip_blanks_hdr (s : list Z) : list Z :=
  match s with x :: s' => if x =? 32 then skip_blanks_hdr s' else s | [] => [] end.

(** The columns whose name, without its leading blanks, is in [s]. *)
Definition select_cols (s : list Z) (m : cfg_mod) : cfg_mod :=
  match c_cols m with
  | None => m
  | Some cols =>
      let chosen h := contains s (skip_blanks_hdr h) in
      CfgMod (c_name m) (c_opt m) (c_parameter m) (c_print_item m)
        (Some ((λ '(h, b), (h, b || chosen h)) <$> cols)) (c_enable m)
        (c_spec m || existsb (λ '(h, _), chosen h) cols)
  end.

(** [special_mod]: the columns of one module. Its name is [spec_mod] without
    five bytes, in a buffer of 32; the word that selects is missing at the end
    of the line. *)
Fixpoint special_loop (name rest : list Z) (todo : list nat) (ms : list cfg_mod) : outcome (list cfg_mod) :=
  match todo with
  | [] => Done ms
  | i :: todo' =>
      match ms !! i with
      | Some m =>
          if bool_decide (c_name m = name) then
            let ms := load_modules ms in
            match ms !! i, strtok_next rest with
            | Some m, Some (t, rest') => special_loop name rest' todo' (<[i := select_cols t m]> ms)
            | Some m, None =>
                match c_cols m with Some (_ :: _) => Crash | _ => special_loop name [] todo' ms end
            | None, _ => Done ms
            end
          else special_loop name rest todo' ms
      | None => Done ms
      end
  end.
Definition special_mod (spec_mod rest : list Z) (c : config) : outcome config :=
  let name := lit "mod_" ++ drop 5 spec_mod in
  if (32 <=? length name)%nat then Crash
  else obind (special_loop name rest (seq 0 (length (mods c))) (mods c)) (λ ms, Done (set_mods ms c)).

Definition parse_int (f : int_field) (rest : list Z) (c : config) : outcome config :=
  match strtok_next rest with
  | None => Exits
  | Some (t, _) => Done (set_int f (i32 (strtol0 t)) c)
  end.

(** [strncpy(var, token, strlen(token))] does not end the string: what the
    variable held behind it stays. *)
Definition parse_string (f : text_field) (rest : list Z) (c : config) : outcome (config * list Z) :=
  match strtok_next rest with
  | None => Done (c, [])
  | Some (t, rest') =>
      if (field_size f <=? length t)%nat then Crash
      else Done (set_text f (t ++ drop (length t) (texts c f)) c, rest')
  end.

Definition parse_add_string (f : text_field) (rest : list Z) (c : config) : outcome config :=
  match strtok_next rest with
  | None => Done c
  | Some (t, _) =>
      let v := match texts c f with [] => t | old => old ++ COMMA :: t end in
      if (field_size f <=? length v)%nat then Crash else Done (set_text f v c)
  end.

(** The addresses, until a field stays empty. *)
Fixpoint parse_tcp_addrs (todo : list nat) (rest : list Z) (c : config) : outcome config :=
  match todo with
  | [] => Done c
  | i :: todo' =>
      obind (parse_string (output_tcp_addr i) rest c) (λ '(c, rest'),
        match texts c (output_tcp_addr i) with
        | [] => Done c
        | _ => parse_tcp_addrs todo' rest' (set_int output_tcp_addr_num (i32 (ints c output_tcp_addr_num + 1)) c)
        end)
  end.

Definition LOG_INFO : Z := 0.
Definition LOG_DEBUG : Z := 1.
Definition LOG_WARN : Z := 2.
Definition LOG_ERR : Z := 3.
Definition LOG_FATAL : Z := 4.
Definition set_debug_level (rest : list Z) (c : config) : config :=
  match strtok_next rest with
  | None => c
  | Some (t, _) =>
      let named s := bool_decide (t = lit s) in
      set_int debug_level
        (if named "INFO" then LOG_INFO else if named "WARN" then LOG_WARN else if named "DEBUG" then LOG_DEBUG
         else if named "ERROR" then LOG_ERR else if named "FATAL" then LOG_FATAL else LOG_ERR) c
  end.

(** ["%[^;];%[.N0-9];%[.N0-9];%[.N0-9];%[.N0-9];"]: the name and the limits that
    were converted. *)
Definition in_limit (x : Z) : bool := (x =? 46) || (x =? 78) || isdigit x.
Fixpoint span_limit (s : list Z) : list Z * list Z :=
  match s with
  | x :: s' => if in_limit x then let '(a, r) := span_limit s' in (x :: a, r) else ([], s)
  | [] => ([], [])
  end.
Fixpoint scan_limits (n : nat) (s : list Z) : list (list Z) :=
  match n, s with
  | S n', x :: s' =>
      if x =? SEMICOLON then
        match span_limit s' with ([], _) => [] | (a, r) => a :: scan_limits n' r end
      else []
  | _, _ => []
  end.

Definition get_threshold (rest : list Z) (c : config) : outcome config :=
  if (MAX_MOD_NUM <=? length (thresholds c))%nat then Exits
  else
    match strtok_next rest with
    | None => Crash
    | Some (t, _) =>
        let '(name, s) := span_not SEMICOLON t in
        let found := match name with [] => [] | _ => scan_limits 4 s end in
        let tmp := found ++ drop (length found) junk in
        if existsb (λ x, 32 <=? length x)%nat (name :: found) then Crash
        else
          let limit (x : list Z) := if bool_decide (x = lit "N") then None else Some x in
          Done (set_thresholds (thresholds c ++ [Threshold name (limit <$> tmp)]) c)
    end.

(** ** Lines and files *)

Definition text_keys : list (string * text_field) :=
  [("output_interface", output_interface); ("output_file_path", output_file_path); ("output_directory", output_directory);
   ("output_db_addr", output_db_addr); ("output_tcp_merge", output_tcp_merge); ("server_addr", server_addr);
   ("send_nsca_cmd", send_nsca_cmd); ("send_nsca_conf", send_nsca_conf); ("server_mode", server_mode)]%string.
Definition add_keys : list (string * text_field) :=
  [("output_db_mod", output_db_mod); ("output_tcp_mod", output_tcp_mod); ("output_nagios_mod", output_nagios_mod);
   ("output_stdio_mod", output_stdio_mod)]%string.
Definition int_keys : list (string * int_field) :=
  [("server_port", server_port); ("cycle_time", cycle_time); ("max_day", print_max_day); ("cron_period", cron_period)]%string.
Definition key_of {A} (token : list Z) (tbl : list (string * A)) : option A :=
  snd <$> find (λ k, bool_decide (token = lit k.1)) tbl.

(** The bytes one behind the end of the word ([token + strlen(token) + 1]): what
    follows the blank [strtok] has overwritten, or, for a word that ends the
    line, what the buffer holds [behind] the end of the line. *)
Definition after_word (buff token rest : list Z) (behind : option (list Z)) : option (list Z) :=
  match rest with
  | [] => if bool_decide (drop (length buff - length token) buff = token) then behind else Some []
  | _ => Some rest
  end.

(** [parse_line]; [include] is [get_include_conf]; [behind] is what the buffer
    holds behind the end of the line. The key words are distinct, so the order of
    the comparisons with them does not matter. *)
Definition parse_line (include : list Z → config → outcome config) (behind : option (list Z)) (buff : list Z) (c : config)
    : outcome config :=
  match strtok_next buff with
  | None => Done c
  | Some (token, rest) =>
      let named s := bool_decide (token = lit s) in
      if is_prefix (lit "#") token then Done c
      else if contains token (lit "mod_") then Done (parse_mod token rest c)
      else if contains token (lit "spec_") then special_mod token rest c
      else if contains token (lit "sub_") then Done (parse_mod_sub token rest c)
      else
        match key_of token text_keys, key_of token add_keys, key_of token int_keys with
        | Some f, _, _ => obind (parse_string f rest c) (λ '(c, _), Done c)
        | None, Some f, _ => parse_add_string f rest c
        | None, None, Some f => parse_int f rest c
        | None, None, None =>
            if named "output_tcp_addr" then parse_tcp_addrs (seq 0 MAX_TCP_ADDR_NUM) rest c
            else if named "debug_level" then Done (set_debug_level rest c)
            else if named "include" then include rest c
            else if named "threshold" then get_threshold rest c
            else if named "agent_cmd" then
              match after_word buff token rest behind with
              | Some v => Done (set_text agent_cmd (take 511 v) c)
              | None => Crash
              end
            else Done c
        end
  end.

(** The line up to its end, which is at the first newline, then at the first
    carriage return. *)
Definition cut_line (line : list Z) : list Z := (span_not 13 (span_not 10 line).1).1.
(** What the buffer of 1024 bytes, zeroed before each line, holds behind the end
    of the line: the bytes between a carriage return and the newline, nothing, or
    ([None]) memory behind the buffer, which a line without an end can fill. *)
Definition behind_cut (line : list Z) : option (list Z) :=
  let '(l, newline) := span_not 10 line in
  match (span_not 13 l).2, newline with
  | _ :: r, _ => Some r
  | [], [] => if (length line <? 1023)%nat then Some [] else None
  | [], _ :: _ => Some []
  end.
Definition process_input_line (include : list Z → config → outcome config) (c : config) (line : list Z) : outcome config :=
  let behind := behind_cut line in
  let line := cut_line line in
  if is_prefix (lit "#") line then Done c
  else match line with [] => Done c | _ => parse_line include behind line c end.

(** [get_include_conf]: the files [ls] names, line by line; a name is cut at the
    first end of a line, which the loop goes on for beyond the buffer. *)
Fixpoint get_include_conf (fuel : nat) (rest : list Z) (c : config) : outcome config :=
  match fuel with
  | O => Deep
  | S fuel' =>
      match strtok_next rest with
      | None => Done c
      | Some (token, _) =>
          match ls token with
          | None => Done c
          | Some out =>
              ofold (λ c buf,
                if existsb (λ x, (x =? 13) || (x =? 10)) buf then
                  match files (cut_line buf) with
                  | None => Done c
                  | Some text => ofold (process_input_line (get_include_conf fuel')) c (fgets_all 1023 text)
                  end
                else Crash) c (fgets_all 1023 out)
          end
      end
  end.

Definition conf_start : config :=
  Config (λ f, if decide (f = output_interface) then lit "file" else [])
    (λ f, match f with print_max_day => 365 | cron_period => 60 | debug_level => LOG_ERR | _ => 0 end) [] [] [].

Definition parse_config_file (fuel : nat) (file_name : list Z) : outcome config :=
  match files file_name with
  | None => Exits
  | Some text => ofold (process_input_line (get_include_conf fuel)) conf_start (fgets_all 1023 text)
  end.

(** ** Selecting modules *)

Definition set_special_field (s : list Z) (ms : list cfg_mod) : list cfg_mod := select_cols s <$> ms.
Definition set_special_item (s : list Z) (ms : list cfg_mod) : list cfg_mod :=
  (λ m, CfgMod (c_name m) (c_opt m) (c_parameter m) (take 256 s) (c_cols m) (c_enable m) (c_spec m)) <$> ms.

Definition with_enable (b : bool) (par : option (list Z)) (m : cfg_mod) : cfg_mod :=
  CfgMod (c_name m) (c_opt m) (default (c_parameter m) par) (c_print_item m) (c_cols m) b (c_spec m).

(** The words of a list separated by commas. *)
Fixpoint comma_words (s : list Z) : list (list Z) :=
  match s with
  | [] => []
  | x :: s' =>
      if x =? COMMA then comma_words s'
      else match s' with
           | [] => [[x]]
           | y :: _ => if y =? COMMA then [x] :: comma_words s'
                       else match comma_words s' with w :: ws => (x :: w) :: ws | [] => [[x]] end
           end
  end.

(** The first module with the name or the option is enabled. *)
Fixpoint enable_first (name : list Z) (par : option (list Z)) (ms : list cfg_mod) : bool * list cfg_mod :=
  match ms with
  | [] => (false, [])
  | m :: ms' =>
      if bool_decide (name = c_name m) || bool_decide (name = c_opt m) then (true, with_enable true par m :: ms')
      else let '(b, ms'') := enable_first name par ms' in (b, m :: ms'')
  end.
Definition reload_word (st : bool * list cfg_mod) (token : list Z) : outcome (bool * list cfg_mod) :=
  let '(reload, ms) := st in
  if (64 <=? length token)%nat then Crash
  else
    let '(name, p) := span_not COLON token in
    let par := match p with _ :: q => Some q | [] => None end in
    let '(b, ms') := enable_first name par ms in Done (reload || b, ms').
Definition reload_modules (s_mod : list Z) (ms : list cfg_mod) : outcome (bool * list cfg_mod) :=
  if (length s_mod =? 0)%nat then Done (false, ms)
  else if (512 <=? length s_mod)%nat then Crash
  else ofold reload_word (false, with_enable false None <$> ms) (comma_words s_mod).
End parser.
