(* ===== verification/TsarConfigFacts.v ===== *)
(** * TsarConfigFacts: what a configuration file says

    A file of statements, printed the way an administrator writes them, is read
    back as what the statements mean together: which modules are on and with
    which parameters, which numbers are set, which lists have been added up. *)

From S2P Require Import Prelude CString TsarRecord TsarModules TsarConfig.

(** ** Words of a line *)

Definition word_ok (w : list Z) : Prop := w ≠ [] ∧ Forall (λ x, is_blank x = false ∧ x ≠ 0) w.
Fixpoint words (ws : list (list Z)) : list Z :=
  match ws with [] => [] | [w] => w | w :: ws' => w ++ 32 :: words ws' end.

Lemma words_cons w ws : words (w :: ws) = w ++ match ws with [] => [] | _ => 32 :: words ws end.
Proof. destruct ws; [by rewrite app_nil_r|done]. Qed.

Lemma word_of_app w s : Forall (λ x, is_blank x = false ∧ x ≠ 0) w → word_of (w ++ 32 :: s) = (w, s).
Proof. induction 1 as [|x w [Hx _] _ IH]; [done|]. simpl. by rewrite Hx, IH. Qed.
Lemma word_of_all w : Forall (λ x, is_blank x = false ∧ x ≠ 0) w → word_of w = (w, []).
Proof. induction 1 as [|x w [Hx _] _ IH]; [done|]. simpl. by rewrite Hx, IH. Qed.

Lemma strtok_words_cons w ws : word_ok w → strtok_next (words (w :: ws)) = Some (w, words ws).
Proof.
  intros [Hne Hw]. rewrite words_cons. destruct w as [|x w]; [done|]. pose proof Hw as [[Hx _] _]%Forall_cons.
  rewrite <-app_comm_cons. cbn [strtok_next]. rewrite Hx, app_comm_cons. f_equal.
  destruct ws; [rewrite app_nil_r; by apply word_of_all|by apply word_of_app].
Qed.

Lemma words_length ws : Forall word_ok ws → (length ws ≤ length (words ws))%nat.
Proof.
  induction 1 as [|w ws [Hw _] _ IH]; [done|]. rewrite words_cons, length_app. destruct w; [done|].
  destruct ws; simpl in *; lia.
Qed.

Lemma words_plain c ws : is_blank c = true → c ≠ 32 → Forall word_ok ws → c ∉ words ws.
Proof.
  intros Hb Hc. induction 1 as [|w ws [_ Hw] _ IH]; [set_solver|]. rewrite words_cons. apply not_elem_of_app. split.
  - intros Hin. destruct (proj1 (Forall_forall _ _) Hw _ Hin) as [? _]. congruence.
  - destruct ws; [set_solver|]. set_solver.
Qed.
Lemma words_no_nul ws : Forall word_ok ws → 0 ∉ words ws.
Proof.
  induction 1 as [|w ws [_ Hw] _ IH]; [set_solver|]. rewrite words_cons. apply not_elem_of_app. split.
  - intros Hin. by destruct (proj1 (Forall_forall _ _) Hw _ Hin) as [_ ?].
  - destruct ws; [set_solver|]. set_solver.
Qed.

Lemma span_not_none c s : c ∉ s → span_not c s = (s, []).
Proof.
  induction s as [|x s IH]; intros Hc; [done|]. simpl. rewrite (proj2 (Z.eqb_neq x c)), IH by set_solver. done.
Qed.

Lemma cut_line_words s : 10 ∉ s → 13 ∉ s → cut_line (s ++ [10]) = s.
Proof. intros H10 H13. unfold cut_line. rewrite span_not_app by done. simpl. by rewrite span_not_none. Qed.

(** The parameters of a module. *)
Lemma more_parameters_words ws : Forall word_ok ws → ∀ fuel par, (length ws ≤ fuel)%nat →
  (length (par ++ concat ((λ w, 32%Z :: w) <$> ws)) < 256)%nat →
  more_parameters fuel (words ws) par = par ++ concat ((λ w, 32 :: w) <$> ws).
Proof.
  induction 1 as [|w ws Hw _ IH]; intros fuel par Hf Hl; [destruct fuel; by rewrite app_nil_r|].
  destruct fuel as [|fuel]; [simpl in Hf; lia|]. cbn [more_parameters]. rewrite strtok_words_cons by done.
  rewrite fmap_cons in *. cbn [concat] in *. rewrite !length_app in Hl. simpl in Hl.
  rewrite (proj2 (Nat.leb_gt _ _)) by lia. rewrite IH; [by rewrite <-app_assoc|simpl in Hf; lia|].
  rewrite !length_app. simpl. lia.
Qed.

(** ** Numbers *)

Lemma digits_in_dec s : ∀ acc, digits_in 10 acc s = (scan_digits acc s).1.
Proof.
  induction s as [|x s IH]; intros acc; [done|]. simpl. unfold digit_in.
  destruct (isdigit x) eqn:Hx.
  - unfold isdigit in Hx. rewrite (proj2 (Z.ltb_lt (x - 48) 10)) by lia. apply IH.
  - destruct ((97 <=? lower x) && (lower x <=? 102)) eqn:Hl; [|done].
    by rewrite (proj2 (Z.ltb_ge (lower x - 87) 10)) by lia.
Qed.

Lemma dec_digits_lead fuel : ∀ n, 0 < n < 10 ^ Z.of_nat fuel → ∃ c l, dec_digits fuel n = c :: l ∧ 49 ≤ c ≤ 57.
Proof.
  induction fuel as [|fuel IH]; intros n Hn; [simpl in Hn; lia|]. cbn [dec_digits].
  destruct (Z.ltb_spec n 10); [eexists _, _; split; [done|lia]|].
  destruct (IH (n / 10)) as (c & l & -> & Hc).
  { rewrite Nat2Z.inj_succ, Z.pow_succ_r in Hn by lia.
    split; [apply Z.div_str_pos; lia|apply Z.div_lt_upper_bound; lia]. }
  eexists _, _. split; [done|done].
Qed.

Lemma strtol0_fmt n : 0 ≤ n < 2 ^ 31 → strtol0 (fmt_ld n) = n.
Proof.
  intros Hn. destruct (decide (n = 0)) as [->|Hz]; [done|]. unfold fmt_ld. rewrite (proj2 (Z.ltb_ge n 0)) by lia.
  assert (digits_in 10 0 (dec_digits 20 n) = n) as Hd.
  { rewrite digits_in_dec. rewrite <-(app_nil_r (dec_digits 20 n)), scan_digits_dec by (done || lia). done. }
  destruct (dec_digits_lead 20 n) as (c & l & Hcl & Hc); [lia|]. rewrite Hcl in Hd |- *.
  unfold strtol0. cbn [skip_space]. rewrite digit_not_space by lia. cbn [scan_sign].
  rewrite (proj2 (Z.eqb_neq c 45)), (proj2 (Z.eqb_neq c 43)) by lia.
  cbv zeta. rewrite (proj2 (Z.eqb_neq c 48)) by lia. cbn [andb]. rewrite Hd. unfold LONG_MAX. lia.
Qed.

(** ** Statements *)

Inductive stmt :=
  | Comment (text : list Z)
  | Blank
  | ModOn (name : list Z) (parameters : list (list Z))
  | ModOff (name : list Z)
  | SetText (key : string) (f : text_field) (v : list Z)
  | AddText (key : string) (f : text_field) (v : list Z)
  | SetInt (key : string) (f : int_field) (n : Z).

Definition stmt_line (s : stmt) : list Z :=
  match s with
  | Comment text => lit "#" ++ text
  | Blank => []
  | ModOn name ps => words (name :: lit "on" :: ps)
  | ModOff name => words [name; lit "off"]
  | SetText key _ v | AddText key _ v => words [lit key; v]
  | SetInt key _ n => words [lit key; fmt_ld n]
  end.

(** What a statement means. *)
Definition module_on (name : list Z) (ps : list (list Z)) : cfg_mod := CfgMod name [] (words ps) [] None false false.
Definition meaning (c : config) (s : stmt) : config :=
  match s with
  | ModOn name ps =>
      if decide (name ∈ c_name <$> mods c) then c
      else if decide (32 ≤ length (mods c))%nat then c else set_mods (mods c ++ [module_on name ps]) c
  | SetText _ f v => set_text f (v ++ drop (length v) (texts c f)) c
  | AddText _ f v => set_text f (match texts c f with [] => v | old => old ++ COMMA :: v end) c
  | SetInt _ f n => set_int f n c
  | Comment _ | Blank | ModOff _ => c
  end.

Definition mod_name_ok (name : list Z) : Prop :=
  word_ok name ∧ (length name ≤ 32)%nat ∧ is_prefix (lit "#") name = false ∧ contains name (lit "mod_") = true.
Definition stmt_ok (c : config) (s : stmt) : Prop :=
  match s with
  | Comment text => (10 ∉ text) ∧ (13 ∉ text) ∧ (0 ∉ text)
  | Blank => True
  | ModOn name ps => mod_name_ok name ∧ Forall word_ok ps ∧ (length (words ps) < 256)%nat
  | ModOff name => mod_name_ok name
  | SetText key f v => (key, f) ∈ text_keys ∧ word_ok v ∧ (length v < field_size f)%nat
  | AddText key f v =>
      (key, f) ∈ add_keys ∧ word_ok v ∧
      (length (match texts c f with [] => v | old => old ++ COMMA :: v end) < field_size f)%nat
  | SetInt key f n => (key, f) ∈ int_keys ∧ 0 ≤ n < 2 ^ 31
  end.
Fixpoint stmts_ok (c : config) (l : list stmt) : Prop :=
  match l with [] => True | s :: l' => stmt_ok c s ∧ (length (stmt_line s) < 1023)%nat ∧ stmts_ok (meaning c s) l' end.
Definition config_text (l : list stmt) : list Z := concat ((λ s, s ++ [10]) <$> (stmt_line <$> l)).

Lemma words_concat w ws : words (w :: ws) = w ++ concat ((λ w, 32 :: w) <$> ws).
Proof. revert w. induction ws as [|w' ws IH]; intros w; [by rewrite words_cons|]. rewrite words_cons, IH. done. Qed.

Section statements.
Context (shared : list Z → option (list Z * list (list Z))) (junk : list (list Z))
        (include : list Z → config → outcome config).

Lemma switched_on ws : switched_off (strtok_next (words (lit "on" :: ws))) = false.
Proof. rewrite strtok_words_cons; [done|]. split; [done|by repeat constructor]. Qed.

Lemma parse_mod_on name ps c : mod_name_ok name → Forall word_ok ps → (length (words ps) < 256)%nat →
  parse_mod name (words (lit "on" :: ps)) c = meaning c (ModOn name ps).
Proof.
  intros (Hw & H32 & _) Hps Hlen. unfold parse_mod. rewrite switched_on. cbn [meaning].
  assert (existsb (λ m, bool_decide (c_name m = name)) (mods c) = bool_decide (name ∈ c_name <$> mods c)) as ->.
  { apply eq_true_iff_eq. rewrite existsb_exists, bool_decide_eq_true, list_elem_of_fmap. split.
    - intros (m & Hm%list_elem_of_In & <-%bool_decide_eq_true). by exists m.
    - intros (m & -> & Hm). exists m. split; [by apply list_elem_of_In|by apply bool_decide_eq_true]. }
  case_bool_decide as Hin; [by rewrite decide_True|]. rewrite decide_False by done.
  destruct (Nat.leb_spec MAX_MOD_NUM (length (mods c))) as [Hm|Hm]; unfold MAX_MOD_NUM in Hm;
    [by rewrite decide_True|rewrite decide_False by lia].
  rewrite strtok_words_cons by (split; [done|by repeat constructor]). cbv zeta. rewrite take_ge by done. unfold module_on.
  do 4 f_equal. destruct Hps as [|p ps Hp Hps]; [done|]. rewrite strtok_words_cons by done. rewrite words_concat in *.
  rewrite length_app in Hlen. rewrite (proj2 (Nat.ltb_lt _ _)) by lia. apply more_parameters_words; [done|by apply words_length|].
  rewrite length_app. lia.
Qed.

Lemma parse_line_mod name ps b c : mod_name_ok name →
  parse_line shared junk include b (words (name :: ps)) c = Done (parse_mod name (words ps) c).
Proof.
  intros (Hw & _ & Hh & Hm). unfold parse_line. rewrite strtok_words_cons by done. cbv zeta. by rewrite Hh, Hm.
Qed.
Lemma parse_mod_off name c : parse_mod name (words [lit "off"]) c = c.
Proof. unfold parse_mod. rewrite strtok_words_cons; [done|]. split; [done|by repeat constructor]. Qed.

Ltac each_key Hk := repeat (apply (proj1 (elem_of_cons _ _ _)) in Hk as [[= -> ->]|Hk]; [|]); [..|by apply not_elem_of_nil in Hk].
Ltac key_word := split; [done|by repeat constructor].

Lemma parse_line_text key f v b c : (key, f) ∈ text_keys → word_ok v → (length v < field_size f)%nat →
  parse_line shared junk include b (words [lit key; v]) c = Done (meaning c (SetText key f v)).
Proof.
  intros Hk Hv Hl.
  assert (∀ c, obind (parse_string f (words [v]) c) (λ '(c, _), Done c) = Done (meaning c (SetText key f v))) as Hp.
  { intros c'. unfold parse_string. rewrite strtok_words_cons by done. by rewrite (proj2 (Nat.leb_gt _ _)) by lia. }
  rewrite <-Hp. clear Hp Hl. each_key Hk; unfold parse_line; (rewrite strtok_words_cons by key_word); done.
Qed.

Lemma parse_line_add key f v b c : stmt_ok c (AddText key f v) →
  parse_line shared junk include b (words [lit key; v]) c = Done (meaning c (AddText key f v)).
Proof.
  intros (Hk & Hv & Hl).
  assert (parse_add_string f (words [v]) c = Done (meaning c (AddText key f v))) as <-.
  { unfold parse_add_string. rewrite strtok_words_cons by done. by rewrite (proj2 (Nat.leb_gt _ _)) by lia. }
  clear Hl. each_key Hk; unfold parse_line; (rewrite strtok_words_cons by key_word); done.
Qed.

Lemma fmt_ld_word n : 0 ≤ n → word_ok (fmt_ld n).
Proof.
  intros Hn. unfold fmt_ld. rewrite (proj2 (Z.ltb_ge n 0)) by lia. split.
  - destruct (dec_digits_head 19 n [] Hn) as (c & l & H & _). rewrite app_nil_r in H. by rewrite H.
  - eapply Forall_impl; [by apply dec_digits_digits|]. intros x Hx. simpl in Hx. unfold is_blank. lia.
Qed.

Lemma parse_line_int key f n b c : (key, f) ∈ int_keys → 0 ≤ n < 2 ^ 31 →
  parse_line shared junk include b (words [lit key; fmt_ld n]) c = Done (meaning c (SetInt key f n)).
Proof.
  intros Hk Hn. pose proof (fmt_ld_word n ltac:(lia)) as Hw.
  assert (parse_int f (words [fmt_ld n]) c = Done (meaning c (SetInt key f n))) as <-.
  { unfold parse_int. rewrite strtok_words_cons by done. rewrite strtol0_fmt by done. by rewrite swrap_small by lia. }
  each_key Hk; unfold parse_line; (rewrite strtok_words_cons by key_word); done.
Qed.

(** A line means its statement. *)
Lemma process_stmt c s : stmt_ok c s →
  process_input_line shared junk include c (stmt_line s ++ [10]) = Done (meaning c s) ∧
  (10 ∉ stmt_line s) ∧ (0 ∉ stmt_line s).
Proof.
  assert (∀ ws, Forall word_ok ws → (10 ∉ words ws) ∧ (0 ∉ words ws) ∧ cut_line (words ws ++ [10]) = words ws) as Hws.
  { intros ws Hw. pose proof (words_plain 10 ws eq_refl ltac:(done) Hw). pose proof (words_plain 13 ws eq_refl ltac:(done) Hw).
    split; [done|]. split; [by apply words_no_nul|by apply cut_line_words]. }
  assert (∀ w ws, Forall word_ok (w :: ws) → is_prefix (lit "#") w = false → ∀ c',
    (∀ b, parse_line shared junk include b (words (w :: ws)) c = Done c') →
    process_input_line shared junk include c (words (w :: ws) ++ [10]) = Done c' ∧
    (10 ∉ words (w :: ws)) ∧ (0 ∉ words (w :: ws))) as Hline.
  { intros w ws Hw Hh c' Hc'. destruct (Hws _ Hw) as (H10 & H0 & Hcut). split; [|done].
    unfold process_input_line. rewrite Hcut. cbv zeta. rewrite words_cons in *. apply Forall_cons in Hw as [[Hne _] _].
    destruct w as [|x w]; [done|]. simpl in Hh |- *. rewrite andb_true_r in *. rewrite Hh. apply Hc'. }
  destruct s as [text| |name ps|name|key f v|key f v|key f n]; intros Hok.
  - destruct Hok as (H10 & H13 & H0). unfold process_input_line.
    rewrite cut_line_words by (simpl; set_solver). split; [done|]. simpl. set_solver.
  - split; [done|]. simpl. set_solver.
  - destruct Hok as (Hn & Hps & Hl). apply Hline.
    + constructor; [apply Hn|]. constructor; [split; [done|by repeat constructor]|done].
    + apply Hn.
    + intros b. by rewrite parse_line_mod, parse_mod_on by done.
  - apply Hline.
    + constructor; [apply Hok|]. constructor; [split; [done|by repeat constructor]|done].
    + apply Hok.
    + intros b. by rewrite parse_line_mod, parse_mod_off by done.
  - destruct Hok as (Hk & Hv & Hl). apply Hline; [| |intros b; by apply parse_line_text].
    + constructor; [|by constructor]. clear Hl. each_key Hk; key_word.
    + clear Hl. by each_key Hk.
  - pose proof Hok as (Hk & Hv & _). apply Hline; [| |intros b; by apply parse_line_add]; clear Hok.
    + constructor; [|by constructor]. each_key Hk; key_word.
    + by each_key Hk.
  - destruct Hok as (Hk & Hn). apply Hline; [| |intros b; by apply parse_line_int].
    + constructor; [|constructor; [apply fmt_ld_word; lia|constructor]]. each_key Hk; key_word.
    + by each_key Hk.
Qed.
End statements.

Lemma ofold_stmts shared junk include l : ∀ c, stmts_ok c l →
  ofold (process_input_line shared junk include) c ((λ s, s ++ [10]) <$> (stmt_line <$> l)) = Done (foldl meaning c l) ∧
  Forall (λ s, (10 ∉ s) ∧ (0 ∉ s) ∧ (length s < 1023)%nat) (stmt_line <$> l).
Proof.
  induction l as [|s l IH]; intros c Hok; [by split; [|constructor]|]. destruct Hok as (Hs & Hlen & Hl).
  destruct (process_stmt shared junk include c s Hs) as (Hp & H10 & H0). destruct (IH _ Hl) as [Ho Hf].
  rewrite !fmap_cons. cbn [ofold]. rewrite Hp. split; [exact Ho|]. by constructor.
Qed.

(** ** What a file means *)

(** The modules switched on, each with its parameters; the first statement of a
    module counts. *)
Definition on_modules (l : list stmt) : list (list Z * list Z) :=
  omap (λ s, match s with ModOn name ps => Some (name, words ps) | _ => None end) l.
Definition add_first (acc : list (list Z * list Z)) (x : list Z * list Z) : list (list Z * list Z) :=
  if decide (x.1 ∈ acc.*1) then acc else acc ++ [x].
Definition firsts (l : list (list Z * list Z)) : list (list Z * list Z) := foldl add_first [] l.
(** The values given to a number and to a string, and the words added to one. *)
Definition int_values (f : int_field) (l : list stmt) : list Z :=
  omap (λ s, match s with SetInt _ g n => if decide (g = f) then Some n else None | _ => None end) l.
Definition text_values (f : text_field) (l : list stmt) : list (list Z) :=
  omap (λ s, match s with SetText _ g v => if decide (g = f) then Some v else None | _ => None end) l.
Definition added_words (f : text_field) (l : list stmt) : list (list Z) :=
  omap (λ s, match s with AddText _ g v => if decide (g = f) then Some v else None | _ => None end) l.
(** A string written over another one. *)
Definition overwrite (old v : list Z) : list Z := v ++ drop (length v) old.

Definition mod_entry (m : cfg_mod) : list Z * list Z := (c_name m, c_parameter m).

(** Stopping at 32 modules is taking the first 32. *)
Lemma meaning_mods l : ∀ c acc, mod_entry <$> mods c = take 32 acc →
  mod_entry <$> mods (foldl meaning c l) = take 32 (foldl add_first acc (on_modules l)).
Proof.
  induction l as [|s l IH]; intros c acc Hc; [done|]. cbn [foldl].
  destruct s as [text| |name ps|name|key f v|key f v|key f n]; try (apply IH; exact Hc).
  change (on_modules (ModOn name ps :: l)) with ((name, words ps) :: on_modules l). cbn [foldl]. apply IH.
  assert (c_name <$> mods c = take 32 acc.*1) as Hn.
  { rewrite <-fmap_take, <-Hc, <-list_fmap_compose. done. }
  assert (length (mods c) = 32 `min` length acc)%nat as Hlen.
  { rewrite <-(length_fmap mod_entry), Hc, length_take. done. }
  unfold add_first. cbn [meaning fst]. rewrite Hn. destruct (decide (name ∈ acc.*1)) as [Hin|Hin].
  - destruct (decide (name ∈ take 32 acc.*1)) as [Hin'|Hin']; [done|].
    rewrite decide_True; [done|]. rewrite Hlen. destruct (decide (length acc ≤ 32)%nat); [|lia].
    exfalso. apply Hin'. by rewrite take_ge by (rewrite length_fmap; lia).
  - rewrite decide_False by (intros H; apply Hin; by eapply subseteq_take, H). case_decide as Hm.
    + by rewrite Hc, take_app_le by lia.
    + cbn [set_mods mods]. rewrite fmap_app, Hc. rewrite !take_ge by (rewrite ?length_app; simpl; lia). done.
Qed.

Lemma meaning_ints f l : ∀ c, ints (foldl meaning c l) f = default (ints c f) (last (int_values f l)).
Proof.
  induction l as [|s l IH]; intros c; [done|]. cbn [foldl]. rewrite IH.
  destruct s as [text| |name ps|name|key g v|key g v|key g n]; cbn [meaning]; try done.
  - repeat case_decide; done.
  - unfold int_values. cbn [omap list_omap set_int ints]. fold (int_values f l).
    destruct (decide (f = g)) as [->|Hne].
    + rewrite decide_True by done. fold (int_values g l). rewrite last_cons. by destruct (last (int_values g l)).
    + by rewrite decide_False by congruence.
Qed.

(** The statements for one string; the tables have no field in common. *)
Lemma meaning_text f l : ∀ c, stmts_ok c l → f ∉ add_keys.*2 →
  texts (foldl meaning c l) f = foldl overwrite (texts c f) (text_values f l).
Proof.
  induction l as [|s l IH]; intros c Hok Hf; [done|]. destruct Hok as (Hs & _ & Hl). cbn [foldl]. rewrite IH by done.
  destruct s as [text| |name ps|name|key g v|key g v|key g n]; cbn [meaning]; try done.
  - repeat case_decide; done.
  - unfold text_values. cbn [omap list_omap set_text texts]. fold (text_values f l).
    destruct (decide (f = g)) as [->|Hne]; [by rewrite decide_True|by rewrite decide_False by congruence].
  - cbn [set_text texts]. rewrite decide_False; [done|]. intros ->. apply Hf. destruct Hs as (Hk & _).
    by apply (list_elem_of_fmap_2 snd) in Hk.
Qed.

Lemma commas_snoc ws v : ws ≠ [] → commas (ws ++ [v]) = commas ws ++ COMMA :: v.
Proof.
  induction ws as [|w ws IH]; [done|]. intros _. destruct ws as [|w' ws]; [done|].
  change (commas ((w :: w' :: ws) ++ [v])) with (w ++ COMMA :: commas ((w' :: ws) ++ [v])). rewrite IH by done.
  change (commas (w :: w' :: ws)) with (w ++ COMMA :: commas (w' :: ws)). by rewrite <-app_assoc.
Qed.
Lemma commas_nonempty ws : Forall (λ w : list Z, w ≠ []) ws → commas ws = [] → ws = [].
Proof.
  intros Hws. destruct Hws as [|w ws Hw _]; [done|]. destruct w as [|x w]; [done|]. by destruct ws.
Qed.

Lemma meaning_added f l : ∀ c ws, stmts_ok c l → f ∉ text_keys.*2 → Forall (λ w : list Z, w ≠ []) ws → texts c f = commas ws →
  texts (foldl meaning c l) f = commas (ws ++ added_words f l).
Proof.
  induction l as [|s l IH]; intros c ws Hok Hf Hws Hc; [by rewrite app_nil_r|]. destruct Hok as (Hs & _ & Hl). cbn [foldl].
  destruct s as [text| |name ps|name|key g v|key g v|key g n]; try (by apply IH).
  - apply IH; [done..|]. cbn [meaning]. by repeat case_decide.
  - apply IH; [done..|]. cbn [meaning set_text texts]. rewrite decide_False; [done|]. intros ->. apply Hf. destruct Hs as (Hk & _).
    by apply (list_elem_of_fmap_2 snd) in Hk.
  - unfold added_words. cbn [omap list_omap]. fold (added_words f l). destruct (decide (g = f)) as [->|Hne].
    + destruct Hs as (_ & [Hv _] & _). rewrite (cons_middle v ws (added_words f l)), app_assoc. apply IH; [done|done|by apply Forall_app_2; [|constructor]|].
      cbn [meaning set_text texts]. rewrite decide_True by done. rewrite Hc.
      destruct (decide (ws = [])) as [->|Hne]; [done|]. rewrite commas_snoc by done.
      destruct (commas ws) eqn:Hcw; [|done]. by apply commas_nonempty in Hcw.
    + apply IH; [done..|]. cbn [meaning set_text texts]. by rewrite decide_False by congruence.
Qed.

(** C32: reading a configuration. A file of comments, empty lines, modules
    switched on (with parameters) or off, strings, lists and numbers is read
    without an error as what its statements say: the modules are those switched
    on, in order, the first statement of each with its parameters, at most 32;
    a number has the last value given, or its default; a list has all the words
    added, separated by commas; and a string has been written over, value after
    value, starting from its default. *)
Theorem tsar_config_meaning shared ls files junk fuel file_name l :
  files file_name = Some (config_text l) → stmts_ok conf_start l →
  ∃ c, parse_config_file shared ls files junk fuel file_name = Done c ∧
    mod_entry <$> mods c = take 32 (firsts (on_modules l)) ∧
    (∀ f, ints c f = default (ints conf_start f) (last (int_values f l))) ∧
    (∀ key f, (key, f) ∈ add_keys → texts c f = commas (added_words f l)) ∧
    (∀ key f, (key, f) ∈ text_keys → texts c f = foldl overwrite (texts conf_start f) (text_values f l)).
Proof.
  intros Hf Hok. unfold parse_config_file, config_text in *. rewrite Hf.
  destruct (ofold_stmts shared junk (get_include_conf shared ls files junk fuel) l conf_start Hok) as [Ho Hlines].
  rewrite fgets_all_lines by done. rewrite Ho. eexists. split; [done|]. split; [by apply meaning_mods|].
  split; [intros f; apply meaning_ints|]. split; intros key f Hk.
  - apply (meaning_added f l conf_start []); [done| |constructor|].
    + repeat (apply (proj1 (elem_of_cons _ _ _)) in Hk as [[= -> ->]|Hk]; [by_compute|]). by apply not_elem_of_nil in Hk.
    + repeat (apply (proj1 (elem_of_cons _ _ _)) in Hk as [[= -> ->]|Hk]; [done|]). by apply not_elem_of_nil in Hk.
  - apply meaning_text; [done|].
    repeat (apply (proj1 (elem_of_cons _ _ _)) in Hk as [[= -> ->]|Hk]; [by_compute|]). by apply not_elem_of_nil in Hk.
Qed.

(** A string is longer than the value given when its default is: asking for the
    interface [db] gives [dble], since the default is [file]. *)
Lemma tsar_config_overwritten :
  foldl overwrite (texts conf_start output_interface) (text_values output_interface [SetText "output_interface" output_interface (lit "db")])
  = lit "dble".
Proof. by vm_compute. Qed.

(** ** Selecting modules *)

(** A word selects a module by its name or its option. *)
Definition selects (w : list Z) (m : cfg_mod) : Prop := (span_not COLON w).1 = c_name m ∨ (span_not COLON w).1 = c_opt m.

Lemma enable_first_spec name par ms : ∀ b ms', enable_first name par ms = (b, ms') →
  (∀ m, m ∈ ms' → c_enable m = true → (∃ m0, m0 ∈ ms ∧ c_enable m0 = true ∧ c_name m0 = c_name m ∧ c_opt m0 = c_opt m) ∨
     name = c_name m ∨ name = c_opt m) ∧
  (b = true → ∃ m, m ∈ ms' ∧ c_enable m = true) ∧
  (∀ m, m ∈ ms → c_enable m = true → ∃ m', m' ∈ ms' ∧ c_enable m' = true).
Proof.
  induction ms as [|m ms IH]; intros b ms'; cbn [enable_first]; [intros [= <- <-]; set_solver|].
  destruct (bool_decide (name = c_name m) || bool_decide (name = c_opt m)) eqn:Hb.
  - intros [= <- <-]. apply orb_true_iff in Hb. rewrite !bool_decide_eq_true in Hb. split_and!.
    + intros m1 [->|Hin]%elem_of_cons He; [by right|]. left. exists m1. set_solver.
    + intros _. exists (with_enable true par m). set_solver.
    + intros _ _ _. exists (with_enable true par m). set_solver.
  - destruct (enable_first name par ms) as [b1 ms1] eqn:H1. intros [= <- <-].
    destruct (IH _ _ eq_refl) as (Ha & Hb1 & Hc). split_and!.
    + intros m1 [->|Hin]%elem_of_cons He; [left; exists m; set_solver|].
      destruct (Ha m1 Hin He) as [(m0 & ? & ?)|?]; [left; exists m0; set_solver|by right].
    + intros (m1 & Hin & He)%Hb1. exists m1. set_solver.
    + intros m1 [->|Hin]%elem_of_cons He; [exists m; set_solver|]. destruct (Hc m1 Hin He) as (m' & ? & ?). exists m'. set_solver.
Qed.

(** After [reload_modules] only modules named in the list are enabled, and the
    result is true only if there is one. *)
Lemma tsar_reload_named s ms b ms' : s ≠ [] → reload_modules s ms = Done (b, ms') →
  (∀ m, m ∈ ms' → c_enable m = true → ∃ w, w ∈ comma_words s ∧ selects w m) ∧
  (b = true → ∃ m, m ∈ ms' ∧ c_enable m = true).
Proof.
  intros Hs. unfold reload_modules. destruct s as [|x s]; [done|]. cbn [length Nat.eqb]. case_match; [done|]. clear H.
  set (all := comma_words (x :: s)).
  assert (∀ (todo : list (list Z)) st, todo ⊆ all →
    (∀ m, m ∈ st.2 → c_enable m = true → ∃ w, w ∈ all ∧ selects w m) → (st.1 = true → ∃ m, m ∈ st.2 ∧ c_enable m = true) →
    ofold reload_word st todo = Done (b, ms') →
    (∀ m, m ∈ ms' → c_enable m = true → ∃ w, w ∈ all ∧ selects w m) ∧ (b = true → ∃ m, m ∈ ms' ∧ c_enable m = true)) as Hgen.
  { induction todo as [|w todo IH]; intros [r cur] Hsub Hn Hr; cbn [ofold]; [intros [= -> ->]; done|].
    unfold reload_word at 1. case_match; [done|]. destruct (span_not COLON w) as [name p] eqn:Hw.
    destruct (enable_first name _ cur) as [b1 ms1] eqn:H1. cbn [obind]. intros Ho.
    apply enable_first_spec in H1 as (Ha & Hb & Hc). apply IH in Ho; [done|set_solver| |].
    - intros m Hm He. destruct (Ha m Hm He) as [(m0 & Hm0 & He0 & Hna & Hop)|Hsel].
      + destruct (Hn m0 Hm0 He0) as (w0 & Hw0 & Hs0). exists w0. unfold selects in *. rewrite <-Hna, <-Hop. done.
      + exists w. split; [set_solver|]. unfold selects. rewrite Hw. done.
    - simpl. intros [Hr1|Hb1]%orb_true_iff; [|by apply Hb]. destruct (Hr Hr1) as (m & Hm & He). by eapply Hc. }
  intros Ho. apply (Hgen all (false, with_enable false None <$> ms)); [done| |done|done].
  simpl. intros m (m0 & -> & _)%list_elem_of_fmap He. done.
Qed.

(** ** A run *)

Definition s_stmts : list stmt :=
  [Comment (lit " modules"); ModOn (lit "mod_cpu") []; ModOff (lit "mod_mem"); ModOn (lit "mod_io") [lit "8"; lit "x"]; Blank;
   ModOn (lit "mod_cpu") [lit "twice"]; SetInt "max_day" print_max_day 30; SetText "output_interface" output_interface (lit "db");
   AddText "output_db_mod" output_db_mod (lit "mod_cpu"); AddText "output_db_mod" output_db_mod (lit "mod_io");
   SetInt "max_day" print_max_day 90].

Lemma tsar_config_meaning_witness :
  ∃ c, parse_config_file (λ _, None) (λ _, None) (λ _, Some (config_text s_stmts)) [] 1 (lit "tsar.conf") = Done c ∧
    mod_entry <$> mods c = [(lit "mod_cpu", []); (lit "mod_io", lit "8 x")] ∧ ints c print_max_day = 90 ∧
    ints c cron_period = 60 ∧ texts c output_db_mod = lit "mod_cpu,mod_io" ∧ texts c output_interface = lit "dble".
Proof.
  destruct (tsar_config_meaning (λ _, None) (λ _, None) (λ _, Some (config_text s_stmts)) [] 1 (lit "tsar.conf") s_stmts)
    as (c & Hc & Hm & Hi & Ha & Ht); [reflexivity| |].
  - unfold s_stmts, stmts_ok, stmt_ok, mod_name_ok, word_ok. split_and!; by_compute.
  - exists c. split; [exact Hc|]. split; [rewrite Hm; by vm_compute|]. split; [rewrite Hi; by vm_compute|].
    split; [rewrite Hi; by vm_compute|]. split.
    + rewrite (Ha "output_db_mod"%string) by (by_compute). by vm_compute.
    + rewrite (Ht "output_interface"%string) by (by_compute). by vm_compute.
Defined.
