(* ===== verification/TsarSafe.v ===== *)
(** * TsarSafe: the statistics engine stays inside its arrays

    The arrays of a module are allocated by the number of items of its first
    record and grown by [realloc] when a record has more; what is stored in them
    is found by another function ([strtok_next_item]) than the one that counted
    ([get_strtok_num]), and the modules' own functions read and write slices of
    them. Every access is checked in the definitions: the loops of the engine
    over the arrays and over [info], each cell the modules' functions read or
    write (which must lie in the slice of its item), the [memset] of the merge
    mode and its local [array_2]. This file shows that none of them fails, for
    every sequence of records of any bytes. The buffers the records themselves
    are copied to are not part of it. *)

From Stdlib Require Import SpecFloat.
From S2P Require Import Prelude CString CFloat TsarRecord TsarStat TsarModules TsarCollect TsarCpu TsarItems TsarIo.

(** ** Counting and finding items *)

Lemma strtok_count_nonneg c s : ∀ b, 0 ≤ strtok_count c b s.
Proof. induction s as [|x s IH]; intros b; simpl; [lia|]. pose proof (IH true). pose proof (IH false). repeat case_match; lia. Qed.

Lemma strtok_count_inside c s : strtok_count c true s ≤ strtok_count c false s ≤ 1 + strtok_count c true s.
Proof. destruct s as [|x s]; simpl; [lia|]. pose proof (strtok_count_nonneg c s true). destruct (x =? c); lia. Qed.

Lemma strtok_count_drop c s : ∀ n, strtok_count c false (drop n s) ≤ strtok_count c false s.
Proof.
  induction s as [|x s IH]; intros [|n]; simpl; [lia..|]. pose proof (IH n). pose proof (strtok_count_inside c s).
  destruct (x =? c); lia.
Qed.

Lemma strtok_count_token c a s : a ≠ [] → c ∉ a → strtok_count c false (a ++ c :: s) = 1 + strtok_count c false s.
Proof.
  assert (∀ a, c ∉ a → strtok_count c true (a ++ c :: s) = strtok_count c false s) as Hin.
  { clear a. induction a as [|x a IH]; intros Hc; simpl; [by rewrite Z.eqb_refl|].
    rewrite (proj2 (Z.eqb_neq x c)), IH by set_solver. done. }
  destruct a as [|x a]; [done|]. intros _ Hc. simpl. rewrite (proj2 (Z.eqb_neq x c)) by set_solver.
  rewrite Hin by set_solver. done.
Qed.

Lemma strpbrk_split c s t : strpbrk c s = Some t → ∃ a b, s = a ++ c :: b ∧ t = c :: b ∧ c ∉ a.
Proof.
  induction s as [|x s IH]; simpl; [done|]. destruct (Z.eqb_spec x c) as [->|Hne].
  - intros [= <-]. exists [], s. repeat split. set_solver.
  - intros (a & b & -> & -> & Ha)%IH. exists (x :: a), b. repeat split. set_solver.
Qed.

(** An item found leaves at least one counted token behind. *)
Lemma next_item_counted record pos item pos' :
  0 ≤ pos → strtok_next_item record pos = Some (item, pos') →
  pos < zlen record ∧ pos < pos' ∧
  1 + strtok_count SEMICOLON false (drop (Z.to_nat pos') record) ≤ strtok_count SEMICOLON false (drop (Z.to_nat pos) record).
Proof.
  intros Hpos. unfold strtok_next_item. set (r := drop (Z.to_nat pos) record).
  destruct ((zlen record =? 0) || (zlen record <=? pos)) eqn:Hlen; [done|].
  apply orb_false_iff in Hlen as [_ Hlt%Z.leb_gt].
  destruct (strpbrk SEMICOLON r) as [e|] eqn:He; [|done]. destruct (strpbrk EQUALS r) as [s|] eqn:Hs; [|done].
  apply strpbrk_split in He as (a & b & Hr & -> & Ha). apply strpbrk_split in Hs as (a' & b' & Hr' & -> & Ha').
  destruct (Z.ltb_spec (zlen (EQUALS :: b')) (zlen (SEMICOLON :: b))) as [|Hle]; [done|]. intros [= <- <-].
  assert (length record = (Z.to_nat pos + length r)%nat) as Hrec.
  { unfold r. rewrite length_drop. unfold zlen in Hlt. lia. }
  assert (length r = (length a + S (length b))%nat) as Hra by (rewrite Hr, length_app; done).
  assert (a ≠ []) as Hne.
  { intros ->. simpl in Hr. rewrite Hr in Hr'. destruct a' as [|x a']; [discriminate|].
    injection Hr' as _ Hb. unfold zlen in Hle. rewrite Hb in Hle. rewrite !length_cons, length_app, length_cons in Hle. lia. }
  assert (Z.to_nat (zlen record - zlen (SEMICOLON :: b) + 2) = (Z.to_nat pos + (length a + 2))%nat) as Hp.
  { unfold zlen. rewrite length_cons. lia. }
  split; [done|]. split; [unfold zlen in *; rewrite length_cons; lia|].
  rewrite Hp, <-drop_drop. fold r. rewrite Hr, (drop_app_ge a) by lia.
  replace (length a + 2 - length a)%nat with 2%nat by lia. rewrite strtok_count_token by done. cbn [drop].
  pose proof (strtok_count_drop SEMICOLON b 1) as Hd. lia.
Qed.

Lemma convert_loop_ok n : ∀ r, (length (convert_loop n r) ≤ n)%nat ∧ Forall is_u64 (convert_loop n r).
Proof.
  induction n as [|n IH]; intros r; simpl; [by split|]. pose proof (strtoull_u64 r) as Hu.
  destruct (strtoull r) as [num ptr]. destruct (strpbrk COMMA ptr); simpl; [|split; [lia|constructor; [done|constructor]]].
  destruct (IH (List.tl ptr)) as [Hl Hf]. split; [lia|by constructor].
Qed.

Lemma convert_ok n r :
  (length (convert_record_to_array n r) ≤ Z.to_nat n)%nat ∧ Forall is_u64 (convert_record_to_array n r).
Proof.
  unfold convert_record_to_array. destruct (_ || _); [split; [simpl; lia|constructor]|]. apply convert_loop_ok.
Qed.

Lemma store_vals_ok off vals arr :
  (off + length vals ≤ length arr)%nat → Forall is_u64 vals → Forall is_u64 arr →
  ∃ arr', store_vals off vals arr = Some arr' ∧ length arr' = length arr ∧ Forall is_u64 arr'.
Proof.
  intros Hl Hv Ha. unfold store_vals. rewrite (proj2 (Nat.leb_le _ _)) by done. eexists. split; [done|]. split.
  - rewrite !length_app, length_take, length_drop. lia.
  - repeat apply Forall_app_2; [by apply Forall_take|done|by apply Forall_drop].
Qed.

(** The items fit into as many slices as tokens were counted. *)
Lemma store_items_ok m : ∀ fuel arr num pos ret,
  0 ≤ pos → 0 ≤ num → 0 ≤ m_n_col m → Z.max 0 (zlen (m_record m) - pos) < Z.of_nat fuel → Forall is_u64 arr →
  (num + strtok_count SEMICOLON false (drop (Z.to_nat pos) (m_record m))) * m_n_col m ≤ zlen arr →
  ∃ arr' ret', store_items fuel m arr num pos ret = Some (arr', ret') ∧ length arr' = length arr ∧ Forall is_u64 arr'.
Proof.
  induction fuel as [|f IH]; intros arr num pos ret Hpos Hnum Hcol Hfuel Hu Hfit; [lia|]. cbn [store_items].
  destruct (strtok_next_item (m_record m) pos) as [[item pos']|] eqn:Hnext; [|by eexists _, _].
  apply next_item_counted in Hnext as (Hlt & Hpos' & Hcount); [|done]. cbv zeta.
  destruct (zlen (convert_record_to_array (m_n_col m) item) <=? 0); [by eexists _, _|].
  destruct (convert_ok (m_n_col m) item) as [Hlen Hvals].
  pose proof (strtok_count_nonneg SEMICOLON (drop (Z.to_nat pos') (m_record m)) false) as Hnn.
  assert ((num + 1) * m_n_col m ≤ zlen arr) as Hslot by nia.
  destruct (store_vals_ok (Z.to_nat (num * m_n_col m)) (convert_record_to_array (m_n_col m) item) arr)
    as (arr1 & -> & Hl1 & Hu1); [unfold zlen in Hslot; nia|done..|]. cbn [mbind option_bind].
  destruct (IH arr1 (num + 1) pos' (zlen (convert_record_to_array (m_n_col m) item)))
    as (arr2 & ret2 & -> & Hl2 & Hu2); [lia..|done| |].
  - unfold zlen in *. rewrite Hl1. nia.
  - eexists _, _. split; [done|]. split; [lia|done].
Qed.

(** Merging terminates and keeps the size. *)
Lemma merge_cols_ok n infos : ∀ arr vals, (length vals ≤ length infos)%nat → (length vals ≤ length arr)%nat →
  Forall is_u64 arr → Forall is_u64 vals →
  ∃ arr', merge_cols n infos arr vals = Some arr' ∧ length arr' = length arr ∧ Forall is_u64 arr'.
Proof.
  induction infos as [|i infos IH]; intros [|a arr] [|b vals] H1 H2 Ha Hb; simpl in *; try lia; try by eexists.
  apply Forall_cons in Ha as [Ha0 Ha], Hb as [Hb0 Hb]. destruct (IH arr vals) as (arr' & -> & Hl & Hu); [lia..|done|done|].
  eexists. split; [done|]. split; [simpl; lia|]. constructor; [|done]. unfold merge_col, is_u64 in *. destruct (i_merge i); [done| |].
  - apply wrap_range. lia.
  - set (x := u64 (a * u64 (n - 1)) + b). assert (0 ≤ u64 x < 2 ^ 64) by (apply wrap_range; lia).
    assert (0 ≤ u64 n < 2 ^ 64) by (apply wrap_range; lia).
    destruct (decide (u64 n = 0)) as [->|]; [rewrite Z.div_0_r; lia|]. split; [apply Z.div_pos; lia|].
    apply Z.div_lt_upper_bound; nia.
Qed.

Lemma merge_items_ok m : ∀ fuel arr pos n,
  0 ≤ pos → Z.max 0 (zlen (m_record m) - pos) < Z.of_nat fuel → Forall is_u64 arr →
  m_n_col m ≤ MAX_COL_NUM → zlen (m_info m) = m_n_col m → m_n_col m ≤ zlen arr →
  ∃ ret arr', merge_items fuel m arr pos n = Some (ret, arr') ∧ length arr' = length arr ∧ Forall is_u64 arr'.
Proof.
  induction fuel as [|f IH]; intros arr pos n Hpos Hfuel Hu Hmax Hinfo Harr; [lia|]. cbn [merge_items].
  destruct (strtok_next_item (m_record m) pos) as [[item pos']|] eqn:Hnext; [|by eexists _, _].
  apply next_item_counted in Hnext as (Hlt & Hpos' & _); [|done]. unfold merge_one_string.
  destruct (convert_ok (m_n_col m) item) as [Hlen Hvals]. set (vals := convert_record_to_array _ _) in *.
  pose proof (zlen_nonneg (m_info m)). unfold zlen in *.
  rewrite (proj2 (Z.ltb_ge MAX_COL_NUM _)) by lia. destruct (_ <=? 0); [by eexists _, _|].
  destruct (merge_cols_ok n (m_info m) arr vals) as (arr1 & -> & Hl & Hm); [lia|lia|done..|]. cbn [mbind option_bind].
  destruct (IH arr1 pos' (n + 1) ltac:(lia) ltac:(lia) Hm Hmax Hinfo ltac:(lia)) as (ret & arr' & -> & Hl' & Hu').
  eexists _, _. split; [done|]. split; [lia|done].
Qed.

(** ** The engine *)

Section engine.
Context (conf : configure) (callback : list Z → option st_callback).

(** The modules' own functions, by the option of the module. *)
Definition callback_of (m : module) : option st_callback := callback (m_opt_line m).

(** A function that stays inside slices of [n] columns, and keeps their size. *)
Definition keeps (n : Z) (f : st_callback) : Prop :=
  ∀ st pre cur inter, zlen st = n → zlen pre = n → zlen cur = n →
    ∃ st', f st pre cur inter = Some st' ∧ zlen st' = n.

(** The arrays are there, hold 64-bit numbers and have at least [n] cells. *)
Record slots (n : nat) (m : module) : Prop := {
  sl_pre : ∃ pre, m_pre_array m = Some pre ∧ (n ≤ length pre)%nat ∧ Forall is_u64 pre;
  sl_cur : ∃ cur, m_cur_array m = Some cur ∧ (n ≤ length cur)%nat ∧ Forall is_u64 cur;
  sl_st : (n ≤ length (m_st_array m))%nat;
  sl_tail : print_tail conf = true →
    (n ≤ length (m_max_array m))%nat ∧ (n ≤ length (m_mean_array m))%nat ∧ (n ≤ length (m_min_array m))%nat;
}.

(** The type of a module between two samples. *)
Record module_wf (m : module) : Prop := {
  wf_info : zlen (m_info m) = m_n_col m;
  wf_max : m_n_col m ≤ MAX_COL_NUM;
  wf_fits : ∀ f, callback_of m = Some f → keeps (m_n_col m) f;
  wf_item : 0 ≤ m_n_item m;
  wf_merge : print_merge conf = true → m_n_item m = 1;
  wf_arrays : slots (cells (m_n_item m) m) m ∨
    m_n_item m = 0 ∧ m_pre_array m = None ∧ m_cur_array m = None;
}.

(** What the engine never changes. *)
Definition same_module (m m' : module) : Prop :=
  m_opt_line m' = m_opt_line m ∧ m_info m' = m_info m ∧ m_n_col m' = m_n_col m ∧ m_record m' = m_record m.

Lemma st_cols_ok custom infos : ∀ pre cur st, length pre = length infos → length cur = length infos →
  length st = length infos → Forall is_u64 pre → Forall is_u64 cur →
  ∃ ps ss ok, st_cols conf custom infos pre cur st = Some (ps, ss, ok) ∧ length ps = length infos ∧
    length ss = length infos ∧ Forall is_u64 ps.
Proof.
  induction infos as [|i infos IH]; intros [|p pre] [|c cur] [|s st] Hp Hc Hs Hup Huc; simpl in *; try lia.
  { exists [], [], true. done. }
  apply Forall_cons in Hup as [Hp0 Hup], Huc as [Hc0 Huc].
  destruct (IH pre cur st) as (ps & ss & ok & -> & Hl1 & Hl2 & Hu); [lia..|done|done|]. simpl.
  assert (is_u64 (st_col conf (i_stats i) p c s).1.1) as Hcol
    by (unfold st_col; destruct (i_stats i); [done|..]; by destruct (c <? p)).
  destruct custom, (st_col conf (i_stats i) p c s) as [[p' s'] ok'];
    (eexists _, _, _; split; [done|]; simpl in *; split; [lia|]; split; [lia|]; by constructor).
Qed.

Lemma tail_cols_ok n st : ∀ mx mean mn, (length st ≤ length mx)%nat → (length st ≤ length mean)%nat →
  (length st ≤ length mn)%nat →
  ∃ xs ys zs, tail_cols n st mx mean mn = Some (xs, ys, zs) ∧ length xs = length st ∧ length ys = length st ∧
    length zs = length st.
Proof.
  induction st as [|s st IH]; intros [|a mx] [|b mean] [|c mn] H1 H2 H3; simpl in *; try lia;
    try by exists [], [], [].
  destruct (IH mx mean mn) as (xs & ys & zs & -> & ? & ? & ?); [lia..|]. simpl.
  eexists _, _, _. split; [done|]. simpl. lia.
Qed.

Lemma st_items_ok m n_col : n_col = length (m_info m) →
  (∀ f, callback_of m = Some f → keeps (Z.of_nat n_col) f) →
  ∀ k pre cur st, (k * n_col ≤ length pre)%nat → (k * n_col ≤ length cur)%nat → (k * n_col ≤ length st)%nat →
  Forall is_u64 pre → Forall is_u64 cur →
  ∃ pre' st' ok, st_items conf callback_of k n_col m pre cur st = Some (pre', st', ok) ∧
    length pre' = length pre ∧ length st' = length st ∧ Forall is_u64 pre'.
Proof.
  intros Hcol Hcb. induction k as [|k IH]; intros pre cur st Hp Hc Hs Hup Huc; cbn [st_items].
  { by eexists _, _, _. }
  rewrite !slice_some, (take_ge (m_info m)) by lia. cbn [mbind option_bind].
  assert (∃ own, match callback_of m with
                 | Some f => f (take n_col st) (take n_col pre) (take n_col cur) (print_interval conf)
                 | None => Some (take n_col st)
                 end = Some own ∧ length own = n_col) as (own & -> & Hown).
  { destruct (callback_of m) as [f|] eqn:Hf; [|eexists; split; [done|]; rewrite length_take; lia].
    destruct (Hcb f eq_refl (take n_col st) (take n_col pre) (take n_col cur) (print_interval conf)) as (own & -> & Ho);
      [unfold zlen; rewrite length_take; lia..|]. exists own. split; [done|]. unfold zlen in Ho. lia. }
  cbn [mbind option_bind].
  destruct (st_cols_ok match callback_of m with Some _ => true | None => false end (m_info m)
    (take n_col pre) (take n_col cur) own) as (ps & ss & ok & -> & Hl1 & Hl2 & Hu);
    [rewrite ?length_take; lia..|by apply Forall_take|by apply Forall_take|].
  destruct (IH (drop n_col pre) (drop n_col cur) (drop n_col st)) as (pre' & st' & ok' & -> & Hl1' & Hl2' & Hu');
    [rewrite length_drop; lia..|by apply Forall_drop|by apply Forall_drop|].
  cbn [mbind option_bind]. eexists _, _, _. split; [done|]. rewrite !length_app, Hl1', Hl2', !length_drop.
  split; [lia|]. split; [lia|]. by apply Forall_app_2.
Qed.

Lemma set_st_record_ok m : zlen (m_info m) = m_n_col m → 0 ≤ m_n_item m →
  (∀ f, callback_of m = Some f → keeps (m_n_col m) f) → slots (cells (m_n_item m) m) m →
  ∃ m', set_st_record conf callback_of m = Some m' ∧ same_module m m' ∧ m_n_item m' = m_n_item m ∧
    slots (cells (m_n_item m) m) m'.
Proof.
  intros Hinfo Hitem Hcb [(pre & Hpre & Hlp & Hup) (cur & Hcur & Hlc & Huc) Hst Htail].
  assert (cells (m_n_item m) m = Z.to_nat (m_n_item m) * Z.to_nat (m_n_col m))%nat as Hcells.
  { unfold cells. unfold zlen in Hinfo. rewrite Z2Nat.inj_mul by lia. done. }
  unfold set_st_record. rewrite Hpre, Hcur. cbn [mbind option_bind].
  destruct (st_items_ok m (Z.to_nat (m_n_col m))) with (k := Z.to_nat (m_n_item m)) (pre := pre) (cur := cur)
    (st := m_st_array m) as (pre' & st' & ok & -> & Hl1 & Hl2 & Hu'); try done; try lia.
  { unfold zlen in Hinfo. lia. }
  { intros f Hf. unfold zlen in Hinfo. rewrite Z2Nat.id by lia. by apply Hcb. }
  cbn [mbind option_bind]. destruct (print_tail conf) eqn:Ht.
  - destruct (Htail eq_refl) as (Hx & Hm & Hn). rewrite slice_some by lia. cbn [mbind option_bind].
    destruct (tail_cols_ok (m_n_record m) (take (cells (m_n_item m) m) st') (m_max_array m) (m_mean_array m) (m_min_array m))
      as (xs & ys & zs & -> & H1 & H2 & H3); [rewrite length_take; lia..|]. rewrite length_take in H1, H2, H3.
    cbn [mbind option_bind]. eexists. split; [done|]. split; [done|]. split; [done|].
    split; [by eexists; split; [done|]; split; [lia|]|by eexists|simpl; lia|].
    intros _. simpl. rewrite !length_app, !length_drop. lia.
  - eexists. split; [done|]. split; [done|]. split; [done|].
    split; [by eexists; split; [done|]; split; [lia|]|by eexists|simpl; lia|]. by rewrite Ht.
Qed.

Lemma resize_u64 n l : is_u64 (junk_u64 conf) → Forall is_u64 l → Forall is_u64 (resize n (junk_u64 conf) l).
Proof. intros Hj Hl. by apply Forall_resize. Qed.

Lemma alloc_slots n m : slots (cells n m) (alloc_arrays conf n m).
Proof.
  assert (∀ k, Forall is_u64 (replicate k 0)) as Hz by (intros; apply Forall_replicate; unfold is_u64; lia).
  unfold alloc_arrays. destruct (print_tail conf) eqn:Ht; split; simpl;
    try (eexists; split; [done|]; rewrite length_replicate; done); rewrite ?length_replicate, ?Ht; done.
Qed.

(** Enough cells for the new number of items, whatever the old one was. *)
Lemma realloc_slots n m : is_u64 (junk_u64 conf) → module_wf m → 0 ≤ n →
  same_module m (realloc_module_array conf n m) ∧ slots (cells n m) (realloc_module_array conf n m) ∨
  n = 0 ∧ m_n_item m = 0.
Proof.
  intros Hj [Hinfo _ _ Hitem _ Harr] Hn. unfold realloc_module_array.
  assert (∀ k, k ≤ m_n_item m → (cells k m ≤ cells (m_n_item m) m)%nat) as Hmono.
  { intros k Hk. unfold cells. unfold zlen in Hinfo. nia. }
  destruct (Z.ltb_spec (m_n_item m) n) as [Hlt|Hge].
  - left. destruct Harr as [[(pre & Hpre & _ & Hup) (cur & Hcur & _ & Huc) Hst Ht]|(_ & Hpre & Hcur)]; rewrite Hpre, ?Hcur.
    + destruct (print_tail conf) eqn:Htail; (split; [done|]); split; simpl;
        try (eexists; split; [done|]; rewrite length_resize; split; [done|by apply resize_u64]);
        rewrite ?length_resize, ?Htail; done.
    + split; [by unfold alloc_arrays; destruct (print_tail conf)|]. apply alloc_slots.
  - destruct Harr as [[(pre & Hpre & Hlp & Hup) (cur & Hcur & Hlc & Huc) Hst Ht]|(H0 & _)]; [|right; lia].
    left. specialize (Hmono n ltac:(lia)). split; [done|].
    split; [eexists; split; [done|]; split; [lia|done]..|lia|]. intros H. specialize (Ht H). lia.
Qed.

Lemma parse_record_ok n m cur :
  zlen (m_info m) = m_n_col m → m_n_col m ≤ MAX_COL_NUM → n = get_strtok_num (m_record m) SEMICOLON → n ≠ 0 →
  (cells (if print_merge conf then 1 else n) m ≤ length cur)%nat → Forall is_u64 cur →
  ∃ n' cur' ret, parse_record conf n m cur = Some (n', cur', ret) ∧
    n' = (if print_merge conf then 1 else n) ∧ length cur' = length cur ∧ Forall is_u64 cur'.
Proof.
  intros Hinfo Hmax Hn Hn0 Hlen Hu. unfold parse_record. pose proof (zlen_nonneg (m_info m)) as Hcol.
  assert (0 < n) as Hpos by (pose proof (strtok_count_nonneg SEMICOLON (m_record m) false); unfold get_strtok_num in Hn; lia).
  destruct (strpbrk SEMICOLON (m_record m)) eqn:Hsep.
  - destruct (print_merge conf).
    + unfold merge_mult_item_to_array. unfold cells in Hlen. rewrite (proj2 (Nat.ltb_ge _ _)) by lia.
      destruct (merge_items_ok m (S (length (m_record m)))
        (replicate (Z.to_nat (m_n_col m)) 0 ++ drop (Z.to_nat (m_n_col m)) cur) 0 1) as (ret & arr & -> & Hl & Hu').
      { lia. } { unfold zlen. lia. }
      { apply Forall_app_2; [apply Forall_replicate; unfold is_u64; lia|by apply Forall_drop]. }
      { done. } { done. } { unfold zlen. rewrite length_app, length_replicate. lia. }
      eexists _, _, _. split; [done|]. rewrite length_app, length_replicate, length_drop in Hl. split; [done|]. split; [lia|done].
    + destruct (store_items_ok m (S (length (m_record m))) cur 0 0 0) as (arr & ret & -> & Hl & Hu'); [lia|lia|lia| |done| |].
      { unfold zlen. lia. }
      { change (drop (Z.to_nat 0) (m_record m)) with (m_record m). fold (get_strtok_num (m_record m) SEMICOLON). rewrite <-Hn. unfold cells, zlen in *. nia. }
      by eexists _, _, _.
  - assert (n = 1) as Hn1.
    { subst n. unfold get_strtok_num in *. apply strtok_count_one.
      - intros Hr. rewrite Hr in Hn0. done.
      - intros Hin. apply list_elem_of_split in Hin as (a & b & Hab). revert Hsep. rewrite Hab.
        clear. induction a as [|x a IH]; simpl; [done|]. by destruct (x =? SEMICOLON). }
    destruct (convert_ok (m_n_col m) (m_record m)) as [Hl Hv].
    destruct (store_vals_ok 0 (convert_record_to_array (m_n_col m) (m_record m)) cur) as (arr & -> & Hl' & Hu'); [|done..|].
    { unfold cells in Hlen. destruct (print_merge conf); nia. }
    cbn [mbind option_bind]. eexists _, _, _. split; [done|]. split; [by destruct (print_merge conf)|done].
Qed.

Lemma swap_slots n m : slots n m → slots n (swap_arrays m).
Proof. intros [Hp Hc Hs Ht]. by split. Qed.
Lemma flags_slots n a b m : slots n m → slots n (with_flags a b m).
Proof. intros [Hp Hc Hs Ht]. by split. Qed.

Lemma slots_cur n m cur cur' k r : slots n m → m_cur_array m = Some cur → length cur' = length cur → Forall is_u64 cur' →
  slots n (with_items k r (with_arrays (m_pre_array m) (Some cur') (m_st_array m) m)).
Proof.
  intros [Hp (c & Hc & Hl & _) Hs Ht] Hcur Hlen Hu. split; [done| |done|done].
  eexists. split; [done|]. rewrite Hcur in Hc. injection Hc as ->. split; [lia|done].
Qed.

Lemma flags_wf a b m : module_wf m → module_wf (with_flags a b m).
Proof.
  intros [Hi Hx Hf Hn Hm Ha]. split; [done..|]. destruct Ha as [Hs|Hnone]; [left; by apply flags_slots|by right].
Qed.

(** A sample of one module. *)
Lemma collect_module_ok hdr w m : is_u64 (junk_u64 conf) → module_wf m →
  ∃ m' hdr' w', collect_module conf callback_of hdr w m = Some (m', hdr', w') ∧ module_wf m'.
Proof.
  intros Hj Hwf. pose proof Hwf as [Hinfo Hmax Hcb Hitem Hmerge Harr]. unfold collect_module.
  destruct (m_enable m); simpl negb; cbv iota; [|by eexists _, _, _]. cbv zeta.
  set (m0 := with_flags (m_pre_flag m) false m). change (m_record m0) with (m_record m).
  set (n := get_strtok_num (m_record m) SEMICOLON).
  assert (0 ≤ n) as Hn by apply strtok_count_nonneg.
  destruct (Z.eqb_spec n 0) as [H0|H0].
  { eexists _, _, _. split; [done|]. split; try done. destruct Harr as [Hs|(Ha & Hb & Hc)]; [left|by right].
    by apply swap_slots, flags_slots, flags_slots. }
  set (changed := negb (print_merge conf) && negb (n =? m_n_item m)).
  set (m1 := if changed then realloc_module_array conf n m0 else m0).
  set (k := if print_merge conf then 1 else n).
  assert (same_module m m1 ∧ slots (cells k m) m1) as [(Ho & Hi & Hc & Hr) Hs].
  { unfold m1. destruct changed eqn:Hch.
    - destruct (realloc_slots n m0 Hj) as [[Hsame Hsl]|[? _]]; [by apply flags_wf|lia| |lia].
      apply andb_true_iff in Hch as [Hpm _]. unfold k. destruct (print_merge conf); [done|]. by split.
    - split; [done|]. assert (m_n_item m = k) as Hk.
      { unfold k, changed in *. destruct (print_merge conf); [by apply Hmerge|].
        apply negb_false_iff, Z.eqb_eq in Hch. done. }
      destruct Harr as [Hsl|(Hz & _)]; [rewrite Hk in Hsl; by apply flags_slots|].
      unfold k in Hk. destruct (print_merge conf); lia. }
  pose proof Hs as [_ (cur & Hcur & Hlc & Huc) _ _]. rewrite Hcur. cbn [mbind option_bind].
  assert (∀ j, cells j m1 = cells j m) as Hcells by (intros j; unfold cells; by rewrite Hc).
  destruct (parse_record_ok n m1 cur) as (n' & cur' & ret & -> & Hn' & Hl' & Hu'); [congruence|by rewrite Hc|by rewrite Hr|done| |done|].
  { by rewrite Hcells. }
  cbn [mbind option_bind]. fold k in Hn'. subst n'.
  set (m2 := with_items k (m_n_record m1) (with_arrays (m_pre_array m1) (Some cur') (m_st_array m1) m1)).
  assert (slots (cells k m) m2) as Hs2 by (by eapply slots_cur).
  assert (0 ≤ k) as Hk by (unfold k; destruct (print_merge conf); lia).
  assert (∀ m3, same_module m2 m3 → m_n_item m3 = k → slots (cells k m) m3 →
    ∀ fl, module_wf (swap_arrays (with_flags ret fl m3))) as Hfinal.
  { intros m3 (Ho3 & Hi3 & Hc3 & _) Hk3 Hs3 fl. unfold same_module in *. split; simpl.
    - rewrite Hi3, Hc3. simpl. congruence.
    - rewrite Hc3. simpl. by rewrite Hc.
    - unfold callback_of in *. simpl. rewrite Ho3, Hc3. simpl. rewrite Ho, Hc. done.
    - lia.
    - intros Hm. rewrite Hk3. unfold k. by rewrite Hm.
    - left. apply swap_slots, flags_slots. unfold cells in *. simpl. rewrite Hk3, Hc3. simpl. by rewrite Hc. }
  destruct (_ && _ && ret).
  - destruct (set_st_record_ok m2) as (m3 & -> & Hsame & Hk3 & Hs3);
      [simpl; congruence|done|by unfold callback_of in *; simpl; rewrite Ho, Hc| |].
    { unfold cells in *. simpl. by rewrite Hc. }
    cbn [mbind option_bind]. eexists _, _, _. split; [done|]. apply Hfinal; [done..|].
    unfold cells in *. simpl in Hs3. by rewrite Hc in Hs3.
  - cbn [mbind option_bind]. eexists _, _, _. split; [done|]. by apply Hfinal.
Qed.
End engine.

(** ** The modules' own functions *)

(** What [mod_register] gives the framework: the number of columns and the
    function of each module that has one. *)
Definition registry (e : env) : list (list Z * (Z * st_callback)) :=
  [(lit "--cpu", (10, set_cpu_record e)); (lit "--mem", (6, set_mem_record)); (lit "--swap", (4, set_swap_record));
   (lit "--vmevent", (7, set_vmevent_record)); (lit "--numabalance", (3, set_numabalance_record));
   (lit "--load", (8, set_load_record)); (lit "--tcp", (8, set_tcp_record));
   (lit "--ncpu", (9, set_ncpu_record 9)); (lit "--percpu", (10, set_percpu_record 10));
   (lit "--scheddelay", (8, set_scheddelay_record)); (lit "--partition", (7, set_part_record));
   (lit "--io", (17, set_io_record))].
(** The modules registered with the framework's own function. *)
Definition no_function : list (list Z) :=
  [lit "--pcsw"; lit "--pernic"; lit "--udp"; lit "--tcpx"; lit "--traffic"; lit "--lvs"].
Definition own_callback (e : env) (opt : list Z) : option st_callback :=
  snd <$> ((list_to_map (registry e) : gmap (list Z) (Z * st_callback)) !! opt).

Lemma put_ok l st n : zlen st = n → zlen l ≤ n → ∃ st', put l st = Some st' ∧ zlen st' = n.
Proof.
  intros Hst Hl. unfold zlen in *. rewrite put_some by lia. eexists. split; [done|].
  rewrite length_app, length_drop. lia.
Qed.

Lemma mapM_ok {A B} (f : A → option B) l : (∀ x, x ∈ l → is_Some (f x)) → ∃ k, mapM f l = Some k ∧ length k = length l.
Proof.
  intros H. destruct (proj2 (mapM_is_Some f l)) as [k Hk]; [by apply Forall_forall|]. exists k. split; [done|].
  apply mapM_Some, Forall2_length in Hk. done.
Qed.

Lemma cell_ok {A} (l : list A) n i : zlen l = n → Z.of_nat i < n → ∃ v, l !! i = Some v.
Proof. intros Hl Hi. apply lookup_lt_is_Some_2. unfold zlen in Hl. lia. Qed.

(** The reads of a function: every cell it asks for is in the slice. *)
Ltac cell :=
  match goal with
  | H : zlen ?l = _ |- context [?l !! ?i] =>
      let v := fresh "v" in destruct (cell_ok l _ i H ltac:(lia)) as [v ->]; cbn [mbind option_bind]
  end.
Ltac cells_of f :=
  match goal with |- context [mapM ?g ?l] =>
    let k := fresh "k" in let Hk := fresh "Hk" in let Hl := fresh "Hl" in
    destruct (mapM_ok g l) as (k & Hk & Hl);
      [intros i Hi; apply elem_of_seq in Hi; simpl in Hi; repeat cell; by eexists
      |rewrite Hk; clear Hk; cbn [mbind option_bind]; cbn [length seq] in Hl]
  end.

Lemma col_shares_ok pre cur total n : zlen pre = n → zlen cur = n → 9 ≤ n →
  ∃ s, col_shares pre cur total = Some s ∧ zlen s = 9.
Proof.
  intros Hp Hc Hn. unfold col_shares.
  destruct (mapM_ok (λ i, p ← pre !! i; c ← cur !! i; Some (percent p c total)) (seq 0 9)) as (s & -> & Hs).
  - intros i [_ Hi]%elem_of_seq. simpl in Hi. do 2 cell. by eexists.
  - exists s. unfold zlen. by rewrite Hs.
Qed.

Lemma sum_ok k l n a : zlen l = n → Z.of_nat k ≤ n → ∃ t, sum_u64 k a l = Some t.
Proof. intros Hl Hk. apply sum_u64_some. unfold zlen in Hl. lia. Qed.

Lemma back_ok k pre cur n : zlen pre = n → zlen cur = n → Z.of_nat k ≤ n → ∃ b, went_back k pre cur = Some b.
Proof.
  intros Hp Hc Hk. unfold zlen in *. destruct (went_back_spec k pre cur) as (b & Hb & _); [lia..|]. by exists b.
Qed.

Lemma slice_put k cur st n : zlen st = n → zlen cur = n → Z.of_nat k ≤ n →
  ∃ st', (c ← slice k cur; put (of_int <$> c) st) = Some st' ∧ zlen st' = n.
Proof.
  intros Hst Hc Hk. unfold zlen in Hc. rewrite slice_some by lia. cbn [mbind option_bind]. apply put_ok; [done|].
  unfold zlen. rewrite length_fmap, length_take. lia.
Qed.

Lemma set_cpu_keeps e : keeps 10 (set_cpu_record e).
Proof.
  intros st pre cur inter Hst Hp Hc. unfold set_cpu_record.
  destruct (back_ok 9 pre cur 10) as [b ->]; [done..|lia|]. cbn [mbind option_bind]. destruct b; [by apply put_ok|].
  destruct (sum_ok 9 pre 10 0) as [t1 ->]; [done|lia|]. destruct (sum_ok 9 cur 10 0) as [t2 ->]; [done|lia|].
  cbn [mbind option_bind]. destruct (t2 <=? t1); [by apply put_ok|]. unfold cpu_shares.
  destruct (col_shares_ok pre cur (u64 (t2 - t1)) 10) as (s & -> & Hs); [done..|lia|]. cbn [mbind option_bind].
  repeat cell. apply put_ok; [done|]. unfold zlen in *. rewrite length_app. cbn [length].
  destruct (1 <? cpu_quota e); rewrite ?length_fmap, length_insert; lia.
Qed.

Lemma set_percpu_keeps : keeps 10 (set_percpu_record 10).
Proof.
  intros st pre cur inter Hst Hp Hc. unfold set_percpu_record.
  destruct (back_ok 10 pre cur 10) as [b ->]; [done..|]. cbn [mbind option_bind]. destruct b; [by apply put_ok|].
  destruct (sum_ok 10 pre 10 0) as [t1 ->]; [done|lia|]. destruct (sum_ok 10 cur 10 0) as [t2 ->]; [done|lia|].
  cbn [mbind option_bind]. destruct (t2 <=? t1); [by exists st|].
  destruct (col_shares_ok pre cur (u64 (t2 - t1)) 10) as (s & -> & Hs); [done..|lia|]. cbn [mbind option_bind].
  repeat cell. apply put_ok; [done|]. unfold zlen in *. rewrite length_app, length_insert. cbn [length]. lia.
Qed.

Lemma set_ncpu_keeps : keeps 9 (set_ncpu_record 9).
Proof.
  intros st pre cur inter Hst Hp Hc. unfold set_ncpu_record.
  destruct (sum_ok 9 pre 9 0) as [t1 ->]; [done|lia|]. destruct (sum_ok 9 cur 9 0) as [t2 ->]; [done|lia|].
  cbn [mbind option_bind]. cbv zeta. cells_of tt. repeat cell. apply put_ok; [done|].
  unfold zlen. rewrite length_app, Hl. done.
Qed.

Lemma set_io_keeps : keeps 17 set_io_record.
Proof.
  intros st pre cur inter Hst Hp Hc. unfold set_io_record.
  destruct (back_ok 11 pre cur 17) as [b ->]; [done..|lia|]. cbn [mbind option_bind]. destruct b; [by apply put_ok|].
  cbv zeta. repeat cell. by apply put_ok.
Qed.

(** Each of them stays inside its slices. *)
Lemma registry_keeps e : Forall (λ '(_, (n, f)), keeps n f) (registry e).
Proof.
  repeat apply Forall_cons_2; try apply Forall_nil_2;
    first [apply set_cpu_keeps|apply set_percpu_keeps|apply set_ncpu_keeps|apply set_io_keeps|intros st pre cur inter Hst Hp Hc].
  - unfold set_mem_record. repeat cell. cbv zeta. case_match; by apply put_ok.
  - unfold set_swap_record. cbv zeta. repeat cell. by apply put_ok.
  - by apply slice_put.
  - by apply slice_put.
  - unfold set_load_record. cells_of tt. repeat cell. apply put_ok; [done|]. unfold zlen. by rewrite length_app, Hl.
  - unfold set_tcp_record. cells_of tt. repeat cell. apply put_ok; [done|]. unfold zlen. by rewrite length_app, Hl.
  - unfold set_scheddelay_record. cells_of tt. apply put_ok; [done|]. unfold zlen. by rewrite Hl.
  - unfold set_part_record. repeat cell. by apply put_ok.
Qed.

(** A module as [mod_register] leaves it: one of the modules above, with the
    number of columns its function is written for. *)
Record fresh (e : env) (m : module) : Prop := {
  fr_info : zlen (m_info m) = m_n_col m;
  fr_max : m_n_col m ≤ MAX_COL_NUM;
  fr_known : m_opt_line m ∈ (registry e).*1 ++ no_function;
  fr_cols : ∀ n f, (m_opt_line m, (n, f)) ∈ registry e → m_n_col m = n;
  fr_arrays : m_pre_array m = None ∧ m_cur_array m = None;
}.

(** Samples one after the other: the collectors leave what they like in the
    records, then the statistics are computed. *)
Fixpoint run_samples (conf : configure) (e : env) (feeds : list (module → option collected)) (mods : list module)
    : option (list module) :=
  match feeds with
  | [] => Some mods
  | feed :: feeds' =>
      mods1 ← collect_record feed mods;
      '(mods2, _, _) ← collect_record_stat conf (callback_of (own_callback e)) mods1;
      run_samples conf e feeds' mods2
  end.

Section run.
Context (conf : configure) (e : env) (Hjunk : is_u64 (junk_u64 conf)).
Abbreviation wf := (λ m, m_enable m = true → module_wf conf (own_callback e) m).

Lemma own_callback_keeps m f : (∀ n f, (m_opt_line m, (n, f)) ∈ registry e → m_n_col m = n) →
  own_callback e (m_opt_line m) = Some f → keeps (m_n_col m) f.
Proof.
  unfold own_callback. intros Hcols Hf. apply fmap_Some in Hf as ([n g] & Hg & ->).
  apply elem_of_list_to_map_2 in Hg. rewrite (Hcols _ _ Hg).
  apply (proj1 (Forall_forall _ _) (registry_keeps e) _ Hg).
Qed.

Lemma init_wf m : fresh e m → wf (init_module conf m).
Proof.
  intros [Hi Hmax _ Hc [Hp Hcur]] He. unfold init_module in *. destruct (m_enable m) eqn:Hen; [|by rewrite Hen in He]. clear He. cbv zeta.
  pose proof (strtok_count_nonneg SEMICOLON (m_record m) false) as Hnn. fold (get_strtok_num (m_record m) SEMICOLON) in Hnn.
  set (k := if print_merge conf then 1 else get_strtok_num (m_record m) SEMICOLON).
  assert (0 ≤ k) by (unfold k; destruct (print_merge conf); lia).
  assert (∀ f, own_callback e (m_opt_line m) = Some f → keeps (m_n_col m) f) as Hcb by (intros f; by apply own_callback_keeps).
  destruct (Z.eqb_spec k 0) as [Hk|Hk].
  - split; try done; [by intros Hm; unfold k in Hk; rewrite Hm in Hk|]. right. done.
  - set (m1 := with_items k (m_n_record m) m). pose proof (alloc_slots conf k m1) as Hs.
    assert (∀ P : module → Prop, (∀ m', m_opt_line m' = m_opt_line m → m_info m' = m_info m → m_n_col m' = m_n_col m →
      m_n_item m' = k → slots conf (cells k m1) m' → P m') → P (alloc_arrays conf k m1)) as Hany.
    { intros P HP. apply HP; [..|done]; unfold alloc_arrays; by destruct (print_tail conf). }
    apply Hany. intros m' Ho' Hi' Hc' Hk' Hs'. split.
    + congruence.
    + by rewrite Hc'.
    + unfold callback_of. by rewrite Ho', Hc'.
    + lia.
    + intros Hm. rewrite Hk'. unfold k. by rewrite Hm.
    + left. rewrite Hk'. unfold cells in *. rewrite Hc'. done.
Qed.

Lemma collect_record_wf feed mods : (∀ m, feed m ≠ Some Fault) → Forall wf mods →
  ∃ mods', collect_record feed mods = Some mods' ∧ Forall wf mods'.
Proof.
  intros Hfeed. induction 1 as [|m mods Hm _ (mods' & IH & Hwf)]; [by exists []|]. cbn [collect_record].
  assert (∀ r, module_wf conf (own_callback e) m → module_wf conf (own_callback e) (set_record r m)) as Hset.
  { intros r [H1 Hx H2 H3 H4 H5]. split; [done..|]. destruct H5 as [[Hp Hc Hs Ht]|Hn]; [left; by split|by right]. }
  rewrite IH. destruct (m_enable m) eqn:He.
  - pose proof (Hfeed (set_record [] m)) as Hf.
    destruct (feed (set_record [] m)) as [[|r|]|]; [..|done|]; cbn [mbind option_bind];
      (eexists; split; [done|]; constructor; [|done]); intros _; apply Hset; by apply Hm.
  - cbn [mbind option_bind]. eexists. split; [done|]. constructor; [|done]. by rewrite He.
Qed.

Lemma collect_loop_wf mods : Forall wf mods → ∀ hdr w,
  ∃ mods' hdr' w', collect_loop conf (callback_of (own_callback e)) hdr w mods = Some (mods', hdr', w') ∧ Forall wf mods'.
Proof.
  induction 1 as [|m mods Hm _ IH]; intros hdr w; [by eexists [], _, _|]. cbn [collect_loop].
  assert (∃ m' hdr' w', collect_module conf (callback_of (own_callback e)) hdr w m = Some (m', hdr', w') ∧ wf m')
    as (m' & hdr' & w' & -> & Hm').
  { destruct (m_enable m) eqn:He.
    - destruct (collect_module_ok conf (own_callback e) hdr w m Hjunk (Hm eq_refl)) as (m' & h & w' & H & Hw). by eexists _, _, _.
    - unfold collect_module. rewrite He. eexists _, _, _. split; [done|]. by rewrite He. }
  cbn [mbind option_bind]. destruct (IH hdr' w') as (mods' & h2 & w2 & -> & Hmods). cbn [mbind option_bind].
  eexists _, _, _. split; [done|]. by constructor.
Qed.
End run.

(** C30: the type of a module is an invariant of the service, and its arrays are
    not accessed out of their bounds. From the modules as they are registered
    (those whose functions are modelled, of at most 64 columns), after any
    sequence of samples, in either mode, where the collectors leave any bytes in
    the records, the engine has computed the statistics of every sample: every
    checked access (to the arrays of the module, to [info], to a column in the
    modules' own functions, to [array_2]) was inside its array; and each enabled
    module has its arrays, of 64-bit numbers and at least as large as its items
    and columns call for. *)
Theorem tsar_run_safe conf e mods feeds :
  is_u64 (junk_u64 conf) → Forall (fresh e) mods → Forall (λ feed, ∀ m, feed m ≠ Some Fault) feeds →
  ∃ mods', run_samples conf e feeds (init_module_fields conf mods) = Some mods' ∧
    Forall (λ m, m_enable m = true → module_wf conf (own_callback e) m) mods'.
Proof.
  intros Hj Hfresh Hfeeds. assert (Forall (λ m, m_enable m = true → module_wf conf (own_callback e) m) (init_module_fields conf mods)) as Hwf.
  { apply Forall_fmap. eapply Forall_impl; [exact Hfresh|]. intros m Hm. exact (init_wf conf e m Hm). }
  revert Hwf. generalize (init_module_fields conf mods). clear Hfresh.
  induction Hfeeds as [|feed feeds Hfeed _ IH]; intros ms Hwf; [by exists ms|]. cbn [run_samples].
  destruct (collect_record_wf conf e feed ms Hfeed Hwf) as (ms1 & -> & Hwf1). cbn [mbind option_bind].
  destruct (collect_loop_wf conf e Hj ms1 Hwf1 true 0) as (ms2 & hdr & w & Hc & Hwf2).
  unfold collect_record_stat. rewrite Hc. cbn [mbind option_bind]. by apply IH.
Qed.

(** ** A run *)

(** One item, then a record of garbage, then four items, then none. *)
Definition s_feeds : list (module → option collected) :=
  [λ _, Some (Record_ (lit "cpu0=1,2,3;")); λ _, Some (Record_ (lit ";;=;x=1,9;;")); λ _, Some Unset;
   λ _, Some (Record_ (lit "a=1;b=2,3;c=;d=4,5,6,7,8,9,1,1,1,1,1,1;")); λ _, None].
Definition s_fresh (opt : string) (n : nat) : module :=
  Module [] (lit opt) [] (replicate n t_info) (Z.of_nat n) true false 0 0 false false None None [] [] [] [] 0.
Definition s_safe_mods : list module := [s_fresh "--percpu" 10; s_fresh "--pernic" 4].
Definition s_safe_env : env := Env (λ _, None) None.
Definition s_safe_conf : configure := Conf false true 5 DATA_DETAIL 77 d_zero.

Lemma s_fresh_ok opt n : Z.of_nat n ≤ MAX_COL_NUM → lit opt ∈ (registry s_safe_env).*1 ++ no_function →
  Forall (λ k : list Z * (Z * st_callback), k.1 = lit opt → k.2.1 = Z.of_nat n) (registry s_safe_env) →
  fresh s_safe_env (s_fresh opt n).
Proof.
  intros Hn Hopt Hall. split.
  - unfold zlen. simpl. by rewrite length_replicate.
  - done.
  - done.
  - intros k f Hin. symmetry. exact (proj1 (Forall_forall _ _) Hall _ Hin eq_refl).
  - done.
Qed.

Lemma tsar_run_safe_witness :
  ∃ m1 m2, run_samples s_safe_conf s_safe_env s_feeds (init_module_fields s_safe_conf s_safe_mods) = Some [m1; m2] ∧
    m_n_item m1 = 4 ∧ zlen (default [] (m_pre_array m1)) = 40 ∧
    Forall (λ m, m_enable m = true → module_wf s_safe_conf (own_callback s_safe_env) m) [m1; m2].
Proof.
  destruct (tsar_run_safe s_safe_conf s_safe_env s_safe_mods s_feeds) as (mods' & Hrun & Hwf).
  - unfold is_u64. simpl. lia.
  - repeat apply Forall_cons_2; try apply Forall_nil_2;
      (apply s_fresh_ok; [by vm_compute|apply (bool_decide_unpack _); by vm_compute|
        repeat apply Forall_cons_2; try apply Forall_nil_2; intros H; first [reflexivity|vm_compute in H; discriminate H]]).
  - repeat apply Forall_cons_2; try apply Forall_nil_2; done.
  - vm_compute in Hrun. injection Hrun as <-. eexists _, _. split; [by vm_compute|]. split; [done|]. split; [done|]. exact Hwf.
Defined.
