(* ===== verification/Memleak.v ===== *)
(** * Memleak: where kernel memory that is not freed was allocated

    The tool of [tools/detect/mem/memleak]: the tables of call sites of unfreed
    slab objects ([slab.c]) and pages ([page.c]) that the kernel module hands
    over, the table of functions of [/proc/vmallocinfo] ([vmalloc.c]), the
    kernel's memory from [/proc/meminfo] ([check.c]) and the verdict of the
    quick check ([main.c]). The kernel module behind the [ioctl]s is not part
    of the sources: it is an argument. *)

From S2P Require Import Prelude CSort CString CFloat TsarStat TsarModules.

(** The loop of [is_in] and [is_exist]: the first row with the key is updated. *)
Fixpoint is_in {R} (same : R → bool) (update : R → R) (call : list R) : option (list R) :=
  match call with
  | [] => None
  | r :: call' =>
      if same r then Some (update r :: call')
      else match is_in same update call' with Some c => Some (r :: c) | None => None end
  end.

Definition bool_int (b : bool) : Z := if b then 1 else 0.

(** ** Call sites of slab objects and of pages *)

Module Sites.

(** [struct user_alloc_desc], [struct user_call_site] *)
Record user_alloc_desc := AllocDesc {
  pid : Z; mark : Z; order : Z; ptr : Z; comm : list Z; function : list Z; call_site : Z; ts : Z; backtrace : list (list Z);
}.
Definition zero_desc : user_alloc_desc := AllocDesc 0 0 0 0 [] [] 0 0 [].
Record user_call_site := CallSite { c_site : Z; c_nr : Z; c_mark_nr : Z; c_function : list Z }.

Definition CALL_SIZE : Z := 1000.

Definition count_row (add : Z) (r : user_call_site) : user_call_site :=
  CallSite (c_site r) (i32 (c_nr r + 1)) (i32 (c_mark_nr r + add)) (c_function r).
Definition new_row (add : Z) (d : user_alloc_desc) : user_call_site := CallSite (call_site d) 1 add (function d).

(** [slab.c]: the rows [call[0 .. call_index)] and [mark_nr]. *)
Definition marked (d : user_alloc_desc) : Z := bool_int (negb (mark d =? 0)).
Definition slab_add_count (st : list user_call_site * Z) (d : user_alloc_desc) : list user_call_site * Z :=
  let '(call, mark_nr) := st in
  match is_in (λ r, c_site r =? call_site d) (count_row (marked d)) call with
  | Some call => (call, i32 (mark_nr + marked d))
  | None =>
      if CALL_SIZE <=? zlen call then (call, mark_nr)
      else (call ++ [new_row (marked d) d], i32 (mark_nr + marked d))
  end.
Definition slab_cmp (mark_nr : Z) (site1 site2 : user_call_site) : Z :=
  if negb (mark_nr =? 0) then bool_int (c_mark_nr site1 <? c_mark_nr site2) else bool_int (c_nr site1 <? c_nr site2).
Definition slab_sort_call_site (descs : list user_alloc_desc) : list user_call_site :=
  let '(call, mark_nr) := foldl slab_add_count ([], 0) descs in qsort (slab_cmp mark_nr) call.

(** [page.c] *)
Definition page_size (d : user_alloc_desc) : Z := i32 (Z.shiftl 2 (order d)).
Definition page_add_count (call : list user_call_site) (d : user_alloc_desc) : list user_call_site :=
  match is_in (λ r, c_site r =? call_site d) (count_row (page_size d)) call with
  | Some call => call
  | None => if CALL_SIZE <=? zlen call then call else call ++ [new_row (page_size d) d]
  end.
Definition page_cmp (site1 site2 : user_call_site) : Z := bool_int (c_nr site1 <? c_nr site2).
Definition page_sort_call_site (descs : list user_alloc_desc) : list user_call_site :=
  qsort page_cmp (foldl page_add_count [] descs).

(** [_retry]: the kernel is asked for the result until it gives one, ten times
    more at most; [ioctl] is what the [n]-th call returns and leaves in [res]. *)
Fixpoint get_result (try_ : nat) (ioctl : nat → list user_alloc_desc → Z * list user_alloc_desc) (n : nat)
    (res : list user_alloc_desc) : list user_alloc_desc :=
  let '(ret, res) := ioctl n res in
  if negb (ret =? 0) then match try_ with S t => get_result t ioctl (S n) res | O => res end else res.

(** What a run prints, and whether it turns the kernel's tracing off. *)
Record report := Report {
  r_details : list user_alloc_desc; r_rows : list user_call_site; r_suspect : option (list Z); r_off : bool;
}.

(** [call[0].function]; without a row it is whatever [malloc] left there. *)
Definition suspect (junk : list Z) (call : list user_call_site) : list Z :=
  match call with r :: _ => c_function r | [] => junk end.

(** [slab_main], [page_main]; [on] is what [MEMLEAK_ON] returns. *)
Definition slab_main (junk : list Z) (on : Z) (ioctl : nat → list user_alloc_desc → Z * list user_alloc_desc) : report :=
  if negb (on =? 0) then Report [] [] None false
  else
    let res := get_result 10 ioctl 0 (replicate 5000 zero_desc) in
    let call := slab_sort_call_site res in
    Report res call (Some (suspect junk call)) true.
Definition page_main (on : Z) (ioctl : nat → list user_alloc_desc → Z * list user_alloc_desc) : option report :=
  if negb (on =? 0) then None
  else
    let res := get_result 10 ioctl 0 (replicate 5000 zero_desc) in
    Some (Report res (page_sort_call_site res) None true).
End Sites.

(** ** Functions of [/proc/vmallocinfo] *)

Module Vmalloc.

Record vmalloc_site := VCall { funcs : list Z; nr : Z; size : Z }.
Definition NAME_LEN : nat := 128.
Definition CALL_SIZE : Z := 200.

(** [strncpy(call[i].funcs, funcs, NAME_LEN)] and [strncmp] of as many bytes. *)
Definition add_vmalloc (call : list vmalloc_site) (fn : list Z) (sz : Z) : list vmalloc_site :=
  match is_in (λ r, bool_decide (take NAME_LEN (funcs r) = take NAME_LEN fn))
              (λ r, VCall (funcs r) (i32 (nr r + 1)) (i32 (size r + sz))) call with
  | Some call => call
  | None => if CALL_SIZE <=? zlen call then call else call ++ [VCall (take NAME_LEN fn) 1 sz]
  end.
Definition cmp (src dst : vmalloc_site) : Z := bool_int (size src <? size dst).

(** [%s]: blanks, a word and the rest. The words fit in their buffers (128 and
    256 bytes). *)
Definition scan_word (s : list Z) : option (list Z * list Z) :=
  let s := skip_space s in
  match token s with [] => None | w => Some (w, drop (length w) s) end.
(** [sscanf(lines, "%s %d %s", addrs, &size, funcs)] when it returns 3. *)
Definition scan_area (line : list Z) : option (Z * list Z) :=
  match scan_word line with
  | None => None
  | Some (_, s) =>
      match scan_int s with
      | None => None
      | Some (v, s) => match scan_word s with Some (w, _) => Some (i32 v, w) | None => None end
      end
  end.

Definition vmalloc_line (call : list vmalloc_site) (line : list Z) : list vmalloc_site :=
  if negb (contains line (lit "vmalloc")) then call
  else match scan_area line with
       | None => call
       | Some (sz, fn) => if sz <=? 0 then call else add_vmalloc call fn sz
       end.
Definition total_kb (call : list vmalloc_site) : Z := foldl (λ total r, u32 (total + Z.shiftr (size r) 10)) 0 call.
(** The lines printed: times, megabytes, function. *)
Definition printed (call : list vmalloc_site) : list (Z * Z * list Z) :=
  (λ r, (nr r, Z.shiftr (size r) 20, funcs r)) <$> filter (λ r, Z.shiftr (size r) 20 ≠ 0) call.

(** [vmalloc_main]: the new table, what is printed, the result. *)
Definition vmalloc_main (argc : Z) (info : option (list Z)) (call : list vmalloc_site)
    : list vmalloc_site * list (Z * Z * list Z) * Z :=
  match info with
  | None => (call, [], 0)
  | Some text =>
      let call := qsort cmp (foldl vmalloc_line call (fgets_all 511 text)) in
      (call, if negb (argc =? 0) then printed call else [], i32 (total_kb call))
  end.
End Vmalloc.

(** ** The quick check *)

Module Check.

(** [struct meminfo], the fields in use. *)
Record meminfo := Meminfo {
  tlmkb : Z; frmkb : Z; bufkb : Z; uslabkb : Z; acmkb : Z; iamkb : Z; slmkb : Z; lock : Z;
  huge2M : Z; huge1G : Z; kernel : Z;
}.
Definition zero_meminfo : meminfo := Meminfo 0 0 0 0 0 0 0 0 0 0 0.

(** The [else if] chain: [tlmkb], [frmkb], [bufkb], [uslabkb], [acmkb],
    [iamkb], [slmkb], [hugeTotal], [hugeSize], [lock]. *)
Definition meminfo_keys : list key :=
  [(lit "MemTotal:", 9, 0); (lit "MemFree:", 8, 1); (lit "Buffers:", 8, 2); (lit "SUnreclaim:", 11, 3);
   (lit "Active:", 7, 4); (lit "Inactive:", 9, 5); (lit "Slab:", 5, 6); (lit "HugePages_Total:", 16, 7);
   (lit "Hugepagesize:", 13, 8); (lit "Mlocked:", 8, 9)]%nat.

(** [read_hugepage1G]: the first line of the file of that many pages. *)
Definition read_hugepage1G (nr_hugepages : option (list Z)) : Z :=
  match nr_hugepages with
  | None => 0
  | Some text =>
      match fgets_all 127 text with
      | [] => 0
      | line :: _ => match scan_ull line with Some (v, _) => i32 v | None => 0 end
      end
  end.

(** [int * 1024 * 1024] is an [int] product. *)
Definition read_meminfo (file nr_hugepages : option (list Z)) (mem : meminfo) : meminfo :=
  match file with
  | None => mem
  | Some text =>
      let st := keys_lines meminfo_keys (fgets_all 127 text) (replicate 10 0) in
      let huge1G := u64 (i32 (read_hugepage1G nr_hugepages * 1024 * 1024)) in
      let huge2M := if fld st 8 =? 2048 then u64 (fld st 7 * fld st 8) else 0 in
      let kernel := i64 (fld st 0 - fld st 1 - fld st 4 - fld st 5 - fld st 9 - fld st 6 - huge2M - huge1G) in
      Meminfo (fld st 0) (fld st 1) (fld st 2) (fld st 3) (fld st 4) (fld st 5) (fld st 6) (fld st 9) huge2M huge1G
        (if kernel <? 0 then Z.shiftl 1 10 else kernel)
  end.

Definition check_memleak (total used : Z) : bool :=
  (6 * 1024 * 1024 <=? used) ||
  (dlt (dmul (of_int total) d_tenth) (of_int used) && dlt (of_int 1572864) (of_int used)).

Inductive verdict := NoLeak | SlabLeak | PageLeak | VmallocLeak.

(** [memleak_check_only]: the verdict and [mi]; [vmalloc] is what [vmalloc_main]
    returned. *)
Definition memleak_check_only (vmalloc : Z) (mi : meminfo) : verdict * Z :=
  let kernel := if kernel mi <? vmalloc then i32 (vmalloc + 1) else kernel mi in
  let ret := i32 (kernel - vmalloc) in
  (if check_memleak (i32 (tlmkb mi)) ret then PageLeak
   else if check_memleak (i32 (tlmkb mi)) (i32 (uslabkb mi)) then SlabLeak
   else if check_memleak (i32 (tlmkb mi)) vmalloc then VmallocLeak
   else NoLeak, kernel).

(** The check on the three files. *)
Definition memleak_check (meminfo_file vmallocinfo nr_hugepages : option (list Z)) : verdict :=
  let mi := read_meminfo meminfo_file nr_hugepages zero_meminfo in
  let '(_, _, vmalloc) := Vmalloc.vmalloc_main 0 vmallocinfo [] in
  (memleak_check_only vmalloc mi).1.
End Check.
