(* ===== verification/MemleakFacts.v ===== *)
(** * MemleakFacts: the tables of call sites and the verdict of the check

    The tables hold, for each call site or function, the number of allocations
    the kernel reported for it and their marks or sizes, in descending order;
    the verdict of the check follows from the numbers of the kernel's files. *)

From S2P Require Import Prelude CSort CString CFloat TsarStat TsarModules TsarCollect Memleak.

(** ** [qsort] *)

(** A comparison that is 1 when the first is smaller and 0 otherwise sorts in
    descending order. *)
Lemma qsort_descending {A} (weight : A → Z) l :
  StronglySorted (λ a b, weight b ≤ weight a) (qsort (λ a b, bool_int (weight a <? weight b)) l).
Proof.
  assert (∀ a b, bool_int (weight a <? weight b) ≤ 0 ↔ - weight a ≤ - weight b) as Hc.
  { intros a b. unfold bool_int. destruct (Z.ltb_spec (weight a) (weight b)); lia. }
  induction (qsort_ascending _ (λ a, - weight a) l Hc) as [|x k _ IH Hx]; constructor; [done|].
  eapply Forall_impl; [exact Hx|]. cbn. lia.
Qed.

(** ** The keys of a list, each where it is first seen *)

Section first_seen.
Context {K} `{EqDecision K}.
Definition first_seen (l : list K) : list K := reverse (remove_dups (reverse l)).

Lemma first_seen_snoc l k : first_seen (l ++ [k]) = if decide (k ∈ l) then first_seen l else first_seen l ++ [k].
Proof.
  unfold first_seen. rewrite reverse_snoc. cbn [remove_dups]. unfold decide_rel.
  match goal with |- context [if ?d then _ else _] => destruct d as [H|H] end;
    destruct (decide (k ∈ l)) as [H'|H']; rewrite elem_of_reverse in H; try done. by rewrite reverse_cons.
Qed.

Lemma elem_of_first_seen l k : k ∈ first_seen l ↔ k ∈ l.
Proof. unfold first_seen. by rewrite elem_of_reverse, elem_of_remove_dups, elem_of_reverse. Qed.

Lemma NoDup_first_seen l : NoDup (first_seen l).
Proof. unfold first_seen. rewrite reverse_Permutation. apply NoDup_remove_dups. Qed.
End first_seen.

(** ** Counting by key *)

Section tally.
Context {K I R : Type} `{EqDecision K} (key : I → K) (rkey : R → K) (limit : Z).
Context (new : I → R) (update : I → R → R) (row : list I → R).
Hypothesis (Hkey : ∀ i l, rkey (row (i :: l)) = key i).
Hypothesis (Hnew : ∀ i, row [i] = new i).
Hypothesis (Hupdate : ∀ i l, l ≠ [] → row (l ++ [i]) = update i (row l)).

Definition of_key (items : list I) (k : K) : list I := filter (λ i, key i = k) items.
Definition tally_add (call : list R) (i : I) : list R :=
  match is_in (λ r, bool_decide (rkey r = key i)) (update i) call with
  | Some call => call
  | None => if limit <=? zlen call then call else call ++ [new i]
  end.
Definition listed (items : list I) : list K := take (Z.to_nat limit) (first_seen (key <$> items)).

Lemma of_key_some items k : k ∈ key <$> items → ∃ i l, of_key items k = i :: l ∧ key i = k.
Proof.
  intros (i & -> & Hi)%list_elem_of_fmap. destruct (of_key items (key i)) as [|j l] eqn:Hf.
  - exfalso. assert (i ∈ of_key items (key i)) as Hin by (by apply list_elem_of_filter). rewrite Hf in Hin.
    by apply not_elem_of_nil in Hin.
  - exists j, l. split; [done|]. assert (j ∈ of_key items (key i)) as Hin by (rewrite Hf; apply list_elem_of_here).
    by apply list_elem_of_filter in Hin as [? _].
Qed.

Lemma of_key_snoc items i k : of_key (items ++ [i]) k = of_key items k ++ (if decide (key i = k) then [i] else []).
Proof. unfold of_key. rewrite filter_app. done. Qed.

(** The loop over the rows, one for each key. *)
Lemma is_in_keyed (f : K → R) (u : R → R) k T : NoDup T → (∀ j, j ∈ T → rkey (f j) = j) →
  is_in (λ r, bool_decide (rkey r = k)) u (f <$> T) =
  if decide (k ∈ T) then Some ((λ j, if decide (j = k) then u (f j) else f j) <$> T) else None.
Proof.
  intros Hnd Hf. induction T as [|j T IH]; [done|]. apply NoDup_cons in Hnd as [Hj Hnd].
  rewrite !fmap_cons. cbn [is_in]. rewrite Hf by apply list_elem_of_here.
  rewrite IH by (done || (intros j' ?; apply Hf; by apply list_elem_of_further)). clear IH.
  destruct (bool_decide_reflect (j = k)) as [->|Hne].
  - rewrite (decide_True _ _ (list_elem_of_here _ _)), (decide_True (P := k = k)) by done. do 2 f_equal.
    apply list_fmap_ext. intros n x Hx. rewrite decide_False; [done|]. intros ->. by apply list_elem_of_lookup_2 in Hx.
  - rewrite (decide_False (P := j = k)) by done. destruct (decide (k ∈ T)) as [HT|HT].
    + rewrite decide_True by (by apply list_elem_of_further). done.
    + rewrite decide_False by (rewrite elem_of_cons; naive_solver). done.
Qed.

Lemma tally_rows items : foldl tally_add [] items = (λ k, row (of_key items k)) <$> listed items.
Proof.
  induction items as [|i items IH] using rev_ind; [unfold listed; change (first_seen (key <$> [])) with ([] : list K); by rewrite take_nil|].
  rewrite foldl_app. cbn [foldl]. rewrite IH. clear IH. unfold tally_add at 1.
  assert (∀ j, j ∈ listed items → j ∈ key <$> items) as HT.
  { intros j Hj. apply elem_of_first_seen. unfold listed in Hj. rewrite <- (take_drop (Z.to_nat limit)). set_solver. }
  assert (NoDup (listed items)) as Hnd.
  { pose proof (NoDup_first_seen (key <$> items)) as H. rewrite <- (take_drop (Z.to_nat limit)) in H. by apply NoDup_app in H as [? _]. }
  rewrite is_in_keyed; [|done|].
  2:{ intros j Hj. destruct (of_key_some items j (HT j Hj)) as (i0 & l & -> & Hi). by rewrite Hkey. }
  assert (∀ j, j ≠ key i → of_key (items ++ [i]) j = of_key items j) as Hother.
  { intros j Hj. rewrite of_key_snoc, decide_False, app_nil_r by done. done. }
  destruct (decide (key i ∈ listed items)) as [Hin|Hin].
  - assert (listed (items ++ [i]) = listed items) as ->.
    { unfold listed. rewrite fmap_app. cbn [fmap list_fmap]. rewrite first_seen_snoc, decide_True by auto. done. }
    apply list_fmap_ext. intros n j Hj%list_elem_of_lookup_2. case_decide as Hjk; [|by rewrite Hother].
    rewrite of_key_snoc, decide_True by done. symmetry. apply Hupdate.
    destruct (of_key_some items j (HT j Hj)) as (i0 & l & -> & _). done.
  - assert (∀ T, T = listed items → (λ k, row (of_key items k)) <$> T = (λ k, row (of_key (items ++ [i]) k)) <$> T) as Hsame.
    { intros T ->. apply list_fmap_ext. intros n j Hj%list_elem_of_lookup_2. rewrite Hother; [done|]. congruence. }
    assert (listed (items ++ [i]) = take (Z.to_nat limit)
      (if decide (key i ∈ key <$> items) then first_seen (key <$> items) else first_seen (key <$> items) ++ [key i])) as ->.
    { unfold listed. rewrite fmap_app. cbn [fmap list_fmap]. by rewrite first_seen_snoc. }
    unfold zlen. rewrite length_fmap, !(Hsame _ eq_refl). unfold listed in *. rewrite length_take.
    destruct (Z.leb_spec limit (Z.of_nat (Z.to_nat limit `min` length (first_seen (key <$> items))))) as [Hfull|Hroom].
    + f_equal. case_decide; [done|]. by rewrite take_app_le by lia.
    + assert (length (first_seen (key <$> items)) < Z.to_nat limit)%nat by lia.
      rewrite take_ge in Hin by lia. rewrite decide_False by (by rewrite <- elem_of_first_seen).
      rewrite !take_ge by (rewrite ?length_app; cbn; lia). rewrite fmap_app. f_equal.
      cbn [fmap list_fmap]. rewrite of_key_snoc, decide_True by done.
      assert (of_key items (key i) = []) as ->; [|by rewrite app_nil_l, Hnew].
      destruct (of_key items (key i)) as [|j l] eqn:Hf; [done|]. exfalso. apply Hin. apply elem_of_first_seen.
      assert (j ∈ of_key items (key i)) as [Hk Hj]%list_elem_of_filter by (rewrite Hf; apply list_elem_of_here).
      rewrite <- Hk. by apply list_elem_of_fmap_2.
Qed.
End tally.

Lemma Forall_sub {A} (P Q : A → Prop) `{∀ x, Decision (P x)} l : Forall Q l → Forall Q (filter P l).
Proof. rewrite !Forall_forall. intros H' x [_ Hx]%list_elem_of_filter. by apply H'. Qed.

Lemma zlen_filter {A} (P : A → Prop) `{∀ x, Decision (P x)} l : zlen (filter P l) ≤ zlen l.
Proof. unfold zlen. pose proof (length_filter P l). lia. Qed.

Lemma listed_sub {K I} `{EqDecision K} (key : I → K) limit items k : k ∈ listed key limit items → k ∈ key <$> items.
Proof. intros Hk. apply elem_of_first_seen. rewrite <- (take_drop (Z.to_nat limit)). unfold listed in Hk. set_solver. Qed.

Lemma is_in_ext {R} (same same' : R → bool) u call : (∀ r, same r = same' r) → is_in same u call = is_in same' u call.
Proof. intros H. induction call as [|r call IH]; [done|]. cbn. by rewrite H, IH. Qed.

Definition sum_z (l : list Z) : Z := foldr Z.add 0 l.
Lemma sum_z_cons x l : sum_z (x :: l) = x + sum_z l.
Proof. done. Qed.
Lemma sum_z_snoc l x : sum_z (l ++ [x]) = sum_z l + x.
Proof. unfold sum_z. induction l as [|y l IH]; cbn in *; lia. Qed.
Lemma sum_z_nonneg l : Forall (λ x, 0 ≤ x) l → 0 ≤ sum_z l.
Proof. induction 1 as [|x l Hx _ IH]; [done|]. rewrite sum_z_cons. lia. Qed.

Lemma i32_small z : - 2 ^ 31 ≤ z < 2 ^ 31 → i32 z = z.
Proof. intros H. apply swrap_small; [lia|exact H]. Qed.
Lemma i32_idem z : i32 (i32 z) = i32 z.
Proof. pose proof (swrap_add 32 z 0) as H. by rewrite !Z.add_0_r in H. Qed.

(** ** The call sites *)

Module SitesFacts.
Import Sites.

(** The row of a call site: its allocations and what they add up to. *)
Definition site_row (add : user_alloc_desc → Z) (l : list user_alloc_desc) : user_call_site :=
  match l with
  | [] => CallSite 0 0 0 []
  | d :: _ => CallSite (call_site d) (i32 (zlen l)) (i32 (sum_z (add <$> l))) (function d)
  end.
Definition site_rows (add : user_alloc_desc → Z) (descs : list user_alloc_desc) : list user_call_site :=
  (λ s, site_row add (of_key call_site descs s)) <$> listed call_site CALL_SIZE descs.

Lemma sites_tally add descs : (∀ d, i32 (add d) = add d) →
  foldl (tally_add call_site c_site CALL_SIZE (λ d, new_row (add d) d) (λ d, count_row (add d))) [] descs = site_rows add descs.
Proof.
  intros Hadd. apply tally_rows; [done|..].
  - intros d. cbn. by rewrite Z.add_0_r, Hadd.
  - intros d [|d0 l] Hl; [done|]. unfold count_row. cbn [app site_row c_site c_nr c_mark_nr c_function].
    rewrite !swrap_add, app_comm_cons, fmap_app, zlen_app. cbn [fmap list_fmap].
    change (add d0 :: list_fmap _ _ add l ++ [add d]) with ((add <$> (d0 :: l)) ++ [add d]). by rewrite sum_z_snoc.
Qed.

Lemma is_in_site add (d : user_alloc_desc) call :
  is_in (λ r, c_site r =? call_site d) (count_row (add d)) call
  = is_in (λ r, bool_decide (c_site r = call_site d)) (count_row (add d)) call.
Proof. apply is_in_ext. intros r. destruct (Z.eqb_spec (c_site r) (call_site d)); by case_bool_decide. Qed.

(** *** Slab objects *)

Lemma slab_rows descs : (foldl slab_add_count ([], 0) descs).1 = site_rows marked descs.
Proof.
  rewrite <- sites_tally; [|intros d; unfold marked, bool_int; by case_match].
  induction descs as [|d descs IH] using rev_ind; [done|]. rewrite !foldl_app. cbn [foldl]. rewrite <- IH.
  destruct (foldl slab_add_count ([], 0) descs) as [call m]. cbn [fst]. unfold slab_add_count, tally_add.
  rewrite is_in_site. case_match; [done|]. by case_match.
Qed.

Lemma is_in_marks (d : user_alloc_desc) same call call' : Forall (λ r, 0 ≤ c_mark_nr r) call →
  sum_z (c_mark_nr <$> call) + 1 < 2 ^ 31 → is_in same (count_row (marked d)) call = Some call' →
  sum_z (c_mark_nr <$> call') = sum_z (c_mark_nr <$> call) + marked d ∧ Forall (λ r, 0 ≤ c_mark_nr r) call'.
Proof.
  assert (0 ≤ marked d ≤ 1) as Hm by (unfold marked, bool_int; case_match; lia).
  intros Hall. revert call'. induction Hall as [|r call Hr Hall IH]; intros call' Hsum; [done|]. cbn [is_in].
  assert (0 ≤ sum_z (c_mark_nr <$> call)) as H0 by (apply sum_z_nonneg, Forall_fmap; exact Hall).
  rewrite fmap_cons, sum_z_cons in *. destruct (same r).
  - intros [= <-]. rewrite fmap_cons, sum_z_cons. cbn [count_row c_mark_nr]. rewrite i32_small by lia.
    split; [lia|]. constructor; [|done]. cbn [count_row c_mark_nr]. rewrite i32_small; lia.
  - destruct (is_in _ _ call) as [c|]; [|done]. intros [= <-]. destruct (IH c) as [Hs Hc]; [lia|done|].
    rewrite fmap_cons, sum_z_cons, Hs. split; [lia|by constructor].
Qed.

(** [mark_nr] is the sum of the rows' marks. *)
Lemma slab_marks descs : zlen descs < 2 ^ 31 →
  let '(call, m) := foldl slab_add_count ([], 0) descs in
  m = sum_z (c_mark_nr <$> call) ∧ Forall (λ r, 0 ≤ c_mark_nr r) call ∧ 0 ≤ m ≤ zlen descs.
Proof.
  induction descs as [|d descs IH] using rev_ind; intros Hl; [done|]. rewrite foldl_app. cbn [foldl].
  rewrite zlen_app in *. change (zlen [d]) with 1 in *. specialize (IH ltac:(lia)).
  destruct (foldl slab_add_count ([], 0) descs) as [call m]. destruct IH as (Hm & Hall & Hb).
  assert (0 ≤ marked d ≤ 1) as Hd by (unfold marked, bool_int; case_match; lia). unfold slab_add_count.
  destruct (is_in _ _ call) as [call'|] eqn:Hin.
  - destruct (is_in_marks d _ _ _ Hall ltac:(lia) Hin) as [Hs Hall']. rewrite i32_small by lia. split; [lia|]. split; [done|lia].
  - destruct (CALL_SIZE <=? zlen call); [split; [done|]; split; [done|lia]|]. rewrite i32_small, fmap_app by lia. cbn [fmap list_fmap].
    rewrite sum_z_snoc. cbn [new_row c_mark_nr]. split; [lia|]. split; [|lia]. apply Forall_app. split; [done|].
    apply Forall_singleton. cbn. lia.
Qed.

(** What a row of the slab report is to say. *)
Definition slab_row (descs : list user_alloc_desc) (s : Z) : user_call_site :=
  let l := of_key call_site descs s in
  CallSite s (zlen l) (zlen (filter (λ d, mark d ≠ 0) l)) (from_option function [] (head l)).
(** What the rows are sorted by. *)
Definition weight (rows : list user_call_site) (r : user_call_site) : Z :=
  if existsb (λ r, negb (c_mark_nr r =? 0)) rows then c_mark_nr r else c_nr r.

Lemma sum_marked l : sum_z (marked <$> l) = zlen (filter (λ d, mark d ≠ 0) l).
Proof.
  induction l as [|d l IH]; [done|]. rewrite fmap_cons, sum_z_cons, IH, filter_cons. unfold marked, bool_int.
  destruct (Z.eqb_spec (mark d) 0); case_decide; try done. cbn [negb]. by rewrite zlen_cons.
Qed.

Lemma site_row_marked descs s : zlen descs < 2 ^ 31 → s ∈ call_site <$> descs →
  site_row marked (of_key call_site descs s) = slab_row descs s.
Proof.
  intros Hl Hs. destruct (of_key_some call_site descs s Hs) as (d & l & Hf & Hd). unfold slab_row. cbv zeta. rewrite Hf.
  cbn [site_row head from_option]. rewrite Hd, sum_marked.
  pose proof (zlen_filter (λ i, call_site i = s) descs) as H1. fold (of_key call_site descs s) in H1. rewrite Hf in H1.
  pose proof (zlen_filter (λ d, mark d ≠ 0) (d :: l)). pose proof (zlen_nonneg (d :: l)).
  pose proof (zlen_nonneg (filter (λ d, mark d ≠ 0) (d :: l))). by rewrite !i32_small by lia.
Qed.

Lemma slab_sort_rows descs : zlen descs < 2 ^ 31 →
  slab_sort_call_site descs ≡ₚ slab_row descs <$> listed call_site CALL_SIZE descs ∧
  StronglySorted (λ a b, weight (slab_sort_call_site descs) b ≤ weight (slab_sort_call_site descs) a) (slab_sort_call_site descs).
Proof.
  intros Hl. pose proof (slab_marks descs Hl) as Hm. pose proof (slab_rows descs) as Hr. unfold slab_sort_call_site.
  destruct (foldl slab_add_count ([], 0) descs) as [call m]. destruct Hm as (Hm & Hall & _). cbn [fst] in Hr. split.
  - rewrite qsort_perm, Hr. unfold site_rows. erewrite list_fmap_ext; [done|]. intros i s Hs%list_elem_of_lookup_2.
    apply site_row_marked; [done|]. by eapply listed_sub.
  - set (rows := qsort _ call).
    assert (existsb (λ r, negb (c_mark_nr r =? 0)) rows = negb (m =? 0)) as Hex.
    { apply eq_true_iff_eq. rewrite existsb_exists, negb_true_iff, Z.eqb_neq. split.
      - intros (r & Hin & Hne%negb_true_iff%Z.eqb_neq). apply list_elem_of_In in Hin. unfold rows in Hin. rewrite qsort_perm in Hin.
        pose proof (proj1 (Forall_forall _ _) Hall r Hin) as Hr0. rewrite Hm. clear -Hin Hr0 Hne Hall.
        induction Hall as [|x l Hx Hall IH]; [by apply not_elem_of_nil in Hin|]. rewrite fmap_cons, sum_z_cons.
        assert (0 ≤ sum_z (c_mark_nr <$> l)) by (apply sum_z_nonneg, Forall_fmap; exact Hall).
        apply elem_of_cons in Hin as [->|Hin]; [lia|]. specialize (IH Hin). lia.
      - intros Hne. destruct (decide (Exists (λ r, c_mark_nr r ≠ 0) call)) as [(r & Hin & Hr0)%Exists_exists|Hno].
        + exists r. split; [|by apply negb_true_iff, Z.eqb_neq]. apply list_elem_of_In. unfold rows. by rewrite qsort_perm.
        + exfalso. apply Hne. rewrite Hm. apply not_Exists_Forall in Hno; [|apply _]. clear -Hno.
          induction Hno as [|x l Hx _ IH]; [done|]. rewrite fmap_cons, sum_z_cons, IH. cbn in Hx. apply dec_stable in Hx. lia. }
    unfold weight. rewrite Hex. unfold rows, slab_cmp. destruct (negb (m =? 0)); apply qsort_descending.
Qed.

(** *** Pages *)

Lemma page_sort_rows descs :
  page_sort_call_site descs ≡ₚ site_rows page_size descs ∧
  StronglySorted (λ a b, c_nr b ≤ c_nr a) (page_sort_call_site descs).
Proof.
  assert (foldl page_add_count [] descs = site_rows page_size descs) as Hrows.
  { rewrite <- sites_tally by (intros d; apply i32_idem). induction descs as [|d descs IH] using rev_ind; [done|].
    rewrite !foldl_app. cbn [foldl]. rewrite <- IH. unfold page_add_count, tally_add. by rewrite is_in_site. }
  unfold page_sort_call_site. rewrite Hrows. split; [apply qsort_perm|apply qsort_descending].
Qed.

(** *** A run *)

Lemma get_result_first ioctl descs n : ∀ try_ m res, (n ≤ try_)%nat →
  (∀ i res, (i < n)%nat → (ioctl (m + i)%nat res).1 ≠ 0) → (∀ res, ioctl (m + n)%nat res = (0, descs)) →
  get_result try_ ioctl m res = descs.
Proof.
  induction n as [|n IH]; intros try_ m res Hn Hno Hyes.
  - rewrite Nat.add_0_r in Hyes. destruct try_; cbn [get_result]; by rewrite Hyes.
  - destruct try_ as [|try_]; [lia|]. pose proof (Hno 0%nat res ltac:(lia)) as H0. rewrite Nat.add_0_r in H0. cbn [get_result].
    destruct (ioctl m res) as [ret res']. cbn in H0. rewrite (proj2 (Z.eqb_neq _ _) H0). cbn [negb].
    apply IH; [lia| |]; intros; rewrite Nat.add_succ_comm; [apply Hno; lia|apply Hyes].
Qed.

(** C28: when the kernel gives the list of unfreed objects within the ten
    retries, [slab_main] reports all of them and sums them up by call site: one
    row for each of the first 1000 distinct call sites, with the number of its
    objects, how many of them the kernel marked and the function of the first.
    The rows are in descending order of the marked objects, or of all objects if
    no listed row has a marked one; the function named as the suspect is that of
    the first row; and the tracing is turned off. *)
Theorem memleak_slab_report junk ioctl n descs : (n ≤ 10)%nat → (∀ i res, (i < n)%nat → (ioctl i res).1 ≠ 0) →
  (∀ res, ioctl n res = (0, descs)) → zlen descs < 2 ^ 31 →
  ∃ rows, slab_main junk 0 ioctl = Report descs rows (Some (suspect junk rows)) true ∧
    rows ≡ₚ slab_row descs <$> take 1000 (first_seen (call_site <$> descs)) ∧
    StronglySorted (λ a b, weight rows b ≤ weight rows a) rows.
Proof.
  intros Hn Hno Hyes Hl. exists (slab_sort_call_site descs). unfold slab_main. change (negb (0 =? 0)) with false. cbv iota zeta.
  rewrite (get_result_first ioctl descs n) by done. split; [done|]. exact (slab_sort_rows descs Hl).
Qed.

Definition s_desc (site mark : Z) (f : string) : user_alloc_desc := AllocDesc 7 mark 0 4096 (lit "app") (lit f) site 9 [].
Definition s_descs : list user_alloc_desc :=
  [s_desc 100 0 "kmem_a"; s_desc 200 1 "kmem_b"; s_desc 100 0 "kmem_a"; s_desc 100 1 "kmem_a"; s_desc 200 5 "kmem_b"].
Lemma memleak_slab_report_witness : ∃ rows,
  slab_main [] 0 (λ i _, if (i <? 2)%nat then (-1, []) else (0, s_descs)) = Report s_descs rows (Some (suspect [] rows)) true ∧
    rows ≡ₚ slab_row s_descs <$> take 1000 (first_seen (call_site <$> s_descs)) ∧
    StronglySorted (λ a b, weight rows b ≤ weight rows a) rows.
Proof.
  apply (memleak_slab_report [] _ 2); [lia| |done|by vm_compute].
  intros i res Hi. rewrite (proj2 (Nat.ltb_lt _ _) Hi). done.
Defined.

(** Of the sites 100 (three objects, one marked) and 200 (two, both marked) the
    second is the suspect. *)
Example slab_suspect :
  (λ r, (c_site r, c_nr r, c_mark_nr r)) <$> slab_sort_call_site s_descs = [(200, 2, 2); (100, 3, 1)].
Proof. by vm_compute. Qed.

(** A page of order 0, 4 KB, is reported as 8 KB: the shift starts from 2. *)
Example page_counts_double : (λ r, c_mark_nr r * 4) <$> page_sort_call_site [s_desc 1 0 "alloc"] = [8].
Proof. by vm_compute. Qed.
(** When the kernel never gives a result, 5000 empty objects are reported. *)
Example slab_without_result : (λ r, (c_nr r, c_function r)) <$> r_rows (slab_main [] 0 (λ _ res, (-1, res))) = [(5000, [])].
Proof. by vm_compute. Qed.
End SitesFacts.

(** ** The functions of [/proc/vmallocinfo] *)

Module VmallocFacts.
Import Vmalloc.

(** An area as the kernel prints it: addresses, size, caller, flags. *)
Record area := Area { a_addr : list Z; a_blanks : nat; a_size : Z; a_func : list Z; a_rest : list Z }.
Definition area_line (a : area) : list Z :=
  a_addr a ++ 32 :: replicate (a_blanks a) 32 ++ fmt_llu (a_size a) ++ 32 :: a_func a ++ 32 :: a_rest a.
Definition is_word (w : list Z) : Prop := w ≠ [] ∧ Forall (λ c, isspace c = false) w.
Definition area_ok (a : area) : Prop :=
  is_word (a_addr a) ∧ is_word (a_func a) ∧ 0 ≤ a_size a < 2 ^ 31 ∧
  (10 ∉ area_line a) ∧ (0 ∉ area_line a) ∧ (length (area_line a) < 511)%nat.
Definition info_text (l : list area) : list Z := concat ((λ l, l ++ [10]) <$> (area_line <$> l)).
(** The areas that count: the line says [vmalloc], the size is not 0. *)
Definition counted (a : area) : Prop := contains (area_line a ++ [10]) (lit "vmalloc") = true ∧ 0 < a_size a.
#[global] Instance counted_dec a : Decision (counted a).
Proof. unfold counted. apply _. Defined.

Lemma scan_word_app w c s : is_word w → isspace c = true → scan_word (w ++ c :: s) = Some (w, c :: s).
Proof.
  intros [Hne Hw] Hc. unfold scan_word. assert (skip_space (w ++ c :: s) = w ++ c :: s) as ->.
  { destruct w as [|x w]; [done|]. cbn. by rewrite (Forall_inv Hw). }
  assert (token (w ++ c :: s) = w) as ->.
  { clear Hne. induction Hw as [|x w Hx _ IH]; cbn; [by rewrite Hc|]. rewrite Hx. by f_equal. }
  destruct w as [|x w]; [done|]. by rewrite drop_app_length.
Qed.

Lemma scan_word_blanks k s : scan_word (replicate k 32 ++ s) = scan_word s.
Proof. unfold scan_word. by rewrite skip_space_blanks. Qed.

Lemma scan_area_line a : area_ok a → scan_area (area_line a ++ [10]) = Some (a_size a, a_func a).
Proof.
  intros (Ha & Hf & Hs & _). unfold scan_area, area_line. rewrite <- !app_assoc, <- !app_comm_cons.
  rewrite (scan_word_app (a_addr a)) by done. rewrite <- !app_assoc, <- !app_comm_cons, <- !app_assoc, <- !app_comm_cons.
  change (32 :: replicate (a_blanks a) 32 ++ ?s) with (replicate (S (a_blanks a)) 32 ++ s).
  rewrite scan_int_blanks by (done || lia). change (32 :: ?s) with (replicate 1 32 ++ s) at 1.
  rewrite scan_word_blanks, scan_word_app by done. by rewrite i32_small by lia.
Qed.

(** *** The table *)

Definition name (a : area) : list Z := take NAME_LEN (a_func a).
Definition sizes (l : list area) : Z := sum_z (a_size <$> l).
Definition area_row (l : list area) : vmalloc_site :=
  match l with [] => VCall [] 0 0 | a :: _ => VCall (name a) (i32 (zlen l)) (i32 (sizes l)) end.

Lemma areas_tally areas : Forall area_ok areas →
  foldl (λ call a, add_vmalloc call (a_func a) (a_size a)) [] areas
  = (λ f, area_row (of_key name areas f)) <$> listed name CALL_SIZE areas.
Proof.
  intros Hok.
  rewrite <- (tally_rows name (λ r, take NAME_LEN (funcs r)) CALL_SIZE (λ a, VCall (name a) 1 (i32 (a_size a)))
    (λ a r, VCall (funcs r) (i32 (nr r + 1)) (i32 (size r + a_size a))) area_row).
  - assert (∀ call, foldl (λ call a, add_vmalloc call (a_func a) (a_size a)) call areas
      = foldl (tally_add name (λ r, take NAME_LEN (funcs r)) CALL_SIZE (λ a, VCall (name a) 1 (i32 (a_size a)))
          (λ a r, VCall (funcs r) (i32 (nr r + 1)) (i32 (size r + a_size a)))) call areas) as H; [|apply H].
    induction Hok as [|a areas (_ & _ & Hs & _) _ IH]; intros call; [done|]. cbn [foldl]. rewrite IH. f_equal.
    unfold add_vmalloc, tally_add. by rewrite i32_small by lia.
  - intros a l. cbn. unfold name. by rewrite take_take, Nat.min_id.
  - intros a. unfold area_row, sizes. change (sum_z (a_size <$> [a])) with (a_size a + 0). by rewrite Z.add_0_r.
  - intros a [|a0 l] Hl; [done|]. unfold area_row, sizes. cbn [app funcs nr size].
    rewrite app_comm_cons, fmap_app, zlen_app, !swrap_add. cbn [fmap list_fmap]. by rewrite sum_z_snoc.
Qed.

Lemma vmalloc_lines areas : Forall area_ok areas →
  foldl vmalloc_line [] (fgets_all 511 (info_text areas))
  = foldl (λ call a, add_vmalloc call (a_func a) (a_size a)) [] (filter counted areas).
Proof.
  intros Hok. unfold info_text. rewrite fgets_all_lines.
  2:{ apply Forall_fmap. eapply Forall_impl; [exact Hok|]. intros a (_ & _ & _ & ? & ? & ?). done. }
  generalize (@nil vmalloc_site). induction Hok as [|a areas Ha _ IH]; intros call; [done|].
  rewrite !fmap_cons. cbn [foldl]. rewrite IH, filter_cons. unfold vmalloc_line.
  rewrite (scan_area_line a Ha). destruct (contains (area_line a ++ [10]) (lit "vmalloc")) eqn:Hc; cbn [negb].
  - destruct (Z.leb_spec (a_size a) 0); [rewrite decide_False by (unfold counted; intros [_ ?]; lia); done|].
    by rewrite decide_True by (by split).
  - rewrite decide_False by (unfold counted; intros [? _]; congruence). done.
Qed.

Lemma total_kb_sum call : total_kb call = u32 (sum_z ((λ r, Z.shiftr (size r) 10) <$> call)).
Proof.
  unfold total_kb. induction call as [|r call IH] using rev_ind; [done|].
  rewrite foldl_app, fmap_app. cbn [foldl fmap list_fmap]. by rewrite IH, sum_z_snoc, wrap_add.
Qed.

(** The row of a function: its areas and their bytes. *)
Definition func_row (areas : list area) (f : list Z) : vmalloc_site :=
  let l := of_key name areas f in VCall f (zlen l) (sizes l).

(** Of the text of [/proc/vmallocinfo] the tool makes one row for each of
    the first 200 functions (told apart by their first 128 bytes) that have
    [vmalloc] areas of a positive size: how many areas and how many bytes, as
    long as these fit in an [int], in descending order of the bytes. It returns
    the sum of the rows' kilobytes and prints the rows of a megabyte or more. *)
Lemma vmalloc_table argc areas : Forall area_ok areas → zlen areas < 2 ^ 31 →
  (∀ f, sizes (of_key name (filter counted areas) f) < 2 ^ 31) →
  ∃ rows, vmalloc_main argc (Some (info_text areas)) []
      = (rows, if negb (argc =? 0) then printed rows else [], i32 (sum_z ((λ r, size r / 1024) <$> rows))) ∧
    rows ≡ₚ func_row (filter counted areas) <$> take 200 (first_seen (name <$> filter counted areas)) ∧
    StronglySorted (λ a b, size b ≤ size a) rows ∧
    printed rows = (λ r, (nr r, size r / 2 ^ 20, funcs r)) <$> filter (λ r, 2 ^ 20 ≤ size r) rows.
Proof.
  intros Hok Hlen Hfit. set (counts := filter counted areas) in *.
  assert (Forall area_ok counts) as Hok' by (by apply Forall_sub).
  exists (qsort cmp (foldl vmalloc_line [] (fgets_all 511 (info_text areas)))). unfold vmalloc_main. cbv zeta.
  rewrite (vmalloc_lines areas Hok). fold counts. rewrite (areas_tally counts Hok').
  assert ((λ f, area_row (of_key name counts f)) <$> listed name CALL_SIZE counts
    = func_row counts <$> take 200 (first_seen (name <$> counts))) as ->.
  { apply list_fmap_ext. intros i f Hf%list_elem_of_lookup_2.
    destruct (of_key_some name counts f (listed_sub name CALL_SIZE counts f Hf)) as (a & l & Hl & Ha).
    unfold func_row. cbv zeta. specialize (Hfit f). rewrite Hl in *. cbn [area_row]. rewrite Ha.
    assert (Forall area_ok (a :: l)) as Hal by (rewrite <- Hl; by apply Forall_sub).
    assert (0 ≤ sizes (a :: l)) by (apply sum_z_nonneg, Forall_fmap; eapply Forall_impl; [exact Hal|]; intros b (_ & _ & ? & _); cbn; lia).
    assert (zlen (a :: l) ≤ zlen areas) by (rewrite <- Hl; etrans; apply zlen_filter).
    pose proof (zlen_nonneg (a :: l)). by rewrite !i32_small by lia. }
  set (rows := qsort cmp _).
  assert (Forall (λ r, 0 ≤ size r) rows) as Hpos.
  { unfold rows. rewrite qsort_perm. apply Forall_fmap. apply Forall_forall. intros f _. cbn. apply sum_z_nonneg, Forall_fmap.
    apply Forall_sub. eapply Forall_impl; [exact Hok'|]. intros b (_ & _ & ? & _). cbn. lia. }
  split; [|split; [apply qsort_perm|split; [apply qsort_descending|]]].
  - rewrite total_kb_sum, swrap_wrap. do 2 f_equal. apply f_equal, list_fmap_ext. intros i r _. by rewrite Z.shiftr_div_pow2.
  - unfold printed. clearbody rows. induction Hpos as [|r rows Hr _ IH]; [done|]. rewrite !filter_cons, Z.shiftr_div_pow2 by done.
    destruct (decide (2 ^ 20 ≤ size r)) as [H|H].
    + rewrite decide_True, !fmap_cons by (Z.div_mod_to_equations; lia). rewrite Z.shiftr_div_pow2 by done. by f_equal.
    + rewrite decide_False; [done|]. intros Hn. apply Hn. apply Z.div_small. lia.
Qed.

Lemma sizes_of_key areas f : Forall (λ a, 0 ≤ a_size a) areas → sizes (of_key name areas f) ≤ sizes areas.
Proof.
  unfold sizes, of_key. induction 1 as [|a l Ha _ IH]; [done|]. rewrite filter_cons.
  case_decide; rewrite !fmap_cons, !sum_z_cons; lia.
Qed.

Definition s_area (addr : string) (sz : Z) (f rest : string) : area := Area (lit addr) 2 sz (lit f) (lit rest).
Definition s_areas : list area :=
  [s_area "0xa-0xb" 8192 "alloc_a+0x1/0x2" "pages=1 vmalloc N0=1"; s_area "0xb-0xc" 3145728 "alloc_b+0x3/0x4" "pages=767 vmalloc";
   s_area "0xc-0xd" 4096 "map_c+0x5/0x6" "phys=1 ioremap"; s_area "0xd-0xe" 4096 "alloc_a+0x1/0x2" "pages=0 vmalloc"].
Example vmalloc_table_sample : ∃ rows, vmalloc_main 1 (Some (info_text s_areas)) []
      = (rows, if negb (1 =? 0) then printed rows else [], i32 (sum_z ((λ r, size r / 1024) <$> rows))) ∧
    rows ≡ₚ func_row (filter counted s_areas) <$> take 200 (first_seen (name <$> filter counted s_areas)) ∧
    StronglySorted (λ a b, size b ≤ size a) rows ∧
    printed rows = (λ r, (nr r, size r / 2 ^ 20, funcs r)) <$> filter (λ r, 2 ^ 20 ≤ size r) rows.
Proof.
  apply (vmalloc_table 1).
  - unfold s_areas. each_element ltac:(unfold area_ok, is_word; split_and!; by_compute).
  - by vm_compute.
  - intros f. apply Z.le_lt_trans with (sizes (filter counted s_areas)); [|by vm_compute].
    apply sizes_of_key. by_compute.
Qed.

(** Two areas of 1.5 GB of one function: the sum does not fit in an [int], the
    row that is printed and the result are negative. *)
Example vmalloc_wraps :
  vmalloc_main 1 (Some (info_text [s_area "0xa-0xb" 1610612736 "f" "vmalloc"; s_area "0xb-0xc" 1610612736 "f" "vmalloc"])) []
  = ([VCall (lit "f") 2 (-1073741824)], [(2, -1024, lit "f")], -1048576).
Proof. by vm_compute. Qed.
End VmallocFacts.
