(* ===== verification/MemleakCheck.v ===== *)
(** * MemleakCheck: the verdict of the quick check

    What rounding a product of doubles and comparing doubles mean for integers,
    and with it the verdict of [memleak -c] in terms of the numbers the kernel
    prints in [/proc/meminfo] and [/proc/vmallocinfo]. *)

From Stdlib Require Import SpecFloat.
From S2P Require Import Prelude CString CFloat TsarRecord TsarStat TsarModules TsarCollect Memleak MemleakFacts.

(** ** Doubles *)

Abbreviation normal m := (2 ^ 52 ≤ Z.pos m < 2 ^ 53).

Lemma normal_digits m : normal m ↔ Z.pos (digits2_pos m) = 53.
Proof.
  pose proof (digits2_pos_bounds m) as Hb. set (k := Z.pos (digits2_pos m)) in *. split; intros H.
  - destruct (Z.lt_total k 53) as [Hk|[Hk|Hk]]; [|done|]; exfalso.
    + pose proof (Z.pow_le_mono_r 2 k 52 ltac:(lia) ltac:(lia)). lia.
    + pose proof (Z.pow_le_mono_r 2 53 (k - 1) ltac:(lia) ltac:(lia)). lia.
  - rewrite H in Hb. exact Hb.
Qed.

(** Normal numbers are compared by their values. *)
Lemma normal_lt m1 e1 m2 e2 k : normal m1 → normal m2 → k ≤ e1 → k ≤ e2 →
  dlt (S754_finite false m1 e1) (S754_finite false m2 e2) = (Z.pos m1 * 2 ^ (e1 - k) <? Z.pos m2 * 2 ^ (e2 - k)).
Proof.
  intros H1 H2 Hk1 Hk2. unfold SFltb, SFcompare.
  assert (∀ a b x y, normal x → normal y → k ≤ a → a < b → Z.pos x * 2 ^ (a - k) < Z.pos y * 2 ^ (b - k)) as Hlt.
  { intros a b x y Hx Hy Ha Hab. replace (b - k) with ((a - k) + 1 + (b - a - 1)) by lia.
    rewrite !Z.pow_add_r by lia. change (2 ^ 1) with 2.
    assert (0 < 2 ^ (a - k)) by (apply Z.pow_pos_nonneg; lia). assert (0 < 2 ^ (b - a - 1)) by (apply Z.pow_pos_nonneg; lia).
    assert (Z.pos x * 2 ^ (a - k) < 2 ^ 53 * 2 ^ (a - k)) by (apply Z.mul_lt_mono_pos_r; lia).
    assert (2 ^ 53 * 2 ^ (a - k) ≤ Z.pos y * (2 ^ (a - k) * 2)) by nia. nia. }
  destruct (Z.compare_spec e1 e2) as [->|H|H].
  - assert (0 < 2 ^ (e2 - k)) by (apply Z.pow_pos_nonneg; lia). change (Pos.compare_cont Eq m1 m2) with (Pos.compare m1 m2).
    destruct (Pos.compare_spec m1 m2) as [->|H'|H']; symmetry; [apply Z.ltb_ge|apply Z.ltb_lt|apply Z.ltb_ge]; nia.
  - symmetry. apply Z.ltb_lt. by apply Hlt.
  - symmetry. apply Z.ltb_ge. apply Z.lt_le_incl. by apply Hlt.
Qed.

(** A positive integer as a double. *)
Lemma of_int_normal z : 0 < z < 2 ^ 53 → ∃ m d, of_int z = S754_finite false m (- d) ∧ 0 ≤ d ∧ normal m ∧ Z.pos m = z * 2 ^ d.
Proof.
  intros Hz. destruct z as [|p|p]; [lia| |lia]. destruct (of_int_pos false p ltac:(lia)) as (m & d & Hm & Hd & Hv & Hb).
  exists m, d. split_and!; [exact Hm|done|..|done]; apply normal_digits.
  all: apply andb_true_iff in Hb as [Hc%Z.eqb_eq _]; unfold fexp, emin in Hc.
  all: pose proof (digits2_pos_bounds m) as Hdm; set (k := Z.pos (digits2_pos m)) in *.
  all: destruct (Z_le_gt_dec (3 - 1024 - 53) (k - d - 53)); [lia|exfalso].
  all: assert (d = 1074) as -> by lia; assert (k < 1074) by lia.
  all: pose proof (Z.pow_le_mono_r 2 k 1074 ltac:(lia) ltac:(lia)); lia.
Qed.

(** Shifting right, without the bits that are lost. *)
Lemma shr_1_m a r s : 0 ≤ a → shr_m (shr_1 (SpecFloat.Build_shr_record a r s)) = a / 2.
Proof. intros Ha. destruct a as [|[p|p|]|p]; [done| | |done|lia]; cbn; rewrite <- Z.div2_div; done. Qed.

Lemma iter_shr_m p : ∀ rec, 0 ≤ shr_m rec →
  shr_m (SpecFloat.iter_pos shr_1 p rec) = shr_m rec / 2 ^ Z.pos p.
Proof.
  induction p as [p IH|p IH|]; intros [a r s] Ha; cbn [SpecFloat.iter_pos].
  - assert (0 ≤ shr_m (shr_1 (SpecFloat.Build_shr_record a r s))) as H1
      by (rewrite shr_1_m by done; apply Z.div_pos; cbn in Ha; lia).
    assert (0 < 2 ^ Z.pos p) by (apply Z.pow_pos_nonneg; lia).
    rewrite IH by (rewrite IH by done; apply Z.div_pos; lia). rewrite IH, shr_1_m by done. cbn [shr_m] in *.
    rewrite !Z.div_div by lia. f_equal. replace (Z.pos p~1) with (1 + Z.pos p + Z.pos p) by lia.
    rewrite !Z.pow_add_r by lia. change (2 ^ 1) with 2. lia.
  - assert (0 < 2 ^ Z.pos p) by (apply Z.pow_pos_nonneg; lia).
    rewrite IH by (rewrite IH by done; apply Z.div_pos; cbn in *; lia). rewrite IH by done. cbn [shr_m] in *.
    rewrite Z.div_div by lia. f_equal. rewrite Pos2Z.inj_xO, <- Z.pow_add_r by lia. f_equal. lia.
  - by apply shr_1_m.
Qed.

Lemma round_nearest_cases q l : round_nearest_even q l = q ∨ round_nearest_even q l = q + 1.
Proof. destruct l as [|[| |]]; cbn; auto. destruct (Z.even q); auto. Qed.

Lemma fexp_normal e : - 1021 ≤ e → fexp 53 1024 e = e - 53.
Proof. unfold fexp, emin. lia. Qed.

Lemma digits_at m n : 0 ≤ n → 2 ^ (52 + n) ≤ Z.pos m < 2 ^ (53 + n) → Z.pos (digits2_pos m) = 53 + n.
Proof.
  intros Hn H. rewrite digits2_pos_log2. rewrite (Z.log2_unique (Z.pos m) (52 + n)); [lia|lia|].
  by replace (Z.succ (52 + n)) with (53 + n) by lia.
Qed.

(** A positive number that is too long by [n] bits is rounded to one of its two
    neighbours. *)
Lemma round_neighbours P e n : 0 < n → 2 ^ (52 + n) ≤ Z.pos P < 2 ^ (53 + n) → - 1074 ≤ e + n < 971 →
  ∃ m e', binary_round_aux 53 1024 false (Z.pos P) e loc_Exact = S754_finite false m e' ∧ normal m ∧ e + n ≤ e' ∧
    Z.pos P / 2 ^ n ≤ Z.pos m * 2 ^ (e' - (e + n)) ≤ Z.pos P / 2 ^ n + 1.
Proof.
  intros Hn HP He. destruct n as [|p|p]; [lia| |lia]. set (n := Z.pos p) in *.
  assert (0 < 2 ^ n) as H2 by (apply Z.pow_pos_nonneg; lia).
  assert (2 ^ 52 ≤ Z.pos P / 2 ^ n < 2 ^ 53) as Hq.
  { rewrite !Z.pow_add_r in HP by lia. split; [apply Z.div_le_lower_bound|apply Z.div_lt_upper_bound]; lia. }
  unfold binary_round_aux. unfold shr_fexp at 1. cbn [Zdigits2]. rewrite (digits_at P n ltac:(lia) HP), fexp_normal by lia.
  replace (53 + n + e - 53 - e) with n by lia. unfold n at 1. cbn [shr shr_record_of_loc]. fold n.
  set (rec := SpecFloat.iter_pos shr_1 p _). assert (shr_m rec = Z.pos P / 2 ^ n) as -> by (by apply iter_shr_m).
  set (q := Z.pos P / 2 ^ n) in *. set (q' := round_nearest_even q (loc_of_shr_record rec)).
  assert (q' = q ∨ q' = q + 1) as Hq' by apply round_nearest_cases. clearbody q'.
  destruct (decide (q' < 2 ^ 53)) as [Hsmall|Hbig].
  - destruct q' as [|m|m]; [lia| |lia]. unfold shr_fexp. cbn [Zdigits2].
    rewrite (digits_at m 0 ltac:(lia) ltac:(cbn; lia)), fexp_normal by lia. replace (53 + 0 + (e + n) - 53 - (e + n)) with 0 by lia.
    cbn [shr shr_record_of_loc shr_m]. rewrite (proj2 (Z.leb_le _ _)) by lia. exists m, (e + n).
    split; [done|]. split; [lia|]. split; [lia|]. rewrite Z.sub_diag. change (2 ^ 0) with 1. lia.
  - assert (q' = 2 ^ 53) as -> by lia. unfold shr_fexp. change (Zdigits2 (2 ^ 53)) with 54. rewrite fexp_normal by lia.
    replace (54 + (e + n) - 53 - (e + n)) with 1 by lia. cbn [shr shr_record_of_loc SpecFloat.iter_pos].
    rewrite shr_1_m by done. change (2 ^ 53 / 2) with (Z.pos (2 ^ 52)). rewrite (proj2 (Z.leb_le _ _)) by lia.
    exists (2 ^ 52)%positive, (e + n + 1). split; [done|]. split; [done|]. split; [lia|].
    replace (e + n + 1 - (e + n)) with 1 by lia. change (Z.pos (2 ^ 52) * 2 ^ 1) with (2 ^ 53). lia.
Qed.

(** The same as numbers: [10 * 7205759403792794 = 2 ^ 56 + 4]. *)
Lemma tenth_quotient total used d n D Q : 0 < total → 0 < used → 22 ≤ d → 52 ≤ n ≤ 53 → D = d + 56 - n → total * 2 ^ d < 2 ^ 53 →
  total * 2 ^ d * 7205759403792794 / 2 ^ n ≤ Q ≤ total * 2 ^ d * 7205759403792794 / 2 ^ n + 1 →
  Q < used * 2 ^ D ↔ total < 10 * used.
Proof.
  intros Ht Hu Hd Hn HD Hm HQ. set (P := total * 2 ^ d * 7205759403792794) in *. set (q := P / 2 ^ n) in *.
  assert (2 ^ 52 ≤ 2 ^ n) as Hpn by (apply Z.pow_le_mono_r; lia). assert (2 ^ 25 ≤ 2 ^ D) as HpD by (apply Z.pow_le_mono_r; lia).
  assert (2 ^ d * 2 ^ 56 = 2 ^ D * 2 ^ n) as Hp by (rewrite <- !Z.pow_add_r by lia; f_equal; lia).
  assert (10 * P = total * (2 ^ D * 2 ^ n) + 4 * (total * 2 ^ d)) as HP.
  { rewrite <- Hp. unfold P. change (2 ^ 56) with 72057594037927936. ring. }
  assert (q * 2 ^ n ≤ P < (q + 1) * 2 ^ n) as Hq.
  { pose proof (Z.div_mod P (2 ^ n) ltac:(lia)). pose proof (Z.mod_pos_bound P (2 ^ n) ltac:(lia)). unfold q. lia. }
  split; intros H.
  - destruct (decide (total < 10 * used)) as [|Hge]; [done|]. exfalso.
    assert (used * (2 ^ D * 2 ^ n) ≤ P) as H1 by nia. assert (used * 2 ^ D ≤ q) as H2; [|lia].
    apply Z.div_le_lower_bound; [lia|]. nia.
  - destruct (decide (Q < used * 2 ^ D)) as [|Hge]; [done|]. exfalso.
    assert (used * 2 ^ D * 2 ^ n ≤ (q + 1) * 2 ^ n) as H1 by nia.
    assert ((total + 1) * (2 ^ D * 2 ^ n) ≤ 10 * (used * 2 ^ D * 2 ^ n)) as H2 by nia.
    assert (2 ^ D * 2 ^ n ≤ 18 * 2 ^ n) as H3 by (change (2 ^ 53) with (2 * 2 ^ 52) in *; lia).
    assert (18 * 2 ^ n < 2 ^ D * 2 ^ n) by (apply Z.mul_lt_mono_pos_r; lia). lia.
Qed.

(** [used > total * 0.1] on doubles is [10 * used > total] on the integers. *)
Lemma tenth_lt total used : 0 ≤ total < 2 ^ 31 → - 2 ^ 31 ≤ used < 2 ^ 31 →
  dlt (dmul (of_int total) d_tenth) (of_int used) = (total <? 10 * used).
Proof.
  intros Ht Hu. destruct (decide (total = 0)) as [->|Hne].
  { change (dmul (of_int 0) d_tenth) with (S754_zero false). destruct (decide (0 < used)) as [Hpos|Hneg].
    - destruct (of_int_normal used ltac:(lia)) as (m & d & -> & _). cbn. symmetry. apply Z.ltb_lt. lia.
    - rewrite (proj2 (Z.ltb_ge _ _)) by lia. destruct used as [|p|p]; [done|lia|].
      unfold of_int, binary_normalize. destruct (of_int_pos true p ltac:(lia)) as (m' & d & -> & _). done. }
  destruct (of_int_normal total ltac:(lia)) as (mt & d & -> & Hd & Hnt & Hmt). unfold d_tenth. cbn [SFmul xorb].
  set (C := 7205759403792794%positive) in *.
  assert (22 ≤ d ≤ 52) as Hdb.
  { split.
    - destruct (decide (d < 22)) as [H|]; [|lia]. pose proof (Z.pow_le_mono_r 2 d 21 ltac:(lia) ltac:(lia)).
      exfalso. assert (total * 2 ^ d < 2 ^ 31 * 2 ^ 21) by nia. change (2 ^ 31 * 2 ^ 21) with (2 ^ 52) in *. lia.
    - destruct (decide (52 < d)) as [H|]; [|lia]. pose proof (Z.pow_le_mono_r 2 53 d ltac:(lia) ltac:(lia)). exfalso. nia. }
  assert (∃ n, (n = 52 ∨ n = 53) ∧ 2 ^ (52 + n) ≤ Z.pos (mt * C) < 2 ^ (53 + n)) as (n & Hn & HP).
  { rewrite Pos2Z.inj_mul. unfold C. destruct (decide (Z.pos mt * 7205759403792794 < 2 ^ 105)) as [H|H].
    - exists 52. split; [auto|]. change (2 ^ (53 + 52)) with (2 ^ 105). change (2 ^ (52 + 52)) with (2 ^ 52 * 2 ^ 52). lia.
    - exists 53. split; [auto|]. change (2 ^ (52 + 53)) with (2 ^ 105). change (2 ^ (53 + 53)) with (2 ^ 53 * 2 ^ 53). lia. }
  destruct (round_neighbours (mt * C) (- d + -56) n) as (m & e' & -> & Hm & He' & Hq); [lia|done|lia|].
  destruct (decide (0 < used)) as [Hpos|Hneg].
  2:{ rewrite (proj2 (Z.ltb_ge _ _)) by lia. destruct used as [|p|p]; [done|lia|].
      unfold of_int, binary_normalize. destruct (of_int_pos true p ltac:(lia)) as (m' & d' & -> & _). done. }
  destruct (of_int_normal used ltac:(lia)) as (mu & du & -> & Hdu & Hnu & Hmu).
  set (E := - d + -56 + n) in *. set (k := Z.min E (- du)).
  rewrite (normal_lt m e' mu (- du) k) by (done || lia).
  apply eq_true_iff_eq. rewrite !Z.ltb_lt.
  rewrite <- (tenth_quotient total used d n (d + 56 - n) (Z.pos m * 2 ^ (e' - E))); [|lia|lia|lia|lia|done|lia|].
  2:{ rewrite Pos2Z.inj_mul, Hmt in Hq. unfold C in Hq. exact Hq. }
  assert (0 < 2 ^ (E - k)) by (apply Z.pow_pos_nonneg; lia).
  replace (2 ^ (e' - k)) with (2 ^ (e' - E) * 2 ^ (E - k)) by (rewrite <- Z.pow_add_r by lia; f_equal; lia).
  assert (Z.pos mu * 2 ^ (- du - k) = used * 2 ^ (d + 56 - n) * 2 ^ (E - k)) as ->.
  { rewrite Hmu, <- !Z.mul_assoc, <- !Z.pow_add_r by lia. do 2 f_equal. lia. }
  rewrite Z.mul_assoc. split; intros H'; [by apply Z.mul_lt_mono_pos_r in H'|by apply Z.mul_lt_mono_pos_r].
Qed.

Lemma of_int_lt a b : 0 < a < 2 ^ 53 → - 2 ^ 53 < b < 2 ^ 53 → dlt (of_int a) (of_int b) = (a <? b).
Proof.
  intros Ha Hb. destruct (of_int_normal a Ha) as (ma & da & -> & Hda & Hna & Hma). destruct (decide (0 < b)) as [Hpos|Hneg].
  - destruct (of_int_normal b ltac:(lia)) as (mb & db & -> & Hdb & Hnb & Hmb).
    rewrite (normal_lt ma (- da) mb (- db) (- da - db)) by (done || lia). apply eq_true_iff_eq. rewrite !Z.ltb_lt, Hma, Hmb.
    replace (- da - (- da - db)) with db by lia. replace (- db - (- da - db)) with da by lia.
    assert (0 < 2 ^ da * 2 ^ db) by (apply Z.mul_pos_pos; apply Z.pow_pos_nonneg; lia).
    rewrite <- !Z.mul_assoc, (Z.mul_comm (2 ^ db)). split; intros H'; [by apply Z.mul_lt_mono_pos_r in H'|by apply Z.mul_lt_mono_pos_r].
  - rewrite (proj2 (Z.ltb_ge _ _)) by lia. destruct b as [|p|p]; [done|lia|].
    unfold of_int, binary_normalize. destruct (of_int_pos true p ltac:(lia)) as (m' & d' & -> & _). done.
Qed.

(** ** The verdict *)

Module CheckFacts.
Import Check.

(** What counts as a leak of [total] kilobytes: 6 GB, or more than a tenth of
    the memory and than 1.5 GB. *)
Definition leak (total used : Z) : bool :=
  (6 * 2 ^ 20 <=? used) || ((total <? 10 * used) && (3 * 2 ^ 19 <? used)).

Lemma check_memleak_leak total used : 0 ≤ total < 2 ^ 31 → - 2 ^ 31 ≤ used < 2 ^ 31 →
  check_memleak total used = leak total used.
Proof. intros Ht Hu. unfold check_memleak, leak. by rewrite tenth_lt, of_int_lt by lia. Qed.

(** The numbers of the files. *)
Record sizes_kb := SizesKb { k_total : Z; k_pages : Z; k_slab : Z; k_vmalloc : Z }.
(** 1 GB pages: [nr] of them, or no such file. *)
Definition huge_text (nr : option Z) : option (list Z) := (λ n, fmt_llu n ++ [10]) <$> nr.
(** Memory that no other number accounts for, the [vmalloc] areas aside. *)
Definition kernel_kb (m : list entry) (huge : option Z) : Z :=
  let v := value m in
  v "MemTotal" - v "MemFree" - v "Active" - v "Inactive" - v "Mlocked" - v "Slab"
  - (if v "Hugepagesize" =? 2048 then v "HugePages_Total" * 2048 else 0) - default 0 huge * 2 ^ 20.
Definition vmalloc_kb (areas : list VmallocFacts.area) : Z :=
  let counts := filter VmallocFacts.counted areas in
  sum_z ((λ f, VmallocFacts.sizes (of_key VmallocFacts.name counts f) / 1024) <$>
         take 200 (first_seen (VmallocFacts.name <$> counts))).
Definition spec_sizes (m : list entry) (huge : option Z) (areas : list VmallocFacts.area) : sizes_kb :=
  let kernel := if kernel_kb m huge <? 0 then 1024 else kernel_kb m huge in
  let vm := vmalloc_kb areas in
  SizesKb (value m "MemTotal") (if kernel <? vm then 1 else kernel - vm) (value m "SUnreclaim") vm.
Definition spec_verdict (k : sizes_kb) : verdict :=
  if leak (k_total k) (k_pages k) then PageLeak
  else if leak (k_total k) (k_slab k) then SlabLeak
  else if leak (k_total k) (k_vmalloc k) then VmallocLeak
  else NoLeak.

Lemma sum_z_perm l k : l ≡ₚ k → sum_z l = sum_z k.
Proof. induction 1; rewrite ?sum_z_cons in *; lia. Qed.

Lemma vmalloc_kb_rows rows areas :
  rows ≡ₚ VmallocFacts.func_row (filter VmallocFacts.counted areas) <$>
    take 200 (first_seen (VmallocFacts.name <$> filter VmallocFacts.counted areas)) →
  sum_z ((λ r, Vmalloc.size r / 1024) <$> rows) = vmalloc_kb areas.
Proof. intros Hrows. rewrite (sum_z_perm _ _ (fmap_Permutation _ _ _ Hrows)). by rewrite <- list_fmap_compose. Qed.

Lemma read_hugepages huge : (∀ n, huge = Some n → 0 ≤ n < 2048) → read_hugepage1G (huge_text huge) = default 0 huge.
Proof.
  intros Hh. destruct huge as [n|]; [|done]. specialize (Hh n eq_refl). cbn [huge_text fmap option_fmap option_map default].
  unfold read_hugepage1G.
  replace (fmt_llu n ++ [10]) with (concat ((λ l, l ++ [10]) <$> [fmt_llu n])) by (cbn; by rewrite app_nil_r).
  rewrite fgets_all_lines.
  - cbn [fmap list_fmap]. assert (is_u64 n) as Hn by (unfold is_u64; lia). pose proof (scan_ull_blanks 0 n [10] Hn ltac:(done)) as H.
    cbn [replicate app] in H. rewrite H. by rewrite i32_small by (unfold id; lia).
  - apply Forall_singleton. split; [apply fmt_llu_notin; lia|]. split; [apply fmt_llu_notin; lia|].
    assert (length (dec_digits 20 n) ≤ 4)%nat by (apply dec_digits_length; change (10 ^ Z.of_nat 4) with 10000; lia).
    unfold fmt_llu. lia.
Qed.

(** The number of a name in a file whose numbers are small. *)
Lemma value_small m name : Forall (λ x, 0 ≤ e_val x < 2 ^ 31) m → 0 ≤ value m name < 2 ^ 31.
Proof.
  unfold value. intros Hm. assert (∀ old, 0 ≤ old < 2 ^ 31 → 0 ≤ entry_val (lit name) m old < 2 ^ 31) as H;
    [|apply H; lia].
  induction Hm as [|x m Hx _ IH]; intros old Ho; cbn [entry_val]; [lia|]. apply IH. by case_decide.
Qed.

Lemma kernel_kb_le m huge : Forall (λ x, 0 ≤ e_val x < 2 ^ 31) m → (∀ n, huge = Some n → 0 ≤ n < 2048) →
  kernel_kb m huge ≤ value m "MemTotal".
Proof.
  intros Hs Hh. unfold kernel_kb. cbv zeta.
  pose proof (value_small m "MemFree" Hs). pose proof (value_small m "Active" Hs).
  pose proof (value_small m "Inactive" Hs). pose proof (value_small m "Slab" Hs). pose proof (value_small m "HugePages_Total" Hs).
  pose proof (value_small m "Mlocked" Hs).
  assert (0 ≤ default 0 huge) by (destruct huge; [by apply Hh|done]). case_match; lia.
Qed.

Lemma read_meminfo_values m huge mem : file_ok 58 127 m → Forall (λ x, 0 ≤ e_val x < 2 ^ 31) m →
  (∀ n, huge = Some n → 0 ≤ n < 2048) →
  let mi := read_meminfo (Some (entries_text 58 m)) (huge_text huge) mem in
  tlmkb mi = value m "MemTotal" ∧ uslabkb mi = value m "SUnreclaim" ∧
  kernel mi = if kernel_kb m huge <? 0 then 1024 else kernel_kb m huge.
Proof.
  intros Hm Hs Hh mi. unfold mi, read_meminfo. rewrite (read_hugepages huge Hh).
  cbv zeta. set (st := keys_lines _ _ _).
  assert (nth 0 st 0 = value m "MemTotal") as H0 by (unfold st; named_field; done).
  assert (nth 1 st 0 = value m "MemFree") as H1 by (unfold st; named_field; done).
  assert (nth 3 st 0 = value m "SUnreclaim") as H3 by (unfold st; named_field; done).
  assert (nth 4 st 0 = value m "Active") as H4 by (unfold st; named_field; done).
  assert (nth 5 st 0 = value m "Inactive") as H5 by (unfold st; named_field; done).
  assert (nth 6 st 0 = value m "Slab") as H6 by (unfold st; named_field; done).
  assert (nth 7 st 0 = value m "HugePages_Total") as H7 by (unfold st; named_field; done).
  assert (nth 8 st 0 = value m "Hugepagesize") as H8 by (unfold st; named_field; done).
  assert (nth 9 st 0 = value m "Mlocked") as H9 by (unfold st; named_field; done).
  clearbody st. cbn [tlmkb uslabkb kernel]. rewrite H0, H1, H3, H4, H5, H6, H7, H8, H9. split; [done|]. split; [done|].
  pose proof (value_small m "MemTotal" Hs). pose proof (value_small m "MemFree" Hs). pose proof (value_small m "Active" Hs).
  pose proof (value_small m "Inactive" Hs). pose proof (value_small m "Slab" Hs). pose proof (value_small m "HugePages_Total" Hs).
  pose proof (value_small m "Mlocked" Hs).
  assert (0 ≤ default 0 huge < 2048) as Hg by (destruct huge; [by apply Hh|done]).
  assert (u64 (i32 (default 0 huge * 1024 * 1024)) = default 0 huge * 2 ^ 20) as ->.
  { rewrite i32_small by lia. rewrite wrap_small by lia. lia. }
  unfold kernel_kb. cbv zeta. destruct (Z.eqb_spec (value m "Hugepagesize") 2048) as [Hz|Hz].
  - rewrite Hz. rewrite wrap_small by lia. rewrite swrap_small by lia. done.
  - rewrite swrap_small by lia. done.
Qed.

(** C29: on the files the kernel prints, with numbers of kilobytes that fit in an
    [int], fewer than 2048 pages of 1 GB and [vmalloc] areas as in the table's
    theorem, [memleak -c] reports a leak of pages, of slab memory or of [vmalloc]
    areas, in this order, when that memory is at least 6 GB, or more than a tenth
    of all memory and more than 1.5 GB, and no leak otherwise. The test on
    doubles decides exactly that. The pages are the memory that [/proc/meminfo]
    does not account for less the [vmalloc] areas. *)
Theorem memleak_verdict m huge areas : file_ok 58 127 m → Forall (λ x, 0 ≤ e_val x < 2 ^ 31) m →
  (∀ n, huge = Some n → 0 ≤ n < 2048) → Forall VmallocFacts.area_ok areas → zlen areas < 2 ^ 31 →
  (∀ f, VmallocFacts.sizes (of_key VmallocFacts.name (filter VmallocFacts.counted areas) f) < 2 ^ 31) →
  0 ≤ vmalloc_kb areas < 2 ^ 31 - 1 →
  memleak_check (Some (entries_text 58 m)) (Some (VmallocFacts.info_text areas)) (huge_text huge)
  = spec_verdict (spec_sizes m huge areas).
Proof.
  intros Hm Hs Hh Ha Hl Hfit Hv. unfold memleak_check.
  destruct (VmallocFacts.vmalloc_table 0 areas Ha Hl Hfit) as (rows & -> & Hrows & _).
  rewrite (vmalloc_kb_rows rows areas Hrows), i32_small by lia.
  destruct (read_meminfo_values m huge zero_meminfo Hm Hs Hh) as (Ht & Hu & Hk).
  unfold memleak_check_only. cbn [fst]. rewrite Ht, Hu, Hk.
  pose proof (value_small m "MemTotal" Hs). pose proof (value_small m "SUnreclaim" Hs).
  assert (kernel_kb m huge ≤ value m "MemTotal") as Hle by (by apply kernel_kb_le).
  unfold spec_verdict, spec_sizes. cbv zeta. cbn [k_total k_pages k_slab k_vmalloc].
  set (kernel0 := if kernel_kb m huge <? 0 then 1024 else kernel_kb m huge).
  assert (0 ≤ kernel0 < 2 ^ 31) by (unfold kernel0; destruct (Z.ltb_spec (kernel_kb m huge) 0); lia).
  rewrite !(i32_small (value m _)) by lia.
  assert (i32 ((if kernel0 <? vmalloc_kb areas then i32 (vmalloc_kb areas + 1) else kernel0) - vmalloc_kb areas)
    = if kernel0 <? vmalloc_kb areas then 1 else kernel0 - vmalloc_kb areas) as ->.
  { destruct (Z.ltb_spec kernel0 (vmalloc_kb areas)); [rewrite (i32_small (_ + 1)) by lia|]; rewrite i32_small; lia. }
  rewrite !check_memleak_leak; [done|lia..| |]; [lia|]. destruct (Z.ltb_spec kernel0 (vmalloc_kb areas)); lia.
Qed.

Definition s_mem (total : Z) : list entry :=
  [s_entry "MemTotal" total " kB"; s_entry "MemFree" 1000000 " kB"; s_entry "Active" 500000 " kB"; s_entry "Inactive" 200000 " kB";
   s_entry "SUnreclaim" 300000 " kB"; s_entry "Slab" 400000 " kB"; s_entry "HugePages_Total" 0 ""; s_entry "Hugepagesize" 2048 " kB"].
Lemma memleak_verdict_witness :
  memleak_check (Some (entries_text 58 (s_mem 8000000))) (Some (VmallocFacts.info_text VmallocFacts.s_areas)) (huge_text (Some 1))
  = spec_verdict (spec_sizes (s_mem 8000000) (Some 1) VmallocFacts.s_areas).
Proof.
  apply memleak_verdict.
  - unfold s_mem. each_element ltac:(unfold entry_ok, is_u64; split_and!; first [by_compute|done]).
  - by_compute.
  - intros n [= <-]. lia.
  - unfold VmallocFacts.s_areas. each_element ltac:(unfold VmallocFacts.area_ok, VmallocFacts.is_word; split_and!; by_compute).
  - by vm_compute.
  - intros f. apply Z.le_lt_trans with (VmallocFacts.sizes (filter VmallocFacts.counted VmallocFacts.s_areas)); [|by vm_compute].
    apply VmallocFacts.sizes_of_key. by_compute.
  - by_compute.
Defined.

(** 8 GB of memory, 1 GB of it free, and 4.8 GB that nothing accounts for. *)
Example verdict_pages : spec_verdict (spec_sizes (s_mem 8000000) (Some 1) VmallocFacts.s_areas) = PageLeak.
Proof. by vm_compute. Qed.
End CheckFacts.
