(* ===== verification/Hang.v ===== *)
(** * Hang: block I/O requests that never complete

    The tool [tools/combine/iosdiag/hangdetect]: the disks and mount points of
    [base_info.c], the classification of a hanging request and its two lines of
    JSON ([json_format.c]), and the collecting loop of [main.c] with its memory
    of what was written already. The kernel driver that fills the array of
    hanging requests is not part of the sources: what it answers to each trigger
    is an argument, and so is the time of the trigger. The bounds of two buffers
    are not modelled: [diskname] of 128 bytes, which [sscanf] fills with whatever
    stands between the quotes of a line of [lsblk], and [devinfo] of 32 bytes,
    into which the trigger prints the name and the numbers; the definitions are
    those of names that fit (the kernel's are shorter than 32 bytes). *)

From S2P Require Import Prelude CString.

(** ** Data *)

(** [struct vq_info], [struct nvme_info], [struct scsi_info], [struct bio_info],
    [struct rq_hang_info] *)
Record vq_info := VqInfo {
  vq_qid : Z; vring_num : Z; last_used_idx : Z; used_idx : Z; last_avail_idx : Z; avail_idx : Z; event : Z;
  rq_avail_idx : Z; last_kick_avail_idx : Z; rq_used_idx : Z;
}.
Record nvme_info := NvmeInfo {
  nv_qid : Z; q_depth : Z; cq_head : Z; cq_end : Z; cq_rq_idx : Z; sq_tail : Z; sq_rq_idx : Z; sq_last_db : Z; cmd_ctx : Z;
}.
Record scsi_info := ScsiInfo { done_hander_defined : Z; is_mq : Z }.
Record bio_info := BioInfo { bio_addr : Z; bio_pid : Z; bio_comm : list Z; filename : list Z }.
Record rq_hang_info := RqHangInfo {
  data_len : Z; sector : Z; req_addr : Z; io_start_ns : Z; io_issue_driver_ns : Z; check_hang_ns : Z;
  op : list Z; state : list Z; vq : vq_info; nvme : nvme_info; scsi : scsi_info; tag : Z; internal_tag : Z; cpu : Z;
  rq_diskname : list Z; first_bio : bio_info;
}.

(** [struct base_disk_info], [struct base_mnt_info] *)
Record disk := Disk { d_major : Z; d_minor : Z; d_name : list Z }.
Record mnt := Mnt { m_name : list Z; mnt_dir : list Z }.

Definition MAX_BDI_CNT : nat := 128.
Definition MAX_STORE_RQ_CNT : nat := 128.

(** ** [base_info.c] *)

(** A line [NAME='vda' MAJ:MIN='253:0'] (with double quotes) scanned into a
    zeroed entry: what matched is stored, here without the bound of [diskname]. *)
Definition disk_line (buf : list Z) : disk :=
  match sscanf [Lit (js "NAME='"); NotSet 34] buf with
  | [name] =>
      let s := drop (length (js "NAME='") + length name) buf in
      if is_prefix (js "'") s then
        let s := skip_space (drop 1 s) in
        let key := js "MAJ:MIN='" in
        if is_prefix key s then
          match scan_int (drop (length key) s) with
          | None => Disk 0 0 name
          | Some (major, s) =>
              match s with
              | 58 :: s => match scan_int s with Some (minor, _) => Disk (i32 major) (i32 minor) name | None => Disk (i32 major) 0 name end
              | _ => Disk (i32 major) 0 name
              end
          end
        else Disk 0 0 name
      else Disk 0 0 name
  | _ => Disk 0 0 []
  end.
(** [disk_info_init] on the output of [lsblk]. *)
Definition disk_info_init (text : list Z) : list disk := disk_line <$> take MAX_BDI_CNT (fgets_all 254 text).

(** [mnt_info_init]: lines [NAME='vda1' MOUNTPOINT='/boot'] *)
Definition mnt_line (buf : list Z) : mnt :=
  match sscanf [Lit (js "NAME='"); NotSet 34] buf with
  | [name] =>
      let s := drop (length (js "NAME='") + length name) buf in
      if is_prefix (js "'") s then
        match sscanf [Lit (js "MOUNTPOINT='"); NotSet 34] (skip_space (drop 1 s)) with
        | [dir] => Mnt name dir
        | _ => Mnt name []
        end
      else Mnt name []
  | _ => Mnt [] []
  end.
Definition mnt_info_init (text : list Z) : list mnt := mnt_line <$> take MAX_BDI_CNT (fgets_all 254 text).

(** [get_bdi_idx_by_name]: the first disk whose name the given name starts with,
    up to the first entry of major number 0; -1 without one. *)
Fixpoint get_bdi_idx_by_name (bdi : list disk) (name : list Z) (i : Z) : Z :=
  match bdi with
  | [] => -1
  | d :: bdi' =>
      if d_major d =? 0 then -1
      else if is_prefix (d_name d) name then i else get_bdi_idx_by_name bdi' name (i + 1)
  end.

Fixpoint get_bdi_mnt_dir (bni : list mnt) (name : list Z) : option (list Z) :=
  match bni with
  | [] => None
  | m :: bni' => if bool_decide (m_name m = name) then Some (mnt_dir m) else get_bdi_mnt_dir bni' name
  end.

(** ** [json_format.c]: what the request waits for *)

Inductive disk_type := DISK_VIRTIO_BLK | DISK_SCSI | DISK_NVME.

Definition byte_at (s : list Z) (i : nat) : Z := nth i s 0.
Definition get_disk_type (buf : list Z) : option disk_type :=
  let letter := (97 <=? byte_at buf 2) && (byte_at buf 2 <=? 122) in
  if (byte_at buf 0 =? 118) && (byte_at buf 1 =? 100) && letter then Some DISK_VIRTIO_BLK
  else if (byte_at buf 0 =? 115) && (byte_at buf 1 =? 100) && letter then Some DISK_SCSI
  else if is_prefix (lit "nvme") buf then Some DISK_NVME
  else None.

(** The answers. *)
Inductive abnormal :=
  BlockIssue | DriverIssue | DriverNotIssue | ScsiDispatch | DiskHandle | IrqHandle | IoComplete | Unkown.
Definition abnormal_text (a : abnormal) : list Z :=
  lit match a with
      | BlockIssue => "OS(Waitting for Block issue to driver)"
      | DriverIssue => "OS(Waitting for Driver issue to disk)"
      | DriverNotIssue => "OS(Driver not issue to disk)"
      | ScsiDispatch => "OS(Waitting for SCSI-driver dispatch cmd)"
      | DiskHandle => "Disk(Waitting for disk handle)"
      | IrqHandle => "OS(Waitting for Irq handle)"
      | IoComplete => "OS(Waitting for IO complete)"
      | Unkown => "Unkown"
      end.

Definition get_abnormal_nvme (n : nvme_info) : abnormal :=
  let ctx := Z.land (cmd_ctx n) 0xFFF in
  if (ctx =? 0x310) || (ctx =? 0x30C) then IoComplete
  else if negb (cq_rq_idx n =? -1) && (cq_head n <=? cq_rq_idx n) then IrqHandle
  else if negb (sq_rq_idx n =? -1) && (sq_rq_idx n <? sq_last_db n) then DiskHandle
  else if negb (sq_rq_idx n =? -1) && ((sq_last_db n <=? sq_rq_idx n) && (sq_rq_idx n <? sq_tail n)) then DriverNotIssue
  else Unkown.

Definition get_abnormal_scsi (s : scsi_info) : abnormal :=
  if done_hander_defined s =? 0 then ScsiDispatch else DiskHandle.

Definition get_abnormal_vq (v : vq_info) : abnormal :=
  if negb (rq_used_idx v =? -1) && (rq_used_idx v <? used_idx v) then IrqHandle
  else if negb (rq_avail_idx v =? -1) then
    if rq_avail_idx v <? last_kick_avail_idx v then
      if used_idx v <=? rq_avail_idx v then DiskHandle
      else if rq_avail_idx v <? last_used_idx v then IoComplete else IrqHandle
    else DriverIssue
  else if negb (event v =? 0) then
    if (avail_idx v =? last_avail_idx v) && (last_avail_idx v =? used_idx v) && (used_idx v =? last_used_idx v) then IoComplete
    else if (avail_idx v =? last_avail_idx v) && (last_avail_idx v =? used_idx v) && (last_used_idx v <? used_idx v) then IrqHandle
    else if (avail_idx v =? last_avail_idx v) && (used_idx v <? last_avail_idx v) && (used_idx v =? last_used_idx v) then DiskHandle
    else if (avail_idx v =? last_avail_idx v) && (used_idx v <? last_avail_idx v) && (last_used_idx v <? used_idx v) then DiskHandle
    else if (last_avail_idx v <? avail_idx v) && (used_idx v <? last_avail_idx v) && (used_idx v =? last_used_idx v) then DiskHandle
    else if (last_avail_idx v <? avail_idx v) && (used_idx v <? last_avail_idx v) && (last_used_idx v <? used_idx v) then DiskHandle
    else Unkown
  else Unkown.

(** [get_abnormal] of a request of the disk [diskname]. *)
Definition get_abnormal (diskname : list Z) (rq : rq_hang_info) : abnormal :=
  if io_issue_driver_ns rq =? 0 then BlockIssue
  else if bool_decide (state rq = lit "complete") then IoComplete
  else match get_disk_type diskname with
       | Some DISK_NVME => get_abnormal_nvme (nvme rq)
       | Some DISK_SCSI => get_abnormal_scsi (scsi rq)
       | Some DISK_VIRTIO_BLK => get_abnormal_vq (vq rq)
       | None => Unkown
       end.

(** ** [json_format.c]: the two lines *)

(** [%#lx] *)
Fixpoint hex_digits (fuel : nat) (n : Z) : list Z :=
  let digit d := if d <? 10 then 48 + d else 87 + d in
  match fuel with
  | O => []
  | S f => if n <? 16 then [digit n] else hex_digits f (n / 16) ++ [digit (n mod 16)]
  end.
Definition fmt_hex (n : Z) : list Z := if n =? 0 then lit "0" else lit "0x" ++ hex_digits 16 n.

Definition cmd_ctx_to_str (ctx : Z) : list Z :=
  let c := Z.land ctx 0xFFF in
  if c =? 0x310 then lit "CMD_CTX_COMPLETED"
  else if c =? 0x30C then lit "CMD_CTX_CANCELLED"
  else if c =? 0x314 then lit "CMD_CTX_INVALID"
  else fmt_hex ctx.

Definition vqinfo_json (v : vq_info) : list Z :=
  js "'vq_info':{'qid':" ++ fmt_ld (vq_qid v) ++ js ",'vring_num':" ++ fmt_ld (vring_num v) ++
  js ",'event':" ++ fmt_ld (event v) ++ js ",'last_used_idx':" ++ fmt_ld (last_used_idx v) ++
  js ",'used_idx':" ++ fmt_ld (used_idx v) ++ js ",'last_avail_idx':" ++ fmt_ld (last_avail_idx v) ++
  js ",'avail_idx':" ++ fmt_ld (avail_idx v) ++ js ",'last_kick_avail_idx':" ++ fmt_ld (last_kick_avail_idx v) ++
  js ",'rq_avail_idx':" ++ fmt_ld (rq_avail_idx v) ++ js ",'rq_used_idx':" ++ fmt_ld (rq_used_idx v) ++ lit "}".
Definition nvmeinfo_json (n : nvme_info) : list Z :=
  js "'nvme_info':{'qid':" ++ fmt_ld (nv_qid n) ++ js ",'q_depth':" ++ fmt_ld (q_depth n) ++
  js ",'cq_head':" ++ fmt_ld (cq_head n) ++ js ",'cq_end':" ++ fmt_ld (cq_end n) ++
  js ",'cq_rq_idx':" ++ fmt_ld (cq_rq_idx n) ++ js ",'sq_tail':" ++ fmt_ld (sq_tail n) ++
  js ",'sq_rq_idx':" ++ fmt_ld (sq_rq_idx n) ++ js ",'last_sq_tail_db':" ++ fmt_ld (sq_last_db n) ++
  js ",'cmd_ctx':'" ++ cmd_ctx_to_str (cmd_ctx n) ++ js "'}".
Definition scsiinfo_json (s : scsi_info) : list Z :=
  let word b := if b =? 0 then lit "false" else lit "ture" in
  js "'scsi_info':{'is_mq':'" ++ word (is_mq s) ++ js "','done_hander_defined':'" ++ word (done_hander_defined s) ++ js "'}".
Definition rqinfo_json (rq : rq_hang_info) : list Z :=
  js "'rq_info':{'tag':" ++ fmt_ld (tag rq) ++ js ",'internal_tag':" ++ fmt_ld (internal_tag rq) ++
  js ",'io_start':" ++ fmt_llu (io_start_ns rq / 1000) ++ js ",'io_issue_driver':" ++ fmt_llu (io_issue_driver_ns rq / 1000) ++
  lit "},".

(** The fields of [g_bi] a line depends on: [comm] points into the array of the
    driver, at the request of that place; [file] at that of the current one. *)
Record base_info := BaseInfo { b_comm : option nat; b_pid : Z; b_file : bool }.

(** [rqinfo_convert_to_json] also takes the process and the file of the first bio. *)
Definition note_bio (i : nat) (rq : rq_hang_info) (b : base_info) : base_info :=
  if bio_addr (first_bio rq) =? 0 then b
  else BaseInfo (Some i) (i32 (bio_pid (first_bio rq)))
         (match filename (first_bio rq) with [] => b_file b | _ => true end).

Definition detail_json (diskname date : list Z) (rq : rq_hang_info) : list Z :=
  js "{'diskname':'" ++ rq_diskname rq ++ js "','time':'" ++ date ++ js "'," ++ rqinfo_json rq ++
  match get_disk_type diskname with
  | Some DISK_VIRTIO_BLK => vqinfo_json (vq rq)
  | Some DISK_NVME => nvmeinfo_json (nvme rq)
  | Some DISK_SCSI => scsiinfo_json (scsi rq)
  | None => []
  end ++ lit "}".

Definition summary_json (bni : list mnt) (diskname date : list Z) (rqs : list rq_hang_info) (rq : rq_hang_info)
    (b : base_info) : list Z :=
  let comm := match b_comm b with Some j => from_option (λ r, bio_comm (first_bio r)) [] (rqs !! j) | None => [] end in
  let pid := if b_pid b =? 0 then -1 else b_pid b in
  let file := if b_file b then default (lit "(null)") (get_bdi_mnt_dir bni (rq_diskname rq)) ++ filename (first_bio rq) else [] in
  js "{'time':'" ++ date ++ js "','abnormal':'" ++ abnormal_text (get_abnormal diskname rq) ++ lit " hang " ++
  fmt_ld (i64 (u64 (check_hang_ns rq - io_start_ns rq) / 1000)) ++ js " us','diskname':'" ++ rq_diskname rq ++
  js "','iotype':'" ++ op rq ++ js "','sector':" ++ fmt_llu (sector rq) ++ js ",'datalen':" ++ fmt_llu (data_len rq) ++
  js ",'iostate':'" ++ state rq ++ js "','cpu':" ++ fmt_ld (cpu rq) ++ js ",'comm':'" ++ comm ++ js "','pid':" ++ fmt_ld pid ++
  js ",'file':'" ++ file ++ js "'}".

(** [convert_to_json] of the request at place [i] of the array [rqs]; [file] was
    reset before. *)
Definition convert_to_json (bni : list mnt) (diskname date : list Z) (rqs : list rq_hang_info) (i : nat) (rq : rq_hang_info)
    (b : base_info) : list Z * base_info :=
  let b := note_bio i rq (BaseInfo (b_comm b) (b_pid b) false) in
  (detail_json diskname date rq ++ [10] ++ summary_json bni diskname date rqs rq b ++ [10], b).

(** ** [main.c] *)

(** What the loop keeps: [g_repeat_io], the static [major] and [minor], [g_bi];
    and what was written, the request beside its text. *)
Record hang_state := HangState {
  repeat_io : list (Z * Z); s_major : Z; s_minor : Z; s_bi : base_info; written : list (rq_hang_info * list Z);
}.
Definition hang_init : hang_state :=
  HangState (replicate MAX_STORE_RQ_CNT (0, 0)) 0 0 (BaseInfo None 0 false) [].

(** [rq_existed_result_file] *)
Definition rq_existed_result_file (d : disk) (rq : rq_hang_info) (idx : nat) (s : hang_state) : bool * hang_state :=
  let existed :=
    bool_decide (repeat_io s !! idx = Some (io_start_ns rq, sector rq)) && (s_major s =? d_major d) && (s_minor s =? d_minor d) in
  (existed, HangState (<[idx := (io_start_ns rq, sector rq)]> (repeat_io s)) (d_major d) (d_minor d) (s_bi s) (written s)).

(** The body of the loop over the array. *)
Definition collect_slot (bni : list mnt) (d : disk) (date : list Z) (rqs : list rq_hang_info) (i : nat) (rq : rq_hang_info)
    (s : hang_state) : hang_state :=
  if req_addr rq =? 0 then s
  else
    let '(existed, s) := rq_existed_result_file d rq i s in
    if existed then s
    else
      let '(text, b) := convert_to_json bni (d_name d) date rqs i rq (s_bi s) in
      HangState (repeat_io s) (s_major s) (s_minor s) b (written s ++ [(rq, text)]).
Fixpoint collect_slots (bni : list mnt) (d : disk) (date : list Z) (rqs : list rq_hang_info) (i : nat) (l : list rq_hang_info)
    (s : hang_state) : hang_state :=
  match l with
  | [] => s
  | rq :: l' => collect_slots bni d date rqs (S i) l' (collect_slot bni d date rqs i rq s)
  end.

(** What the driver answers to a trigger: the time, and the array unless the
    trigger failed. *)
Definition answer : Type := list Z * option (list rq_hang_info).

(** [trigger_rq_hang_collect] and the loop over the array; [None]: it failed. *)
Definition collect_disk (bni : list mnt) (d : disk) (a : answer) (s : hang_state) : option hang_state :=
  if (d_major d <? 1) || (d_minor d <? 0) then None
  else match a.2 with
       | None => None
       | Some rqs => Some (collect_slots bni d a.1 rqs 0 rqs s)
       end.

(** [run_collect] over the disks it visits, with an answer for each: the result
    (-1 a trigger failed, 1 something was captured and [once] is set, else 0). *)
Fixpoint collect_disks (bni : list mnt) (ds : list disk) (answers : list answer) (s : hang_state) : bool * hang_state :=
  match ds, answers with
  | d :: ds', a :: answers' =>
      match collect_disk bni d a s with Some s' => collect_disks bni ds' answers' s' | None => (false, s) end
  | _, _ => (true, s)
  end.
Definition run_collect (bni : list mnt) (ds : list disk) (once : bool) (answers : list answer) (s : hang_state) : Z * hang_state :=
  let '(ok, s') := collect_disks bni ds answers s in
  if negb ok then (-1, s')
  else (if (length (written s) <? length (written s'))%nat && once then 1 else 0, s').

(** The disks a run visits: the one named, or all of them ([lsblk] lists at least
    one: with an empty table the entry before it would be read). *)
Definition visited (bdi : list disk) (name : list Z) : list disk :=
  let i := get_bdi_idx_by_name bdi name 0 in
  if i <? 0 then bdi else match bdi !! Z.to_nat i with Some d => [d] | None => [] end.

(** The loop of [main], a round for each element of [rounds], until a result
    that is not 0. *)
Fixpoint hang_loop (bni : list mnt) (ds : list disk) (once : bool) (rounds : list (list answer)) (s : hang_state) : hang_state :=
  match rounds with
  | [] => s
  | answers :: rounds' =>
      let '(ret, s') := run_collect bni ds once answers s in
      if ret =? 0 then hang_loop bni ds once rounds' s' else s'
  end.
(** [main]: [lsblk_d] and [lsblk_m] are what the two [lsblk] commands print. *)
Definition hang_main (lsblk_d lsblk_m name : list Z) (once : bool) (rounds : list (list answer)) : hang_state :=
  hang_loop (mnt_info_init lsblk_m) (visited (disk_info_init lsblk_d) name) once rounds hang_init.
