(* ===== verification/HangFacts.v ===== *)
(** * HangFacts: each hanging request is written once, with what it waits for

    On one disk the collecting loop writes a request when it first shows up in
    its place of the driver's array and not again while it stays there; the
    answer for a virtio request is the stage of its way through the ring. *)

From S2P Require Import Prelude CString Hang.

(** ** Written once *)

Definition key_of (rq : rq_hang_info) : Z * Z := (io_start_ns rq, sector rq).
(** The request in a place of an array, if there is one. *)
Definition occupant (rqs : list rq_hang_info) (i : nat) : option rq_hang_info :=
  rq ← rqs !! i; if req_addr rq =? 0 then None else Some rq.
(** The last request that was in the place in some of the arrays. *)
Definition last_occupant (arrays : list (list rq_hang_info)) (i : nat) : option (Z * Z) :=
  last (key_of <$> omap (λ rqs, occupant rqs i) arrays).
(** The requests of an array that are new to their places. *)
Definition new_requests (before : list (list rq_hang_info)) (rqs : list rq_hang_info) : list rq_hang_info :=
  omap (λ i, rq ← occupant rqs i; if decide (last_occupant before i = Some (key_of rq)) then None else Some rq)
    (seq 0 (length rqs)).

(** Requests as the driver reports them: they were started some time. *)
Definition array_ok (rqs : list rq_hang_info) : Prop :=
  length rqs = MAX_STORE_RQ_CNT ∧ Forall (λ rq, req_addr rq ≠ 0 → io_start_ns rq ≠ 0) rqs.

Section one_disk.
Context (bni : list mnt) (d : disk).
Hypothesis (Hmajor : 1 ≤ d_major d).

(** What the loop remembers after the arrays [seen]: in each place the last
    request, and the numbers of the disk as soon as there was one. *)
Definition remembers (seen : list (list rq_hang_info)) (s : hang_state) (i : nat) : Prop :=
  repeat_io s !! i = Some (default (0, 0) (last_occupant seen i)).
Definition disk_known (s : hang_state) : Prop := s_major s = d_major d ∧ s_minor s = d_minor d.

Lemma last_occupant_snoc seen rqs i :
  last_occupant (seen ++ [rqs]) i = match occupant rqs i with Some rq => Some (key_of rq) | None => last_occupant seen i end.
Proof.
  unfold last_occupant. rewrite omap_app, fmap_app. cbn [omap list_omap].
  destruct (occupant rqs i); cbn [fmap list_fmap]; [by rewrite last_snoc|by rewrite app_nil_r].
Qed.

(** A place of the array: written if it is new, remembered in any case. *)
Lemma collect_slot_step date rqs i rq s old :
  repeat_io s !! i = Some (default (0, 0) old) → (is_Some old → disk_known s) → io_start_ns rq ≠ 0 → req_addr rq ≠ 0 →
  let s' := collect_slot bni d date rqs i rq s in
  repeat_io s' = <[i := key_of rq]> (repeat_io s) ∧ disk_known s' ∧
  (written s').*1 = (written s).*1 ++ (if decide (old = Some (key_of rq)) then [] else [rq]).
Proof.
  intros Hold Hknown Hio Hreq. unfold collect_slot. rewrite (proj2 (Z.eqb_neq _ _) Hreq).
  unfold rq_existed_result_file. cbv zeta.
  assert (bool_decide (repeat_io s !! i = Some (io_start_ns rq, sector rq)) && (s_major s =? d_major d) && (s_minor s =? d_minor d)
    = bool_decide (old = Some (key_of rq))) as ->.
  { rewrite Hold. destruct old as [k|]; cbn [default].
    - destruct (Hknown ltac:(eauto)) as [-> ->]. rewrite !Z.eqb_refl, !andb_true_r. apply bool_decide_ext. naive_solver.
    - rewrite !bool_decide_eq_false_2; [done|done|]. unfold key_of. intros [= ? ?]. congruence. }
  destruct (decide (old = Some (key_of rq))) as [Heq|Hne].
  - rewrite bool_decide_eq_true_2 by done. cbn [repeat_io written]. by rewrite app_nil_r.
  - rewrite bool_decide_eq_false_2 by done. destruct (convert_to_json _ _ _ _ _ _ _) as [text b].
    cbn [repeat_io written]. by rewrite fmap_app.
Qed.

Definition new_at (seen : list (list rq_hang_info)) (rqs : list rq_hang_info) (i : nat) : option rq_hang_info :=
  rq ← occupant rqs i; if decide (last_occupant seen i = Some (key_of rq)) then None else Some rq.

(** In the middle of an array: the places before [i] are done. *)
Definition halfway (seen : list (list rq_hang_info)) (rqs : list rq_hang_info) (i : nat) (s : hang_state) : Prop :=
  length (repeat_io s) = MAX_STORE_RQ_CNT ∧
  (∀ j, (j < i)%nat → remembers (seen ++ [rqs]) s j) ∧
  (∀ j, (i ≤ j < MAX_STORE_RQ_CNT)%nat → remembers seen s j) ∧
  (∀ j, is_Some (last_occupant seen j) → disk_known s) ∧ (∀ j, (j < i)%nat → is_Some (occupant rqs j) → disk_known s).

Lemma halfway_empty seen rqs i rq s : rqs !! i = Some rq → req_addr rq = 0 → (i < MAX_STORE_RQ_CNT)%nat →
  halfway seen rqs i s → halfway seen rqs (S i) s ∧ new_at seen rqs i = None.
Proof.
  intros Hrq H0 Hi (Hl & Hdone & Htodo & Hk & Hk').
  assert (occupant rqs i = None) as Hocc by (unfold occupant; rewrite Hrq; cbn; by rewrite H0).
  split; [|unfold new_at; by rewrite Hocc]. split_and!; [done|..|done|].
  - intros j Hj. destruct (decide (j = i)) as [->|]; [|apply Hdone; lia].
    unfold remembers. rewrite last_occupant_snoc, Hocc. apply Htodo. lia.
  - intros j Hj. apply Htodo. lia.
  - intros j Hj Hsome. destruct (decide (j = i)) as [->|]; [by rewrite Hocc in Hsome; destruct Hsome|]. apply (Hk' j); [lia|done].
Qed.

Lemma halfway_request date seen rqs i rq s : rqs !! i = Some rq → req_addr rq ≠ 0 → io_start_ns rq ≠ 0 →
  (i < MAX_STORE_RQ_CNT)%nat → halfway seen rqs i s →
  let s' := collect_slot bni d date rqs i rq s in
  halfway seen rqs (S i) s' ∧ (written s').*1 = (written s).*1 ++ option_list (new_at seen rqs i).
Proof.
  intros Hrq Hreq Hio Hi (Hl & Hdone & Htodo & Hk & Hk').
  assert (occupant rqs i = Some rq) as Hocc by (unfold occupant; rewrite Hrq; cbn; by rewrite (proj2 (Z.eqb_neq _ _) Hreq)).
  destruct (collect_slot_step date rqs i rq s (last_occupant seen i)) as (Hrep & Hkn & Hwr); [apply Htodo; lia|apply Hk|done..|].
  cbv zeta. set (s' := collect_slot bni d date rqs i rq s) in *. split.
  - split_and!; [rewrite Hrep, length_insert; done|..|done|done].
    + intros j Hj. unfold remembers. rewrite Hrep. destruct (decide (j = i)) as [->|].
      * rewrite list_lookup_insert_eq by lia. by rewrite last_occupant_snoc, Hocc.
      * rewrite list_lookup_insert_ne by done. apply Hdone. lia.
    + intros j Hj. unfold remembers. rewrite Hrep, list_lookup_insert_ne by lia. apply Htodo. lia.
  - rewrite Hwr. unfold new_at. rewrite Hocc. cbn. by case_decide.
Qed.

Lemma collect_slots_from date seen rqs : array_ok rqs → ∀ l i s, drop i rqs = l → halfway seen rqs i s →
  let s' := collect_slots bni d date rqs i l s in
  halfway seen rqs (length rqs) s' ∧ (written s').*1 = (written s).*1 ++ omap (new_at seen rqs) (seq i (length l)).
Proof.
  intros [Hlen Hok]. induction l as [|rq l IH]; intros i s Hdrop Hhalf; cbn [collect_slots length seq].
  - split; [|by rewrite app_nil_r]. pose proof (f_equal length Hdrop) as Hi. rewrite length_drop in Hi. cbn in Hi.
    destruct Hhalf as (Hl & Hdone & Htodo & Hk & Hk'). split_and!; try done.
    + intros j Hj. apply Hdone. lia.
    + intros j Hj. lia.
    + intros j Hj. apply Hk'. lia.
  - assert (rqs !! i = Some rq) as Hrq.
    { rewrite <- (Nat.add_0_r i), <- lookup_drop, Hdrop. done. }
    assert (drop (S i) rqs = l) as Hd' by (rewrite (drop_S _ _ _ Hrq) in Hdrop; by injection Hdrop).
    pose proof (lookup_lt_Some _ _ _ Hrq) as Hi. rewrite Hlen in Hi.
    destruct (decide (req_addr rq = 0)) as [H0|H0].
    + destruct (halfway_empty seen rqs i rq s Hrq H0 Hi Hhalf) as [Hhalf' Hnew].
      unfold collect_slot. rewrite H0. cbn [Z.eqb omap list_omap]. rewrite Hnew. by apply IH.
    + pose proof (proj1 (Forall_lookup _ _) Hok i rq Hrq H0) as Hio.
      destruct (halfway_request date seen rqs i rq s Hrq H0 Hio Hi Hhalf) as [Hhalf' Hw].
      destruct (IH (S i) _ Hd' Hhalf') as [Hh Hw']. split; [exact Hh|].
      rewrite Hw', Hw, <- app_assoc. f_equal. cbn [omap list_omap]. by destruct (new_at seen rqs i).
Qed.

(** Between two arrays. *)
Definition between (seen : list (list rq_hang_info)) (s : hang_state) : Prop :=
  length (repeat_io s) = MAX_STORE_RQ_CNT ∧ (∀ j, (j < MAX_STORE_RQ_CNT)%nat → remembers seen s j) ∧
  (∀ j, is_Some (last_occupant seen j) → disk_known s).

Lemma collect_array date seen rqs s : array_ok rqs → between seen s →
  let s' := collect_slots bni d date rqs 0 rqs s in
  between (seen ++ [rqs]) s' ∧ (written s').*1 = (written s).*1 ++ new_requests seen rqs.
Proof.
  intros Hok (Hl & Hr & Hk). pose proof Hok as [Hlen _].
  destruct (collect_slots_from date seen rqs Hok rqs 0 s eq_refl) as [(Hl' & Hdone & _ & Hk1 & Hk2) Hw].
  { split_and!; [done|intros; lia|intros; apply Hr; lia|done|intros; lia]. }
  cbv zeta. split; [|exact Hw]. split_and!; [done|intros j Hj; apply Hdone; lia|].
  intros j. rewrite last_occupant_snoc. destruct (occupant rqs j) as [rq|] eqn:Hocc; [|apply Hk1].
  intros _. apply (Hk2 j); [|by rewrite Hocc]. unfold occupant in Hocc. destruct (rqs !! j) eqn:Hj; [|done].
  by apply lookup_lt_Some in Hj.
Qed.
End one_disk.

(** *** The disks [lsblk] lists *)

Definition disk_text (x : disk) : list Z :=
  js "NAME='" ++ d_name x ++ js "' MAJ:MIN='" ++ fmt_llu (d_major x) ++ 58 :: fmt_llu (d_minor x) ++ js "'".
Definition disks_text (l : list disk) : list Z := concat ((λ l, l ++ [10]) <$> (disk_text <$> l)).
Definition disk_ok (x : disk) : Prop :=
  d_name x ≠ [] ∧ (34 ∉ d_name x) ∧ 1 ≤ d_major x < 2 ^ 31 ∧ 0 ≤ d_minor x < 2 ^ 31 ∧
  (10 ∉ disk_text x) ∧ (0 ∉ disk_text x) ∧ (length (disk_text x) < 254)%nat.

Lemma disk_line_text x : disk_ok x → disk_line (disk_text x ++ [10]) = x.
Proof.
  intros (Hne & Hq & Hma & Hmi & _). unfold disk_line, disk_text. rewrite <- !app_assoc, <- app_comm_cons, <- app_assoc.
  change (js "' MAJ:MIN='") with (34 :: 32 :: js "MAJ:MIN='"). rewrite <- !app_comm_cons.
  rewrite sscanf_lit, sscanf_set by done. cbn [sscanf]. rewrite app_assoc, drop_app_exact by (by rewrite length_app).
  change (is_prefix (js "'") (34 :: ?s)) with true. cbv iota. cbn [drop].
  change (skip_space (32 :: js "MAJ:MIN='" ++ ?s)) with (js "MAJ:MIN='" ++ s). rewrite is_prefix_app, drop_app_length.
  pose proof (scan_int_blanks 0 (d_major x) (58 :: fmt_llu (d_minor x) ++ js "'" ++ [10]) ltac:(lia) ltac:(done)) as H1.
  pose proof (scan_int_blanks 0 (d_minor x) (js "'" ++ [10]) ltac:(lia) ltac:(done)) as H2. cbn [replicate app] in H1, H2.
  rewrite H1, H2. rewrite !swrap_small by lia. by destruct x.
Qed.

Lemma disks_parsed l : Forall disk_ok l → (length l ≤ MAX_BDI_CNT)%nat → disk_info_init (disks_text l) = l.
Proof.
  intros Hok Hl. unfold disk_info_init, disks_text. rewrite fgets_all_lines.
  2:{ apply Forall_fmap. eapply Forall_impl; [exact Hok|]. intros x (_ & _ & _ & _ & ? & ? & ?). done. }
  rewrite take_ge by (by rewrite !length_fmap). clear Hl. induction Hok as [|x l Hx _ IH]; [done|].
  rewrite !fmap_cons. by rewrite disk_line_text, IH.
Qed.

Lemma bdi_idx_from name : ∀ bdi i k x, Forall disk_ok bdi → bdi !! i = Some x → is_prefix (d_name x) name = true →
  (∀ j y, (j < i)%nat → bdi !! j = Some y → is_prefix (d_name y) name = false) →
  get_bdi_idx_by_name bdi name k = k + Z.of_nat i.
Proof.
  induction bdi as [|y bdi IH]; intros [|i] k x Hok Hx Hp Hno; try done; cbn [get_bdi_idx_by_name];
    apply Forall_cons in Hok as [(_ & _ & Hma & _) Hok]; rewrite (proj2 (Z.eqb_neq _ 0)) by lia.
  - injection Hx as ->. rewrite Hp. lia.
  - rewrite (Hno 0%nat y) by (done || lia). rewrite (IH i (k + 1) x); [lia|done|done|done|].
    intros j z Hj Hz. apply (Hno (S j)); [lia|done].
Qed.

Lemma visited_named bdi i x : Forall disk_ok bdi → bdi !! i = Some x →
  (∀ j y, (j < i)%nat → bdi !! j = Some y → is_prefix (d_name y) (d_name x) = false) → visited bdi (d_name x) = [x].
Proof.
  intros Hok Hx Hno. unfold visited. rewrite (bdi_idx_from (d_name x) bdi i 0 x) by (done || by apply is_prefix_spec).
  rewrite (proj2 (Z.ltb_ge _ _)), Z.add_0_l, Nat2Z.id by lia. by rewrite Hx.
Qed.

(** *** The loop *)

Definition round_answers (r : list Z * list rq_hang_info) : list answer := [(r.1, Some r.2)].

Lemma hang_loop_one bni x rounds : 1 ≤ d_major x → 0 ≤ d_minor x → Forall array_ok rounds.*2 → ∀ seen s, between x seen s →
  (written (hang_loop bni [x] false (round_answers <$> rounds) s)).*1
  = (written s).*1 ++ concat (imap (λ t rqs, new_requests (seen ++ take t rounds.*2) rqs) rounds.*2).
Proof.
  intros Hma Hmi. induction rounds as [|[date rqs] rounds IH]; intros Hok seen s Hb; [by rewrite app_nil_r|].
  rewrite !fmap_cons in *. apply Forall_cons in Hok as [Hr Hok]. change (round_answers (date, rqs)) with [(date, Some rqs) : answer].
  cbn [hang_loop]. unfold run_collect. cbn [collect_disks]. unfold collect_disk.
  rewrite (proj2 (Z.ltb_ge _ _)), (proj2 (Z.ltb_ge (d_minor x) 0)) by lia. cbn [orb fst snd negb].
  destruct (collect_array bni x date seen rqs s Hr Hb) as [Hb' Hw]. cbv zeta in *. rewrite andb_false_r. cbn [Z.eqb].
  rewrite (IH Hok _ _ Hb'), Hw, <- app_assoc. f_equal. rewrite imap_cons. cbn [concat]. rewrite app_nil_r. f_equal.
  f_equal. apply imap_ext. intros t r _. cbn. by rewrite <- app_assoc.
Qed.

Lemma between_init x : between x [] hang_init.
Proof.
  split; [done|]. split; [|by intros j [? ?]]. intros j Hj. unfold remembers. by apply lookup_replicate_2.
Qed.

(** C27: with the name of a disk that [lsblk] lists (and that none before it is a
    prefix of), the loop writes exactly the requests that are new to their place
    of the driver's array: in every round, in the order of the places, each
    request unless the last request seen in its place had the same start and
    sector. A request that stays in its place is written once, and whatever
    comes in its place later is written again. *)
Theorem hang_written_once disks lsblk_m i x rounds : Forall disk_ok disks → (length disks ≤ MAX_BDI_CNT)%nat →
  disks !! i = Some x → (∀ j y, (j < i)%nat → disks !! j = Some y → is_prefix (d_name y) (d_name x) = false) →
  Forall array_ok rounds.*2 →
  (written (hang_main (disks_text disks) lsblk_m (d_name x) false (round_answers <$> rounds))).*1
  = concat (imap (λ t rqs, new_requests (take t rounds.*2) rqs) rounds.*2).
Proof.
  intros Hd Hl Hx Hno Hr. unfold hang_main. rewrite (disks_parsed disks Hd Hl), (visited_named disks i x Hd Hx Hno).
  destruct (proj1 (Forall_lookup _ _) Hd i x Hx) as (_ & _ & Hma & Hmi & _).
  by rewrite (hang_loop_one _ x rounds ltac:(lia) ltac:(lia) Hr [] hang_init (between_init x)).
Qed.

Definition no_bio : bio_info := BioInfo 0 0 [] [].
Definition s_rq (addr start sect : Z) (b : bio_info) : rq_hang_info :=
  RqHangInfo 4096 sect addr start 0 9000 (lit "Read") (lit "in_flight") (VqInfo 0 0 0 0 0 0 0 0 0 0)
    (NvmeInfo 0 0 0 0 0 0 0 0 0) (ScsiInfo 0 0) 1 (-1) 0 (lit "vda") b.
Definition s_array (l : list rq_hang_info) : list rq_hang_info := l ++ replicate (MAX_STORE_RQ_CNT - length l) (s_rq 0 0 0 no_bio).
Definition s_vda : disk := Disk 253 0 (lit "vda").
Definition s_vdb : disk := Disk 253 16 (lit "vdb").
(** A request stays for two rounds; in the third another one takes its place. *)
Definition s_rounds : list (list Z * list rq_hang_info) :=
  [(lit "t1", s_array [s_rq 1 1000 8 no_bio]); (lit "t2", s_array [s_rq 1 1000 8 no_bio; s_rq 2 1500 64 no_bio]);
   (lit "t3", s_array [s_rq 3 2000 16 no_bio; s_rq 2 1500 64 no_bio])].

Lemma hang_written_once_witness :
  (written (hang_main (disks_text [s_vda; s_vdb]) [] (d_name s_vdb) false (round_answers <$> s_rounds))).*1
  = concat (imap (λ t rqs, new_requests (take t s_rounds.*2) rqs) s_rounds.*2).
Proof.
  apply (hang_written_once [s_vda; s_vdb] [] 1).
  - each_element ltac:(unfold disk_ok; split_and!; by_compute).
  - by_compute.
  - reflexivity.
  - intros [|j] y Hj Hy; [injection Hy as <-; by vm_compute|lia].
  - unfold s_rounds, array_ok. cbn [fmap list_fmap snd]. each_element ltac:(split; by_compute).
Defined.

Example hang_written_requests : (λ rq, (io_start_ns rq, sector rq)) <$>
  concat (imap (λ t rqs, new_requests (take t s_rounds.*2) rqs) s_rounds.*2) = [(1000, 8); (1500, 64); (2000, 16)].
Proof. by vm_compute. Qed.

(** With all disks, the memory of the places is shared by the disks: a request
    that stays in its place on one disk while another disk has one in the same
    place is written in every round. *)
Example hang_all_disks_repeat :
  let round := [(lit "t", Some (s_array [s_rq 1 1000 8 no_bio])); (lit "t", Some (s_array [s_rq 2 1500 64 no_bio]))] in
  length (written (hang_main (disks_text [s_vda; s_vdb]) [] (lit "all") false [round; round; round])) = 6%nat.
Proof. by vm_compute. Qed.

(** A request without a bio is written with the process of an earlier one. *)
Example hang_stale_process :
  let rqs := s_array [s_rq 1 1000 8 (BioInfo 5 77 (lit "mysqld") []); s_rq 2 1500 64 no_bio] in
  (λ w, (sector w.1, contains w.2 (js "'comm':'mysqld','pid':77"))) <$>
    written (hang_main (disks_text [s_vda]) [] (lit "vda") false [[(lit "t", Some rqs)]]) = [(8, true); (64, true)].
Proof. by vm_compute. Qed.

(** ** The stage of a virtio request *)

(** A ring as counters that only grow: requests put on it, announced to the
    device, done by the device, taken back by the driver. *)
Record ring := Ring { r_posted : Z; r_kicked : Z; r_used : Z; r_seen : Z }.
Definition ring_ok (r : ring) : Prop := 0 ≤ r_seen r ≤ r_used r ∧ r_used r ≤ r_kicked r ≤ r_posted r.
(** What a request waits for that was the [n]-th put on a ring served in order. *)
Definition stage (r : ring) (n : Z) : abnormal :=
  if r_kicked r <=? n then DriverIssue
  else if r_used r <=? n then DiskHandle
  else if r_seen r <=? n then IrqHandle
  else IoComplete.
(** What the driver reports of it, as long as the 16-bit indices have not wrapped. *)
Definition reported (r : ring) (n : Z) (v : vq_info) : Prop :=
  rq_avail_idx v = n ∧ last_kick_avail_idx v = r_kicked r ∧ used_idx v = r_used r ∧ last_used_idx v = r_seen r.

(** A request of a virtio disk that was issued, is not complete and is not found
    in the used ring is said to wait for what its stage tells; one that is found
    there, for the interrupt handler. *)
Theorem hang_virtio_stage name rq r n : get_disk_type name = Some DISK_VIRTIO_BLK → io_issue_driver_ns rq ≠ 0 →
  state rq ≠ lit "complete" → ring_ok r → 0 ≤ n < r_posted r → reported r n (vq rq) →
  (rq_used_idx (vq rq) = -1 → get_abnormal name rq = stage r n) ∧
  (0 ≤ rq_used_idx (vq rq) < r_used r → get_abnormal name rq = IrqHandle).
Proof.
  intros Hty Hio Hst (Hs & Hk) Hn (Ha & Hkick & Hu & Hseen). unfold get_abnormal.
  rewrite (proj2 (Z.eqb_neq _ _) Hio), bool_decide_eq_false_2, Hty by done. unfold get_abnormal_vq, stage.
  rewrite Ha, Hkick, Hu, Hseen. split; intros Hq.
  - rewrite Hq. cbn [Z.eqb Pos.eqb negb andb]. rewrite (proj2 (Z.eqb_neq n (-1))) by lia. cbn [negb].
    destruct (Z.ltb_spec n (r_kicked r)), (Z.leb_spec (r_kicked r) n); try lia; [|done].
    destruct (Z.leb_spec (r_used r) n); [done|]. destruct (Z.ltb_spec n (r_seen r)), (Z.leb_spec (r_seen r) n); done || lia.
  - rewrite (proj2 (Z.eqb_neq _ (-1))) by lia. by rewrite (proj2 (Z.ltb_lt _ _)) by lia.
Qed.

(** Behind the wrap of the 16-bit indices a request the device has is said not to
    have been issued: request 65535, announced, with the next one at index 0. *)
Example hang_index_wrap :
  stage (Ring 65537 65537 65535 65535) 65535 = DiskHandle ∧
  get_abnormal_vq (VqInfo 0 256 65535 65535 1 1 1 65535 1 (-1)) = DriverIssue.
Proof. by vm_compute. Qed.
