(* ===== verification/Unity.v ===== *)
(** * Unity: the scheduling plugins of the collector

    [monitor/unity/collector/plugin/unity_irqoff] and [unity_nosched]: the BPF
    programs of the [irqoff] and [nosched] detectors, loaded by the collector
    with a threshold of its own, whose events are counted and published as one line
    of the table [sched_moni_jitter]. The theorem composes the kernel side, the
    event handler and the published line. *)

From S2P Require Import Prelude Bpf CFloat SchedJit Irqoff Nosched.

(** ** The kernel side

    The programs of [unity_irqoff.bpf.c] and [unity_nosched.bpf.c] have the
    text of those of the detectors. *)

Definition unity_get_thresh : irq_maps → Z := Irqoff.get_thresh.
Definition unity_hw_irqoff_event : bctx → irq_maps → irq_maps * list event := Irqoff.hw_irqoff_event.
Definition unity_sw_irqoff_event1 : bctx → irq_maps → irq_maps * list event := Irqoff.sw_irqoff_event1.
Definition unity_sw_irqoff_event2 : bctx → irq_maps → irq_maps * list event := Irqoff.sw_irqoff_event2.
Definition unity_account_process_tick : bctx → task → nos_maps → nos_maps * list event :=
  Nosched.account_process_tick.
Definition unity_handle_switch : bctx → nos_maps → nos_maps * list event := Nosched.handle_switch.

(** [env.threshold] of [unity_irqoff.c], which is also what [unity_nosched.c]
    stores, in ns. *)
Definition UNITY_THRESH : Z := 50 * 1000 * 1000.
Definition TIF_NEED_RESCHED : Z := 3.

(** What [init] leaves in the maps; [irqoff_handler] stores [env.threshold]. *)
Definition unity_irqoff_init (threshold : Z) : irq_maps := IrqMaps {[0 := threshold]} ∅.
Definition unity_nosched_init : nos_maps := NosMaps {[0 := Args TIF_NEED_RESCHED UNITY_THRESH]} ∅.

(** ** User space *)

(** [update_summary] of the plugins: no list of the largest delays. *)
Definition unity_update_summary (s : sched_jit_summary) (e : event) : sched_jit_summary :=
  let d := ev_delay e in
  let s' := Summary (min_idx s) (u64 (num s + 1)) (u64 (total s + d)) (topNmin s) (maxN_array s)
              (lastN_array s) in
  let l10 := less10ms s in let l50 := less50ms s in let l100 := less100ms s in
  let l500 := less500ms s in let l1s := less1s s in let p1s := plus1s s in
  if d <? 10 then s' (u64 (l10 + 1)) l50 l100 l500 l1s p1s
  else if d <? 50 then s' l10 (u64 (l50 + 1)) l100 l500 l1s p1s
  else if d <? 100 then s' l10 l50 (u64 (l100 + 1)) l500 l1s p1s
  else if d <? 500 then s' l10 l50 l100 (u64 (l500 + 1)) l1s p1s
  else if d <? 1000 then s' l10 l50 l100 l500 (u64 (l1s + 1)) p1s
  else s' l10 l50 l100 l500 l1s (u64 (p1s + 1)).

Definition set_ms (ev : event) : event :=
  Event (ev_ret ev) (ev_pid ev) (ev_cpu ev) (ev_delay ev / (1000 * 1000))
    (ev_stamp ev) (ev_enter ev) (ev_exit ev) (ev_comm ev).

Definition unity_irqoff_handle_event (nr_cpus : Z) (s : sched_jit_summary) (ev : event)
    : sched_jit_summary :=
  let e := set_ms ev in
  if u32 (nr_cpus - 1) <? ev_cpu e then s else unity_update_summary s e.

Definition unity_nosched_handle_event (nr_cpus : Z) (s : sched_jit_summary) (ev : event)
    : sched_jit_summary :=
  let e := set_ms ev in
  if u32 (nr_cpus - 1) <? ev_cpu e then s
  else if negb (ev_exit e =? 0) then unity_update_summary s e else s.

(** A published line: table, index and values, which are doubles. *)
Record unity_line := UnityLine {
  ul_table : string; ul_index : string * string; ul_values : list (string * double);
}.

Definition unity_call (mod_ : string) (s : sched_jit_summary) : unity_line :=
  UnityLine "sched_moni_jitter" ("mod"%string, mod_)
    [("dltnum"%string, of_int (num s)); ("dlttm"%string, of_int (total s));
     ("lt10ms"%string, of_int (less10ms s)); ("lt50ms"%string, of_int (less50ms s));
     ("lt100ms"%string, of_int (less100ms s)); ("lt500ms"%string, of_int (less500ms s));
     ("lt1s"%string, of_int (less1s s)); ("mts"%string, of_int (plus1s s))].
Definition unity_irqoff_call : sched_jit_summary → unity_line := unity_call "irqoff".
Definition unity_nosched_call : sched_jit_summary → unity_line := unity_call "noschd".

(** ** Counting *)

Definition ms (e : event) : Z := ev_delay e / 1000000.

(** The number of events from [lo] up to [hi] milliseconds. *)
Definition between (lo hi : Z) (es : list event) : Z :=
  foldr (λ e n, Z.b2z ((lo <=? ms e) && (ms e <? hi)) + n) 0 es.
Definition at_least (lo : Z) (es : list event) : Z := foldr (λ e n, Z.b2z (lo <=? ms e) + n) 0 es.
Definition ms_total (es : list event) : Z := foldr (λ e n, ms e + n) 0 es.

(** The counters after the events [es]. *)
Record counts (s : sched_jit_summary) (es : list event) : Prop := {
  ct_num : num s = u64 (zlen es);
  ct_total : total s = u64 (ms_total es);
  ct_10 : less10ms s = u64 (between 0 10 es);
  ct_50 : less50ms s = u64 (between 10 50 es);
  ct_100 : less100ms s = u64 (between 50 100 es);
  ct_500 : less500ms s = u64 (between 100 500 es);
  ct_1s : less1s s = u64 (between 500 1000 es);
  ct_p1s : plus1s s = u64 (at_least 1000 es);
}.

Lemma foldr_snoc_add (f : event → Z) es e :
  foldr (λ e n, f e + n) 0 (es ++ [e]) = foldr (λ e n, f e + n) 0 es + f e.
Proof. induction es as [|x es IH]; simpl; lia. Qed.

Lemma between_snoc lo hi es e :
  between lo hi (es ++ [e]) = between lo hi es + Z.b2z ((lo <=? ms e) && (ms e <? hi)).
Proof. apply (foldr_snoc_add (λ e, Z.b2z ((lo <=? ms e) && (ms e <? hi)))). Qed.
Lemma at_least_snoc lo es e : at_least lo (es ++ [e]) = at_least lo es + Z.b2z (lo <=? ms e).
Proof. apply (foldr_snoc_add (λ e, Z.b2z (lo <=? ms e))). Qed.
Lemma ms_total_snoc es e : ms_total (es ++ [e]) = ms_total es + ms e.
Proof. apply (foldr_snoc_add ms). Qed.

Lemma counts_update s es e :
  0 ≤ ev_delay e → counts s es → counts (unity_update_summary s (set_ms e)) (es ++ [e]).
Proof.
  intros Hd [H1 H2 H3 H4 H5 H6 H7 H8]. unfold unity_update_summary. cbv zeta.
  change (ev_delay (set_ms e)) with (ms e). assert (0 ≤ ms e) by (apply Z.div_pos; lia).
  destruct (Z.ltb_spec (ms e) 10); [|destruct (Z.ltb_spec (ms e) 50);
    [|destruct (Z.ltb_spec (ms e) 100); [|destruct (Z.ltb_spec (ms e) 500);
    [|destruct (Z.ltb_spec (ms e) 1000)]]]];
    split; simpl; rewrite ?between_snoc, ?at_least_snoc, ?ms_total_snoc, ?zlen_app; repeat zif; simpl;
    rewrite ?Z.add_0_r, ?H1, ?H2, ?H3, ?H4, ?H5, ?H6, ?H7, ?H8, ?wrap_add; done.
Qed.

(** The events of the CPUs the plugin knows, and for [nosched] of the finished
    episodes. *)
Definition known_cpu (nr_cpus : Z) (e : event) : Prop := ev_cpu e ≤ u32 (nr_cpus - 1).
#[global] Instance known_cpu_dec n e : Decision (known_cpu n e).
Proof. unfold known_cpu. apply _. Defined.

Lemma irqoff_counts nr_cpus es :
  Forall (λ e, 0 ≤ ev_delay e) es →
  counts (foldl (unity_irqoff_handle_event nr_cpus) summary0 es) (filter (known_cpu nr_cpus) es).
Proof.
  induction es as [|e es IH] using rev_ind; intros Hd; [by split|].
  apply Forall_app in Hd as [Hd He]. rewrite Forall_singleton in He.
  rewrite foldl_app, filter_app. simpl. unfold unity_irqoff_handle_event at 1.
  change (ev_cpu (set_ms e)) with (ev_cpu e).
  destruct (Z.ltb_spec (u32 (nr_cpus - 1)) (ev_cpu e)) as [Hc|Hc].
  - rewrite filter_cons_False by (unfold known_cpu; lia). rewrite app_nil_r. by apply IH.
  - rewrite filter_cons_True by (unfold known_cpu; lia). simpl. apply counts_update; [done|by apply IH].
Qed.

(** Every reported delay is above the threshold. *)
Lemma irq_spec_above thresh hist tr : Forall (λ e, thresh < ev_delay e) (irq_spec thresh hist tr).
Proof.
  revert hist; induction tr as [|i tr IH]; intros hist; simpl; [done|]. apply Forall_app. split; [|done].
  assert (∀ c, Forall (λ e, thresh < ev_delay e) (irq_report thresh hist c)) as H.
  { intros c. unfold irq_report. case_match; [|done]. case_match eqn:Hlt; [|done].
    repeat constructor. simpl. by apply Z.ltb_lt. }
  destruct i; [apply H|done|apply H].
Qed.

Lemma between_none lo hi es : Forall (λ e, hi ≤ ms e) es → between lo hi es = 0.
Proof.
  induction 1 as [|e es He _ IH]; [done|]. unfold between in *. simpl.
  rewrite (proj2 (Z.ltb_ge (ms e) hi)), andb_false_r by lia. done.
Qed.

(** What the plugin has counted after a trace, for the threshold it was loaded
    with. *)
Lemma unity_irqoff_counted nr_cpus threshold tr :
  0 ≤ threshold < 2 ^ 64 → clock_from 1 tr →
  counts (foldl (unity_irqoff_handle_event nr_cpus) summary0 (run tr (unity_irqoff_init threshold)).2)
    (filter (known_cpu nr_cpus) (irq_spec threshold [] tr)).
Proof.
  intros Hth Hclk.
  assert ((run tr (unity_irqoff_init threshold)).2 = irq_spec threshold [] tr) as ->.
  { apply (irq_refines threshold tr 1); [done|lia|done|].
    split; [|done|done]. unfold get_thresh, array_lookup. simpl. by rewrite lookup_singleton_eq. }
  apply irqoff_counts. eapply Forall_impl; [apply irq_spec_above|]. simpl. lia.
Qed.

(** C20: The line of the [unity_irqoff] plugin, from the kernel to the table,
    whatever threshold it is loaded with. For every interleaving of the CPUs'
    inputs, after the plugin has handled what its programs output, the
    published line counts the delays the specification of the detector reports
    on the CPUs it knows: their number, their total in ms, and how many there
    are below 10, 50, 100, 500 and 1000 ms and above. *)
Theorem unity_irqoff_line nr_cpus threshold tr :
  0 ≤ threshold < 2 ^ 64 → clock_from 1 tr →
  let s := foldl (unity_irqoff_handle_event nr_cpus) summary0 (run tr (unity_irqoff_init threshold)).2 in
  let es := filter (known_cpu nr_cpus) (irq_spec threshold [] tr) in
  unity_irqoff_call s
  = UnityLine "sched_moni_jitter" ("mod"%string, "irqoff"%string)
      [("dltnum"%string, of_int (u64 (zlen es))); ("dlttm"%string, of_int (u64 (ms_total es)));
       ("lt10ms"%string, of_int (u64 (between 0 10 es))); ("lt50ms"%string, of_int (u64 (between 10 50 es)));
       ("lt100ms"%string, of_int (u64 (between 50 100 es)));
       ("lt500ms"%string, of_int (u64 (between 100 500 es)));
       ("lt1s"%string, of_int (u64 (between 500 1000 es))); ("mts"%string, of_int (u64 (at_least 1000 es)))].
Proof.
  intros Hth Hclk. cbv zeta. destruct (unity_irqoff_counted nr_cpus threshold tr Hth Hclk).
  unfold unity_irqoff_call, unity_call. congruence.
Qed.

(** A threshold of [t] ms leaves the columns up to [t] ms at 0. *)
Lemma unity_irqoff_low nr_cpus t hi tr lo :
  hi ≤ t → between lo hi (filter (known_cpu nr_cpus) (irq_spec (t * 1000000) [] tr)) = 0.
Proof.
  intros Hhi. apply between_none. pose proof (irq_spec_above (t * 1000000) [] tr) as Ha.
  rewrite Forall_forall in Ha |- *. intros e [_ He]%list_elem_of_filter. specialize (Ha e He).
  unfold ms. apply Z.div_le_lower_bound; simpl in Ha; lia.
Qed.

Definition u_ctx (now cpu : Z) : bctx := BCtx now cpu 42 "t" 7.

Lemma unity_irqoff_line_witness :
  ul_values (unity_irqoff_call (foldl (unity_irqoff_handle_event 2) summary0
    (run [Sw1 (u_ctx 1000 0); Sw1 (u_ctx 2000 5); Hw (u_ctx 70001000 0); Hw (u_ctx 90000000 5)]
       (unity_irqoff_init UNITY_THRESH)).2))
  = [("dltnum"%string, of_int 1); ("dlttm"%string, of_int 70);
     ("lt10ms"%string, of_int 0); ("lt50ms"%string, of_int 0);
     ("lt100ms"%string, of_int 1); ("lt500ms"%string, of_int 0);
     ("lt1s"%string, of_int 0); ("mts"%string, of_int 0)].
Proof.
  rewrite (unity_irqoff_line 2 UNITY_THRESH); [reflexivity|by vm_compute|].
  vm_compute. repeat split; congruence.
Defined.
